(* ===== verification/_CoqProject ===== *)
-Q . S2P
Prelude.v
GoLib.v
Float64.v
Domain.v
Money.v
Repository.v
MockRepos.v
Postgres.v
Migrations.v
Resilience.v
Bank.v
Payment.v
Accounting.v
PaymentLogic.v
PaymentSpecs.v
PaymentOutcome.v
PaymentTheorems.v
Lifecycle.v
Announce.v
PaymentWitnesses.v
Interleaving.v
InterleavingSafety.v
Respect.v
WorkerPool.v
OutboxWorker.v
OutboxTheorems.v
Delivery.v
RateLimit.v
Redis.v
Http.v
Metrics.v
Middleware.v
Telemetry.v
Idempotency.v
RedisLimiter.v
RedisClock.v
RedisBuckets.v
Handler.v
HandlerTheorems.v
Server.v
ServerTheorems.v
ServerWitnesses.v
Config.v
Concurrency.v
Observability.v
ServerLiveness.v
Spans.v
SpannedRepos.v
ServiceSpans.v
Main.v
