(* ===== verification/Prelude.v ===== *)
(** * PayFlow: a verified model of the payment gateway

    PayFlow (src/cmd/server, src/internal) is an HTTP service that takes card
    payments for merchants: it stores transactions in PostgreSQL, charges a
    bank through a circuit breaker and retries, keeps an audit trail, hands
    events to Kafka through an outbox, and guards its API with API keys, rate
    limits and idempotency keys in Redis.  This library translates the Go code
    into executable Rocq definitions and proves what they guarantee.

    ** How the code is modelled

    A Go function that reads or writes shared state is a [Prog W A], a function
    from the state [W] to a result and the new state; Go's multiple results
    are a pair or a [result], and an [error] is an [option goerror] with the
    wrapping chain that [errors.Is] searches.  Integers are [Z] with the
    wrap-around of int64 written out where the code computes with them, float64
    is exact binary64 arithmetic.  What the program does not decide (the clock,
    the end of contexts, failing statements and connections, random bytes, the
    bank's answers) comes from an environment indexed by the number of the
    interaction ([Payment.Env], [Repository.CallInfo]); theorems quantify over
    it.  A statement that fails may have failed before or after the server
    executed it, and so may a commit.  Programs are total functions: the loop
    of [Retry] recurses on the number of attempts, which is exactly the bound
    of the Go loop; the other loops recurse on the list they traverse.  No
    definition carries fuel, and [wp m Q w] says that [m] returns and its
    result satisfies [Q].

    ** The parts

    - [Prelude], [GoLib], [Float64]: programs and [wp], tactics and shared list
      lemmas; errors, contexts, durations, strconv and hex; binary64.
    - [Domain], [Money] (internal/domain): the records, the state machine
      [CanTransition], pagination, sentinel errors; amounts as decimal strings.
    - [Repository] (internal/repository/interfaces.go): the repositories and
      the database transaction as type classes; the [Ledger], the abstract
      content of a store; [RepositoryLaws], [UniqueLaws], [DatabaseLaws] and
      [AuthLaws], what a store promises.  [MockRepos] (mock/repos.go) and [Postgres]
      (postgres/merchant.go, transaction.go, events.go, db.go, over the tables of
      migrations/) implement the classes and prove the laws; the payment
      service is proved against the laws only.
    - [Migrations] (postgres/db.go, Connect and RunMigrations): opening the pool,
      and the migration runner over a directory and the table
      schema_migrations.
    - [Resilience] (service/resilience.go): circuit breaker and retry, with the
      interleavings of concurrent requests as a step relation.
    - [Bank] (service/bank.go): the simulated and the HTTP bank client.
    - [Payment] (service/payment.go): the payment service, function by function.
      [Accounting] defines what a ledger owes; [PaymentLogic] has one rule per
      repository call, [PaymentSpecs] one specification per internal function,
      [PaymentOutcome] the abstract specification of creating, processing and
      refunding as relations on ledgers and the refinement lemmas,
      [PaymentTheorems] and [Lifecycle] the guarantees that follow, and
      [PaymentWitnesses] a concrete service to which they apply.
      [Interleaving] cuts the requests into the pieces between which others
      run, and [InterleavingSafety] shows what all interleavings preserve.
      [Announce] says what the outbox owes, and [Respect] lifts a relation that
      the statements of a store respect to the pieces of requests.
    - [WorkerPool], [Concurrency] (concurrency/patterns.go): the worker pool and
      [ProcessConcurrently] as step relations of their goroutines,
      [VerifyTransaction], [SafeMetrics].
    - [OutboxWorker] (service/outbox_worker.go): claim, publish, mark, through
      the worker pool, over the SQL store, with the log of the worker and of the
      publisher without brokers; [OutboxTheorems] is about the worker alone,
      [Delivery] runs the service and the worker on one store, piece by piece.
    - [RateLimit], [RedisLimiter] (middleware.go, redis_rate_limiter.go,
      rate_limit.lua, patterns.go): token buckets in memory and in Redis;
      [RedisClock] and [RedisBuckets] analyse the script's clock and prove the
      bound for it.
    - [Redis]: the commands of Redis as a class with laws, and an
      implementation.  [Idempotency] (idempotency_store.go,
      idempotency_middleware.go, idempotency_check.lua) is proved against it.
    - [Http], [Metrics] (metrics.go), [Middleware] (middleware.go), [Handler],
      [HandlerTheorems] (handler/handlers.go): response writers with panics,
      the middleware, the handlers and what their answers mean.
    - [Telemetry] (telemetry/tracing.go): setting tracing up.  [Spans],
      [SpannedRepos], [ServiceSpans] (payment.go, postgres/): the spans of the
      service and the repositories, as a second version of their functions
      over the state and the spans of the process.
    - [Server], [ServerTheorems], [ServerWitnesses] (cmd/server/main.go): the
      router with all middleware over the state of the process.
      [Observability] is about what that middleware records, [ServerLiveness]
      takes a payment through it.
    - [Config] (config/config.go): loading the configuration.
    - [Main] (cmd/server/main.go): the start-up, what [main] assembles from
      the configuration and how it ends; the process as a whole.

    ** What is proved

    - Payments ([PaymentTheorems]): with the database, any sequence of requests
      under any faults conserves every merchant's balance minus its completed
      transactions; success is exact; a charge is never stranded by a
      cancellation; refunds are all or nothing; retries with an idempotency key
      are safe; merchants are isolated; the store stays well formed; the bank
      is asked a bounded number of times; valid requests complete, others are
      refused with the right error and no effect.  Two concurrent refunds of
      one transaction can both succeed ([refund_race]).
    - Concurrency ([InterleavingSafety], [Delivery]): requests that are served at
      the same time, beside any number of outbox workers, in any interleaving
      but that of two refunds of one transaction, conserve money, keep
      idempotency keys unique, follow the state machine, announce every payment
      in the outbox, and no entry is marked published before its message was
      accepted by the broker or, by a worker without brokers, logged
      ([system_safe]); whatever happened before, a worker with a broker then
      brings every payment to it, in as many batches without faults as the rows
      left take, when no lease is left ([payments_delivered]).
    - Lifecycle ([Lifecycle]): statuses only follow the state machine, records
      never change otherwise, and the audit trail replays to the stored
      statuses when no statement fails.
    - Delivery ([Postgres], [OutboxTheorems], [WorkerPool]): leases are exclusive
      and expire; a worker with a broker marks nothing published that the broker
      has not accepted; without faults what a batch claims is published
      exactly once and marked; the pool loses no accepted job and shuts down.
    - Start-up ([Migrations], [Config]): migrations run exactly once and in
      order over any number of failed starts; the configured limit in currency
      units becomes the exact number of cents.
    - Resilience: the invariant of the breaker under any interleaving, that it
      opens after as many failures in a row as its threshold and how the probe
      decides, the number of attempts, the result and the delays of [Retry],
      the classification of the bank's answers and which are retried.
    - The process ([Main]): from any environment it either exits or serves
      with all migrations applied, and then, if these leave a well formed
      store, keeps every merchant's money, the state machine and the store
      well formed over any HTTP requests served one after the other.
    - HTTP ([ServerTheorems], [HandlerTheorems], [Idempotency], [RateLimit]):
      serving a request returns and acts on the service as at most the one
      request it asks for, of the merchant whose key it carries, so the
      guarantees of the service hold for the whole server; at most one of any
      two payments with the same idempotency key has an effect; a valid payment
      gets through every layer, is made and answered 201 ([server_pays]); what
      each status code means; as long as Redis answers, stored responses are
      replayed and a key has one handler at a time, which must end within the 60
      seconds of the key; the limiters, in memory and in Redis, keep their rate
      ([limiter_window], [redis_limiter_window]; in Redis while it answers and
      with a burst of at most 59 times the rate).
    - Observability: each request whose path is valid UTF-8 leaves one log entry,
      one count, one duration and one span that agree with what the client
      receives, and any other makes the metrics panic and leaves none of them
      ([request_observed]); with the spans of the service and the repositories
      a request gives the same answer and state as without, and leaves one
      tree of ended spans whose root tells whether it failed
      ([requests_traced]); [Money]: amounts are printed exactly.

    ** Parameters

    Code that is not in the repository is a parameter with named hypotheses or
    a class with laws: encoding/json ([Handler.JSON]), the transport of
    net/http, the routing table of chi and the route pattern it records,
    promhttp, the OTLP exporter and the propagator of trace contexts, the
    database driver, the kafka-go writer, Redis ([Redis.RedisLaws]), the number
    conversions of Lua (in [RedisBuckets], with the hypothesis that the
    conversion to a string and back is the identity on the numbers of the
    script), [strconv.ParseFloat], the order in which a Go map or a pool is
    traversed ([MapRange], any permutation), and the effect of a migration
    script.

    ** Not modelled

    The log lines of the service and of the recovery from panics, which return
    nothing the program uses, and the times of spans.  The texts that PostgreSQL
    cannot store (a NUL, or bytes that are not UTF-8, in a description or a
    key): such a statement is one of the failing statements of the environment,
    so a run without faults has none of them.  Which method and path chi takes to
    which route: the routing table is a parameter.  The buckets and the text format of
    Prometheus, the connection to Redis, whose ping is only logged, and
    listening are input and output.  The pieces of requests interleave in
    [system_safe] (a piece is the reads before the INSERT, one database
    transaction, one change of status with its event, or the bank call; of the
    worker, claiming a batch, publishing one event or marking it),
    [refund_race], [Idempotency_excludes], the breaker, the leases and the
    pool; the sequences of requests of the other theorems run one after the
    other.  A database transaction is one piece because its writes are an
    INSERT and updates of one transaction row and, relatively, of one balance.
    Timestamps are not rounded to the microseconds of PostgreSQL, and clocks
    have no monotonic reading beside the wall time. *)

From stdpp Require Import base tactics list gmap strings.
From Stdlib Require Export ZArith Lia.

#[export] Set Default Goal Selector "!".
#[export] Set Warnings "-clear-no-such-hyp".

(** ** State-passing computations

    A Go function that reads or writes shared state is a function from the
    state to its results and the new state.  Go functions return errors as
    values, so there is no separate error effect: a caller inspects the
    returned value, exactly as in the source. *)

Definition Prog (W A : Type) : Type := W → A * W.

Definition ret {W A : Type} (a : A) : Prog W A := λ w, (a, w).

Definition bind {W A B : Type} (m : Prog W A) (k : A → Prog W B) : Prog W B :=
  λ w, let (a, w') := m w in k a w'.

(** [get f] reads a component of the state, [modify f] changes it. *)
Definition get {W A : Type} (f : W → A) : Prog W A := λ w, (f w, w).
Definition modify {W : Type} (f : W → W) : Prog W unit := λ w, (tt, f w).

Declare Scope go_scope.
Delimit Scope go_scope with go.

Notation "'let!' x := m 'in' k" := (bind m (λ x, k))
  (at level 10, x pattern, m at level 100, k at level 200,
   format "'let!'  x  :=  m  'in' '//' k") : go_scope.

(** [check! m or err => h; k] is Go's [if err := m; err != nil { h }; k]. *)
Notation "'check!' m 'or' err => h ; k" :=
  (bind m (λ o, match o with Some err => h | None => k end))
  (at level 10, m at level 100, err name, h at level 100, k at level 200,
   format "'check!'  m  'or'  err  =>  h ; '//' k") : go_scope.

Open Scope go_scope.

(** The [(value, error)] results of Go functions that return one or the other. *)
Inductive result (E A : Type) : Type :=
| Ok (a : A)
| Err (e : E).
Arguments Ok {E A} a.
Arguments Err {E A} e.

#[export] Instance result_eq_dec {E A} `{EqDecision E, EqDecision A} : EqDecision (result E A).
Proof. solve_decision. Defined.

Definition result_map {E A B} (f : A → B) (r : result E A) : result E B :=
  match r with Ok a => Ok (f a) | Err e => Err e end.

Definition is_Err {E A} (r : result E A) : Prop :=
  match r with Ok _ => False | Err _ => True end.

(** [try! x := m or err => h; k] is Go's [x, err := m; if err != nil { h }; k]. *)
Notation "'try!' x := m 'or' err => h ; k" :=
  (bind m (λ r, match r with Err err => h | Ok x => k end))
  (at level 10, x name, m at level 100, err name, h at level 100, k at level 200,
   format "'try!'  x  :=  m  'or'  err  =>  h ; '//' k") : go_scope.

(** ** Weakest preconditions

    [wp m Q w]: running [m] in [w] gives a result and a state that satisfy [Q].
    Programs are total functions, so [wp] is also a termination statement. *)
Definition wp {W A} (m : Prog W A) (Q : A → W → Prop) (w : W) : Prop :=
  let (a, w') := m w in Q a w'.

Section wp.
Context {W : Type}.
Implicit Types w : W.

Lemma wp_ret {A} (a : A) (Q : A → W → Prop) w : Q a w → wp (ret a) Q w.
Proof. done. Qed.

Lemma wp_get {A} (f : W → A) (Q : A → W → Prop) w : Q (f w) w → wp (get f) Q w.
Proof. done. Qed.

Lemma wp_modify (f : W → W) (Q : unit → W → Prop) w : Q tt (f w) → wp (modify f) Q w.
Proof. done. Qed.

Lemma wp_bind {A B} (m : Prog W A) (k : A → Prog W B) (Q : B → W → Prop) w :
  wp m (λ a w', wp (k a) Q w') w → wp (bind m k) Q w.
Proof. unfold wp, bind. by destruct (m w). Qed.

Lemma wp_unbind {A B} (m : Prog W A) (k : A → Prog W B) (Q : B → W → Prop) w :
  wp (bind m k) Q w → wp m (λ a w', wp (k a) Q w') w.
Proof. unfold wp, bind. by destruct (m w). Qed.

Lemma wp_mono {A} (m : Prog W A) (P Q : A → W → Prop) w :
  wp m P w → (∀ a w', P a w' → Q a w') → wp m Q w.
Proof. unfold wp. destruct (m w). eauto. Qed.

Lemma wp_and {A} (m : Prog W A) (P Q : A → W → Prop) w :
  wp m P w → wp m Q w → wp m (λ a w', P a w' ∧ Q a w') w.
Proof. unfold wp. destruct (m w). eauto. Qed.

Lemma wp_run {A} (m : Prog W A) (Q : A → W → Prop) w a w' :
  m w = (a, w') → wp m Q w → Q a w'.
Proof. unfold wp. by intros ->. Qed.

Lemma wp_intro {A} (m : Prog W A) (Q : A → W → Prop) w :
  (∀ a w', m w = (a, w') → Q a w') → wp m Q w.
Proof. unfold wp. destruct (m w). eauto. Qed.
End wp.

(** The specification lemmas of the components, which [wp_step] applies. *)
Create HintDb wps discriminated.
#[export] Hint Resolve wp_ret wp_get wp_modify : wps.

Ltac wp_bind := apply wp_bind.

(** Use a lemma [H : wp m P w] for the goal [wp m Q w]; leaves [P → Q]. *)
Ltac wp_use H := eapply wp_mono; [ eapply H | ].

(** Case analysis on the scrutinee of the first [match] of the goal. *)
Ltac case_match_goal :=
  match goal with
  | |- context [ match ?x with _ => _ end ] => destruct x eqn:?
  end.

(** ** List lemmas shared by the components *)

Section lists.
Context {A : Type}.
Implicit Types l : list A.

(** Go's slice expression [l[lo:hi]] for [0 <= lo <= hi <= len l]. *)
Definition slice (lo hi : nat) l : list A := take (hi - lo) (drop lo l).

Lemma slice_length lo hi l :
  lo ≤ hi → hi ≤ length l → length (slice lo hi l) = hi - lo.
Proof. intros. unfold slice. rewrite length_take, length_drop. lia. Qed.

Lemma slice_lookup lo hi l i :
  i < hi - lo → slice lo hi l !! i = l !! (lo + i).
Proof. intros. unfold slice. by rewrite lookup_take_lt, lookup_drop. Qed.

(** What is left of a list after a part of it was taken. *)
Lemma filter_keep `{EqDecision A} (a l : list A) :
  (∀ x, x ∈ l → x ∉ a) → filter (λ x, x ∉ a) l = l.
Proof.
  induction l as [|x l IH]; intros Hl; [done|].
  rewrite filter_cons_True by set_solver. f_equal. apply IH. set_solver.
Qed.

Lemma filter_rest `{EqDecision A} (a b : list A) : NoDup (a ++ b) →
  filter (λ x, x ∉ a) (a ++ b) = b.
Proof.
  intros (_ & Hdis & _)%NoDup_app. rewrite filter_app, (filter_keep a b) by set_solver.
  destruct (filter (λ x, x ∉ a) a) as [|x l] eqn:E; [done|].
  assert (x ∈ filter (λ x, x ∉ a) a) as [? ?]%list_elem_of_filter by (rewrite E; set_solver). done.
Qed.
End lists.
