(* ===== verification/GoLib.v ===== *)
(** * GoLib: the fragments of the Go language and its standard library used by the source

    Machine integers, durations, error values ([errors], [fmt.Errorf]),
    contexts, and the [strings], [strconv] and [encoding/hex] functions the
    program calls. *)

From stdpp Require Import base tactics list gmap strings pretty.
From Stdlib Require Import Ascii.
From Stdlib Require String.
From S2P Require Import Prelude.

Open Scope Z_scope.

(** ** 64-bit integers *)

Definition max_int64 : Z := 2 ^ 63 - 1.
Definition min_int64 : Z := - 2 ^ 63.

Definition in_int64 (z : Z) : Prop := min_int64 ≤ z ≤ max_int64.

#[export] Instance in_int64_dec z : Decision (in_int64 z).
Proof. unfold in_int64. apply _. Defined.

(** Two's complement wrap-around. *)
Definition wrap64 (z : Z) : Z := (z + 2 ^ 63) `mod` 2 ^ 64 - 2 ^ 63.

Definition add64 (a b : Z) : Z := wrap64 (a + b).
Definition neg64 (a : Z) : Z := wrap64 (- a).

(** The expansions [lia] needs: the bounds as numerals. *)
Lemma max_int64_eq : max_int64 = 9223372036854775807.
Proof. reflexivity. Qed.
Lemma min_int64_eq : min_int64 = -9223372036854775808.
Proof. reflexivity. Qed.

Ltac int64 :=
  unfold in_int64 in *; rewrite ?max_int64_eq, ?min_int64_eq in *; lia.

Lemma wrap64_spec z :
  ∃ k, wrap64 z = z + k * 18446744073709551616 ∧ in_int64 (wrap64 z).
Proof.
  unfold wrap64, in_int64.
  change (2 ^ 63) with 9223372036854775808. change (2 ^ 64) with 18446744073709551616.
  pose proof (Z.mod_pos_bound (z + 9223372036854775808) 18446744073709551616 ltac:(lia)) as Hb.
  pose proof (Z.div_mod (z + 9223372036854775808) 18446744073709551616 ltac:(lia)) as Hd.
  eexists (- ((z + 9223372036854775808) `div` 18446744073709551616)).
  split; [lia | int64].
Qed.

Lemma wrap64_in_int64 z : in_int64 (wrap64 z).
Proof. by destruct (wrap64_spec z) as (? & _ & ?). Qed.

Lemma wrap64_id z : in_int64 z → wrap64 z = z.
Proof. intros. destruct (wrap64_spec z) as (k & -> & Hk). int64. Qed.

Lemma neg64_id z : 0 ≤ z ≤ max_int64 → neg64 z = - z.
Proof. intros. apply wrap64_id. int64. Qed.

(** The test the balance update relies on: for operands in range, the wrapped
    sum is negative exactly when the true sum is out of [0, max_int64]. *)
Lemma add64_negative a b :
  0 ≤ a ≤ max_int64 → in_int64 b →
  (add64 a b < 0 ↔ a + b < 0 ∨ max_int64 < a + b).
Proof. intros. unfold add64. destruct (wrap64_spec (a + b)) as (k & -> & Hk). int64. Qed.

Lemma add64_exact a b :
  0 ≤ a + b ≤ max_int64 → add64 a b = a + b.
Proof. intros. apply wrap64_id. int64. Qed.

(** ** time.Duration, in nanoseconds *)

Definition Millisecond : Z := 1000000.
Definition Second : Z := 1000000000.
Definition Minute : Z := 60 * Second.
Definition Hour : Z := 60 * Minute.

(** ** Error values *)

(** An [error] value.  [Sentinel] is a package-level [errors.New] variable,
    whose identity is its qualified name; [Opaque] an error that wraps
    nothing; [Wrap pre e post] is [fmt.Errorf("pre%wpost", e)]; [Join] is
    [errors.Join] of two non-nil errors. *)
Inductive goerror : Type :=
| Sentinel (name text : string)
| Opaque (text : string)
| Wrap (pre : string) (e : goerror) (post : string)
| Join (e1 e2 : goerror).

#[export] Instance goerror_eq_dec : EqDecision goerror.
Proof. solve_decision. Defined.

(** A Go [error] result: [None] is [nil]. *)
Abbreviation error := (option goerror).

Definition newline : string := String (ascii_of_nat 10) EmptyString.

(** [err.Error()] *)
Fixpoint Error (e : goerror) : string :=
  match e with
  | Sentinel _ text => text
  | Opaque text => text
  | Wrap pre e post => pre +:+ Error e +:+ post
  | Join e1 e2 => Error e1 +:+ newline +:+ Error e2
  end.

(** [errors.Is(err, target)] for a sentinel [target]: the unwrap tree of [err]
    contains it. *)
Fixpoint is_target (e target : goerror) : bool :=
  bool_decide (e = target) ||
  match e with
  | Sentinel _ _ | Opaque _ => false
  | Wrap _ e _ => is_target e target
  | Join e1 e2 => is_target e1 target || is_target e2 target
  end.

Definition errors_Is (err : error) (target : goerror) : bool :=
  match err with None => false | Some e => is_target e target end.

(** [fmt.Errorf("prefix: %w", e)] *)
Definition Errorf (prefix : string) (e : goerror) : goerror := Wrap prefix e "".

Definition is_sentinel (e : goerror) : bool :=
  match e with Sentinel _ _ => true | _ => false end.

Lemma is_target_refl e : is_target e e = true.
Proof. destruct e; simpl; by rewrite bool_decide_true. Qed.

Lemma is_target_Wrap pre e post target :
  is_sentinel target = true → is_target (Wrap pre e post) target = is_target e target.
Proof. intros Ht. simpl. rewrite bool_decide_false; [done | by intros <-]. Qed.

Lemma is_target_Join e1 e2 target :
  is_sentinel target = true →
  is_target (Join e1 e2) target = is_target e1 target || is_target e2 target.
Proof. intros Ht. simpl. rewrite bool_decide_false; [done | by intros <-]. Qed.

(** ** Contexts *)

(** A context becomes done at most once, for one cause: [None] never does. *)
Definition Canceled : goerror := Sentinel "context.Canceled" "context canceled".
Definition DeadlineExceeded : goerror :=
  Sentinel "context.DeadlineExceeded" "context deadline exceeded".

Record Ctx := mkCtx { ctx_done : option (Z * goerror) }.

(** [context.Background()], and [context.WithoutCancel(ctx)] *)
Definition Background : Ctx := mkCtx None.
Definition WithoutCancel (_ : Ctx) : Ctx := Background.

(** [ctx.Err()] at time [now] *)
Definition ctx_Err (ctx : Ctx) (now : Z) : error :=
  match ctx_done ctx with
  | Some (t, cause) => if t <=? now then Some cause else None
  | None => None
  end.

(** [context.WithCancel(ctx)], as long as its own [cancel] is not called *)
Definition WithCancel (ctx : Ctx) : Ctx := ctx.

(** [context.WithTimeout(ctx, d)] called at [now]: whichever of the parent's
    end and the deadline comes first. *)
Definition WithTimeout (ctx : Ctx) (now d : Z) : Ctx :=
  match ctx_done ctx with
  | Some (t, cause) => if t <=? now + d then ctx else mkCtx (Some (now + d, DeadlineExceeded))
  | None => mkCtx (Some (now + d, DeadlineExceeded))
  end.

Lemma WithTimeout_done ctx now d :
  ∃ t cause, ctx_done (WithTimeout ctx now d) = Some (t, cause) ∧ t ≤ now + d.
Proof.
  unfold WithTimeout. destruct (ctx_done ctx) as [[t cause]|] eqn:E; [|by do 2 eexists].
  destruct (Z.leb_spec t (now + d)); [by exists t, cause | by do 2 eexists].
Qed.

Lemma ctx_Err_mono ctx now now' e :
  now ≤ now' → ctx_Err ctx now = Some e → ctx_Err ctx now' = Some e.
Proof.
  unfold ctx_Err. destruct (ctx_done ctx) as [[t c]|]; [|done].
  destruct (Z.leb_spec t now), (Z.leb_spec t now'); intros; first [done | lia].
Qed.

(** [select { case <-ctx.Done(): ..ctx.Err().. case <-timer.C: ..nil.. }], entered
    at [t0] with a timer of [d] and left at [t].  When both channels are ready
    the choice is free ([pick]); otherwise the one that is ready first wins. *)
Definition select_done (ctx : Ctx) (t0 d t : Z) (pick : bool) : error :=
  match ctx_done ctx with
  | None => None
  | Some (T, cause) =>
    if (T <=? t) && (t0 + d <=? t) then (if pick then Some cause else None)
    else if T <? t0 + d then Some cause else None
  end.

Lemma select_done_background t0 d t pick : select_done Background t0 d t pick = None.
Proof. done. Qed.

(** ** float64 *)

(** [float64(n)] for an integer: exact up to 2^53, otherwise rounded to 53
    significant bits, ties to even.  The value is always an integer. *)
Definition round53 (n : Z) : Z :=
  let a := Z.abs n in
  if a <=? 2 ^ 53 then n
  else
    let k := Z.log2 a - 52 in
    let q := Z.shiftr a k in
    let r := a - Z.shiftl q k in
    let half := Z.shiftl 1 (k - 1) in
    let q' := if (half <? r) || ((half =? r) && Z.odd q) then q + 1 else q in
    Z.sgn n * Z.shiftl q' k.

Lemma round53_exact n : Z.abs n ≤ 2 ^ 53 → round53 n = n.
Proof. intros Hn. unfold round53. by destruct (Z.leb_spec (Z.abs n) (2 ^ 53)); [|lia]. Qed.

Example round53_ties : map round53 [2 ^ 53 + 1; 2 ^ 53 + 3; 2 ^ 54 + 2; - (2 ^ 53 + 1)]
  = [2 ^ 53; 2 ^ 53 + 4; 2 ^ 54; - 2 ^ 53].
Proof. reflexivity. Qed.

(** ** strings, strconv, encoding/hex *)

Definition ascii_is_space (c : ascii) : bool :=
  let n := nat_of_ascii c in
  (n =? 32)%nat || ((9 <=? n)%nat && (n <=? 13)%nat).

Fixpoint drop_spaces (l : list ascii) : list ascii :=
  match l with
  | c :: l' => if ascii_is_space c then drop_spaces l' else l
  | [] => []
  end.

Definition of_ascii (l : list ascii) : string := String.string_of_list_ascii l.
Definition to_ascii (s : string) : list ascii := String.list_ascii_of_string s.

(** [utf8.ValidString]: sequences of one to four bytes, without overlong forms,
    surrogates and code points above 10FFFF. *)
Definition between (a b n : nat) : bool := ((a <=? n) && (n <=? b))%nat.
Definition continues : nat → bool := between 128 191.
Definition second_of_three (a b : nat) : bool :=
  ((a =? 224) && between 160 191 b || (between 225 236 a || between 238 239 a) && continues b ||
   (a =? 237) && between 128 159 b)%nat.
Definition second_of_four (a b : nat) : bool :=
  ((a =? 240) && between 144 191 b || between 241 243 a && continues b || (a =? 244) && between 128 143 b)%nat.

Fixpoint valid_utf8 (l : list nat) : bool :=
  match l with
  | [] => true
  | a :: l1 =>
    if (a <? 128)%nat then valid_utf8 l1
    else match l1 with
    | [] => false
    | b :: l2 =>
      if between 194 223 a && continues b then valid_utf8 l2
      else match l2 with
      | [] => false
      | c :: l3 =>
        if second_of_three a b && continues c then valid_utf8 l3
        else match l3 with
        | [] => false
        | d :: l4 => second_of_four a b && continues c && continues d && valid_utf8 l4
        end
      end
    end
  end.
Definition ValidString (s : string) : bool := valid_utf8 (map nat_of_ascii (to_ascii s)).

Definition bytes (l : list nat) : string := of_ascii (map ascii_of_nat l).

Example ValidString_ok :
  map (λ l, ValidString (bytes l))
    [[47; 97]; [195; 169]; [226; 130; 172]; [240; 159; 152; 128];      (* /a, two, three and four bytes *)
     [47; 255]; [192; 128]; [237; 160; 128]; [244; 144; 128; 128]; [226; 130]]%nat
  = [true; true; true; true; false; false; false; false; false].
Proof. vm_compute. reflexivity. Qed.

(** [strings.TrimSpace], on ASCII white space *)
Definition TrimSpace (s : string) : string :=
  of_ascii (rev (drop_spaces (rev (drop_spaces (to_ascii s))))).

(** [strings.SplitN(s, sep, 2)] for a one-byte separator: the text before the
    first separator, and the text after it if there is one. *)
Fixpoint cut_at (sep : ascii) (l : list ascii) : list ascii * option (list ascii) :=
  match l with
  | [] => ([], None)
  | c :: l' =>
    if bool_decide (c = sep) then ([], Some l')
    else let (a, b) := cut_at sep l' in (c :: a, b)
  end.

Definition SplitN2 (s : string) (sep : ascii) : list string :=
  match cut_at sep (to_ascii s) with
  | (a, Some b) => [of_ascii a; of_ascii b]
  | (a, None) => [of_ascii a]
  end.

(** [strings.TrimRight(s, c)] for a one-byte cutset *)
Fixpoint drop_char (c : ascii) (l : list ascii) : list ascii :=
  match l with
  | c' :: l' => if bool_decide (c' = c) then drop_char c l' else l
  | [] => []
  end.

Definition TrimRight (s : string) (c : ascii) : string :=
  of_ascii (rev (drop_char c (rev (to_ascii s)))).

(** [strconv.ParseInt(s, 10, 64)]: an optional sign and decimal digits, in
    range.  [strconv.Atoi] is the same function on a 64-bit platform. *)
Definition digit_value (c : ascii) : option Z :=
  let n := Z.of_nat (nat_of_ascii c) in
  if (48 <=? n) && (n <=? 57) then Some (n - 48) else None.

Fixpoint digits_value (acc : Z) (l : list ascii) : option Z :=
  match l with
  | [] => Some acc
  | c :: l' => match digit_value c with
               | Some d => digits_value (10 * acc + d) l'
               | None => None
               end
  end.

(** An optional sign, and the rest. *)
Definition split_sign (l : list ascii) : bool * list ascii :=
  match l with
  | "-"%char :: l => (true, l)
  | "+"%char :: l => (false, l)
  | l => (false, l)
  end.

Definition ParseInt (s : string) : option Z :=
  let signed := split_sign (to_ascii s) in
  match signed.2 with
  | [] => None
  | l => match digits_value 0 l with
         | Some n => let z := if signed.1 then - n else n in
                     if bool_decide (in_int64 z) then Some z else None
         | None => None
         end
  end.

Definition Atoi : string → option Z := ParseInt.

(** What [pretty] prints, [ParseInt] reads. *)
Lemma digits_pretty_go (x : N) s :
  digits_value 0 (to_ascii (pretty_N_go x s)) = digits_value (Z.of_N x) (to_ascii s).
Proof.
  revert s. induction (N.lt_wf_0 x) as [x _ IH]. intros s.
  destruct (decide (x = 0)%N) as [->|Hx]; [by rewrite pretty_N_go_0|].
  rewrite pretty_N_go_step by lia. rewrite IH by (apply N.div_lt; lia). simpl.
  assert (digit_value (pretty_N_char (x `mod` 10)) = Some (Z.of_N (x `mod` 10)%N)) as ->.
  { pose proof (N.mod_lt x 10 ltac:(lia)) as Hm. generalize dependent (x `mod` 10)%N. intros d Hd.
    assert (d ∈ [0;1;2;3;4;5;6;7;8;9]%N) as Hin by (rewrite !elem_of_cons; lia).
    repeat (apply elem_of_cons in Hin as [->|Hin]; [done|]). by apply elem_of_nil in Hin. }
  f_equal. pose proof (N.div_mod x 10 ltac:(lia)). lia.
Qed.

Lemma digits_pretty (x : N) : digits_value 0 (to_ascii (pretty x)) = Some (Z.of_N x).
Proof.
  unfold pretty, pretty_N. destruct (decide (x = 0)%N) as [->|]; [done|]. by rewrite digits_pretty_go.
Qed.

Lemma split_sign_digit c l : is_Some (digit_value c) → split_sign (c :: l) = (false, c :: l).
Proof. intros Hc. destruct c as [[] [] [] [] [] [] [] []]; first [done | by destruct Hc]. Qed.

(** A numeral with and without a sign. *)
Lemma ParseInt_digits (b : bool) s n :
  in_int64 (if b then - n else n) → digits_value 0 (to_ascii s) = Some n → s ≠ ""%string →
  ParseInt ((if b then "-" else "") +:+ s)%string = Some (if b then - n else n).
Proof.
  intros Hi Hd Hs. destruct s as [|c s]; [done|]. clear Hs.
  change (to_ascii (String c s)) with (c :: to_ascii s) in Hd.
  assert (split_sign (to_ascii ((if b then "-" else "") +:+ String c s)%string) = (b, c :: to_ascii s)) as Hsign.
  { destruct b; [done|]. apply (split_sign_digit c (to_ascii s)). simpl in Hd. destruct (digit_value c); [by eexists | done]. }
  unfold ParseInt. rewrite Hsign. cbv beta iota zeta delta [snd fst]. rewrite Hd. by rewrite bool_decide_true.
Qed.

Lemma ParseInt_pretty z : in_int64 z → ParseInt (pretty z) = Some z.
Proof.
  intros Hz. destruct z as [|p|p]; [done | |].
  - change (pretty (Z.pos p)) with ("" +:+ pretty (N.pos p))%string.
    apply (ParseInt_digits false (pretty (N.pos p)) (Z.pos p)); [done | by rewrite digits_pretty |].
    intros E. pose proof (digits_pretty (N.pos p)) as Hd. by rewrite E in Hd.
  - change (pretty (Z.neg p)) with ("-" +:+ pretty (N.pos p))%string.
    apply (ParseInt_digits true (pretty (N.pos p)) (Z.pos p)); [done | by rewrite digits_pretty |].
    intros E. pose proof (digits_pretty (N.pos p)) as Hd. by rewrite E in Hd.
Qed.

(** [hex.EncodeToString] *)
Definition hex_digit (n : Z) : ascii :=
  ascii_of_nat (Z.to_nat (if n <? 10 then 48 + n else 87 + n)).

Definition EncodeToString (buf : list Z) : string :=
  of_ascii (concat (map (λ b, [hex_digit (b `div` 16); hex_digit (b `mod` 16)]) buf)).

(** ** Maps *)

(** [for _, v := range m]: the language leaves the order of iteration open. *)
Class MapRange := {
  range {V} : gmap string V → list V;
  range_perm {V} (m : gmap string V) : range m ≡ₚ (map_to_list m).*2
}.

Lemma elem_of_range `{MapRange} {V} (m : gmap string V) v :
  v ∈ range m ↔ ∃ k, m !! k = Some v.
Proof.
  rewrite range_perm, list_elem_of_fmap. split.
  - intros [[k v'] [-> Hk%elem_of_map_to_list]]. by exists k.
  - intros [k Hk]. exists (k, v). by rewrite elem_of_map_to_list.
Qed.

(** One admissible order. *)
Definition sorted_range : MapRange :=
  {| range V m := (map_to_list m).*2; range_perm V m := Permutation_refl _ |}.

Example ParseInt_ok : map ParseInt ["42"; "-7"; ""; "4x"; "9223372036854775808"]%string
  = [Some 42; Some (-7); None; None; None].
Proof. reflexivity. Qed.

Example hex_ok : EncodeToString [0; 255; 26] = "00ff1a"%string.
Proof. reflexivity. Qed.
