(* ===== verification/Float64.v ===== *)
(** * Float64: the finite binary64 numbers of Go's float64

    A finite float64 is an integer multiple of 2^-1074, so it is represented by
    that integer: addition and comparison of representations are those of the
    numbers, and every operation ends with the rounding of IEEE 754 to 53
    significant bits, ties to even.  Infinities, NaN and the sign of zero do not
    occur in the program's computations and are not represented. *)

From stdpp Require Import base tactics list.
From S2P Require Import Prelude GoLib.

Open Scope Z_scope.

Abbreviation float64 := Z (only parsing).

(** The representation of 1. *)
Definition one : float64 := 2 ^ 1074.

(** [n / d] (for [0 <= n], [0 < d]) rounded to a multiple of a power of two
    that leaves 53 significant bits, and to an integer. *)
Definition exponent (n d : Z) : Z := Z.max 0 (Z.log2 (n / d) - 52).

Definition round_even (n d : Z) : Z :=
  let q := n / d in
  let r := n mod d in
  if (d <? 2 * r) || ((2 * r =? d) && Z.odd q) then q + 1 else q.

Definition round_nat (n d : Z) : Z :=
  let k := exponent n d in round_even n (d * 2 ^ k) * 2 ^ k.

Definition round (n d : Z) : float64 := if n <? 0 then - round_nat (- n) d else round_nat n d.

Definition of_int (n : Z) : float64 := round (n * one) 1.
Definition fadd (x y : float64) : float64 := round (x + y) 1.
Definition fsub (x y : float64) : float64 := round (x - y) 1.
Definition fmul (x y : float64) : float64 := round (x * y) one.
(** for a positive divisor *)
Definition fdiv (x y : float64) : float64 := round (x * one) y.

(** [math.Round]: half away from zero. *)
Definition math_Round (x : float64) : Z := Z.sgn x * ((2 * Z.abs x + one) / (2 * one)).

(** [d.Seconds()] *)
Definition Seconds (d : Z) : float64 :=
  fadd (of_int (Z.quot d Second)) (fdiv (of_int (Z.rem d Second)) (of_int Second)).

(** [t.Sub(u)] saturates. *)
Definition time_Sub (t u : Z) : Z := Z.max min_int64 (Z.min max_int64 (t - u)).

(** 0.1 is 0x3FB999999999999A. *)
Example float_tenth : fdiv one (10 * one) = 0x1999999999999A * 2 ^ (1074 - 56).
Proof. vm_compute. reflexivity. Qed.

(** ** Rounding *)

Lemma one_pos : 0 < one.
Proof. apply Z.pow_pos_nonneg; lia. Qed.

Lemma round_even_error n d :
  0 < d → - d ≤ 2 * (round_even n d * d - n) ≤ d.
Proof.
  intros Hd. unfold round_even.
  pose proof (Z.div_mod n d ltac:(lia)). pose proof (Z.mod_pos_bound n d Hd).
  destruct (Z.ltb_spec d (2 * (n mod d))), (Z.eqb_spec (2 * (n mod d)) d); simpl;
    destruct (Z.odd (n / d)); nia.
Qed.

Lemma round_even_mono n m d : 0 < d → n ≤ m → round_even n d ≤ round_even m d.
Proof.
  intros Hd Hnm. assert (n / d ≤ m / d) as Hq by (apply Z.div_le_mono; lia).
  unfold round_even.
  pose proof (Z.div_mod n d ltac:(lia)). pose proof (Z.mod_pos_bound n d Hd).
  pose proof (Z.div_mod m d ltac:(lia)). pose proof (Z.mod_pos_bound m d Hd).
  destruct (decide (n / d = m / d)) as [Heq|Hne].
  - rewrite Heq in *. destruct (Z.ltb_spec d (2 * (n mod d))), (Z.ltb_spec d (2 * (m mod d))),
      (Z.eqb_spec (2 * (n mod d)) d), (Z.eqb_spec (2 * (m mod d)) d); simpl;
      destruct (Z.odd (m / d)); simpl; lia.
  - case_match; case_match; lia.
Qed.

Lemma round_even_exact m d : 0 < d → round_even (m * d) d = m.
Proof.
  intros Hd. unfold round_even. rewrite Z.div_mul, Z.mod_mul by lia.
  destruct (Z.ltb_spec d (2 * 0)), (Z.eqb_spec (2 * 0) d); simpl; lia.
Qed.

Lemma exponent_nonneg n d : 0 ≤ exponent n d.
Proof. unfold exponent. lia. Qed.

Lemma pow_exponent n d : 0 < 2 ^ exponent n d.
Proof. apply Z.pow_pos_nonneg; [lia | apply exponent_nonneg]. Qed.

(** When digits are dropped, the number has at least 53 of them. *)
Lemma exponent_spec n d :
  0 < d → 0 ≤ n → exponent n d = 0 ∨ 2 ^ 52 * 2 ^ exponent n d * d ≤ n.
Proof.
  intros Hd Hn. unfold exponent. destruct (Z.max_spec 0 (Z.log2 (n / d) - 52)) as [[Hlt ->]|[_ ->]];
    [right | by left].
  rewrite <- Z.pow_add_r by lia. replace (52 + (Z.log2 (n / d) - 52)) with (Z.log2 (n / d)) by lia.
  assert (0 < n / d) as Hpos.
  { destruct (Z.le_gt_cases (n / d) 0) as [Hle|]; [|done]. rewrite Z.log2_nonpos in Hlt by done. lia. }
  pose proof (Z.log2_spec _ Hpos) as [Hl _]. pose proof (Z.mul_div_le n d Hd). nia.
Qed.

Lemma exponent_upper n d : 0 < d → 0 ≤ n → n < 2 ^ 53 * 2 ^ exponent n d * d.
Proof.
  intros Hd Hn.
  assert (n / d < 2 ^ 53 * 2 ^ exponent n d) as Hq.
  { pose proof (exponent_nonneg n d). rewrite <- Z.pow_add_r by lia.
    destruct (Z.le_gt_cases (n / d) 0) as [Hle|Hgt].
    - pose proof (Z.pow_pos_nonneg 2 (53 + exponent n d)). lia.
    - eapply Z.lt_le_trans; [apply (Z.log2_spec _ Hgt)|]. apply Z.pow_le_mono_r; unfold exponent; lia. }
  pose proof (Z.mul_succ_div_gt n d Hd). nia.
Qed.

(** The error is at most half a unit in the last place, or half of 2^-1074. *)
Lemma round_nat_error n d :
  0 < d → 0 ≤ n → - (n + 2 ^ 52 * d) ≤ 2 ^ 53 * (round_nat n d * d - n) ≤ n + 2 ^ 52 * d.
Proof.
  intros Hd Hn. unfold round_nat. cbv zeta.
  pose proof (pow_exponent n d) as Hp. pose proof (exponent_spec n d Hd Hn) as He.
  set (p := 2 ^ exponent n d) in *.
  assert (0 < d * p) as Hdp by nia.
  pose proof (round_even_error n (d * p) Hdp) as Herr.
  replace (round_even n (d * p) * p * d) with (round_even n (d * p) * (d * p)) by lia.
  assert (2 ^ 52 * (d * p) ≤ n + 2 ^ 52 * d) as Hb.
  { destruct He as [He|He]; [|nia]. assert (p = 1) as -> by (unfold p; by rewrite He). lia. }
  change (2 ^ 53) with (2 * 2 ^ 52). lia.
Qed.

Lemma round_nat_nonneg n d : 0 < d → 0 ≤ n → 0 ≤ round_nat n d.
Proof.
  intros Hd Hn. unfold round_nat. cbv zeta. pose proof (pow_exponent n d).
  pose proof (round_even_mono 0 n (d * 2 ^ exponent n d)) as Hm.
  rewrite <- (Z.mul_0_l (d * 2 ^ exponent n d)), round_even_exact in Hm by nia.
  apply Z.mul_nonneg_nonneg; [apply Hm|]; nia.
Qed.

(** The significand that is kept has at most 53 bits, or is 2^53. *)
Lemma round_even_bounds n d :
  0 < d → 0 ≤ n → 0 ≤ round_even n (d * 2 ^ exponent n d) ≤ 2 ^ 53.
Proof.
  intros Hd Hn. pose proof (pow_exponent n d) as Hp. set (p := 2 ^ exponent n d) in *.
  assert (0 < d * p) as Hdp by nia. split.
  - rewrite <- (round_even_exact 0 (d * p)) by done. apply round_even_mono; lia.
  - rewrite <- (round_even_exact (2 ^ 53) (d * p)) by done. apply round_even_mono; [done|].
    pose proof (exponent_upper n d Hd Hn). fold p in H. lia.
Qed.

Lemma round_nat_mono n m d : 0 < d → 0 ≤ n → n ≤ m → round_nat n d ≤ round_nat m d.
Proof.
  intros Hd Hn Hnm. unfold round_nat. cbv zeta.
  assert (exponent n d ≤ exponent m d) as Hk.
  { unfold exponent. pose proof (Z.log2_le_mono (n / d) (m / d) ltac:(apply Z.div_le_mono; lia)). lia. }
  pose proof (round_even_bounds n d Hd Hn) as Hub. pose proof (pow_exponent n d). pose proof (pow_exponent m d).
  destruct (decide (exponent n d = exponent m d)) as [Heq|Hne].
  - rewrite Heq in *. apply Z.mul_le_mono_nonneg_r; [lia|]. apply round_even_mono; nia.
  - assert (2 * 2 ^ exponent n d ≤ 2 ^ exponent m d) as Hpow.
    { rewrite <- Z.pow_succ_r by apply exponent_nonneg. apply Z.pow_le_mono_r; lia. }
    assert (2 ^ 52 ≤ round_even m (d * 2 ^ exponent m d)) as Hlb.
    { destruct (exponent_spec m d) as [He|He]; [lia | lia | |].
      - pose proof (exponent_nonneg n d). lia.
      - rewrite <- (round_even_exact (2 ^ 52) (d * 2 ^ exponent m d)) by nia.
        apply round_even_mono; nia. }
    change (2 ^ 53) with (2 * 2 ^ 52) in Hub. nia.
Qed.

(** ** Representable numbers *)

Definition rep (x : float64) : Prop := ∃ m e, 0 ≤ e ∧ Z.abs m ≤ 2 ^ 53 ∧ x = m * 2 ^ e.

Lemma round_nat_rep n d : 0 < d → 0 ≤ n → rep (round_nat n d).
Proof.
  intros Hd Hn. exists (round_even n (d * 2 ^ exponent n d)), (exponent n d).
  pose proof (round_even_bounds n d Hd Hn). split; [apply exponent_nonneg|]. split; [lia | done].
Qed.

Lemma rep_opp x : rep x → rep (- x).
Proof. intros (m & e & He & Hm & ->). exists (- m), e. split_and!; lia. Qed.

Lemma round_rep n d : 0 < d → rep (round n d).
Proof.
  intros Hd. unfold round. destruct (Z.ltb_spec n 0); [apply rep_opp|]; apply round_nat_rep; lia.
Qed.

Lemma round_nat_id x : 0 ≤ x → rep x → round_nat x 1 = x.
Proof.
  intros Hx (m & e & He & Hm & Heq). unfold round_nat. cbv zeta. rewrite Z.mul_1_l.
  set (k := exponent x 1). pose proof (exponent_nonneg x 1) as Hk.
  assert (∃ q, x = q * 2 ^ k) as [q Hq].
  { destruct (Z.le_gt_cases k e) as [Hle|Hgt].
    - exists (m * 2 ^ (e - k)). rewrite <- Z.mul_assoc, <- Z.pow_add_r by lia.
      rewrite Heq. do 2 f_equal. lia.
    - destruct (exponent_spec x 1) as [Hz|Hl]; [lia.. | |].
      { exists x. fold k in Hz. rewrite Hz. lia. }
      fold k in Hl.
      assert (2 * 2 ^ e ≤ 2 ^ k) as Hpow.
      { rewrite <- Z.pow_succ_r by lia. apply Z.pow_le_mono_r; lia. }
      pose proof (Z.pow_pos_nonneg 2 e). exists (2 ^ 52). change (2 ^ 53) with (2 * 2 ^ 52) in Hm.
      nia. }
  pose proof (pow_exponent x 1) as Hp. fold k in Hp. rewrite Hq. by rewrite round_even_exact.
Qed.

Lemma round_id x : rep x → round x 1 = x.
Proof.
  intros Hx. unfold round. destruct (Z.ltb_spec x 0).
  - rewrite round_nat_id; [lia | lia | by apply rep_opp].
  - by apply round_nat_id.
Qed.

Lemma round_error n d :
  0 < d → 0 ≤ n → - (n + 2 ^ 52 * d) ≤ 2 ^ 53 * (round n d * d - n) ≤ n + 2 ^ 52 * d.
Proof.
  intros Hd Hn. unfold round. destruct (Z.ltb_spec n 0); [lia|]. by apply round_nat_error.
Qed.

Lemma round_nonneg n d : 0 < d → 0 ≤ n → 0 ≤ round n d.
Proof. intros Hd Hn. unfold round. destruct (Z.ltb_spec n 0); [lia|]. by apply round_nat_nonneg. Qed.

Lemma round_mono n m d : 0 < d → 0 ≤ n → n ≤ m → round n d ≤ round m d.
Proof.
  intros Hd Hn Hm. unfold round. destruct (Z.ltb_spec n 0); [lia|].
  destruct (Z.ltb_spec m 0); [lia|]. by apply round_nat_mono.
Qed.

Lemma round_zero d : 0 < d → round 0 d = 0.
Proof.
  intros Hd. unfold round, round_nat. cbv zeta.
  pose proof (round_even_exact 0 (d * 2 ^ exponent 0 d)) as He. pose proof (pow_exponent 0 d).
  rewrite Z.mul_0_l in He. simpl. rewrite He; nia.
Qed.

Lemma rep_int n : Z.abs n ≤ 2 ^ 53 → rep (n * one).
Proof. intros Hn. by exists n, 1074. Qed.

Lemma of_int_exact n : Z.abs n ≤ 2 ^ 53 → of_int n = n * one.
Proof. intros Hn. by apply round_id, rep_int. Qed.

Lemma fadd_ge t g : rep t → 0 ≤ t → 0 ≤ g → t ≤ fadd t g.
Proof.
  intros Hr Ht Hg. unfold fadd, round. destruct (Z.ltb_spec (t + g) 0); [lia|].
  rewrite <- (round_nat_id t Ht Hr) at 1. apply round_nat_mono; lia.
Qed.

Lemma fadd_zero t : rep t → fadd t 0 = t.
Proof. intros Hr. unfold fadd. rewrite Z.add_0_r. by apply round_id. Qed.

(** Taking one from a number that is not huge is exact. *)
Lemma fsub_one t : rep t → one ≤ t ≤ 2 ^ 53 * one → fsub t one = t - one ∧ rep (t - one).
Proof.
  intros (m & e & He & Hm & ->) Ht.
  assert (rep (m * 2 ^ e - one)) as Hr; [|split; [by apply round_id | done]].
  pose proof one_pos. destruct (Z.le_gt_cases e 1074) as [Hle|Hgt].
  - exists (m - 2 ^ (1074 - e)), e.
    assert (one = 2 ^ (1074 - e) * 2 ^ e) as Heq.
    { unfold one. rewrite <- Z.pow_add_r by lia. f_equal. lia. }
    pose proof (Z.pow_pos_nonneg 2 e). pose proof (Z.pow_pos_nonneg 2 (1074 - e)).
    split_and!; [done | | lia]. rewrite Heq in Ht. assert (2 ^ (1074 - e) ≤ m) by nia. lia.
  - exists (m * 2 ^ (e - 1074) - 1), 1074. fold one.
    assert (m * 2 ^ e = m * 2 ^ (e - 1074) * one) as Heq.
    { unfold one. rewrite <- Z.mul_assoc, <- Z.pow_add_r by lia. do 2 f_equal. lia. }
    split_and!; [lia | nia | lia].
Qed.

Lemma fadd_one_le t g : 0 ≤ t → 0 ≤ g → one ≤ t + g → one ≤ fadd t g.
Proof.
  intros Ht Hg Hone. unfold fadd, round. destruct (Z.ltb_spec (t + g) 0); [lia|].
  pose proof one_pos. assert (rep one) as Hr by (by exists 1, 1074).
  rewrite <- (round_nat_id one) by (lia || done). apply round_nat_mono; lia.
Qed.

(** ** Durations *)

(** 2^-1074 is negligible beside a nanosecond. *)
Lemma one_large : 2 ^ 200 ≤ one.
Proof. by apply Z.pow_le_mono_r. Qed.

Lemma Seconds_parts d :
  0 ≤ d ≤ max_int64 →
  ∃ q s a, d = q * Second + s ∧ 0 ≤ q ∧ 0 ≤ s < Second ∧ 0 ≤ a ∧
    Seconds d = round (q * one + a) 1 ∧ (s = 0 → a = 0) ∧
    - (s * one + 2 ^ 52 * Second) ≤ 2 ^ 53 * (a * Second - s * one) ≤ s * one + 2 ^ 52 * Second.
Proof.
  intros Hd. pose proof one_pos as Hone.
  assert (0 < Second ∧ Second ≤ 2 ^ 53 ∧ max_int64 < 2 ^ 53 * Second) as (Hs & Hs53 & Hmax) by (by vm_compute).
  exists (Z.quot d Second), (Z.rem d Second), (fdiv (of_int (Z.rem d Second)) (of_int Second)).
  pose proof (Z.quot_rem' d Second). pose proof (Z.rem_bound_pos d Second ltac:(lia) Hs).
  pose proof (Z.quot_pos d Second ltac:(lia) Hs).
  assert (Z.quot d Second ≤ 2 ^ 53) by nia.
  unfold Seconds, fadd. rewrite (of_int_exact (Z.quot d Second)), (of_int_exact (Z.rem d Second)),
    (of_int_exact Second) by lia.
  unfold fdiv. set (s := Z.rem d Second) in *.
  pose proof (round_error (s * one * one) (Second * one)) as Herr.
  split_and!; try lia; try done.
  - apply round_nonneg; nia.
  - intros ->. rewrite !Z.mul_0_l. apply round_zero. lia.
  - specialize (Herr ltac:(nia) ltac:(nia)). nia.
  - specialize (Herr ltac:(nia) ltac:(nia)). nia.
Qed.

Lemma Seconds_zero : Seconds 0 = 0.
Proof. vm_compute. reflexivity. Qed.

Lemma Seconds_nonneg d : 0 ≤ d ≤ max_int64 → 0 ≤ Seconds d.
Proof.
  intros Hd. destruct (Seconds_parts d Hd) as (q & s & a & _ & Hq & _ & Ha & -> & _).
  pose proof one_pos. apply round_nonneg; nia.
Qed.

(** [d.Seconds()] is exact to one part in 2^51. *)
Lemma Seconds_bounds d :
  0 < d ≤ max_int64 →
  (2 ^ 51 - 1) * (d * one) ≤ 2 ^ 51 * (Second * Seconds d) ≤ (2 ^ 51 + 1) * (d * one).
Proof.
  intros Hd. destruct (Seconds_parts d ltac:(lia)) as (q & s & a & -> & Hq & Hs & Ha & -> & _ & He).
  pose proof one_large as Hone.
  pose proof (round_error (q * one + a) 1 ltac:(lia) ltac:(nia)) as Hr. rewrite !Z.mul_1_r in Hr.
  set (S := round _ _) in *. clearbody S. unfold Second in *.
  assert (one ≤ (q * 1000000000 + s) * one) as Hd1 by nia.
  replace ((q * 1000000000 + s) * one) with (1000000000 * (q * one) + s * one) in * by lia.
  assert (0 ≤ q * one) by nia. assert (0 ≤ s * one) by nia.
  generalize dependent (q * one). generalize dependent (s * one). intros x He Hx y Hr Hd1 Hy.
  change (2 ^ 200) with (2 ^ 51 * 2 ^ 149) in Hone. lia.
Qed.

Lemma fmul_error x y :
  0 ≤ x → 0 ≤ y → - (x * y + 2 ^ 52) ≤ 2 ^ 53 * (fmul x (y * one) - x * y) ≤ x * y + 2 ^ 52.
Proof.
  intros Hx Hy. pose proof one_pos. unfold fmul.
  pose proof (round_error (x * (y * one)) one ltac:(done) ltac:(nia)) as He.
  generalize dependent (round (x * (y * one)) one). intros z He.
  replace (x * (y * one)) with (x * y * one) in He by lia. set (p := x * y) in *. clearbody p.
  nia.
Qed.

(** What [elapsed * rate] adds: the exact amount, to one part in 2^50. *)
Lemma gain_bounds d r :
  0 < d ≤ max_int64 → 0 ≤ r →
  (2 ^ 50 - 1) * (r * (d * one)) ≤ 2 ^ 50 * (Second * fmul (Seconds d) (r * one))
    ≤ (2 ^ 50 + 1) * (r * (d * one)).
Proof.
  intros Hd Hr. pose proof (Seconds_bounds d Hd) as HS. pose proof (Seconds_nonneg d ltac:(lia)) as HS0.
  pose proof (fmul_error (Seconds d) r HS0 Hr) as Hm. pose proof one_large as Hone.
  set (G := fmul _ _) in *. clearbody G. set (S := Seconds d) in *. clearbody S.
  unfold Second in *. destruct (decide (r = 0)) as [->|Hr0]; [lia|].
  assert (one ≤ d * one) as Hd0 by nia. assert (one ≤ r * (d * one)) as Hd1 by nia.
  pose proof (Z.mul_le_mono_nonneg_r _ _ r Hr (proj1 HS)). pose proof (Z.mul_le_mono_nonneg_r _ _ r Hr (proj2 HS)).
  assert ((2 ^ 51 - 1) * (r * (d * one)) ≤ 2 ^ 51 * (1000000000 * (S * r)) ≤ (2 ^ 51 + 1) * (r * (d * one))) as HSr by lia.
  assert (0 ≤ S * r) by nia.
  clear HS. set (X := r * (d * one)) in *. clearbody X. set (T := S * r) in *. clearbody T.
  change (2 ^ 200) with (2 ^ 51 * 2 ^ 149) in Hone. lia.
Qed.

(** One addition overshoots by at most one part in 2^53. *)
Lemma fadd_error t g :
  0 ≤ t → 0 ≤ g → 2 ^ 53 * (fadd t g - (t + g)) ≤ t + g + 2 ^ 52.
Proof. intros Ht Hg. pose proof (round_error (t + g) 1). unfold fadd. lia. Qed.
