(* ===== verification/Domain.v ===== *)
(** * Domain: the data types of internal/domain

    Transaction and merchant records, the transaction status machine, audit
    and outbox events, pagination parameters, and the sentinel errors. *)

From stdpp Require Import base tactics list gmap strings.
From S2P Require Import Prelude GoLib.

Open Scope string_scope.
Open Scope Z_scope.

(** ** Sentinel errors (errors.go) *)

(* go: internal/domain/errors.go 11 *)
Definition ErrMerchantNotFound := Sentinel "domain.ErrMerchantNotFound" "merchant not found".
(* go: internal/domain/errors.go 12 *)
Definition ErrMerchantInactive := Sentinel "domain.ErrMerchantInactive" "merchant account is not active".
(* go: internal/domain/errors.go 15 *)
Definition ErrTransactionNotFound := Sentinel "domain.ErrTransactionNotFound" "transaction not found".
(* go: internal/domain/errors.go 16 *)
Definition ErrInvalidAmount := Sentinel "domain.ErrInvalidAmount" "amount must be positive".
(* go: internal/domain/errors.go 17 *)
Definition ErrInvalidCurrency := Sentinel "domain.ErrInvalidCurrency" "unsupported currency".
(* go: internal/domain/errors.go 18 *)
Definition ErrCannotRefund := Sentinel "domain.ErrCannotRefund" "can only refund completed transactions".
(* go: internal/domain/errors.go 19 *)
Definition ErrDuplicateTransaction :=
  Sentinel "domain.ErrDuplicateTransaction" "duplicate transaction (idempotency key already used)".
(* go: internal/domain/errors.go 20 *)
Definition ErrTransactionExpired := Sentinel "domain.ErrTransactionExpired" "transaction has expired".
(* go: internal/domain/errors.go 21 *)
Definition ErrInvalidTransition := Sentinel "domain.ErrInvalidTransition" "invalid status transition".
(* go: internal/domain/errors.go 24 *)
Definition ErrBankTimeout := Sentinel "domain.ErrBankTimeout" "bank API timed out".
(* go: internal/domain/errors.go 25 *)
Definition ErrBankUnavailable := Sentinel "domain.ErrBankUnavailable" "bank API unavailable".
(* go: internal/domain/errors.go 26 *)
Definition ErrBankRejected := Sentinel "domain.ErrBankRejected" "bank rejected the transaction".
(* go: internal/domain/errors.go 27 *)
Definition ErrAmountExceedsLimit := Sentinel "domain.ErrAmountExceedsLimit" "amount exceeds transfer limit".
(* go: internal/domain/errors.go 28 *)
Definition ErrInsufficientFunds := Sentinel "domain.ErrInsufficientFunds" "insufficient funds".
(* go: internal/domain/errors.go 31 *)
Definition ErrRateLimited := Sentinel "domain.ErrRateLimited" "too many requests".
(* go: internal/domain/errors.go 34-35 *)
Definition ErrUnauthorized := Sentinel "domain.ErrUnauthorized" "unauthorized".
(* go: internal/domain/errors.go 34-35 *)
Definition ErrForbidden := Sentinel "domain.ErrForbidden" "forbidden".

(** ** Transaction status *)

(* go: internal/domain/models.go 11 *)
Abbreviation TransactionStatus := string.

(* go: internal/domain/models.go 14 *)
Definition TxStatusPending : TransactionStatus := "PENDING".
(* go: internal/domain/models.go 15 *)
Definition TxStatusProcessing : TransactionStatus := "PROCESSING".
(* go: internal/domain/models.go 16 *)
Definition TxStatusCompleted : TransactionStatus := "COMPLETED".
(* go: internal/domain/models.go 17 *)
Definition TxStatusFailed : TransactionStatus := "FAILED".
(* go: internal/domain/models.go 18 *)
Definition TxStatusRefunded : TransactionStatus := "REFUNDED".

(* go: internal/domain/models.go 21-29 *)
Definition ValidTransitions : gmap TransactionStatus (list TransactionStatus) :=
  {[ TxStatusPending := [TxStatusProcessing];
     TxStatusProcessing := [TxStatusCompleted; TxStatusFailed];
     TxStatusCompleted := [TxStatusRefunded];
     TxStatusFailed := [];
     TxStatusRefunded := [] ]}.

(** The loop over the allowed targets. *)
(* go: internal/domain/models.go 37-41 *)
Fixpoint allowed_contains (allowed : list TransactionStatus) (to : TransactionStatus) : bool :=
  match allowed with
  | [] => false
  | s :: rest => if bool_decide (s = to) then true else allowed_contains rest to
  end.

(* go: internal/domain/models.go CanTransition *)
Definition CanTransition (from to : TransactionStatus) : bool :=
  match ValidTransitions !! from with
  | None => false
  | Some allowed => allowed_contains allowed to
  end.

(* go: internal/domain/models.go TransactionStatus.IsTerminal *)
Definition IsTerminal (s : TransactionStatus) : bool :=
  bool_decide (s = TxStatusFailed) || bool_decide (s = TxStatusRefunded).

(** ** Records *)

(** A [json.RawMessage] holding a JSON object with scalar members: the only
    payloads the program builds.  [json.Marshal] sorts the keys of a map, so a
    finite map determines the text. *)
Inductive jval : Type := JStr (s : string) | JInt (z : Z).

#[export] Instance jval_eq_dec : EqDecision jval.
Proof. solve_decision. Defined.

Abbreviation RawMessage := (gmap string jval).

(* go: internal/domain/models.go 52-63 *)
Record Transaction := mkTransaction {
  tx_ID : string;
  tx_MerchantID : string;
  tx_AmountCents : Z;
  tx_Currency : string;
  tx_Status : TransactionStatus;
  tx_IdempotencyKey : string;
  tx_Description : string;
  tx_Metadata : option RawMessage;
  tx_CreatedAt : Z;
  tx_UpdatedAt : Z
}.

(* go: internal/domain/models.go 67-73 *)
Definition MerchantActive : string := "ACTIVE".
Definition MerchantInactive : string := "INACTIVE".
Definition MerchantSuspend : string := "SUSPENDED".

(* go: internal/domain/models.go 75-84 *)
Record Merchant := mkMerchant {
  m_ID : string;
  m_Name : string;
  m_APIKey : string;
  m_BalanceCents : Z;
  m_Currency : string;
  m_Status : string;
  m_CreatedAt : Z;
  m_UpdatedAt : Z
}.

(* go: internal/domain/models.go Merchant.IsActive *)
Definition IsActive (m : Merchant) : bool := bool_decide (m_Status m = MerchantActive).

(* go: internal/domain/models.go 96-104 *)
Record TransactionEvent := mkTransactionEvent {
  ev_ID : Z;
  ev_TransactionID : string;
  ev_EventType : string;
  ev_FromStatus : string;
  ev_ToStatus : string;
  ev_Payload : option RawMessage;
  ev_CreatedAt : Z
}.

(* go: internal/domain/models.go 108-114 *)
Record OutboxEvent := mkOutboxEvent {
  ob_ID : Z;
  ob_EventType : string;
  ob_Payload : RawMessage;
  ob_Published : bool;
  ob_CreatedAt : Z
}.

#[export] Instance Transaction_eq_dec : EqDecision Transaction.
Proof. solve_decision. Defined.
#[export] Instance Merchant_eq_dec : EqDecision Merchant.
Proof. solve_decision. Defined.
#[export] Instance TransactionEvent_eq_dec : EqDecision TransactionEvent.
Proof. solve_decision. Defined.
#[export] Instance OutboxEvent_eq_dec : EqDecision OutboxEvent.
Proof. solve_decision. Defined.

(** Field assignments [t.Status = s], [t.UpdatedAt = u], [m.BalanceCents = b]. *)
Definition set_Status (s : TransactionStatus) (t : Transaction) : Transaction :=
  mkTransaction (tx_ID t) (tx_MerchantID t) (tx_AmountCents t) (tx_Currency t) s
    (tx_IdempotencyKey t) (tx_Description t) (tx_Metadata t) (tx_CreatedAt t) (tx_UpdatedAt t).

Definition set_UpdatedAt (u : Z) (t : Transaction) : Transaction :=
  mkTransaction (tx_ID t) (tx_MerchantID t) (tx_AmountCents t) (tx_Currency t) (tx_Status t)
    (tx_IdempotencyKey t) (tx_Description t) (tx_Metadata t) (tx_CreatedAt t) u.

Definition set_Metadata (md : option RawMessage) (t : Transaction) : Transaction :=
  mkTransaction (tx_ID t) (tx_MerchantID t) (tx_AmountCents t) (tx_Currency t) (tx_Status t)
    (tx_IdempotencyKey t) (tx_Description t) md (tx_CreatedAt t) (tx_UpdatedAt t).

Definition set_Balance (b : Z) (m : Merchant) : Merchant :=
  mkMerchant (m_ID m) (m_Name m) (m_APIKey m) b (m_Currency m) (m_Status m)
    (m_CreatedAt m) (m_UpdatedAt m).

Definition set_MerchantUpdatedAt (u : Z) (m : Merchant) : Merchant :=
  mkMerchant (m_ID m) (m_Name m) (m_APIKey m) (m_BalanceCents m) (m_Currency m) (m_Status m)
    (m_CreatedAt m) u.

Definition set_EventID (i : Z) (e : TransactionEvent) : TransactionEvent :=
  mkTransactionEvent i (ev_TransactionID e) (ev_EventType e) (ev_FromStatus e) (ev_ToStatus e)
    (ev_Payload e) (ev_CreatedAt e).

Definition set_OutboxID (i : Z) (e : OutboxEvent) : OutboxEvent :=
  mkOutboxEvent i (ob_EventType e) (ob_Payload e) (ob_Published e) (ob_CreatedAt e).

Definition set_Published (p : bool) (e : OutboxEvent) : OutboxEvent :=
  mkOutboxEvent (ob_ID e) (ob_EventType e) (ob_Payload e) p (ob_CreatedAt e).

(** ** Pagination *)

(* go: internal/domain/models.go 118-121 *)
Record ListParams := mkListParams { Limit : Z; Offset : Z }.

(* go: internal/domain/models.go NewListParams *)
Definition NewListParams (limit offset : Z) : ListParams :=
  let limit := if (limit <=? 0) || (100 <? limit) then 20 else limit in
  let offset := if offset <? 0 then 0 else offset in
  mkListParams limit offset.

(** ** The status machine *)

(** The edges of the lifecycle. *)
Definition edges : list (TransactionStatus * TransactionStatus) :=
  [(TxStatusPending, TxStatusProcessing); (TxStatusProcessing, TxStatusCompleted);
   (TxStatusProcessing, TxStatusFailed); (TxStatusCompleted, TxStatusRefunded)].

Definition statuses : list TransactionStatus :=
  [TxStatusPending; TxStatusProcessing; TxStatusCompleted; TxStatusFailed; TxStatusRefunded].

Definition valid_status (s : TransactionStatus) : Prop := s ∈ statuses.

#[export] Instance valid_status_dec s : Decision (valid_status s).
Proof. unfold valid_status. apply _. Defined.

Lemma allowed_contains_spec l to : allowed_contains l to = true ↔ to ∈ l.
Proof.
  induction l as [|s l IH]; simpl; [set_solver|].
  rewrite elem_of_cons. case_bool_decide; naive_solver.
Qed.

Lemma ValidTransitions_lookup from allowed :
  ValidTransitions !! from = Some allowed →
  (from, allowed) ∈ map_to_list ValidTransitions.
Proof. by rewrite elem_of_map_to_list. Qed.

Lemma CanTransition_edges from to :
  CanTransition from to = true ↔ (from, to) ∈ edges.
Proof.
  split.
  - unfold CanTransition. destruct (ValidTransitions !! from) as [l|] eqn:E; [|done].
    apply ValidTransitions_lookup in E. vm_compute in E.
    rewrite allowed_contains_spec.
    repeat (apply elem_of_cons in E as [E|E]; [simplify_eq; unfold edges; set_solver|]).
    by apply elem_of_nil in E.
  - unfold edges. rewrite !elem_of_cons, elem_of_nil.
    intros H. destruct_or!; simplify_eq; try reflexivity; done.
Qed.

(** A status that some chain of allowed transitions starting in PENDING reaches. *)
Inductive lifecycle : TransactionStatus → list TransactionStatus → Prop :=
| lifecycle_start : lifecycle TxStatusPending []
| lifecycle_step s path s' :
    lifecycle s path → CanTransition s s' = true → lifecycle s' (s :: path).

Lemma CanTransition_irrefl s : CanTransition s s = false.
Proof.
  destruct (CanTransition s s) eqn:E; [|done].
  apply CanTransition_edges in E. unfold edges in E.
  rewrite !elem_of_cons, elem_of_nil in E. destruct_or!; by simplify_eq.
Qed.

Lemma CanTransition_valid s s' :
  CanTransition s s' = true → valid_status s ∧ valid_status s'.
Proof.
  intros E%CanTransition_edges. unfold edges in E.
  rewrite !elem_of_cons, elem_of_nil in E. destruct_or!; simplify_eq;
    split; by apply (bool_decide_unpack _).
Qed.
