(* ===== verification/Money.v ===== *)
(** * Money: amounts as decimal strings

    The functions that print an amount (internal/domain/models.go and
    internal/service/payment.go) go through a float64; below 2^52 cents the
    string is nevertheless exact. *)

From stdpp Require Import base tactics list strings pretty.
From Stdlib Require Import Ascii.
From S2P Require Import Prelude GoLib Float64 Domain.

Open Scope string_scope.
Open Scope Z_scope.

Definition two_digits (k : Z) : string := of_ascii [hex_digit (k `div` 10); hex_digit (k `mod` 10)].

(** An amount of cents in decimal notation. *)
Definition decimal (negative : bool) (cents : Z) : string :=
  (if negative then "-" else "") +:+ pretty (cents `div` 100) +:+ "." +:+ two_digits (cents `mod` 100).

(** [fmt.Sprintf("%.2f", x)]: the nearest multiple of 1/100, ties to even. *)
Definition Sprintf_2f (x : float64) : string := decimal (x <? 0) (round_even (100 * Z.abs x) one).

(* go: internal/domain/models.go formatCents *)
Definition formatCents (cents : Z) : string := Sprintf_2f (fdiv (of_int cents) (of_int 100)).

(* go: internal/service/payment.go centsToDecimalString *)
Definition centsToDecimalString (cents : Z) : string := Sprintf_2f (fdiv (of_int cents) (of_int 100)).

(* go: internal/domain/models.go Transaction.String *)
Definition Transaction_String (t : Transaction) : string :=
  "Transaction{id=" +:+ tx_ID t +:+ ", merchant=" +:+ tx_MerchantID t +:+
  ", amount=" +:+ Sprintf_2f (fdiv (of_int (tx_AmountCents t)) (of_int 100)) +:+ " " +:+ tx_Currency t +:+
  ", status=" +:+ tx_Status t +:+ "}".

(** ** Exactness *)

Lemma round_even_near n m d : 0 < d → 2 * Z.abs (n - m * d) < d → round_even n d = m.
Proof. intros Hd Hn. pose proof (round_even_error n d Hd). nia. Qed.

(** The quotient is within half a cent. *)
Lemma quotient_near c :
  0 ≤ c < 2 ^ 52 → 2 * Z.abs (100 * round (c * one * one) (100 * one) - c * one) < one.
Proof.
  intros Hc. pose proof one_pos as H1. pose proof one_large as Hl.
  assert (0 < 100 * one) as Hd by lia. assert (0 ≤ c * one * one) as Hn by nia.
  pose proof (round_error (c * one * one) (100 * one) Hd Hn) as He.
  set (X := round _ _) in *. set (u := one) in *. clearbody X u.
  assert (- (c * u + 2 ^ 52 * 100) ≤ 2 ^ 53 * (100 * X - c * u) ≤ c * u + 2 ^ 52 * 100) as Hb.
  { split; apply (Zorder.Zmult_le_reg_r _ _ u); lia. }
  change (2 ^ 52) with 4503599627370496 in *. change (2 ^ 53) with 9007199254740992 in *.
  assert (2 ^ 60 ≤ u) as Hu by (etrans; [|exact Hl]; by vm_compute). change (2 ^ 60) with 1152921504606846976 in Hu.
  assert (c * u ≤ 4503599627370495 * u) as Hcu by (apply Z.mul_le_mono_nonneg_r; lia).
  lia.
Qed.

Lemma cents_quotient c :
  Z.abs c < 2 ^ 52 →
  (fdiv (of_int c) (of_int 100) <? 0) = (c <? 0) ∧
  round_even (100 * Z.abs (fdiv (of_int c) (of_int 100))) one = Z.abs c.
Proof.
  intros Hc. pose proof one_pos as H1.
  assert (fdiv (of_int c) (of_int 100) = Z.sgn c * round (Z.abs c * one * one) (100 * one)) as ->.
  { unfold fdiv. rewrite !of_int_exact by lia. unfold round.
    destruct (Z.ltb_spec (c * one * one) 0) as [Hneg|Hpos], (Z.ltb_spec (Z.abs c * one * one) 0); try nia.
    - assert (c < 0) by nia. rewrite Z.abs_neq, Z.sgn_neg by lia. replace (- (c * one * one)) with (- c * one * one) by lia. lia.
    - assert (0 ≤ c) by nia. rewrite Z.abs_eq by lia. destruct (decide (c = 0)) as [->|].
      + fold (round 0 (100 * one)). change (round_nat (0 * one * one) (100 * one)) with (round 0 (100 * one)).
        rewrite round_zero by lia. done.
      + rewrite Z.sgn_pos by lia. lia. }
  pose proof (quotient_near (Z.abs c) ltac:(lia)) as Hq.
  pose proof (round_nonneg (Z.abs c * one * one) (100 * one) ltac:(lia) ltac:(nia)) as H0.
  set (X := round _ _) in *. split.
  - destruct (Z.ltb_spec (Z.sgn c * X) 0), (Z.ltb_spec c 0); nia.
  - apply round_even_near; [done|].
    replace (Z.abs (Z.sgn c * X)) with X; [done|]. destruct (decide (c = 0)) as [->|].
    + simpl in Hq. assert (X = 0) as -> by (unfold X; rewrite Z.mul_0_l; apply round_zero; lia). done.
    + destruct (Z.lt_trichotomy c 0) as [|[|]]; [rewrite Z.sgn_neg by lia; lia | lia | rewrite Z.sgn_pos by lia; lia].
Qed.

Lemma two_decimals c :
  Z.abs c < 2 ^ 52 → Sprintf_2f (fdiv (of_int c) (of_int 100)) = decimal (c <? 0) (Z.abs c).
Proof. intros Hc. destruct (cents_quotient c Hc) as [Hs Hr]. unfold Sprintf_2f. by rewrite Hs, Hr. Qed.

(** ** Reading an amount back *)

Definition without_dot (s : string) : string := of_ascii (filter (.≠ "."%char) (to_ascii s)).

Lemma to_ascii_app a b : to_ascii (a +:+ b) = (to_ascii a ++ to_ascii b)%list.
Proof. unfold to_ascii. induction a as [|c a IH]; simpl; [done|]. by rewrite IH. Qed.

Lemma to_of_ascii l : to_ascii (of_ascii l) = l.
Proof. apply String.list_ascii_of_string_of_list_ascii. Qed.

Lemma digits_app acc l k :
  digits_value acc (l ++ k)%list = match digits_value acc l with Some n => digits_value n k | None => None end.
Proof. revert acc. induction l as [|c l IH]; intros acc; simpl; [done|]. by destruct (digit_value c). Qed.

Lemma digits_no_dot acc l : is_Some (digits_value acc l) → filter (.≠ "."%char) l = l.
Proof.
  revert acc. induction l as [|c l IH]; intros acc Hl; [done|]. simpl in Hl.
  destruct (digit_value c) eqn:E; [|by destruct Hl].
  rewrite filter_cons_True; [by rewrite (IH _ Hl)|]. intros ->. done.
Qed.

Lemma two_digits_value acc k : 0 ≤ k < 100 → digits_value acc (to_ascii (two_digits k)) = Some (100 * acc + k).
Proof.
  intros Hk. unfold two_digits. rewrite to_of_ascii.
  assert (∀ d, 0 ≤ d < 10 → digit_value (hex_digit d) = Some d) as Hdig.
  { intros d Hd. assert (d ∈ seqZ 0 10) as Hin by (rewrite elem_of_seqZ; lia). vm_compute in Hin.
    repeat (apply elem_of_cons in Hin as [->|Hin]; [done|]). by apply elem_of_nil in Hin. }
  pose proof (Z.div_mod k 10 ltac:(lia)). pose proof (Z.mod_pos_bound k 10 ltac:(lia)).
  simpl. rewrite !Hdig by (split; first [lia | apply Z.div_lt_upper_bound; lia | apply Z.div_pos; lia]).
  f_equal. lia.
Qed.

(** The digits of an amount of cents. *)
Lemma decimal_digits n : 0 ≤ n →
  digits_value 0 (filter (.≠ "."%char) (to_ascii (pretty (n `div` 100) +:+ "." +:+ two_digits (n `mod` 100)))) = Some n.
Proof.
  intros Hn. pose proof (Z.div_mod n 100 ltac:(lia)) as Hdm. pose proof (Z.mod_pos_bound n 100 ltac:(lia)) as Hm.
  pose proof (Z.div_pos n 100 Hn ltac:(lia)) as Hq.
  assert (digits_value 0 (to_ascii (pretty (n `div` 100))) = Some (n `div` 100)) as H1.
  { pose proof (digits_pretty (Z.to_N (n `div` 100))) as Hp. rewrite Z2N.id in Hp by done.
    by destruct (n `div` 100) as [|p|p]; [| |lia]. }
  pose proof (two_digits_value (n `div` 100) (n `mod` 100) Hm) as H2.
  rewrite !to_ascii_app, !filter_app, (digits_no_dot 0 _ (mk_is_Some _ _ H1)), (digits_no_dot _ _ (mk_is_Some _ _ H2)).
  change (filter (.≠ "."%char) (to_ascii ".")) with (@nil ascii). rewrite app_nil_l, digits_app, H1.
  cbv beta iota. rewrite H2. f_equal. lia.
Qed.

Definition amount_limit : Z := 2 ^ 52.

(** Amounts are printed exactly.  Although it is computed with a float64, the
    string of every amount of less than 2^52 cents (45 trillion) is its exact
    decimal notation with two digits after the point, so that its digits, read
    as a number, are the amount again; the two packages print the same. *)
Theorem amounts_exact cents :
  Z.abs cents < amount_limit →
  formatCents cents = decimal (cents <? 0) (Z.abs cents) ∧
  ParseInt (without_dot (formatCents cents)) = Some cents ∧
  centsToDecimalString cents = formatCents cents.
Proof.
  intros Hc. pose proof (two_decimals cents Hc) as Hf. fold (formatCents cents) in Hf.
  split_and!; [done | | done]. rewrite Hf. unfold decimal, without_dot.
  pose proof (decimal_digits (Z.abs cents) ltac:(lia)) as Hd.
  set (s := pretty _ +:+ _) in *. rewrite to_ascii_app, filter_app.
  assert (of_ascii (filter (.≠ "."%char) (to_ascii (if cents <? 0 then "-" else "")) ++ filter (.≠ "."%char) (to_ascii s))%list
    = (if cents <? 0 then "-" else "") +:+ of_ascii (filter (.≠ "."%char) (to_ascii s))) as -> by by destruct (cents <? 0).
  rewrite (ParseInt_digits (cents <? 0) _ (Z.abs cents)).
  - f_equal. destruct (Z.ltb_spec cents 0); lia.
  - unfold amount_limit in Hc. destruct (Z.ltb_spec cents 0); int64.
  - by rewrite to_of_ascii.
  - intros E. apply (f_equal to_ascii) in E. rewrite to_of_ascii in E. change (to_ascii "") with (@nil ascii) in E.
    rewrite E in Hd. simpl in Hd. injection Hd as Hd.
    (* no digits: impossible, there are always two after the point *)
    subst s. rewrite !to_ascii_app, !filter_app, <- Hd in E. by vm_compute in E.
Qed.

Lemma amounts_exact_witness :
  Z.abs (-500000007) < amount_limit ∧ formatCents (-500000007) = "-5000000.07" ∧
  ParseInt (without_dot (formatCents (-500000007))) = Some (-500000007).
Proof.
  assert (Z.abs (-500000007) < amount_limit) as Hc by reflexivity.
  destruct (amounts_exact (-500000007) Hc) as (H1 & H2 & _).
  split; [exact Hc|]. split; [rewrite H1; reflexivity | exact H2].
Defined.

(** Larger amounts lose their cents. *)
Example amounts_inexact : formatCents (2 ^ 53 + 1) = "90071992547409.92".
Proof. vm_compute. reflexivity. Qed.
