(* ===== verification/Repository.v ===== *)
(** * Repository: the persistence interfaces of internal/repository/interfaces.go

    The operations of the four repositories and of a database transaction as
    type classes over the state [R] of the store; the [Ledger], the abstract
    content of a store; and the contract ([RepositoryLaws]) that ties every
    operation to its effect on the ledger.  The payment service is verified
    against this contract, the in-memory and the PostgreSQL repositories
    are proved to satisfy it. *)

From stdpp Require Import base tactics list gmap strings.
From S2P Require Import Prelude GoLib Domain.

Open Scope string_scope.
Open Scope Z_scope.

(** ** What the outside world contributes to one repository call *)

(** A statement can fail before it took effect, or, when the connection breaks
    after the server executed it, after it took effect. *)
Inductive Fault : Type :=
| NoFault
| FailBefore (e : goerror)
| FailAfter (e : goerror).

(** The clock, [ctx.Err()] and the fault at the time of the call. *)
Record CallInfo := mkCallInfo { ci_now : Z; ci_ctx : error; ci_fault : Fault }.

Definition clean (ci : CallInfo) : Prop := ci_ctx ci = None ∧ ci_fault ci = NoFault.

(** A statement in a context that has ended fails; a lost connection fails
    before or after the server executed it. *)
Definition statement {W A} (ci : CallInfo) (fail : goerror → A) (m : Prog W A) : Prog W A :=
  match ci_ctx ci with
  | Some e => ret (fail e)
  | None =>
    match ci_fault ci with
    | NoFault => m
    | FailBefore e => ret (fail e)
    | FailAfter e => let! _ := m in ret (fail e)
    end
  end.

(** The commit of a database transaction that [undo] would roll back;
    [database/sql] rolls it back when its context has ended. *)
Definition commit {W} (ci : CallInfo) (undo : W → W) : Prog W error :=
  match ci_ctx ci with
  | Some e => let! _ := modify undo in ret (Some e)
  | None =>
    match ci_fault ci with
    | NoFault => ret None
    | FailBefore e => let! _ := modify undo in ret (Some e)
    | FailAfter e => ret (Some e)
    end
  end.

(** ** The interfaces *)

(* go: internal/repository/interfaces.go 16-22 *)
Class MerchantRepository (R : Type) := {
  merchants_GetByID : CallInfo → string → Prog R (result goerror Merchant);
  merchants_GetByAPIKey : CallInfo → string → Prog R (result goerror Merchant);
  merchants_UpdateBalance : CallInfo → string → Z → Prog R error
}.

(* go: internal/repository/interfaces.go 24-32 *)
Class TransactionRepository (R : Type) := {
  txns_Create : CallInfo → Transaction → Prog R error;
  txns_GetByID : CallInfo → string → Prog R (result goerror Transaction);
  txns_GetByIdempotencyKey : CallInfo → string → Prog R (result goerror (option Transaction));
  txns_UpdateStatus : CallInfo → string → TransactionStatus → Prog R error;
  txns_ListByMerchant : CallInfo → string → ListParams → Prog R (result goerror (list Transaction * Z))
}.

(* go: internal/repository/interfaces.go 34-39 *)
Class EventRepository (R : Type) := {
  events_Create : CallInfo → TransactionEvent → Prog R error;
  events_ListByTransaction : CallInfo → string → Prog R (result goerror (list TransactionEvent))
}.

(* go: internal/repository/interfaces.go 41-49 *)
Class OutboxRepository (R : Type) := {
  outbox_Create : CallInfo → OutboxEvent → Prog R error;
  outbox_FetchUnpublished : CallInfo → Z → Prog R (result goerror (list OutboxEvent));
  outbox_MarkPublished : CallInfo → Z → Prog R error
}.

(** A database transaction ([db.BeginTx], [tx.Commit], [tx.Rollback]): the
    repositories bound to it by [WithTx] work on the store, and the store as it
    was at [BeginTx] is kept for the rollback. *)
Class Database (R : Type) := {
  db_BeginTx : CallInfo → Prog R error;
  db_Commit : CallInfo → R → Prog R error;
  db_Rollback : R → R → R
}.

(** ** The ledger *)

(** What the service is accountable for: merchants and transactions by id, the
    audit trail and the outbox in order of insertion.  Columns that a store
    fills in on its own (update times, metadata defaults, serial ids) are
    erased by the [norm] functions. *)
Record Ledger := mkLedger {
  l_merchants : gmap string Merchant;
  l_txns : gmap string Transaction;
  l_events : list TransactionEvent;
  l_outbox : list (string * RawMessage * Z)
}.

Definition norm_merchant (m : Merchant) : Merchant := set_MerchantUpdatedAt 0 m.
Definition norm_txn (t : Transaction) : Transaction := set_Metadata None (set_UpdatedAt 0 t).
Definition norm_event (e : TransactionEvent) : TransactionEvent := set_EventID 0 e.
Definition norm_outbox (e : OutboxEvent) : string * RawMessage * Z :=
  (ob_EventType e, ob_Payload e, ob_CreatedAt e).

Definition put_merchant (id : string) (m : Merchant) (L : Ledger) : Ledger :=
  mkLedger (<[id := m]> (l_merchants L)) (l_txns L) (l_events L) (l_outbox L).
Definition put_txn (id : string) (t : Transaction) (L : Ledger) : Ledger :=
  mkLedger (l_merchants L) (<[id := t]> (l_txns L)) (l_events L) (l_outbox L).
Definition add_event (e : TransactionEvent) (L : Ledger) : Ledger :=
  mkLedger (l_merchants L) (l_txns L) (l_events L ++ [e]) (l_outbox L).
Definition add_outbox (o : string * RawMessage * Z) (L : Ledger) : Ledger :=
  mkLedger (l_merchants L) (l_txns L) (l_events L) (l_outbox L ++ [o]).

(** Balances and amounts are in range, keys are ids, and every transaction
    belongs to a merchant and has one of the five statuses. *)
Record ledger_ok (L : Ledger) : Prop := {
  ok_merchant id m : l_merchants L !! id = Some m →
    m_ID m = id ∧ 0 ≤ m_BalanceCents m ≤ max_int64;
  ok_txn id t : l_txns L !! id = Some t →
    tx_ID t = id ∧ 0 < tx_AmountCents t ≤ max_int64 ∧
    is_Some (l_merchants L !! tx_MerchantID t) ∧ valid_status (tx_Status t)
}.

(** ** The effect of each operation on the ledger *)

Abbreviation aspec A := (Ledger → A → Ledger → Prop).

Definition spec_merchant_GetByID (id : string) : aspec (result goerror Merchant) := λ L a L',
  L' = L ∧
  result_map norm_merchant a =
    match l_merchants L !! id with Some m => Ok m | None => Err ErrMerchantNotFound end.

(** The merchant of an API key; a store may hide the merchants that are not
    active. *)
Definition spec_GetByAPIKey (key : string) : aspec (result goerror Merchant) := λ L a L',
  L' = L ∧
  match a with
  | Ok m => m_APIKey m = key ∧ l_merchants L !! m_ID m = Some (norm_merchant m)
  | Err e => e = ErrMerchantNotFound ∧
      ∀ id m, l_merchants L !! id = Some m → m_APIKey m = key → IsActive m = false
  end.

Definition spec_UpdateBalance (id : string) (delta : Z) : aspec error := λ L a L',
  match l_merchants L !! id with
  | None => a = Some ErrMerchantNotFound ∧ L' = L
  | Some m =>
    let b := m_BalanceCents m + delta in
    (b < 0 ∧ a = Some ErrInsufficientFunds ∧ L' = L) ∨
    (max_int64 < b ∧ is_Some a ∧ L' = L) ∨
    (0 ≤ b ≤ max_int64 ∧ a = None ∧ L' = put_merchant id (set_Balance b m) L)
  end.

(** A new transaction: unused id, unused idempotency key, an existing
    merchant, a positive amount, a supported currency. *)
Record insertable (t : Transaction) (L : Ledger) : Prop := {
  ins_fresh : l_txns L !! tx_ID t = None;
  ins_key : tx_IdempotencyKey t = "" ∨
    ∀ id t', l_txns L !! id = Some t' → tx_IdempotencyKey t' ≠ tx_IdempotencyKey t;
  ins_merchant : is_Some (l_merchants L !! tx_MerchantID t);
  ins_amount : 0 < tx_AmountCents t ≤ max_int64;
  ins_currency : tx_Currency t = "CAD" ∨ tx_Currency t = "USD";
  ins_status : valid_status (tx_Status t)
}.

Definition spec_txn_Create (t : Transaction) : aspec error := λ L a L',
  a = None ∧ L' = put_txn (tx_ID t) (norm_txn t) L.

Definition spec_txn_GetByID (id : string) : aspec (result goerror Transaction) := λ L a L',
  L' = L ∧
  result_map norm_txn a =
    match l_txns L !! id with Some t => Ok t | None => Err ErrTransactionNotFound end.

Definition spec_GetByIdempotencyKey (key : string) : aspec (result goerror (option Transaction)) :=
  λ L a L',
  L' = L ∧
  match a with
  | Ok (Some t) => tx_IdempotencyKey t = key ∧ l_txns L !! tx_ID t = Some (norm_txn t)
  | Ok None => ∀ id t, l_txns L !! id = Some t → tx_IdempotencyKey t ≠ key
  | Err _ => False
  end.

Definition spec_UpdateStatus (id : string) (s : TransactionStatus) : aspec error := λ L a L',
  match l_txns L !! id with
  | None => a = Some ErrTransactionNotFound ∧ L' = L
  | Some t => a = None ∧ L' = put_txn id (set_Status s t) L
  end.

Definition spec_ListByMerchant (mid : string) : aspec (result goerror (list Transaction * Z)) :=
  λ L a L',
  L' = L ∧
  match a with
  | Ok (l, _) => Forall (λ t, tx_MerchantID t = mid ∧ l_txns L !! tx_ID t = Some (norm_txn t)) l
  | Err _ => True
  end.

Definition spec_event_Create (e : TransactionEvent) : aspec error := λ L a L',
  a = None ∧ L' = add_event (norm_event e) L.

Definition spec_ListByTransaction (id : string) : aspec (result goerror (list TransactionEvent)) :=
  λ L a L',
  L' = L ∧
  match a with
  | Ok l => map norm_event l ≡ₚ filter (λ e, ev_TransactionID e = id) (l_events L)
  | Err _ => True
  end.

Definition spec_outbox_Create (e : OutboxEvent) : aspec error := λ L a L',
  a = None ∧ L' = add_outbox (norm_outbox e) L.

(** ** Refinement *)

(** A call does what the specification says; a call that is not clean may
    instead report an error, with the effect applied or not. *)
Definition refines {A} (is_err : A → Prop) (ci : CallInfo) (spec : aspec A) : aspec A :=
  λ L a L',
  spec L a L' ∨
  (¬ clean ci ∧ is_err a ∧ (L' = L ∨ ∃ a', spec L a' L')).

Definition err_result {A} (r : result goerror A) : Prop := is_Err r.
Definition err_error (o : error) : Prop := is_Some o.

(** A statement about one call: for every outcome of [m] in [r]. *)
Definition call_ok {R A} (view : R → Ledger) (good : R → Prop) (m : Prog R A) (r : R)
  (spec : aspec A) : Prop :=
  wp m (λ a r', good r' ∧ spec (view r) a (view r')) r.

(** The contract.  [good] is the representation invariant of the store. *)
Class RepositoryLaws (R : Type) `{!MerchantRepository R, !TransactionRepository R,
    !EventRepository R, !OutboxRepository R} := {
  view : R → Ledger;
  good : R → Prop;
  merchant_GetByID_law ci id r : good r → ledger_ok (view r) →
    call_ok view good (merchants_GetByID ci id) r
      (refines err_result ci (spec_merchant_GetByID id));
  UpdateBalance_law ci id delta r : good r → ledger_ok (view r) → in_int64 delta →
    call_ok view good (merchants_UpdateBalance ci id delta) r
      (refines err_error ci (spec_UpdateBalance id delta));
  txn_Create_law ci t r : good r → ledger_ok (view r) → insertable t (view r) →
    call_ok view good (txns_Create ci t) r (refines err_error ci (spec_txn_Create t));
  txn_GetByID_law ci id r : good r → ledger_ok (view r) →
    call_ok view good (txns_GetByID ci id) r (refines err_result ci (spec_txn_GetByID id));
  GetByIdempotencyKey_law ci key r : good r → ledger_ok (view r) → key ≠ "" →
    call_ok view good (txns_GetByIdempotencyKey ci key) r
      (refines err_result ci (spec_GetByIdempotencyKey key));
  UpdateStatus_law ci id s r : good r → ledger_ok (view r) → valid_status s →
    call_ok view good (txns_UpdateStatus ci id s) r
      (refines err_error ci (spec_UpdateStatus id s));
  ListByMerchant_law ci mid p r : good r → ledger_ok (view r) → 0 ≤ Limit p → 0 ≤ Offset p →
    call_ok view good (txns_ListByMerchant ci mid p) r
      (refines err_result ci (spec_ListByMerchant mid));
  event_Create_law ci e r : good r → ledger_ok (view r) →
    is_Some (l_txns (view r) !! ev_TransactionID e) →
    call_ok view good (events_Create ci e) r (refines err_error ci (spec_event_Create e));
  ListByTransaction_law ci id r : good r → ledger_ok (view r) →
    call_ok view good (events_ListByTransaction ci id) r
      (refines err_result ci (spec_ListByTransaction id));
  outbox_Create_law ci e r : good r → ledger_ok (view r) →
    call_ok view good (outbox_Create ci e) r (refines err_error ci (spec_outbox_Create e))
}.

(** The lookup that authentication relies on. *)
Class AuthLaws (R : Type) `{!MerchantRepository R, !TransactionRepository R,
    !EventRepository R, !OutboxRepository R, !RepositoryLaws R} := {
  GetByAPIKey_law ci key r : good r → ledger_ok (view r) →
    call_ok view good (merchants_GetByAPIKey ci key) r (refines err_result ci (spec_GetByAPIKey key))
}.

(** Inserting a transaction whose idempotency key is in use fails, which
    requests that run at the same time rely on. *)
Class UniqueLaws (R : Type) `{!MerchantRepository R, !TransactionRepository R,
    !EventRepository R, !OutboxRepository R, !RepositoryLaws R} := {
  txn_Create_duplicate_law ci t id t' r : good r → ledger_ok (view r) →
    tx_IdempotencyKey t ≠ "" → l_txns (view r) !! id = Some t' →
    tx_IdempotencyKey t' = tx_IdempotencyKey t →
    wp (txns_Create ci t) (λ e r', good r' ∧ is_Some e ∧ view r' = view r) r
}.

(** A transaction is atomic: a rollback restores the ledger, and a commit that
    reports an error left it either as it was before or as it would be after. *)
Class DatabaseLaws (R : Type) `{!MerchantRepository R, !TransactionRepository R,
    !EventRepository R, !OutboxRepository R, !Database R, !RepositoryLaws R} := {
  BeginTx_law ci r : good r →
    wp (db_BeginTx ci) (λ a r', good r' ∧ view r' = view r ∧ (clean ci → a = None)) r;
  Commit_law ci r0 r : good r0 → good r →
    wp (db_Commit ci r0) (λ a r', good r' ∧
      match a with
      | None => view r' = view r
      | Some _ => ¬ clean ci ∧ (view r' = view r0 ∨ view r' = view r)
      end) r;
  Rollback_law r0 r : good r0 → good r →
    good (db_Rollback r0 r) ∧ view (db_Rollback r0 r) = view r0
}.

(** ** Lemmas on ledgers *)

Lemma put_merchant_ok id m L :
  m_ID m = id → 0 ≤ m_BalanceCents m ≤ max_int64 → ledger_ok L → ledger_ok (put_merchant id m L).
Proof.
  intros Hid Hb [Hm Ht]. split; simpl.
  - intros i m' [[<- <-]|[Hne Hl]]%lookup_insert_Some; eauto.
  - intros i t Hl. destruct (Ht _ _ Hl) as (? & [? ?] & ? & ?). split_and!; try done.
    rewrite lookup_insert. case_decide; [by eexists | done].
Qed.

Lemma put_txn_ok id t L :
  tx_ID t = id → 0 < tx_AmountCents t ≤ max_int64 →
  is_Some (l_merchants L !! tx_MerchantID t) → valid_status (tx_Status t) →
  ledger_ok L → ledger_ok (put_txn id t L).
Proof.
  intros ???? [Hm Ht]. split; simpl; [done|].
  intros i t' [[<- <-]|[Hne Hl]]%lookup_insert_Some; eauto.
Qed.

Lemma add_event_ok e L : ledger_ok L → ledger_ok (add_event e L).
Proof. intros [Hm Ht]. by split. Qed.
Lemma add_outbox_ok o L : ledger_ok L → ledger_ok (add_outbox o L).
Proof. intros [Hm Ht]. by split. Qed.

Create HintDb ledger discriminated.
#[export] Hint Resolve put_merchant_ok put_txn_ok add_event_ok add_outbox_ok : ledger.
