(* ===== verification/MockRepos.v ===== *)
(** * MockRepos: the in-memory repositories of internal/repository/mock/repos.go

    One store holds the state of the four repositories.  The mutexes make each
    method atomic, so a method is one function on the store. *)

From stdpp Require Import base tactics list gmap strings.
From S2P Require Import Prelude GoLib Domain Repository.

Open Scope string_scope.
Open Scope Z_scope.

(* go: internal/repository/mock/repos.go 12-15 *)
(* go: internal/repository/mock/repos.go 65-69 *)
Record MockStore := mkMockStore {
  Merchants : gmap string Merchant;
  Transactions : gmap string Transaction;
  order : list string;
  Events : list TransactionEvent;
  Outbox : list OutboxEvent;
  nextID : Z
}.

Definition set_Merchants x s := mkMockStore x (Transactions s) (order s) (Events s) (Outbox s) (nextID s).
Definition set_Transactions x s := mkMockStore (Merchants s) x (order s) (Events s) (Outbox s) (nextID s).
Definition set_order x s := mkMockStore (Merchants s) (Transactions s) x (Events s) (Outbox s) (nextID s).
Definition set_Events x s := mkMockStore (Merchants s) (Transactions s) (order s) x (Outbox s) (nextID s).
Definition set_Outbox x s := mkMockStore (Merchants s) (Transactions s) (order s) (Events s) x (nextID s).
Definition set_nextID x s := mkMockStore (Merchants s) (Transactions s) (order s) (Events s) (Outbox s) x.

(* go: internal/repository/mock/repos.go 17-24 *)
Definition NewMerchantRepo : gmap string Merchant :=
  {[ "m_001" := mkMerchant "m_001" "Maple Sports" "sk_live_maple_001" 0 "CAD" MerchantActive 0 0;
     "m_002" := mkMerchant "m_002" "Northern Gaming" "sk_live_northern_002" 50000 "CAD" MerchantActive 0 0 ]}.

(** The four constructors together. *)
(* go: internal/repository/mock/repos.go 185-187 *)
Definition NewMockStore : MockStore := mkMockStore NewMerchantRepo ∅ [] [] [] 1.

Section mock.
Context `{MapRange}.

(** ** MerchantRepo *)

(* go: internal/repository/mock/repos.go MerchantRepo.GetByID *)
Definition mock_merchant_GetByID (id : string) : Prog MockStore (result goerror Merchant) :=
  let! ms := get Merchants in
  match ms !! id with
  | None => ret (Err ErrMerchantNotFound)
  | Some m => ret (Ok m)
  end.

(* go: internal/repository/mock/repos.go MerchantRepo.GetByAPIKey *)
Definition mock_merchant_GetByAPIKey (apiKey : string) : Prog MockStore (result goerror Merchant) :=
  let! ms := get Merchants in
  match filter (λ m, m_APIKey m = apiKey) (range ms) with
  | m :: _ => ret (Ok m)
  | [] => ret (Err ErrMerchantNotFound)
  end.

(* go: internal/repository/mock/repos.go MerchantRepo.UpdateBalance *)
Definition mock_UpdateBalance (id : string) (delta : Z) : Prog MockStore error :=
  let! ms := get Merchants in
  match ms !! id with
  | None => ret (Some ErrMerchantNotFound)
  | Some m =>
    if add64 (m_BalanceCents m) delta <? 0 then ret (Some ErrInsufficientFunds)
    else
      let! _ := modify (set_Merchants (<[id := set_Balance (add64 (m_BalanceCents m) delta) m]> ms)) in
      ret None
  end.

(** ** TransactionRepo *)

(* go: internal/repository/mock/repos.go TransactionRepo.Create *)
Definition mock_txn_Create (t : Transaction) : Prog MockStore error :=
  let! _ := modify (λ s, set_Transactions (<[tx_ID t := t]> (Transactions s)) s) in
  let! _ := modify (λ s, set_order (order s ++ [tx_ID t]) s) in
  ret None.

(* go: internal/repository/mock/repos.go TransactionRepo.GetByID *)
Definition mock_txn_GetByID (id : string) : Prog MockStore (result goerror Transaction) :=
  let! ts := get Transactions in
  match ts !! id with
  | None => ret (Err ErrTransactionNotFound)
  | Some t => ret (Ok t)
  end.

(* go: internal/repository/mock/repos.go TransactionRepo.GetByIdempotencyKey *)
Definition mock_GetByIdempotencyKey (key : string)
  : Prog MockStore (result goerror (option Transaction)) :=
  let! ts := get Transactions in
  match filter (λ t, tx_IdempotencyKey t = key) (range ts) with
  | t :: _ => ret (Ok (Some t))
  | [] => ret (Ok None)
  end.

(* go: internal/repository/mock/repos.go TransactionRepo.UpdateStatus *)
Definition mock_UpdateStatus (id : string) (status : TransactionStatus) : Prog MockStore error :=
  let! ts := get Transactions in
  match ts !! id with
  | None => ret (Some ErrTransactionNotFound)
  | Some t =>
    let! _ := modify (set_Transactions (<[id := set_Status status t]> ts)) in
    ret None
  end.

(** [filtered] is built from the newest entry of [order] to the oldest. *)
(* go: internal/repository/mock/repos.go TransactionRepo.ListByMerchant *)
Definition mock_ListByMerchant (merchantID : string) (params : ListParams)
  : Prog MockStore (result goerror (list Transaction * Z)) :=
  let! s := get id in
  let filtered :=
    filter (λ t, tx_MerchantID t = merchantID)
      (omap (λ i, Transactions s !! i) (rev (order s))) in
  let total := Z.of_nat (length filtered) in
  let start := if total <? Offset params then total else Offset params in
  let end_ := if total <? start + Limit params then total else start + Limit params in
  ret (Ok (slice (Z.to_nat start) (Z.to_nat end_) filtered, total)).

(** ** EventRepo *)

(* go: internal/repository/mock/repos.go EventRepo.Create *)
Definition mock_event_Create (event : TransactionEvent) : Prog MockStore error :=
  let! _ := modify (λ s, set_Events (Events s ++ [event]) s) in
  ret None.

(* go: internal/repository/mock/repos.go EventRepo.ListByTransaction *)
Definition mock_ListByTransaction (txID : string)
  : Prog MockStore (result goerror (list TransactionEvent)) :=
  let! es := get Events in
  ret (Ok (filter (λ e, ev_TransactionID e = txID) es)).

(** ** OutboxRepo *)

(* go: internal/repository/mock/repos.go OutboxRepo.Create *)
Definition mock_outbox_Create (event : OutboxEvent) : Prog MockStore error :=
  let! n := get nextID in
  let event := set_OutboxID n event in
  let! _ := modify (set_nextID (add64 n 1)) in
  let! _ := modify (λ s, set_Outbox (Outbox s ++ [event]) s) in
  ret None.

(** The loop of FetchUnpublished, [room] being [limit - len(result)]. *)
(* go: internal/repository/mock/repos.go 204-210 *)
Fixpoint fetch_loop (room : nat) (es : list OutboxEvent) : list OutboxEvent :=
  match es with
  | [] => []
  | e :: es' =>
    match room with
    | S room' => if ob_Published e then fetch_loop room es' else e :: fetch_loop room' es'
    | O => fetch_loop O es'
    end
  end.

(* go: internal/repository/mock/repos.go OutboxRepo.FetchUnpublished *)
Definition mock_FetchUnpublished (limit : Z) : Prog MockStore (result goerror (list OutboxEvent)) :=
  let! es := get Outbox in
  ret (Ok (fetch_loop (Z.to_nat limit) es)).

(* go: internal/repository/mock/repos.go 217-222 *)
Fixpoint mark_first (id : Z) (es : list OutboxEvent) : list OutboxEvent :=
  match es with
  | [] => []
  | e :: es' => if ob_ID e =? id then set_Published true e :: es' else e :: mark_first id es'
  end.

(* go: internal/repository/mock/repos.go OutboxRepo.MarkPublished *)
Definition mock_MarkPublished (id : Z) : Prog MockStore error :=
  let! _ := modify (λ s, set_Outbox (mark_first id (Outbox s)) s) in
  ret None.

(** ** The interfaces, which ignore the context *)

#[export] Instance mock_merchants : MerchantRepository MockStore := {|
  merchants_GetByID _ := mock_merchant_GetByID;
  merchants_GetByAPIKey _ := mock_merchant_GetByAPIKey;
  merchants_UpdateBalance _ := mock_UpdateBalance
|}.

#[export] Instance mock_txns : TransactionRepository MockStore := {|
  txns_Create _ := mock_txn_Create;
  txns_GetByID _ := mock_txn_GetByID;
  txns_GetByIdempotencyKey _ := mock_GetByIdempotencyKey;
  txns_UpdateStatus _ := mock_UpdateStatus;
  txns_ListByMerchant _ := mock_ListByMerchant
|}.

#[export] Instance mock_events : EventRepository MockStore := {|
  events_Create _ := mock_event_Create;
  events_ListByTransaction _ := mock_ListByTransaction
|}.

#[export] Instance mock_outbox : OutboxRepository MockStore := {|
  outbox_Create _ := mock_outbox_Create;
  outbox_FetchUnpublished _ := mock_FetchUnpublished;
  outbox_MarkPublished _ := mock_MarkPublished
|}.

(** ** The in-memory store keeps the contract *)

Definition mock_view (s : MockStore) : Ledger :=
  mkLedger (norm_merchant <$> Merchants s) (norm_txn <$> Transactions s)
    (map norm_event (Events s)) (map norm_outbox (Outbox s)).

(** Every listed id is stored, and no call of this store fails by itself. *)
Definition mock_good (s : MockStore) : Prop :=
  Forall (λ i, is_Some (Transactions s !! i)) (order s).

(** Unfold the program of a method and compute it. *)
Ltac run_mock := unfold call_ok, wp, bind, get, modify, ret; simpl.

Lemma refines_intro {A} (is_err : A → Prop) ci (spec : aspec A) L a L' :
  spec L a L' → refines is_err ci spec L a L'.
Proof. by left. Qed.

(** A stored transaction is found in the ledger under its own id. *)
Lemma mock_view_own s i t :
  ledger_ok (mock_view s) → Transactions s !! i = Some t →
  l_txns (mock_view s) !! tx_ID t = Some (norm_txn t).
Proof.
  intros Hok Hi.
  assert (l_txns (mock_view s) !! i = Some (norm_txn t)) as Hv by (simpl; by rewrite lookup_fmap, Hi).
  by destruct (ok_txn _ Hok _ _ Hv) as [<- _].
Qed.

Lemma mock_merchant_GetByID_ok ci id s :
  mock_good s →
  call_ok mock_view mock_good (merchants_GetByID ci id) s
    (refines err_result ci (spec_merchant_GetByID id)).
Proof.
  intros Hg. run_mock. unfold mock_merchant_GetByID. run_mock.
  destruct (Merchants s !! id) eqn:E; split; try done; apply refines_intro;
    (split; [done|]); simpl; by rewrite lookup_fmap, E.
Qed.

Lemma mock_UpdateBalance_ok ci id delta s :
  mock_good s → ledger_ok (mock_view s) → in_int64 delta →
  call_ok mock_view mock_good (merchants_UpdateBalance ci id delta) s
    (refines err_error ci (spec_UpdateBalance id delta)).
Proof.
  intros Hg Hok Hd. run_mock. unfold mock_UpdateBalance. run_mock.
  destruct (Merchants s !! id) as [m|] eqn:E; run_mock.
  2:{ split; [done|]. apply refines_intro. unfold spec_UpdateBalance. simpl.
      by rewrite lookup_fmap, E. }
  assert (0 ≤ m_BalanceCents m ≤ max_int64) as Hb.
  { apply (ok_merchant _ Hok id (norm_merchant m)). simpl. by rewrite lookup_fmap, E. }
  pose proof (add64_negative (m_BalanceCents m) delta Hb Hd) as Hneg.
  destruct (Z.ltb_spec (add64 (m_BalanceCents m) delta) 0) as [Hlt|Hge]; (split; [done|]);
    apply refines_intro; unfold spec_UpdateBalance; simpl; rewrite lookup_fmap, E; simpl.
  - apply Hneg in Hlt as [Hlt|Hlt]; [left | right; left]; done.
  - right; right. split; [lia|]. split; [done|].
    unfold mock_view, put_merchant. simpl. rewrite fmap_insert, add64_exact by lia. done.
Qed.

Lemma mock_txn_Create_ok ci t s :
  mock_good s → insertable t (mock_view s) →
  call_ok mock_view mock_good (txns_Create ci t) s (refines err_error ci (spec_txn_Create t)).
Proof.
  intros Hg Hi. run_mock. split.
  - unfold mock_good in *. simpl. apply Forall_app. split.
    + eapply Forall_impl; [exact Hg|]. intros i Hi'. simpl.
      rewrite lookup_insert. case_decide; [by eexists | done].
    + rewrite Forall_singleton, lookup_insert_eq. by eexists.
  - apply refines_intro. split; [done|]. unfold mock_view, put_txn. simpl.
    by rewrite fmap_insert.
Qed.

Lemma mock_txn_GetByID_ok ci id s :
  mock_good s →
  call_ok mock_view mock_good (txns_GetByID ci id) s
    (refines err_result ci (spec_txn_GetByID id)).
Proof.
  intros Hg. run_mock. unfold mock_txn_GetByID. run_mock.
  destruct (Transactions s !! id) eqn:E; split; try done; apply refines_intro;
    (split; [done|]); simpl; by rewrite lookup_fmap, E.
Qed.

Lemma mock_GetByIdempotencyKey_ok ci key s :
  mock_good s → ledger_ok (mock_view s) →
  call_ok mock_view mock_good (txns_GetByIdempotencyKey ci key) s
    (refines err_result ci (spec_GetByIdempotencyKey key)).
Proof.
  intros Hg Hok. run_mock. unfold mock_GetByIdempotencyKey. run_mock.
  destruct (filter _ _) as [|t l] eqn:E; (split; [done|]); apply refines_intro; (split; [done|]).
  - simpl. intros id t. rewrite lookup_fmap, fmap_Some. intros (t' & Ht & ->) Hk.
    apply (not_elem_of_nil t'). rewrite <- E, list_elem_of_filter, elem_of_range. eauto.
  - assert (t ∈ filter (λ t, tx_IdempotencyKey t = key) (range (Transactions s))) as Ht
      by (rewrite E; set_solver).
    rewrite list_elem_of_filter, elem_of_range in Ht. destruct Ht as [Hk [i Hi]].
    split; [done|]. by apply (mock_view_own s i).
Qed.

Lemma mock_UpdateStatus_ok ci id st s :
  mock_good s →
  call_ok mock_view mock_good (txns_UpdateStatus ci id st) s
    (refines err_error ci (spec_UpdateStatus id st)).
Proof.
  intros Hg. run_mock. unfold mock_UpdateStatus. run_mock.
  destruct (Transactions s !! id) as [t|] eqn:E; run_mock; split; try done;
    try apply refines_intro; unfold spec_UpdateStatus; simpl; rewrite ?lookup_fmap, ?E; simpl.
  - eapply Forall_impl; [exact Hg|]. intros i Hi'. simpl.
    rewrite lookup_insert. case_decide; [by eexists | done].
  - split; [done|]. unfold mock_view, put_txn. simpl. by rewrite fmap_insert.
  - done.
Qed.

Lemma mock_ListByMerchant_ok ci mid p s :
  mock_good s → ledger_ok (mock_view s) →
  call_ok mock_view mock_good (txns_ListByMerchant ci mid p) s
    (refines err_result ci (spec_ListByMerchant mid)).
Proof.
  intros Hg Hok. run_mock. split; [done|]. apply refines_intro. split; [done|].
  unfold slice. apply Forall_take, Forall_drop, Forall_forall. intros t.
  rewrite list_elem_of_filter, list_elem_of_omap. intros [Hm [i [_ Hi]]].
  split; [done|]. by apply (mock_view_own s i).
Qed.

Lemma mock_ListByTransaction_ok ci id s :
  mock_good s →
  call_ok mock_view mock_good (events_ListByTransaction ci id) s
    (refines err_result ci (spec_ListByTransaction id)).
Proof.
  intros Hg. run_mock. split; [done|]. apply refines_intro. split; [done|]. simpl.
  induction (Events s) as [|e es IH]; [done|].
  change (filter _ (map _ _)) with
    (filter (λ e, ev_TransactionID e = id) (norm_event e :: map norm_event es)).
  rewrite !filter_cons. change (ev_TransactionID (norm_event e)) with (ev_TransactionID e).
  case_decide; [by apply Permutation_skip | done].
Qed.

#[export] Instance mock_laws : RepositoryLaws MockStore.
Proof.
  refine {| view := mock_view; good := mock_good |}; intros.
  - by apply mock_merchant_GetByID_ok.
  - by apply mock_UpdateBalance_ok.
  - by apply mock_txn_Create_ok.
  - by apply mock_txn_GetByID_ok.
  - by apply mock_GetByIdempotencyKey_ok.
  - by apply mock_UpdateStatus_ok.
  - by apply mock_ListByMerchant_ok.
  - run_mock. split; [done|]. apply refines_intro. split; [done|].
    unfold mock_view, add_event. simpl. by rewrite map_app.
  - by apply mock_ListByTransaction_ok.
  - run_mock. split; [done|]. apply refines_intro. split; [done|].
    unfold mock_view, add_outbox. simpl. by rewrite map_app.
Defined.

#[export] Instance mock_auth_laws : AuthLaws MockStore.
Proof.
  split. intros ci key s Hg Hok. run_mock. unfold mock_merchant_GetByAPIKey. run_mock.
  destruct (filter _ _) as [|m l] eqn:E; (split; [done|]); apply refines_intro; (split; [done|]).
  - split; [done|]. intros id m. simpl. rewrite lookup_fmap, fmap_Some. intros (m0 & Hm & ->) Hk. simpl in Hk.
    destruct (not_elem_of_nil m0). rewrite <- E, list_elem_of_filter, elem_of_range. split; [done | by exists id].
  - assert (m ∈ filter (λ m, m_APIKey m = key) (range (Merchants s))) as Hin by (rewrite E; set_solver).
    rewrite list_elem_of_filter, elem_of_range in Hin. destruct Hin as [Hk [i Hi]]. split; [done|].
    assert (l_merchants (mock_view s) !! i = Some (norm_merchant m)) as Hv by (simpl; by rewrite lookup_fmap, Hi).
    destruct (ok_merchant _ Hok _ _ Hv) as [Hid _]. simpl in Hid. simpl. by rewrite lookup_fmap, Hid, Hi.
Qed.
End mock.
