(* ===== verification/Postgres.v ===== *)
(** * Postgres: the SQL repositories of internal/repository/postgres

    The tables of the migrations as finite maps and lists of rows, each SQL
    statement as a function on them with the constraints the schema declares,
    and the repository methods over these statements.  A statement is atomic;
    a transaction keeps the tables as they were when it began, for the
    rollback, and sequences are not rolled back.  The rounding of timestamps
    to microseconds is not modelled, and a statement that PostgreSQL refuses
    because a text holds a NUL or invalid UTF-8 is one of the failing statements
    of the environment: a run without faults has texts that can be stored. *)

From stdpp Require Import base tactics list gmap strings sorting pretty.
From S2P Require Import Prelude GoLib Domain Repository.

Open Scope string_scope.
Open Scope Z_scope.

(** ** Tables (migrations/0001 to 0006) *)

(** A NULL is [None]; columns declared NOT NULL have no option. *)
Record txn_row := mkTxnRow {
  tr_id : string;
  tr_merchant_id : string;
  tr_amount_cents : Z;
  tr_currency : string;
  tr_status : string;
  tr_idempotency_key : option string;
  tr_description : option string;
  tr_metadata : RawMessage;
  tr_created_at : Z;
  tr_updated_at : Z
}.

Record event_row := mkEventRow {
  er_id : Z;
  er_transaction_id : string;
  er_event_type : string;
  er_from_status : option string;
  er_to_status : option string;
  er_payload : option RawMessage;
  er_created_at : Z
}.

Record outbox_row := mkOutboxRow {
  or_id : Z;
  or_event_type : string;
  or_payload : RawMessage;
  or_published : bool;
  or_published_at : option Z;
  or_created_at : Z
}.

Record PgStore := mkPgStore {
  pg_merchants : gmap string Merchant;
  pg_txns : gmap string txn_row;
  pg_events : list event_row;
  pg_outbox : list outbox_row;
  pg_event_seq : Z;
  pg_outbox_seq : Z
}.

Definition with_merchants x s :=
  mkPgStore x (pg_txns s) (pg_events s) (pg_outbox s) (pg_event_seq s) (pg_outbox_seq s).
Definition with_txns x s :=
  mkPgStore (pg_merchants s) x (pg_events s) (pg_outbox s) (pg_event_seq s) (pg_outbox_seq s).
Definition with_events x n s :=
  mkPgStore (pg_merchants s) (pg_txns s) x (pg_outbox s) n (pg_outbox_seq s).
Definition with_outbox x n s :=
  mkPgStore (pg_merchants s) (pg_txns s) (pg_events s) x (pg_event_seq s) n.

Definition NULLIF_empty (x : string) : option string := if bool_decide (x = "") then None else Some x.
Definition pq_error (text : string) : goerror := Opaque ("pq: " +:+ text).

(** The columns of a row, scanned into a [domain.Transaction]. *)
(* go: internal/repository/postgres/transaction.go 53-77 *)
Definition scan_txn (r : txn_row) : Transaction :=
  mkTransaction (tr_id r) (tr_merchant_id r) (tr_amount_cents r) (tr_currency r) (tr_status r)
    (default "" (tr_idempotency_key r)) (default "" (tr_description r)) (Some (tr_metadata r))
    (tr_created_at r) (tr_updated_at r).

(** The parameters of the INSERT; an empty metadata becomes an empty object. *)
(* go: internal/repository/postgres/transaction.go 28-40 *)
Definition txn_params (t : Transaction) : txn_row :=
  mkTxnRow (tx_ID t) (tx_MerchantID t) (tx_AmountCents t) (tx_Currency t) (tx_Status t)
    (NULLIF_empty (tx_IdempotencyKey t)) (NULLIF_empty (tx_Description t))
    (default ∅ (tx_Metadata t)) (tx_CreatedAt t) (tx_UpdatedAt t).

Definition set_row_status (st : string) (u : Z) (r : txn_row) : txn_row :=
  mkTxnRow (tr_id r) (tr_merchant_id r) (tr_amount_cents r) (tr_currency r) st
    (tr_idempotency_key r) (tr_description r) (tr_metadata r) (tr_created_at r) u.

(** A row of the outbox, scanned into a [domain.OutboxEvent]. *)
Definition scan_outbox (r : outbox_row) : OutboxEvent :=
  mkOutboxEvent (or_id r) (or_event_type r) (or_payload r) (or_published r) (or_created_at r).

(* go: internal/repository/postgres/events.go 90 *)
Definition outboxClaimLease : Z := 30 * Second.

Section postgres.
Context `{MapRange}.

(** What scanning a NULL into a [*json.RawMessage] reports; it depends on the
    driver. *)
Variable scan_null : error.

(** ** MerchantRepo *)

(* go: internal/repository/postgres/merchant.go MerchantRepo.GetByID *)
Definition pg_merchant_GetByID (ci : CallInfo) (id : string) : Prog PgStore (result goerror Merchant) :=
  statement ci (λ e, Err (Errorf ("query merchant " +:+ id +:+ ": ") e)) (
    let! ms := get pg_merchants in
    match ms !! id with
    | None => ret (Err ErrMerchantNotFound)
    | Some m => ret (Ok m)
    end).

(* go: internal/repository/postgres/merchant.go MerchantRepo.GetByAPIKey *)
Definition pg_merchant_GetByAPIKey (ci : CallInfo) (apiKey : string)
  : Prog PgStore (result goerror Merchant) :=
  statement ci (λ e, Err (Errorf "query merchant by api_key: " e)) (
    let! ms := get pg_merchants in
    match filter (λ m, m_APIKey m = apiKey ∧ m_Status m = "ACTIVE") (range ms) with
    | [] => ret (Err ErrMerchantNotFound)
    | m :: _ => ret (Ok m)
    end).

(** [UPDATE merchants SET balance_cents = balance_cents + $1 WHERE id = $2 AND
    balance_cents + $1 >= 0]: the number of rows, or the overflow of BIGINT. *)
(* go: internal/repository/postgres/merchant.go 74-79 *)
Definition sql_update_balance (now : Z) (id : string) (delta : Z) : Prog PgStore (result goerror Z) :=
  let! ms := get pg_merchants in
  match ms !! id with
  | None => ret (Ok 0)
  | Some m =>
    let b := m_BalanceCents m + delta in
    if negb (bool_decide (in_int64 b)) then ret (Err (pq_error "bigint out of range"))
    else if 0 <=? b then
      let! _ := modify (with_merchants (<[id := set_MerchantUpdatedAt now (set_Balance b m)]> ms)) in
      ret (Ok 1)
    else ret (Ok 0)
  end.

(* go: internal/repository/postgres/merchant.go MerchantRepo.UpdateBalance *)
Definition pg_UpdateBalance (ci : CallInfo) (id : string) (delta : Z) : Prog PgStore error :=
  let! result := statement ci Err (sql_update_balance (ci_now ci) id delta) in
  match result with
  | Err err => ret (Some (Errorf ("update balance for " +:+ id +:+ ": ") err))
  | Ok rows =>
    if rows =? 0 then
      let! r := pg_merchant_GetByID ci id in
      match r with
      | Err lookupErr => ret (Some lookupErr)
      | Ok _ => ret (Some ErrInsufficientFunds)
      end
    else ret None
  end.

(** ** TransactionRepo *)

(** The constraints of the table, checked by every INSERT: primary key, foreign
    key, the CHECKs, and the unique index on non-NULL idempotency keys. *)
Definition txn_constraint (s : PgStore) (r : txn_row) : option string :=
  if negb (bool_decide (pg_txns s !! tr_id r = None)) then Some "transactions_pkey"
  else if bool_decide (pg_merchants s !! tr_merchant_id r = None) then
    Some "transactions_merchant_id_fkey"
  else if negb (bool_decide (0 < tr_amount_cents r ≤ max_int64)) then
    Some "transactions_amount_cents_check"
  else if negb (bool_decide (tr_currency r ∈ ["CAD"; "USD"])) then Some "transactions_currency_check"
  else if negb (bool_decide (valid_status (tr_status r))) then Some "transactions_status_check"
  else match tr_idempotency_key r with
  | None => None
  | Some k =>
    if bool_decide (filter (λ r', tr_idempotency_key r' = Some k) (range (pg_txns s)) = []) then None
    else Some "uq_transactions_idempotency_key"
  end.

(* go: internal/repository/postgres/transaction.go TransactionRepo.Create *)
Definition pg_txn_Create (ci : CallInfo) (t : Transaction) : Prog PgStore error :=
  statement ci (λ e, Some (Errorf "insert transaction: " e)) (
    let! s := get id in
    let r := txn_params t in
    match txn_constraint s r with
    | Some c => ret (Some (Errorf "insert transaction: " (pq_error c)))
    | None =>
      let! _ := modify (with_txns (<[tr_id r := r]> (pg_txns s))) in
      ret None
    end).

(* go: internal/repository/postgres/transaction.go TransactionRepo.GetByID *)
Definition pg_txn_GetByID (ci : CallInfo) (id : string) : Prog PgStore (result goerror Transaction) :=
  statement ci (λ e, Err (Errorf ("query transaction " +:+ id +:+ ": ") e)) (
    let! ts := get pg_txns in
    match ts !! id with
    | None => ret (Err ErrTransactionNotFound)
    | Some r => ret (Ok (scan_txn r))
    end).

(* go: internal/repository/postgres/transaction.go TransactionRepo.GetByIdempotencyKey *)
Definition pg_GetByIdempotencyKey (ci : CallInfo) (key : string)
  : Prog PgStore (result goerror (option Transaction)) :=
  statement ci (λ e, Err (Errorf "query by idempotency key: " e)) (
    let! ts := get pg_txns in
    match filter (λ r, tr_idempotency_key r = Some key) (range ts) with
    | [] => ret (Ok None)
    | r :: _ => ret (Ok (Some (scan_txn r)))
    end).

(* go: internal/repository/postgres/transaction.go TransactionRepo.UpdateStatus *)
Definition pg_UpdateStatus (ci : CallInfo) (id : string) (status : TransactionStatus)
  : Prog PgStore error :=
  statement ci (λ e, Some (Errorf "update transaction status: " e)) (
    let! ts := get pg_txns in
    match ts !! id with
    | None => ret (Some ErrTransactionNotFound)
    | Some r =>
      if negb (bool_decide (valid_status status)) then
        ret (Some (Errorf "update transaction status: " (pq_error "transactions_status_check")))
      else
        let! _ := modify (with_txns (<[id := set_row_status status (ci_now ci) r]> ts)) in
        ret None
    end).

(** [ORDER BY created_at DESC LIMIT OFFSET]; the order among equal times is
    left open, as the scan order is. *)
Definition newest_first (r r' : txn_row) : Prop := tr_created_at r' ≤ tr_created_at r.
#[export] Instance newest_first_dec r r' : Decision (newest_first r r').
Proof. unfold newest_first. apply _. Defined.

(* go: internal/repository/postgres/transaction.go TransactionRepo.ListByMerchant *)
Definition pg_ListByMerchant (ci : CallInfo) (merchantID : string) (params : ListParams)
  : Prog PgStore (result goerror (list Transaction * Z)) :=
  try! total := statement ci (λ e, Err (Errorf "count transactions: " e)) (
      let! ts := get pg_txns in
      ret (Ok (Z.of_nat (length (filter (λ r, tr_merchant_id r = merchantID) (range ts))))))
    or err => ret (Err err);
  statement ci (λ e, Err (Errorf "list transactions: " e)) (
    let! ts := get pg_txns in
    let rows := merge_sort newest_first (filter (λ r, tr_merchant_id r = merchantID) (range ts)) in
    ret (Ok (map scan_txn (take (Z.to_nat (Limit params)) (drop (Z.to_nat (Offset params)) rows)), total))).

(** ** EventRepo *)

Definition event_params (id : Z) (e : TransactionEvent) : event_row :=
  mkEventRow id (ev_TransactionID e) (ev_EventType e) (NULLIF_empty (ev_FromStatus e))
    (NULLIF_empty (ev_ToStatus e)) (ev_Payload e) (ev_CreatedAt e).

Definition scan_event (r : event_row) : TransactionEvent :=
  mkTransactionEvent (er_id r) (er_transaction_id r) (er_event_type r)
    (default "" (er_from_status r)) (default "" (er_to_status r)) (er_payload r) (er_created_at r).

(** A nil payload is stored as NULL; the serial id is drawn even when the
    insertion fails on the foreign key. *)
(* go: internal/repository/postgres/events.go EventRepo.Create *)
Definition pg_event_Create (ci : CallInfo) (event : TransactionEvent) : Prog PgStore error :=
  statement ci (λ e, Some (Errorf "insert event: " e)) (
    let! s := get id in
    let r := event_params (pg_event_seq s) event in
    if bool_decide (pg_txns s !! ev_TransactionID event = None) then
      let! _ := modify (with_events (pg_events s) (pg_event_seq s + 1)) in
      ret (Some (Errorf "insert event: " (pq_error "transaction_events_transaction_id_fkey")))
    else
      let! _ := modify (with_events (pg_events s ++ [r])%list (pg_event_seq s + 1)) in
      ret None).

Definition event_order (r r' : event_row) : Prop := er_created_at r ≤ er_created_at r'.
#[export] Instance event_order_dec r r' : Decision (event_order r r').
Proof. unfold event_order. apply _. Defined.

(** The loop over the rows; the first row that does not scan ends it. *)
(* go: internal/repository/postgres/events.go 66-74 *)
Fixpoint scan_events (rows : list event_row) : result goerror (list TransactionEvent) :=
  match rows with
  | [] => Ok []
  | r :: rows =>
    match (if bool_decide (er_payload r = None) then scan_null else None) with
    | Some err => Err (Errorf "scan event: " err)
    | None => result_map (cons (scan_event r)) (scan_events rows)
    end
  end.

(* go: internal/repository/postgres/events.go EventRepo.ListByTransaction *)
Definition pg_ListByTransaction (ci : CallInfo) (txID : string)
  : Prog PgStore (result goerror (list TransactionEvent)) :=
  statement ci (λ e, Err (Errorf ("list events for tx " +:+ txID +:+ ": ") e)) (
    let! es := get pg_events in
    ret (scan_events (merge_sort event_order (filter (λ r, er_transaction_id r = txID) es)))).

(** ** OutboxRepo *)

(* go: internal/repository/postgres/events.go OutboxRepo.Create *)
Definition pg_outbox_Create (ci : CallInfo) (event : OutboxEvent) : Prog PgStore error :=
  statement ci (λ e, Some (Errorf "insert outbox event: " e)) (
    let! s := get id in
    let r := mkOutboxRow (pg_outbox_seq s) (ob_EventType event) (ob_Payload event) false None
      (ob_CreatedAt event) in
    let! _ := modify (with_outbox (pg_outbox s ++ [r])%list (pg_outbox_seq s + 1)) in
    ret None).

(** [published = FALSE AND (published_at IS NULL OR published_at <= NOW())]:
    while a row is unpublished, [published_at] is the end of its lease. *)
(* go: internal/repository/postgres/events.go 127-128 *)
Definition claimable (now : Z) (r : outbox_row) : bool :=
  negb (or_published r) &&
  match or_published_at r with None => true | Some t => t <=? now end.

Definition outbox_order (r r' : outbox_row) : Prop := or_created_at r ≤ or_created_at r'.
#[export] Instance outbox_order_dec r r' : Decision (outbox_order r r').
Proof. unfold outbox_order. apply _. Defined.

(** The rows the CTE selects. *)
(* go: internal/repository/postgres/events.go 123-132 *)
Definition claimed_rows (now limit : Z) (rows : list outbox_row) : list outbox_row :=
  take (Z.to_nat limit) (merge_sort outbox_order (filter (λ r, claimable now r = true) rows)).

Definition lease (until : Z) (ids : list Z) (r : outbox_row) : outbox_row :=
  if bool_decide (or_id r ∈ ids)
  then mkOutboxRow (or_id r) (or_event_type r) (or_payload r) (or_published r) (Some until)
         (or_created_at r)
  else r.

(* go: internal/repository/postgres/events.go OutboxRepo.FetchUnpublished *)
Definition pg_FetchUnpublished (ci : CallInfo) (limit : Z)
  : Prog PgStore (result goerror (list OutboxEvent)) :=
  statement ci (λ e, Err (Errorf "claim unpublished: " e)) (
    if limit <? 0 then ret (Err (Errorf "claim unpublished: " (pq_error "LIMIT must not be negative")))
    else
      let! s := get id in
      let rows := claimed_rows (ci_now ci) limit (pg_outbox s) in
      let ids := map or_id rows in
      let! _ := modify (with_outbox (map (lease (ci_now ci + outboxClaimLease) ids) (pg_outbox s))
        (pg_outbox_seq s)) in
      ret (Ok (map scan_outbox rows))).

Definition mark_row (now id : Z) (r : outbox_row) : outbox_row :=
  if or_id r =? id
  then mkOutboxRow (or_id r) (or_event_type r) (or_payload r) true (Some now) (or_created_at r)
  else r.

(* go: internal/repository/postgres/events.go OutboxRepo.MarkPublished *)
Definition pg_MarkPublished (ci : CallInfo) (id : Z) : Prog PgStore error :=
  statement ci (λ e, Some (Errorf ("mark published " +:+ pretty id +:+ ": ") e)) (
    let! s := get (λ s, s) in
    let! _ := modify (with_outbox (map (mark_row (ci_now ci) id) (pg_outbox s)) (pg_outbox_seq s)) in
    ret None).

(** ** Transactions *)

(** A rollback restores the rows, but not the sequences, which only grow. *)
Definition rolled_back (s0 s : PgStore) : PgStore :=
  mkPgStore (pg_merchants s0) (pg_txns s0) (pg_events s0) (pg_outbox s0)
    (Z.max (pg_event_seq s0) (pg_event_seq s)) (Z.max (pg_outbox_seq s0) (pg_outbox_seq s)).

(** [database/sql] rolls a transaction back when its context ends, and
    [Commit] then reports an error. *)
Definition pg_BeginTx (ci : CallInfo) : Prog PgStore error :=
  statement ci Some (ret None).

Definition pg_Commit (ci : CallInfo) (s0 : PgStore) : Prog PgStore error :=
  commit ci (rolled_back s0).

#[export] Instance pg_merchant_repo : MerchantRepository PgStore := {|
  merchants_GetByID := pg_merchant_GetByID;
  merchants_GetByAPIKey := pg_merchant_GetByAPIKey;
  merchants_UpdateBalance := pg_UpdateBalance
|}.

#[export] Instance pg_txn_repo : TransactionRepository PgStore := {|
  txns_Create := pg_txn_Create;
  txns_GetByID := pg_txn_GetByID;
  txns_GetByIdempotencyKey := pg_GetByIdempotencyKey;
  txns_UpdateStatus := pg_UpdateStatus;
  txns_ListByMerchant := pg_ListByMerchant
|}.

#[export] Instance pg_event_repo : EventRepository PgStore := {|
  events_Create := pg_event_Create;
  events_ListByTransaction := pg_ListByTransaction
|}.

#[export] Instance pg_outbox_repo : OutboxRepository PgStore := {|
  outbox_Create := pg_outbox_Create;
  outbox_FetchUnpublished := pg_FetchUnpublished;
  outbox_MarkPublished := pg_MarkPublished
|}.

#[export] Instance pg_database : Database PgStore := {|
  db_BeginTx := pg_BeginTx;
  db_Commit := pg_Commit;
  db_Rollback := rolled_back
|}.

(** The transaction helper of this package, which [payment.go] repeats without
    the message on a failed rollback. *)
(* go: internal/repository/postgres/db.go WithTransaction *)
Definition WithTransaction (ci_begin ci_commit : CallInfo) (rollback_err : error)
    (fn : Prog PgStore error) : Prog PgStore error :=
  check! pg_BeginTx ci_begin or err => ret (Some (Errorf "begin transaction: " err));
  let! s0 := get id in
  check! fn or err =>
    (let! _ := modify (rolled_back s0) in
     match rollback_err with
     | Some rbErr => ret (Some (Errorf ("rollback failed (" +:+ Error rbErr +:+ ") after error: ") err))
     | None => ret (Some err)
     end);
  check! pg_Commit ci_commit s0 or err => ret (Some (Errorf "commit transaction: " err));
  ret None.

(** ** The SQL repositories keep the contract *)

Definition pg_view (s : PgStore) : Ledger :=
  mkLedger (norm_merchant <$> pg_merchants s) (norm_txn ∘ scan_txn <$> pg_txns s)
    (map (norm_event ∘ scan_event) (pg_events s)) (map (norm_outbox ∘ scan_outbox) (pg_outbox s)).

(** The unique index, and outbox ids that come from the sequence. *)
Record pg_good (s : PgStore) : Prop := {
  good_keys i j r r' k :
    pg_txns s !! i = Some r → pg_txns s !! j = Some r' →
    tr_idempotency_key r = Some k → tr_idempotency_key r' = Some k → i = j;
  good_outbox_ids : NoDup (map or_id (pg_outbox s));
  good_outbox_seq : Forall (λ i, i < pg_outbox_seq s) (map or_id (pg_outbox s))
}.

Ltac run_pg := unfold call_ok, wp, bind, get, modify, ret, id; simpl.

Lemma statement_ok {A} ci (fail : goerror → A) (m : Prog PgStore A) s is_err spec :
  pg_good s → (∀ e, is_err (fail e)) →
  call_ok pg_view pg_good m s spec →
  call_ok pg_view pg_good (statement ci fail m) s (refines is_err ci spec).
Proof.
  intros Hg Herr Hm. unfold statement.
  destruct (ci_ctx ci) as [e|] eqn:Ec.
  { split; [done|]. right. split_and!; [by intros [? ?]; congruence | done | by left]. }
  destruct (ci_fault ci) as [|e|e] eqn:Ef.
  - eapply wp_mono; [exact Hm|]. intros a s' [? ?]. split; [done | by left].
  - split; [done|]. right. split_and!; [by intros [? ?]; congruence | done | by left].
  - apply wp_bind. eapply wp_mono; [exact Hm|]. intros a s' [? ?]. apply wp_ret. split; [done|].
    right. split_and!; [by intros [? ?]; congruence | done | right; eauto].
Qed.

Lemma good_with_merchants ms s : pg_good s → pg_good (with_merchants ms s).
Proof. by intros [? ? ?]. Qed.

Lemma good_with_events es n s : pg_good s → pg_good (with_events es n s).
Proof. by intros [? ? ?]. Qed.

Lemma good_update_txn id r r' s :
  pg_txns s !! id = Some r → tr_idempotency_key r' = tr_idempotency_key r →
  pg_good s → pg_good (with_txns (<[id := r']> (pg_txns s)) s).
Proof.
  intros Hr Hk [Hkeys ? ?]. split; simpl; [|done..]. intros i j r1 r2 k.
  rewrite !lookup_insert_Some. intros [[<- <-]|[? ?]] [[<- <-]|[? ?]]; try done; rewrite ?Hk; eauto.
Qed.

Lemma txn_constraint_None s r :
  txn_constraint s r = None ↔
    pg_txns s !! tr_id r = None ∧ is_Some (pg_merchants s !! tr_merchant_id r) ∧
    0 < tr_amount_cents r ≤ max_int64 ∧ tr_currency r ∈ ["CAD"; "USD"] ∧
    valid_status (tr_status r) ∧
    ∀ k, tr_idempotency_key r = Some k →
      ∀ i r', pg_txns s !! i = Some r' → tr_idempotency_key r' ≠ Some k.
Proof.
  unfold txn_constraint. rewrite <- not_eq_None_Some.
  case_bool_decide; simpl; [|naive_solver]. case_bool_decide; [naive_solver|].
  case_bool_decide; simpl; [|naive_solver]. case_bool_decide; simpl; [|naive_solver].
  case_bool_decide; simpl; [|naive_solver].
  destruct (tr_idempotency_key r) as [k|]; [|naive_solver].
  case_bool_decide as Hf; split; try done.
  - intros _. do 5 (split; [done|]). intros k' [= <-] i r' Hi Hk. apply (not_elem_of_nil r').
    rewrite <- Hf, list_elem_of_filter, elem_of_range. eauto.
  - intros (_ & _ & _ & _ & _ & Hk). exfalso. apply Hf, elem_of_nil_inv. intros r'.
    rewrite list_elem_of_filter, elem_of_range. intros [? [i ?]]. by eapply Hk.
Qed.

Lemma good_insert_txn r s :
  txn_constraint s r = None → pg_good s → pg_good (with_txns (<[tr_id r := r]> (pg_txns s)) s).
Proof.
  intros (_ & _ & _ & _ & _ & Hnew)%txn_constraint_None [Hkeys ? ?]. split; simpl; [|done..].
  intros i j r1 r2 k. rewrite !lookup_insert_Some.
  intros [[<- <-]|[? ?]] [[<- <-]|[? ?]] Hk1 Hk2; try done;
    [by eapply Hnew in Hk2 | by eapply Hnew in Hk1 | eauto].
Qed.

Lemma good_append_outbox r s :
  or_id r = pg_outbox_seq s → pg_good s →
  pg_good (with_outbox (pg_outbox s ++ [r])%list (pg_outbox_seq s + 1) s).
Proof.
  intros Hr [? Hnd Hseq]. split; simpl; [done | |].
  - rewrite map_app, NoDup_app. split_and!; [done | | apply NoDup_singleton].
    intros i Hi Hr'. apply list_elem_of_singleton in Hr'. rewrite Forall_forall in Hseq.
    specialize (Hseq _ Hi). simpl in *. lia.
  - rewrite map_app, Forall_app. split; [|repeat constructor; lia].
    eapply Forall_impl; [exact Hseq|]. simpl. lia.
Qed.

Lemma good_update_outbox f s :
  (∀ r, or_id (f r) = or_id r) → pg_good s →
  pg_good (with_outbox (map f (pg_outbox s)) (pg_outbox_seq s) s).
Proof.
  intros Hf [? Hnd Hseq].
  assert (map or_id (map f (pg_outbox s)) = map or_id (pg_outbox s)) as E.
  { rewrite map_map. by apply map_ext. }
  split; simpl; rewrite ?E; done.
Qed.

Lemma good_rolled_back s0 s : pg_good s0 → pg_good s → pg_good (rolled_back s0 s).
Proof.
  intros [? ? Hseq] _. split; simpl; [done..|]. eapply Forall_impl; [exact Hseq|]. simpl. lia.
Qed.

Lemma view_txn s id : l_txns (pg_view s) !! id = norm_txn ∘ scan_txn <$> pg_txns s !! id.
Proof. apply lookup_fmap. Qed.

Lemma view_merchant s id : l_merchants (pg_view s) !! id = norm_merchant <$> pg_merchants s !! id.
Proof. apply lookup_fmap. Qed.

(** A row is in the ledger under the id of its transaction. *)
Lemma view_own s i r :
  ledger_ok (pg_view s) → pg_txns s !! i = Some r →
  l_txns (pg_view s) !! tx_ID (scan_txn r) = Some (norm_txn (scan_txn r)).
Proof.
  intros Hok Hi. assert (l_txns (pg_view s) !! i = Some (norm_txn (scan_txn r))) as Hv
    by (by rewrite view_txn, Hi).
  by destruct (ok_txn _ Hok _ _ Hv) as [<- _].
Qed.

Lemma scan_params t : norm_txn (scan_txn (txn_params t)) = norm_txn t.
Proof.
  unfold norm_txn, scan_txn, txn_params, NULLIF_empty, set_Metadata, set_UpdatedAt. simpl.
  do 2 case_bool_decide; simpl; congruence.
Qed.

Lemma insertable_constraint t s :
  insertable t (pg_view s) → txn_constraint s (txn_params t) = None.
Proof.
  intros [Hf Hk Hm Ha Hc Hs]. apply txn_constraint_None. simpl.
  rewrite view_txn in Hf. rewrite view_merchant in Hm. apply fmap_None in Hf.
  apply fmap_is_Some in Hm. do 5 (split; [done || set_solver|]).
  unfold NULLIF_empty. intros k Ek i r' Hi Hk'.
  case_bool_decide as Hne; simplify_eq.
  destruct Hk as [?|Hk]; [done|].
  apply (Hk i (norm_txn (scan_txn r'))); [by rewrite view_txn, Hi|]. simpl. by rewrite Hk'.
Qed.

Lemma pg_txn_Create_ok ci t s :
  pg_good s → insertable t (pg_view s) →
  call_ok pg_view pg_good (txns_Create ci t) s (refines err_error ci (spec_txn_Create t)).
Proof.
  intros Hg Hi. apply statement_ok; [done | by eexists |]. run_pg.
  pose proof (insertable_constraint _ _ Hi) as Hc. rewrite Hc.
  split; [by apply good_insert_txn|]. split; [done|].
  unfold pg_view, put_txn. simpl. rewrite fmap_insert. simpl. by rewrite scan_params.
Qed.

Lemma pg_txn_GetByID_ok ci id s :
  pg_good s →
  call_ok pg_view pg_good (txns_GetByID ci id) s (refines err_result ci (spec_txn_GetByID id)).
Proof.
  intros Hg. apply statement_ok; [done..|]. run_pg.
  destruct (pg_txns s !! id) eqn:E; (split; [done|]); unfold spec_txn_GetByID;
    (split; [done|]); rewrite view_txn, E; done.
Qed.

Lemma pg_merchant_GetByID_ok ci id s :
  pg_good s →
  call_ok pg_view pg_good (merchants_GetByID ci id) s
    (refines err_result ci (spec_merchant_GetByID id)).
Proof.
  intros Hg. apply statement_ok; [done..|]. run_pg.
  destruct (pg_merchants s !! id) eqn:E; (split; [done|]); unfold spec_merchant_GetByID;
    (split; [done|]); rewrite view_merchant, E; done.
Qed.

Lemma pg_GetByIdempotencyKey_ok ci key s :
  pg_good s → ledger_ok (pg_view s) → key ≠ "" →
  call_ok pg_view pg_good (txns_GetByIdempotencyKey ci key) s
    (refines err_result ci (spec_GetByIdempotencyKey key)).
Proof.
  intros Hg Hok Hkey. apply statement_ok; [done..|]. run_pg.
  destruct (filter _ _) as [|r l] eqn:E; (split; [done|]); (split; [done|]).
  - intros id t. rewrite view_txn, fmap_Some. intros (r & Hr & ->) Hk. simpl in Hk.
    apply (not_elem_of_nil r). rewrite <- E, list_elem_of_filter, elem_of_range.
    split; [|by exists id]. by destruct (tr_idempotency_key r); simpl in Hk; subst.
  - assert (r ∈ filter (λ r, tr_idempotency_key r = Some key) (range (pg_txns s))) as Hr
      by (rewrite E; set_solver).
    rewrite list_elem_of_filter, elem_of_range in Hr. destruct Hr as [Hk [i Hi]].
    split; [simpl; by rewrite Hk | by apply (view_own s i)].
Qed.

Lemma pg_UpdateStatus_ok ci id st s :
  pg_good s → valid_status st →
  call_ok pg_view pg_good (txns_UpdateStatus ci id st) s
    (refines err_error ci (spec_UpdateStatus id st)).
Proof.
  intros Hg Hst. apply statement_ok; [done | by eexists |]. run_pg.
  unfold spec_UpdateStatus. rewrite view_txn.
  destruct (pg_txns s !! id) as [r|] eqn:E; [|done]. rewrite bool_decide_true by done. simpl.
  split; [by eapply good_update_txn|]. split; [done|].
  unfold pg_view, put_txn. simpl. by rewrite fmap_insert.
Qed.

Lemma pg_UpdateBalance_statement ci id delta m s :
  pg_good s → ledger_ok (pg_view s) → in_int64 delta → pg_merchants s !! id = Some m →
  call_ok pg_view pg_good (sql_update_balance (ci_now ci) id delta) s (λ L a L',
    let b := m_BalanceCents m + delta in
    (max_int64 < b ∧ is_Err a ∧ L' = L) ∨ (b < 0 ∧ a = Ok 0 ∧ L' = L) ∨
    (0 ≤ b ≤ max_int64 ∧ a = Ok 1 ∧
       L' = put_merchant id (set_Balance b (norm_merchant m)) L)).
Proof.
  intros Hg Hok Hd E. unfold sql_update_balance. run_pg. rewrite E.
  assert (0 ≤ m_BalanceCents m ≤ max_int64) as Hb.
  { apply (ok_merchant _ Hok id (norm_merchant m)). by rewrite view_merchant, E. }
  case_bool_decide as Hin; simpl.
  2:{ split; [done|]. left. split_and!; [int64 | done | done]. }
  destruct (Z.leb_spec 0 (m_BalanceCents m + delta)).
  - split; [by apply good_with_merchants|]. right; right. split_and!; [done | int64 | done |].
    unfold pg_view, put_merchant. simpl. by rewrite fmap_insert.
  - split; [done|]. right; left. done.
Qed.

(** The lookup after an UPDATE that changed no row. *)
Lemma pg_lookup_ok ci id s (Q : error → PgStore → Prop) :
  pg_good s →
  (∀ e s', pg_good s' → pg_view s' = pg_view s →
    (¬ clean ci ∨
     e = match l_merchants (pg_view s) !! id with
         | Some _ => ErrInsufficientFunds | None => ErrMerchantNotFound end) →
    Q (Some e) s') →
  wp (let! r := pg_merchant_GetByID ci id in
      match r with
      | Err lookupErr => ret (Some lookupErr)
      | Ok _ => ret (Some ErrInsufficientFunds)
      end) Q s.
Proof.
  intros Hg HQ. apply wp_bind. eapply wp_mono; [exact (pg_merchant_GetByID_ok ci id s Hg)|].
  intros r s' [Hg' Hr].
  assert (pg_view s' = pg_view s) as HL.
  { destruct Hr as [[-> _]|(_ & _ & [->|(? & -> & _)])]; done. }
  destruct Hr as [[_ Hr]|(Hc & He & _)].
  - destruct r; cbn [result_map] in Hr; apply wp_ret, HQ; try done; right;
      destruct (l_merchants (pg_view s) !! id); congruence.
  - destruct r; [done|]. apply wp_ret, HQ; auto.
Qed.

Lemma pg_UpdateBalance_ok ci id delta s :
  pg_good s → ledger_ok (pg_view s) → in_int64 delta →
  call_ok pg_view pg_good (merchants_UpdateBalance ci id delta) s
    (refines err_error ci (spec_UpdateBalance id delta)).
Proof.
  intros Hg Hok Hd. apply wp_bind. unfold refines, spec_UpdateBalance. rewrite view_merchant.
  destruct (pg_merchants s !! id) as [m|] eqn:E; simpl.
  - eapply wp_mono; [exact (statement_ok ci Err _ s is_Err _ Hg (λ _, I)
      (pg_UpdateBalance_statement ci id delta m s Hg Hok Hd E))|].
    intros a s' [Hg' [[(? & Ha & HL)|[(? & -> & HL)|(? & -> & HL)]]|(Hc & Ha & HL)]].
    + destruct a; [done|]. apply wp_ret. split; [done|]. left. right; left.
      split_and!; [done | by eexists | done].
    + apply pg_lookup_ok; [done|]. intros e s2 Hg2 HL2 He. split; [done|].
      rewrite HL2, HL in *. rewrite view_merchant, E in He.
      destruct He as [Hc| ->]; [right | left; left; done].
      split_and!; [done | by eexists | by left].
    + apply wp_ret. split; [done|]. left. right; right. done.
    + destruct a; [done|]. apply wp_ret. split; [done|]. right. split_and!; [done | by eexists |].
      destruct HL as [HL|(a' & [(? & ? & HL)|[(? & ? & HL)|(? & ? & HL)]])]; [by left.. |].
      right. exists None. right; right. done.
  - eapply wp_mono; [apply (statement_ok ci Err _ s is_Err (λ L a L', a = Ok 0 ∧ L' = L));
      [done | done |]|].
    { unfold sql_update_balance. run_pg. by rewrite E. }
    intros a s' [Hg' [[-> HL]|(Hc & Ha & HL)]]; simpl.
    + apply pg_lookup_ok; [done|]. intros e s2 Hg2 HL2 He. split; [done|].
      rewrite HL2, HL in *. rewrite view_merchant, E in He.
      destruct He as [Hc| ->]; [right | left; done].
      split_and!; [done | by eexists | by left].
    + destruct a; [done|]. apply wp_ret. split; [done|]. right. split_and!; [done | by eexists |].
      left. by destruct HL as [HL|(? & _ & HL)].
Qed.

Lemma pg_ListByMerchant_ok ci mid p s :
  pg_good s → ledger_ok (pg_view s) →
  call_ok pg_view pg_good (txns_ListByMerchant ci mid p) s
    (refines err_result ci (spec_ListByMerchant mid)).
Proof.
  intros Hg Hok. apply wp_bind.
  eapply wp_mono; [apply (statement_ok ci _ _ s is_Err (λ L (a : result goerror Z) L', L' = L ∧ ¬ is_Err a));
    [done | done | run_pg; split_and!; [done..|by intros []]]|].
  intros a s' [Hg' Ha]. destruct a as [total|e].
  2:{ apply wp_ret. split; [done|].
      destruct Ha as [[_ Ha]|(Hc & _ & HL)]; [by destruct Ha|]. right.
      split_and!; [done | done | left; by destruct HL as [?|(? & ? & _)]]. }
  assert (pg_view s' = pg_view s) as HL by (destruct Ha as [[? _]|(_ & [] & _)]; done).
  rewrite <- HL in Hok |- *. apply statement_ok; [done..|]. run_pg. split; [done|]. split; [done|].
  apply Forall_fmap, Forall_take, Forall_drop. rewrite Forall_forall. intros r.
  rewrite (merge_sort_Permutation newest_first), list_elem_of_filter, elem_of_range.
  intros [Hm [i Hi]]. split; [done|]. by apply (view_own s' i).
Qed.

Lemma scan_events_map rows l : scan_events rows = Ok l → l = map scan_event rows.
Proof.
  revert l. induction rows as [|r rows IH]; simpl; intros l; [by intros [= <-]|].
  case_match; [done|]. destruct (scan_events rows); simpl; [|done].
  intros [= <-]. by rewrite (IH _ eq_refl).
Qed.

Lemma pg_ListByTransaction_ok ci id s :
  pg_good s →
  call_ok pg_view pg_good (events_ListByTransaction  ci id) s
    (refines err_result ci (spec_ListByTransaction id)).
Proof.
  intros Hg. apply statement_ok; [done..|]. run_pg. split; [done|]. split; [done|].
  destruct (scan_events _) as [l|] eqn:E; [|done]. apply scan_events_map in E as ->.
  rewrite map_map, (merge_sort_Permutation event_order).
  change (l_events (pg_view s)) with (map (norm_event ∘ scan_event) (pg_events s)).
  induction (pg_events s) as [|r rows IH]; [done|]. simpl.
  rewrite !filter_cons. change (ev_TransactionID (norm_event (scan_event r))) with (er_transaction_id r).
  case_decide; [simpl; by apply Permutation_skip | done].
Qed.

Lemma scan_event_params n e : norm_event (scan_event (event_params n e)) = norm_event e.
Proof.
  unfold norm_event, set_EventID, scan_event, event_params, NULLIF_empty. simpl.
  do 2 case_bool_decide; simpl; congruence.
Qed.

Lemma pg_event_Create_ok ci e s :
  pg_good s → is_Some (l_txns (pg_view s) !! ev_TransactionID e) →
  call_ok pg_view pg_good (events_Create  ci e) s
    (refines err_error ci (spec_event_Create e)).
Proof.
  intros Hg Hi. apply statement_ok; [done | by eexists |]. run_pg.
  rewrite view_txn, fmap_is_Some in Hi. rewrite bool_decide_false by (by apply not_eq_None_Some).
  split; [by apply good_with_events|]. split; [done|].
  unfold pg_view, add_event. simpl. rewrite map_app. simpl. by rewrite scan_event_params.
Qed.

Lemma pg_outbox_Create_ok ci e s :
  pg_good s → call_ok pg_view pg_good (outbox_Create ci e) s (refines err_error ci (spec_outbox_Create e)).
Proof.
  intros Hg. apply statement_ok; [done | by eexists |]. run_pg.
  split; [by apply good_append_outbox|]. split; [done|].
  unfold pg_view, add_outbox. simpl. by rewrite map_app.
Qed.

#[export] Instance pg_laws : RepositoryLaws PgStore.
Proof.
  refine {| view := pg_view; good := pg_good |}; intros.
  - by apply pg_merchant_GetByID_ok.
  - by apply pg_UpdateBalance_ok.
  - by apply pg_txn_Create_ok.
  - by apply pg_txn_GetByID_ok.
  - by apply pg_GetByIdempotencyKey_ok.
  - by apply pg_UpdateStatus_ok.
  - by apply pg_ListByMerchant_ok.
  - by apply pg_event_Create_ok.
  - by apply pg_ListByTransaction_ok.
  - by apply pg_outbox_Create_ok.
Defined.

#[export] Instance pg_auth_laws : AuthLaws PgStore.
Proof.
  split. intros ci key s Hg Hok. apply statement_ok; [done..|]. run_pg.
  destruct (filter _ _) as [|m l] eqn:E; (split; [done|]); (split; [done|]).
  - split; [done|]. intros id m. change (view s) with (pg_view s). rewrite view_merchant, fmap_Some.
    intros (m0 & Hm & ->) Hk. simpl in Hk. unfold IsActive. simpl. apply bool_decide_eq_false. intros Hst.
    apply (not_elem_of_nil m0). rewrite <- E, list_elem_of_filter, elem_of_range. split; [done | by exists id].
  - assert (m ∈ filter (λ m, m_APIKey m = key ∧ m_Status m = "ACTIVE") (range (pg_merchants s))) as Hin
      by (rewrite E; set_solver).
    rewrite list_elem_of_filter, elem_of_range in Hin. destruct Hin as [[Hk _] [i Hi]].
    split; [done|]. change (view s) with (pg_view s).
    assert (l_merchants (pg_view s) !! i = Some (norm_merchant m)) as Hv by (by rewrite view_merchant, Hi).
    destruct (ok_merchant _ Hok _ _ Hv) as [Hid _]. simpl in Hid. by rewrite Hid.
Qed.

#[export] Instance pg_unique_laws : UniqueLaws PgStore.
Proof.
  split. intros ci t i t' s Hg Hok Hne Ht Hk. change (view s) with (pg_view s) in *.
  change (good s) with (pg_good s) in *.
  assert (∃ c, txn_constraint s (txn_params t) = Some c) as [c Hc].
  { destruct (txn_constraint s (txn_params t)) eqn:E; [by eexists|]. exfalso.
    apply txn_constraint_None in E as (_ & _ & _ & _ & _ & E).
    rewrite view_txn, fmap_Some in Ht. destruct Ht as (r & Hr & ->).
    change (default "" (tr_idempotency_key r) = tx_IdempotencyKey t) in Hk.
    apply (E (tx_IdempotencyKey t)) in Hr.
    - apply Hr. by destruct (tr_idempotency_key r); simpl in Hk; subst.
    - unfold txn_params, NULLIF_empty. simpl. by rewrite bool_decide_false. }
  unfold txns_Create, pg_txn_repo, pg_txn_Create, statement.
  destruct (ci_ctx ci); [by apply wp_ret|]. destruct (ci_fault ci); [| by apply wp_ret |].
  - apply wp_bind, wp_get. cbv zeta. unfold id. by rewrite Hc.
  - apply wp_bind, wp_bind, wp_get. cbv zeta. unfold id. by rewrite Hc.
Qed.

#[export] Instance pg_db_laws : DatabaseLaws PgStore.
Proof.
  split.
  - intros ci r Hg. unfold db_BeginTx, pg_database, pg_BeginTx, statement.
    destruct (ci_ctx ci) eqn:Ec; [split_and!; try done; intros [? _]; congruence|].
    destruct (ci_fault ci) eqn:Ef; split_and!; try done; intros [_ ?]; congruence.
  - intros ci r0 r Hg0 Hg. unfold db_Commit, pg_database, pg_Commit, commit.
    pose proof (good_rolled_back r0 r Hg0 Hg) as Hgr.
    destruct (ci_ctx ci) eqn:Ec;
      [split; [done|]; split; [intros [? _]; congruence | by left]|].
    destruct (ci_fault ci) eqn:Ef; (split; [done|]); [done | |];
      (split; [intros [_ ?]; congruence | auto]).
  - intros r0 r Hg0 Hg. split; [by apply good_rolled_back | done].
Qed.
End postgres.

(** ** Claiming outbox rows *)

(** The outbox operations of several workers, in the order the database
    executes them; the batches that the fetches return. *)
Inductive OutboxOp :=
| OpCreate (ci : CallInfo) (e : OutboxEvent)
| OpFetch (ci : CallInfo) (limit : Z)
| OpMark (ci : CallInfo) (id : Z).

Definition op_info (op : OutboxOp) : CallInfo :=
  match op with OpCreate ci _ | OpFetch ci _ | OpMark ci _ => ci end.

Definition run_op (op : OutboxOp) : Prog PgStore (list OutboxEvent) :=
  match op with
  | OpCreate ci e => let! _ := pg_outbox_Create ci e in ret []
  | OpFetch ci limit =>
    let! r := pg_FetchUnpublished ci limit in
    ret (match r with Ok es => es | Err _ => [] end)
  | OpMark ci id => let! _ := pg_MarkPublished ci id in ret []
  end.

Fixpoint run_ops (ops : list OutboxOp) : Prog PgStore (list OutboxEvent) :=
  match ops with
  | [] => ret []
  | op :: ops => let! es := run_op op in let! es' := run_ops ops in ret (es ++ es')%list
  end.

(** The row [id] exists and is published, or leased until [until]. *)
Definition held (until id : Z) (s : PgStore) : Prop :=
  id < pg_outbox_seq s ∧
  ∀ r, r ∈ pg_outbox s → or_id r = id →
    or_published r = true ∨ ∃ t, or_published_at r = Some t ∧ until ≤ t.

Lemma held_not_claimed until id now limit s r :
  held until id s → now < until → r ∈ claimed_rows now limit (pg_outbox s) → or_id r ≠ id.
Proof.
  intros [_ Hh] Hnow Hr Hid. unfold claimed_rows in Hr.
  apply elem_of_take in Hr as (i & Hi & _). apply list_elem_of_lookup_2 in Hi.
  rewrite (merge_sort_Permutation outbox_order), list_elem_of_filter in Hi.
  destruct Hi as [Hc Hr]. unfold claimable in Hc.
  destruct (Hh r Hr Hid) as [Hp|(t & Hp & Ht)]; rewrite Hp in Hc; [done|].
  apply andb_true_iff in Hc as [_ Hc]. lia.
Qed.

Lemma wp_statement {A} ci (fail : goerror → A) m (Q : A → PgStore → Prop) s :
  wp m (λ a s', Q a s' ∧ ∀ e, Q (fail e) s') s → (∀ e, Q (fail e) s) →
  wp (statement ci fail m) Q s.
Proof.
  intros Hm Hf. unfold statement. destruct (ci_ctx ci); [apply wp_ret, Hf|].
  destruct (ci_fault ci); [|apply wp_ret, Hf|].
  - eapply wp_mono; [exact Hm|]. by intros ? ? [? _].
  - apply wp_bind. eapply wp_mono; [exact Hm|]. intros a s' [_ H]. apply wp_ret, H.
Qed.

(** While a row is held, no operation returns it or ends the hold. *)
Lemma wp_run_op_held until id op s :
  held until id s → ci_now (op_info op) < until →
  wp (run_op op) (λ es s', held until id s' ∧ Forall (λ e, ob_ID e ≠ id) es) s.
Proof.
  intros Hh Hnow. destruct op as [ci e|ci limit|ci i]; simpl in *; apply wp_bind, wp_statement.
  - apply wp_ret. assert (held until id (with_outbox (pg_outbox s ++
      [mkOutboxRow (pg_outbox_seq s) (ob_EventType e) (ob_Payload e) false None (ob_CreatedAt e)])
      (pg_outbox_seq s + 1) s)) as Hh'; [|split; [|intros ?]; apply wp_ret; by split].
    destruct Hh as [Hid Hh]. split; simpl; [lia|]. intros r. rewrite elem_of_app.
    intros [Hr| ->%list_elem_of_singleton]; [by apply Hh | simpl; lia].
  - intros ?. apply wp_ret. by split.
  - case_match; [by split; [|intros ?]; apply wp_ret; split|].
    set (rows := claimed_rows (ci_now ci) limit (pg_outbox s)).
    assert (held until id (with_outbox (map (lease (ci_now ci + outboxClaimLease) (map or_id rows))
      (pg_outbox s)) (pg_outbox_seq s) s)) as Hh'.
    { destruct Hh as [Hid Hrs]. split; [done|]. intros r. simpl.
      rewrite list_elem_of_fmap. intros (r0 & -> & Hr0). unfold lease.
      case_bool_decide as Hin; [|by apply Hrs]. simpl. intros Hi. exfalso.
      apply list_elem_of_fmap in Hin as (r1 & Heq & Hr1).
      apply (held_not_claimed until id (ci_now ci) limit s r1); [by split | done | done | congruence]. }
    split; [|intros ?]; apply wp_ret; (split; [done|]); [|done].
    apply Forall_fmap, Forall_forall. intros r Hr. by apply (held_not_claimed until id (ci_now ci) limit s).
  - intros ?. apply wp_ret. by split.
  - assert (held until id (with_outbox (map (mark_row (ci_now ci) i) (pg_outbox s)) (pg_outbox_seq s) s))
      as Hh'; [|split; [|intros ?]; apply wp_ret; by split].
    destruct Hh as [Hid Hrs]. split; [done|]. intros r. simpl.
    rewrite list_elem_of_fmap. intros (r0 & -> & Hr0). unfold mark_row.
    destruct (or_id r0 =? i); [by left | by apply Hrs].
  - intros ?. apply wp_ret. by split.
Qed.

Lemma wp_run_ops_held until id ops : ∀ s,
  held until id s → Forall (λ op, ci_now (op_info op) < until) ops →
  wp (run_ops ops) (λ es s', held until id s' ∧ Forall (λ e, ob_ID e ≠ id) es) s.
Proof.
  induction ops as [|op ops IH]; intros s Hh Hnow; simpl; [by apply wp_ret|].
  apply Forall_cons in Hnow as [Hop Hops]. apply wp_bind.
  wp_use (wp_run_op_held until id op s Hh Hop). intros es s1 [Hh1 Hes].
  apply wp_bind. wp_use (IH s1 Hh1 Hops). intros es' s2 [Hh2 Hes']. apply wp_ret.
  split; [done|]. by apply Forall_app.
Qed.

(** The rows a fetch returns, and the lease it leaves on each. *)
Lemma fetched_held ci limit s es s' e :
  pg_good s → pg_FetchUnpublished ci limit s = (Ok es, s') → e ∈ es →
  held (ci_now ci + outboxClaimLease) (ob_ID e) s' ∧
  ∃ r, r ∈ pg_outbox s' ∧ scan_outbox r = e ∧ or_published r = false ∧
    or_published_at r = Some (ci_now ci + outboxClaimLease).
Proof.
  intros [_ Hnd Hseq] E He. unfold pg_FetchUnpublished, statement in E.
  destruct (ci_ctx ci); [done|]. destruct (ci_fault ci); [|done|].
  2:{ unfold bind, ret in E. by destruct (_ <? _). }
  unfold bind, get, modify, ret, id in E. simpl in E. destruct (limit <? 0); [done|].
  simplify_eq. apply list_elem_of_fmap in He as (r & -> & Hr).
  set (rows := claimed_rows (ci_now ci) limit (pg_outbox s)) in *.
  assert (r ∈ pg_outbox s ∧ or_published r = false) as [Hin Hpub].
  { unfold rows, claimed_rows in Hr. apply elem_of_take in Hr as (i & Hi & _).
    apply list_elem_of_lookup_2 in Hi.
    rewrite (merge_sort_Permutation outbox_order), list_elem_of_filter in Hi.
    destruct Hi as [Hc Hi]. split; [done|]. unfold claimable in Hc. by destruct (or_published r). }
  set (until := ci_now ci + outboxClaimLease).
  assert (or_id r ∈ map or_id rows) as Hid by (apply list_elem_of_fmap; by exists r).
  split; [split|].
  - rewrite Forall_forall in Hseq. apply Hseq, list_elem_of_fmap. by exists r.
  - intros r' Hr' Heq. right. apply list_elem_of_fmap in Hr' as (r0 & -> & Hr0).
    exists until. unfold lease in *. case_bool_decide as Hin'; [by simpl|].
    exfalso. apply Hin'. simpl in Heq. by rewrite Heq.
  - exists (lease until (map or_id rows) r).
    split; [apply list_elem_of_fmap; by exists r|]. unfold lease. rewrite bool_decide_true by done.
    by rewrite <- Hpub.
Qed.

(** C19 A claimed outbox event is not given to another worker while its lease
    runs: whatever is created, fetched and marked in between, and whatever
    statements fail. *)
Theorem lease_exclusive ci limit s es s1 e ops :
  pg_good s → pg_FetchUnpublished ci limit s = (Ok es, s1) → e ∈ es →
  Forall (λ op, ci_now (op_info op) < ci_now ci + outboxClaimLease) ops →
  wp (run_ops ops) (λ es' _, Forall (λ e', ob_ID e' ≠ ob_ID e) es') s1.
Proof.
  intros Hg Hf He Hops. destruct (fetched_held _ _ _ _ _ _ Hg Hf He) as [Hh _].
  wp_use (wp_run_ops_held _ _ _ _ Hh Hops). by intros ? ? [_ ?].
Qed.

(** No event is lost when a worker dies: an event that was claimed and not
    marked is delivered again by any clean fetch after the lease, of a batch
    as large as the outbox. *)
Theorem lease_expires ci limit s es s1 e ci' limit' :
  pg_good s → pg_FetchUnpublished ci limit s = (Ok es, s1) → e ∈ es →
  clean ci' → ci_now ci + outboxClaimLease ≤ ci_now ci' →
  Z.of_nat (length (pg_outbox s1)) ≤ limit' →
  wp (pg_FetchUnpublished ci' limit') (λ r _, ∃ es', r = Ok es' ∧ e ∈ es') s1.
Proof.
  intros Hg Hf He [Hctx Hfault] Hnow Hlim.
  destruct (fetched_held _ _ _ _ _ _ Hg Hf He) as (_ & r & Hin & Hr & Hpub & Hat).
  unfold pg_FetchUnpublished, statement. rewrite Hctx, Hfault.
  rewrite (proj2 (Z.ltb_ge limit' 0)) by lia.
  apply wp_bind, wp_get, wp_bind, wp_modify, wp_ret. eexists. split; [done|].
  apply list_elem_of_fmap. exists r. split; [done|]. unfold claimed_rows.
  rewrite take_ge.
  - rewrite (merge_sort_Permutation outbox_order), list_elem_of_filter. split; [|done].
    unfold claimable. rewrite Hpub, Hat. simpl. lia.
  - rewrite (merge_sort_Permutation outbox_order).
    pose proof (length_filter (λ r, claimable (ci_now ci') r = true) (pg_outbox s1)). unfold id in *. lia.
Qed.

Lemma ops_bounded ops : ∃ until, Forall (λ op, ci_now (op_info op) < until) ops.
Proof.
  induction ops as [|op ops [u IH]]; [by exists 0|]. exists (Z.max u (ci_now (op_info op) + 1)).
  constructor; [lia|]. eapply Forall_impl; [exact IH|]. simpl. lia.
Qed.

(** A published event is never fetched again, at any later time. *)
Theorem published_final ci id s ops :
  clean ci → id < pg_outbox_seq s →
  wp (pg_MarkPublished ci id) (λ err s1, err = None ∧
    wp (run_ops ops) (λ es _, Forall (λ e, ob_ID e ≠ id) es) s1) s.
Proof.
  intros [Hctx Hfault] Hid. unfold pg_MarkPublished, statement. rewrite Hctx, Hfault.
  apply wp_bind, wp_get, wp_bind, wp_modify, wp_ret. split; [done|].
  destruct (ops_bounded ops) as [until Hops]. eapply wp_mono.
  - apply (wp_run_ops_held until id); [|exact Hops]. split; [done|]. intros r. simpl.
    rewrite list_elem_of_fmap. intros (r0 & -> & _). unfold mark_row.
    destruct (Z.eqb_spec (or_id r0) id); [by left | done].
  - by intros ? ? [_ ?].
Qed.

(** One row, claimed at time 5. *)
Definition outbox_of (r : outbox_row) : PgStore := mkPgStore ∅ ∅ [] [r] 1 2.
Definition at_time (t : Z) : CallInfo := mkCallInfo t None NoFault.

Lemma outbox_of_good r : or_id r = 1 → pg_good (outbox_of r).
Proof.
  intros Hr. split; simpl; [done | apply NoDup_singleton |]. repeat constructor; lia.
Qed.

Definition a_row : outbox_row := mkOutboxRow 1 "transaction.created" ∅ false None 0.

Lemma first_fetch :
  pg_FetchUnpublished (at_time 5) 10 (outbox_of a_row) =
    (Ok [scan_outbox a_row], (pg_FetchUnpublished (at_time 5) 10 (outbox_of a_row)).2).
Proof. vm_compute. reflexivity. Qed.

Lemma lease_exclusive_witness :
  wp (run_ops [OpFetch (at_time 6) 10; OpFetch (at_time (29 * Second)) 10])
    (λ es' _, Forall (λ e', ob_ID e' ≠ ob_ID (scan_outbox a_row)) es')
    (pg_FetchUnpublished (at_time 5) 10 (outbox_of a_row)).2.
Proof.
  apply (lease_exclusive _ _ _ _ _ _ _ (outbox_of_good a_row eq_refl) first_fetch); [by left|].
  apply Forall_cons; split; [by vm_compute|]. apply Forall_cons; split; [by vm_compute | by constructor].
Defined.

Lemma lease_expires_witness :
  wp (pg_FetchUnpublished (at_time (30 * Second + 5)) 1)
    (λ r _, ∃ es', r = Ok es' ∧ scan_outbox a_row ∈ es')
    (pg_FetchUnpublished (at_time 5) 10 (outbox_of a_row)).2.
Proof.
  apply (lease_expires _ _ _ _ _ _ _ _ (outbox_of_good a_row eq_refl) first_fetch);
    [by left | done | by vm_compute | by vm_compute].
Defined.

Lemma published_final_witness :
  wp (pg_MarkPublished (at_time 5) 1) (λ err s1, err = None ∧
    wp (run_ops [OpFetch (at_time 100) 10]) (λ es _, Forall (λ e, ob_ID e ≠ 1) es) s1) (outbox_of a_row).
Proof. apply (published_final (at_time 5) 1 (outbox_of a_row)); done. Defined.
