(* ===== verification/Migrations.v ===== *)
(** * Migrations: opening and migrating the database, internal/repository/postgres/db.go

    [Connect], and [RunMigrations] over the directory of SQL files and a database of which
    only the table schema_migrations is known: what a script does to the rest
    is a parameter.  Statements, commits and reads of files can fail at any
    point, and the process can be started again. *)

From stdpp Require Import base tactics list gmap strings sorting.
From S2P Require Import Prelude GoLib Repository.

Open Scope string_scope.

(** ** The connection pool *)

(** The data source of a pool and its limits. *)
(* go: internal/repository/postgres/db.go 17-19 *)
Record DB := mkDB {
  db_url : string;
  db_MaxOpenConns : Z;
  db_MaxIdleConns : Z;
  db_ConnMaxLifetime : Z
}.

Section connect.
(** The driver: whether it accepts the URL, and the answer to a ping under a
    context. *)
Variable sql_Open : string → error.
Variable PingContext : DB → Ctx → error.

(* go: internal/repository/postgres/db.go Connect *)
Definition Connect (now : Z) (ctx : Ctx) (databaseURL : string) (maxOpen maxIdle maxLife : Z) : result goerror DB :=
  match sql_Open databaseURL with
  | Some err => Err (Errorf "open database: " err)
  | None =>
    let db := mkDB databaseURL maxOpen maxIdle maxLife in
    match PingContext db (WithTimeout ctx now (5 * Second)) with
    | Some err => Err (Errorf "ping database: " err)
    | None => Ok db
    end
  end.

(** A pool is returned only when the database answered a ping that had at most
    five seconds. *)
Lemma Connect_ok now ctx url maxOpen maxIdle maxLife db :
  Connect now ctx url maxOpen maxIdle maxLife = Ok db →
  db = mkDB url maxOpen maxIdle maxLife ∧ sql_Open url = None ∧
  ∃ pc t cause, PingContext db pc = None ∧ ctx_done pc = Some (t, cause) ∧ (t ≤ now + 5 * Second)%Z.
Proof.
  unfold Connect. destruct (sql_Open url) eqn:Eo; [done|]. destruct (PingContext _ _) eqn:Ep; [done|].
  intros [= <-]. split_and!; [done..|]. destruct (WithTimeout_done ctx now (5 * Second)) as (t & cause & Ht & Hle).
  by exists (WithTimeout ctx now (5 * Second)), t, cause.
Qed.
End connect.

(** ** The directory *)

Definition string_le (a b : string) : Prop := String.leb a b = true.

#[export] Instance string_le_dec : RelDecision string_le.
Proof. intros a b. unfold string_le. apply _. Defined.

Definition is_sql (name : string) : bool :=
  (4 <=? String.length name)%nat &&
  bool_decide (String.substring (String.length name - 4) 4 name = ".sql").

(** The files of the directory with their contents; [filepath.Glob] and
    [sort.Strings].  The paths share the directory, so their order is that of
    the names. *)
(* go: internal/repository/postgres/db.go 85-89 *)
Definition migration_files (fs : gmap string string) : list string :=
  merge_sort string_le (filter (λ f, is_sql f = true) (map fst (map_to_list fs))).

(** ** The database *)

Section migrations.
Context {D : Type}.

(** The effect of a script on the data, and its error. *)
Variable exec_sql : string → D → D * error.

(** The clock, the context and the fault of each call; the error of each read
    of a file. *)
Variable info : nat → CallInfo.
Variable read_error : nat → error.

(** The data and the table schema_migrations, which may not exist. *)
Record MigDB := mkMigDB { mg_data : D; mg_table : option (list string) }.
Record MigState := mkMigState { mg_step : nat; mg_db : MigDB }.

Definition set_db (db : MigDB) (s : MigState) : MigState := mkMigState (mg_step s) db.

Definition next_step : Prog MigState nat := λ s, (mg_step s, mkMigState (S (mg_step s)) (mg_db s)).

(** A statement, inside or outside a transaction. *)
Definition sql {A} (fail : goerror → A) (m : Prog MigDB A) : Prog MigState A :=
  let! n := next_step in
  λ s, let (a, db) := statement (info n) fail m (mg_db s) in (a, set_db db s).

(* go: internal/repository/postgres/db.go 75-80 *)
Definition create_table : Prog MigDB error := λ db,
  (None, mkMigDB (mg_data db) (Some (default [] (mg_table db)))).

Definition no_table : goerror := Opaque "relation schema_migrations does not exist".
Definition duplicate_file : goerror := Opaque "duplicate key value violates unique constraint".

(* go: internal/repository/postgres/db.go 94-97 *)
Definition recorded (file : string) : Prog MigDB (result goerror bool) := λ db,
  (match mg_table db with
   | None => Err no_table
   | Some t => Ok (bool_decide (file ∈ t))
   end, db).

(* go: internal/repository/postgres/db.go 115 *)
Definition execute (content : string) : Prog MigDB error := λ db,
  let (d, err) := exec_sql content (mg_data db) in (err, mkMigDB d (mg_table db)).

(* go: internal/repository/postgres/db.go 120-121 *)
Definition record_file (file : string) : Prog MigDB error := λ db,
  match mg_table db with
  | None => (Some no_table, db)
  | Some t => if bool_decide (file ∈ t) then (Some duplicate_file, db)
              else (None, mkMigDB (mg_data db) (Some (t ++ [file])%list))
  end.

(** [os.ReadFile] of a file that [filepath.Glob] has found. *)
Definition ReadFile (fs : gmap string string) (file : string) : Prog MigState (result goerror string) :=
  let! n := next_step in
  ret (match read_error n with
       | Some err => Err err
       | None => Ok (default "" (fs !! file))
       end).

(** ** The runner *)

(** The body of the loop. *)
(* go: internal/repository/postgres/db.go 92-130 *)
Definition migrate_file (fs : gmap string string) (file : string) : Prog MigState error :=
  try! exists_ := sql Err (recorded file) or err =>
    ret (Some (Errorf ("check migration " +:+ file +:+ ": ") err));
  if exists_ : bool then ret None
  else
    try! content := ReadFile fs file or err => ret (Some (Errorf ("read " +:+ file +:+ ": ") err));
    check! sql Some (ret None) or err => ret (Some (Errorf ("begin tx for " +:+ file +:+ ": ") err));
    let! db0 := get mg_db in
    check! sql Some (execute content) or err =>
      (let! _ := modify (set_db db0) in ret (Some (Errorf ("execute " +:+ file +:+ ": ") err)));
    check! sql Some (record_file file) or err =>
      (let! _ := modify (set_db db0) in ret (Some (Errorf ("record " +:+ file +:+ ": ") err)));
    check! (let! n := next_step in commit (info n) (set_db db0)) or err =>
      ret (Some (Errorf ("commit " +:+ file +:+ ": ") err));
    ret None.

(* go: internal/repository/postgres/db.go 91-132 *)
Fixpoint migrate_files (fs : gmap string string) (files : list string) : Prog MigState error :=
  match files with
  | [] => ret None
  | file :: files =>
    check! migrate_file fs file or err => ret (Some err);
    migrate_files fs files
  end.

(* go: internal/repository/postgres/db.go RunMigrations *)
Definition RunMigrations (fs : gmap string string) : Prog MigState error :=
  check! sql Some create_table or err => ret (Some (Errorf "create migrations table: " err));
  migrate_files fs (migration_files fs).

(** The process started [n] times: its errors. *)
Fixpoint restarts (fs : gmap string string) (n : nat) : Prog MigState (list error) :=
  match n with
  | O => ret []
  | S n =>
    let! err := RunMigrations fs in
    let! errs := restarts fs n in
    ret (err :: errs)
  end.

(** ** What a run achieves *)

(** The reference: the scripts one after the other, as long as none fails. *)
Fixpoint apply_all (fs : gmap string string) (files : list string) (d : D) : option D :=
  match files with
  | [] => Some d
  | file :: files =>
    match exec_sql (default "" (fs !! file)) d with
    | (d', None) => apply_all fs files d'
    | (_, Some _) => None
    end
  end.

(** The files of the list that are not recorded. *)
Definition pending (files t : list string) : list string := filter (λ f, f ∉ t) files.

(** The first [k] of [files] have been executed, each once, and recorded. *)
Definition applied (fs : gmap string string) (files : list string) (k : nat) (db db' : MigDB) : Prop :=
  (k ≤ length files)%nat ∧ apply_all fs (take k files) (mg_data db) = Some (mg_data db') ∧
  default [] (mg_table db') = (default [] (mg_table db) ++ take k files)%list.

Definition quiet : Prop := ∀ n, clean (info n) ∧ read_error n = None.

Lemma applied_none fs files db db' :
  mg_data db' = mg_data db → default [] (mg_table db') = default [] (mg_table db) →
  applied fs files 0 db db'.
Proof. intros Hd Ht. unfold applied. rewrite take_0, app_nil_r, Hd. split_and!; [lia | done | done]. Qed.

Lemma apply_all_app fs fs1 fs2 d :
  apply_all fs (fs1 ++ fs2) d = (apply_all fs fs1 d ≫= apply_all fs fs2).
Proof.
  revert d. induction fs1 as [|f fs1 IH]; intros d; simpl; [done|].
  destruct (exec_sql _ d) as [d' [e|]]; [done | apply IH].
Qed.

Lemma pending_recorded files t k :
  NoDup files → pending files (t ++ take k (pending files t)) = drop k (pending files t).
Proof.
  intros Hnd. assert (NoDup (pending files t)) as Hp by by apply NoDup_filter.
  rewrite <- (take_drop k (pending files t)) in Hp. apply filter_rest in Hp. rewrite take_drop in Hp.
  rewrite <- Hp. unfold pending. rewrite list_filter_filter. apply list_filter_iff. set_solver.
Qed.

Lemma applied_trans fs files k j db1 db2 db3 :
  NoDup files →
  applied fs (pending files (default [] (mg_table db1))) k db1 db2 →
  applied fs (pending files (default [] (mg_table db2))) j db2 db3 →
  applied fs (pending files (default [] (mg_table db1))) (k + j) db1 db3.
Proof.
  intros Hnd (Hk & Ha & Ht) (Hj & Ha' & Ht'). rewrite Ht, pending_recorded in * by done.
  set (p := pending files (default [] (mg_table db1))) in *. rewrite length_drop in Hj.
  unfold applied. rewrite <- take_take_drop, apply_all_app, Ha. split_and!; [lia | exact Ha' |].
  by rewrite Ht', (assoc_L (++)).
Qed.
(** *** One file *)

Lemma wp_next_step (Q : nat → MigState → Prop) s :
  (∀ n s', mg_db s' = mg_db s → Q n s') → wp next_step Q s.
Proof. intros H. by apply H. Qed.

Lemma wp_sql {A} (fail : goerror → A) (m : Prog MigDB A) (Q : A → MigState → Prop) s :
  (∀ e s', ¬ quiet → mg_db s' = mg_db s ∨ mg_db s' = (m (mg_db s)).2 → Q (fail e) s') →
  (∀ s', mg_db s' = (m (mg_db s)).2 → Q (m (mg_db s)).1 s') → wp (sql fail m) Q s.
Proof.
  intros Hfail Hok. unfold sql. apply wp_bind, wp_next_step. intros n s' Hs'.
  unfold wp, statement. rewrite Hs'.
  destruct (ci_ctx (info n)) eqn:Ec; [apply Hfail; [|by left]; intros Hq; destruct (Hq n) as [[? _] _]; congruence|].
  destruct (ci_fault (info n)) eqn:Ef.
  2,3: assert (¬ quiet) by (intros Hq; destruct (Hq n) as [[_ ?] _]; congruence).
  - specialize (Hok (set_db (m (mg_db s)).2 s') eq_refl). by destruct (m (mg_db s)).
  - apply Hfail; auto.
  - specialize (Hfail e (set_db (m (mg_db s)).2 s')). unfold bind. destruct (m (mg_db s)). simpl in *. auto.
Qed.

Lemma wp_commit db0 (Q : error → MigState → Prop) s :
  (∀ e s', ¬ quiet → mg_db s' = db0 ∨ mg_db s' = mg_db s → Q (Some e) s') →
  (∀ s', mg_db s' = mg_db s → Q None s') →
  wp (let! n := next_step in commit (info n) (set_db db0)) Q s.
Proof.
  intros Hfail Hok. apply wp_bind, wp_next_step. intros n s' Hs'. unfold wp, commit.
  destruct (ci_ctx (info n)) eqn:Ec; [apply Hfail; [|by left]; intros Hq; destruct (Hq n) as [[? _] _]; congruence|].
  destruct (ci_fault (info n)) eqn:Ef; [by apply Hok | |].
  1,2: assert (¬ quiet) by (intros Hq; destruct (Hq n) as [[_ ?] _]; congruence).
  1,2: apply Hfail; auto.
Qed.

(** A file is skipped if it is recorded; otherwise it is executed and recorded,
    or neither. *)
Definition file_post (fs : gmap string string) (file : string) (t : list string) (db : MigDB)
    (err : error) (db' : MigDB) : Prop :=
  let run := exec_sql (default "" (fs !! file)) (mg_data db) in
  (quiet → file ∈ t ∨ run.2 = None → err = None) ∧
  if decide (file ∈ t) then db' = db
  else (db' = db ∧ is_Some err) ∨ (run = (mg_data db', None) ∧ mg_table db' = Some (t ++ [file])%list).

Lemma wp_migrate_file fs file t s :
  mg_table (mg_db s) = Some t →
  wp (migrate_file fs file) (λ err s', file_post fs file t (mg_db s) err (mg_db s')) s.
Proof.
  intros Ht. unfold migrate_file. set (run := exec_sql (default "" (fs !! file)) (mg_data (mg_db s))).
  assert (∀ (err : error) db', db' = mg_db s → is_Some err → ¬ quiet ∨ (file ∉ t ∧ run.2 ≠ None) →
    file_post fs file t (mg_db s) err db') as Hsame.
  { intros err db' -> Herr Hwhy. split; [naive_solver|]. case_decide; auto. }
  apply wp_bind, wp_sql; unfold recorded; rewrite Ht; simpl.
  { intros e s1 Hq Hs1. apply wp_ret, Hsame; [tauto | eauto..]. }
  intros s1 Hs1. case_bool_decide as Hin; simpl.
  { apply wp_ret. rewrite Hs1. split; [done|]. by rewrite decide_True. }
  apply wp_bind. unfold ReadFile. apply wp_bind, wp_next_step. intros n s2 Hs2. apply wp_ret.
  destruct (read_error n) as [err|] eqn:Er; simpl.
  { apply wp_ret, Hsame; [congruence | eauto |]. left. intros Hq. destruct (Hq n). congruence. }
  apply wp_bind, wp_sql; simpl; rewrite Hs2, Hs1.
  { intros e s3 Hq Hs3. apply wp_ret, Hsame; [tauto | eauto..]. }
  intros s3 Hs3. apply wp_bind, wp_get. rewrite Hs3. apply wp_bind.
  assert (execute (default "" (fs !! file)) (mg_db s) = (run.2, mkMigDB run.1 (Some t))) as Hex.
  { unfold execute, run. rewrite Ht. by destruct (exec_sql _ _). }
  apply wp_sql; rewrite Hs3, Hex; simpl.
  { intros e s4 Hq _. apply wp_bind, wp_modify, wp_ret, Hsame; eauto. }
  intros s4 Hs4. destruct run.2 as [e|] eqn:Erun.
  { apply wp_bind, wp_modify, wp_ret, Hsame; [done | eauto | by right]. }
  apply wp_bind, wp_sql; rewrite Hs4; unfold record_file; simpl; rewrite (bool_decide_false _ Hin); simpl.
  { intros e s5 Hq _. apply wp_bind, wp_modify, wp_ret, Hsame; eauto. }
  intros s5 Hs5. apply wp_bind, wp_commit; rewrite ?Hs5.
  - intros e s6 Hq [Hs6|Hs6]; apply wp_ret; [by apply Hsame; eauto|]. rewrite Hs6.
    split; [done|]. rewrite decide_False by done. right. simpl. split; [|done]. rewrite <- Erun. apply surjective_pairing.
  - intros s6 Hs6. apply wp_ret. rewrite Hs6. split; [done|]. rewrite decide_False by done. right.
    simpl. split; [|done]. rewrite <- Erun. apply surjective_pairing.
Qed.

(** *** One run, and any number of runs *)

(** A first part of the files that were due is executed and recorded, all of
    them if there is no error; and there is none if nothing else fails. *)
Definition run_post (fs : gmap string string) (files : list string) (db : MigDB) (err : error)
    (db' : MigDB) : Prop :=
  let due := pending files (default [] (mg_table db)) in
  (∃ k, applied fs due k db db' ∧ (err = None → k = length due)) ∧
  (quiet → is_Some (apply_all fs due (mg_data db)) → err = None).

Lemma pending_cons_recorded file files t : file ∈ t → pending (file :: files) t = pending files t.
Proof. intros H. unfold pending. by rewrite filter_cons_False by auto. Qed.

Lemma pending_cons_due file files t :
  file ∉ t → file ∉ files →
  pending (file :: files) t = file :: pending files (t ++ [file]).
Proof.
  intros H Hf. unfold pending. rewrite filter_cons_True by done. f_equal.
  induction files as [|f files IH]; [done|]. rewrite !filter_cons.
  apply not_elem_of_cons in Hf as [Hne Hf]. rewrite (IH Hf).
  repeat case_decide; set_solver.
Qed.

Lemma wp_migrate_files fs files : ∀ t s,
  NoDup files → mg_table (mg_db s) = Some t →
  wp (migrate_files fs files) (λ err s', run_post fs files (mg_db s) err (mg_db s')) s.
Proof.
  induction files as [|file files IH]; intros t s Hnd Ht; simpl.
  { apply wp_ret. split; [|done]. exists 0%nat. split; [by apply applied_none | done]. }
  apply NoDup_cons in Hnd as [Hf Hnd]. apply wp_bind.
  wp_use (wp_migrate_file fs file t s Ht). intros err s1 [Hq Hpost]. unfold run_post. rewrite Ht. simpl.
  case_decide as Hin; [|destruct Hpost as [[Hs1 [e ->]]|[Hrun Ht1]]].
  - rewrite pending_cons_recorded by done. destruct err as [e|].
    { apply wp_ret. rewrite Hpost. split; [|naive_solver]. exists 0%nat. split; [by apply applied_none | done]. }
    wp_use (IH t s1 Hnd); [by rewrite Hpost|]. intros err s2. unfold run_post. by rewrite Hpost, Ht.
  - apply wp_ret. rewrite Hs1. split; [exists 0%nat; split; [by apply applied_none | done]|].
    rewrite pending_cons_due by done. simpl. intros Hqu [d Hd].
    assert (Some e = None) as [=]. apply Hq; [done|]. right. by destruct (exec_sql _ _) as [d' [?|]].
  - rewrite pending_cons_due by done.
    assert (∀ k db', applied fs (pending files (t ++ [file])) k (mg_db s1) db' →
      applied fs (file :: pending files (t ++ [file])) (S k) (mg_db s) db') as Hcons.
    { intros k db' (Hk & Ha & Ht'). split_and!; simpl; [lia | by rewrite Hrun |].
      rewrite Ht', Ht1, Ht. simpl. by rewrite <- (assoc_L (++)). }
    destruct err as [e|].
    { apply wp_ret. split; [|intros Hqu _; apply Hq; [done|]; right; by rewrite Hrun].
      exists 1%nat. split; [apply Hcons, applied_none; done | done]. }
    wp_use (IH (t ++ [file])%list s1 Hnd Ht1). intros err s2 [(k & Ha & Hk) Hqu].
    rewrite Ht1 in Ha, Hk, Hqu. simpl in Ha, Hk, Hqu. split; [exists (S k); split; [by apply Hcons|]|].
    + intros He. simpl. by rewrite Hk.
    + simpl. by rewrite Hrun.
Qed.

Lemma migration_files_NoDup fs : NoDup (migration_files fs).
Proof.
  unfold migration_files. rewrite (merge_sort_Permutation string_le).
  apply NoDup_filter, NoDup_fst_map_to_list.
Qed.

Lemma migration_files_sorted fs :
  Sorted string_le (migration_files fs) ∧
  ∀ f, f ∈ migration_files fs ↔ is_sql f = true ∧ is_Some (fs !! f).
Proof.
  split; [apply Sorted_merge_sort; intros a b; apply String.leb_total|]. intros f.
  unfold migration_files. rewrite (merge_sort_Permutation string_le), list_elem_of_filter.
  apply and_iff_compat_l. rewrite list_elem_of_fmap. split.
  - intros ([g c] & -> & Hg%elem_of_map_to_list). by eexists.
  - intros [c Hc]. exists (f, c). by rewrite elem_of_map_to_list.
Qed.

Lemma wp_RunMigrations fs s :
  wp (RunMigrations fs) (λ err s', run_post fs (migration_files fs) (mg_db s) err (mg_db s')) s.
Proof.
  unfold RunMigrations. apply wp_bind, wp_sql; simpl.
  - intros e s1 Hq Hs1. apply wp_ret. split; [|naive_solver]. exists 0%nat.
    split; [|done]. by destruct Hs1 as [-> | ->]; apply applied_none.
  - intros s1 Hs1. wp_use (wp_migrate_files fs (migration_files fs) (default [] (mg_table (mg_db s))) s1);
      [apply migration_files_NoDup | by rewrite Hs1 |].
    intros err s2 Hpost. by rewrite Hs1 in Hpost.
Qed.

(** C20 Migrations run exactly once and in order: however often the process is
    started and whatever fails, what has been executed is a first part of the
    SQL files that were due, in the order of their names, each once and each
    recorded, so the data are what the scripts one after the other make of
    them; when a run reports no error nothing is left to do; and if nothing
    but a script can fail, a run of scripts that succeed reports none. *)
Theorem migrations_resume fs n s :
  (Sorted string_le (migration_files fs) ∧
   ∀ f, f ∈ migration_files fs ↔ is_sql f = true ∧ is_Some (fs !! f)) ∧
  wp (restarts fs n) (λ errs s',
    let due := filter (λ f, f ∉ default [] (mg_table (mg_db s))) (migration_files fs) in
    (∃ k, (k ≤ length due)%nat ∧
       apply_all fs (take k due) (mg_data (mg_db s)) = Some (mg_data (mg_db s')) ∧
       default [] (mg_table (mg_db s')) = (default [] (mg_table (mg_db s)) ++ take k due)%list ∧
       (None ∈ errs → k = length due)) ∧
    (quiet → is_Some (apply_all fs due (mg_data (mg_db s))) → errs = replicate n None)) s.
Proof.
  split; [apply migration_files_sorted|].
  revert s. induction n as [|n IH]; intros s; simpl.
  { apply wp_ret. split; [|done]. exists 0%nat. rewrite take_0, app_nil_r.
    split_and!; [lia | done | done | set_solver]. }
  apply wp_bind. wp_use (wp_RunMigrations fs s). intros err s1 [(k & Ha & Hk) Hq].
  apply wp_bind. wp_use (IH s1). intros errs s2 [(j & Hj & Haj & Htj & Hej) Hqj]. apply wp_ret.
  assert (applied fs (pending (migration_files fs) (default [] (mg_table (mg_db s)))) (k + j) (mg_db s) (mg_db s2))
    as (Hkj & Hd & Ht).
  { eapply applied_trans; [apply migration_files_NoDup | exact Ha | done]. }
  pose proof Ha as (Hkl & Hd1 & Ht1). fold (pending (migration_files fs) (default [] (mg_table (mg_db s)))).
  fold (pending (migration_files fs) (default [] (mg_table (mg_db s1)))) in Hj, Hej, Hqj.
  rewrite Ht1, pending_recorded in Hj, Hej, Hqj by apply migration_files_NoDup.
  set (p := pending _ _) in *. rewrite length_drop in Hj, Hej. split.
  - exists (k + j)%nat. split_and!; [done..|]. rewrite elem_of_cons. intros [He|He].
    + specialize (Hk (eq_sym He)). lia.
    + specialize (Hej He). lia.
  - intros Hqu [d Hall]. rewrite (Hq Hqu) by eauto. f_equal. apply Hqj; [done|].
    rewrite <- (take_drop k p), apply_all_app, Hd1 in Hall. by eexists.
Qed.
End migrations.

(** A run whose second script cannot be read, and a restart; the table already
    has the first script. *)
Example migrations_restarted :
  let fs := {[ "0002_b.sql" := "b"; "0001_a.sql" := "a"; "0003_c.sql" := "c"; "notes.md" := "x" ]} in
  let run := restarts (λ c d, (d ++ [c], None)%list) (λ n, mkCallInfo 0 None NoFault)
    (λ n, if bool_decide (n = 9%nat) then Some (Opaque "i/o") else None) fs 2
    (mkMigState 0 (mkMigDB ["a"] (Some ["0001_a.sql"]))) in
  run.1 = [Some (Errorf "read 0003_c.sql: " (Opaque "i/o")); None] ∧
  mg_db run.2 = mkMigDB ["a"; "b"; "c"] (Some ["0001_a.sql"; "0002_b.sql"; "0003_c.sql"]).
Proof. vm_compute. done. Qed.
