(* ===== verification/Resilience.v ===== *)
(** * Resilience: the circuit breaker and the retry loop of internal/service/resilience.go *)

From stdpp Require Import base tactics list strings.
From S2P Require Import Prelude GoLib.

Open Scope string_scope.
Open Scope Z_scope.

(* go: internal/service/resilience.go 12 *)
Definition ErrCircuitOpen : goerror :=
  Sentinel "service.ErrCircuitOpen" "circuit breaker is open".

(* go: internal/service/resilience.go 14-20 *)
Inductive CircuitState : Type := CircuitClosed | CircuitOpen | CircuitHalfOpen.

#[export] Instance CircuitState_eq_dec : EqDecision CircuitState.
Proof. solve_decision. Defined.

(* go: internal/service/resilience.go 22-30 *)
Record CircuitBreaker := mkCircuitBreaker {
  cb_state : CircuitState;
  cb_failures : Z;
  cb_threshold : Z;
  cb_resetTimeout : Z;
  cb_openedAt : Z;
  cb_halfOpenRunning : bool
}.

(** [openedAt] is the zero time until the circuit opens. *)
(* go: internal/service/resilience.go NewCircuitBreaker *)
Definition NewCircuitBreaker (threshold resetTimeout : Z) : CircuitBreaker :=
  let threshold := if threshold <=? 0 then 3 else threshold in
  let resetTimeout := if resetTimeout <=? 0 then 30 * Second else resetTimeout in
  mkCircuitBreaker CircuitClosed 0 threshold resetTimeout 0 false.

(** Field assignments. *)
Definition cb_set_state s cb := mkCircuitBreaker s (cb_failures cb) (cb_threshold cb)
  (cb_resetTimeout cb) (cb_openedAt cb) (cb_halfOpenRunning cb).
Definition cb_set_failures n cb := mkCircuitBreaker (cb_state cb) n (cb_threshold cb)
  (cb_resetTimeout cb) (cb_openedAt cb) (cb_halfOpenRunning cb).
Definition cb_set_openedAt t cb := mkCircuitBreaker (cb_state cb) (cb_failures cb) (cb_threshold cb)
  (cb_resetTimeout cb) t (cb_halfOpenRunning cb).
Definition cb_set_running b cb := mkCircuitBreaker (cb_state cb) (cb_failures cb) (cb_threshold cb)
  (cb_resetTimeout cb) (cb_openedAt cb) b.

(** The mutex makes each of the three methods one atomic step at a time [now]. *)

(* go: internal/service/resilience.go CircuitBreaker.State *)
Definition State (now : Z) (cb : CircuitBreaker) : CircuitState * CircuitBreaker :=
  let cb :=
    if bool_decide (cb_state cb = CircuitOpen) && (cb_resetTimeout cb <=? now - cb_openedAt cb)
    then cb_set_state CircuitHalfOpen cb else cb in
  (cb_state cb, cb).

(* go: internal/service/resilience.go CircuitBreaker.beforeRequest *)
Definition beforeRequest (now : Z) (cb : CircuitBreaker) : error * CircuitBreaker :=
  match cb_state cb with
  | CircuitClosed => (None, cb)
  | CircuitOpen =>
    if now - cb_openedAt cb <? cb_resetTimeout cb then (Some ErrCircuitOpen, cb)
    else (None, cb_set_running true (cb_set_failures 0 (cb_set_state CircuitHalfOpen cb)))
  | CircuitHalfOpen =>
    if cb_halfOpenRunning cb then (Some ErrCircuitOpen, cb)
    else (None, cb_set_running true cb)
  end.

(* go: internal/service/resilience.go CircuitBreaker.afterRequest *)
Definition afterRequest (now : Z) (err : error) (cb : CircuitBreaker) : CircuitBreaker :=
  match cb_state cb with
  | CircuitClosed =>
    match err with
    | None => cb_set_failures 0 cb
    | Some _ =>
      let cb := cb_set_failures (cb_failures cb + 1) cb in
      if cb_threshold cb <=? cb_failures cb
      then cb_set_openedAt now (cb_set_state CircuitOpen cb)
      else cb
    end
  | CircuitHalfOpen =>
    let cb := cb_set_running false cb in
    match err with
    | None => cb_set_failures 0 (cb_set_state CircuitClosed cb)
    | Some _ => cb_set_openedAt now (cb_set_state CircuitOpen cb)
    end
  | CircuitOpen => cb
  end.

#[global] Arguments State : simpl never.
#[global] Arguments beforeRequest : simpl never.
#[global] Arguments afterRequest : simpl never.

(** ** Programs over a world with a clock *)

(* go: internal/service/resilience.go 121-129 *)
Record RetryConfig := mkRetryConfig {
  MaxAttempts : Z;
  BaseDelay : Z;
  MaxDelay : Z;
  Jitter : Z;
  ShouldRetry : option (goerror → bool)
}.

Section programs.
Context {W : Type}.
(** [time.Now()], the free choice of [select], [rand.Int63n]; and the breaker
    inside the world. *)
Variable now : Prog W Z.
Variable pick : Prog W bool.
Variable Int63n : Z → Prog W Z.
Variable cb_of : W → CircuitBreaker.
Variable put_cb : CircuitBreaker → W → W.

(** The value of a float64 to int64 conversion that overflows, which Go leaves
    to the implementation. *)
Variable float_overflow : Z → Z → Z.

(* go: internal/service/resilience.go CircuitBreaker.Execute *)
Definition Execute (fn : Prog W error) : Prog W error :=
  let! t := now in
  let! cb := get cb_of in
  let (err, cb') := beforeRequest t cb in
  let! _ := modify (put_cb cb') in
  match err with
  | Some e => ret (Some e)
  | None =>
    let! err := fn in
    let! t' := now in
    let! cb := get cb_of in
    let! _ := modify (put_cb (afterRequest t' err cb)) in
    ret err
  end.

(** [time.Duration(float64(baseDelay) * math.Pow(2, float64(attempt-1)))]: a
    product with a power of two is exact. *)
(* go: internal/service/resilience.go 198 *)
Definition backoff (baseDelay attempt : Z) : Z :=
  let d := round53 baseDelay * 2 ^ (attempt - 1) in
  if bool_decide (in_int64 d) then d else float_overflow baseDelay attempt.

(* go: internal/service/resilience.go retryDelay *)
Definition retryDelay (baseDelay maxDelay jitter attempt : Z) : Prog W Z :=
  let delay := backoff baseDelay attempt in
  let delay := if maxDelay <? delay then maxDelay else delay in
  if jitter <=? 0 then ret delay
  else
    let! j := Int63n jitter in
    ret (add64 delay j).

(** The default [Sleep]. *)
(* go: internal/service/resilience.go 149-159 *)
Definition default_sleep (ctx : Ctx) (d : Z) : Prog W error :=
  let! t0 := now in
  let! t := now in
  let! first := pick in
  ret (select_done ctx t0 d t first).

(** [cfg.Sleep], when it is set. *)
Variable cfg_sleep : option (Ctx → Z → Prog W error).

Section loop.
Variables (ctx : Ctx) (maxAttempts baseDelay maxDelay jitter : Z).
Variables (shouldRetry : goerror → bool) (sleep : Ctx → Z → Prog W error).
Variable fn : Ctx → Prog W error.

(** The loop; [n] counts the iterations left. *)
(* go: internal/service/resilience.go 172-194 *)
Fixpoint retry_loop (n : nat) (attempt : Z) (lastErr : error) : Prog W error :=
  match n with
  | O => ret lastErr
  | S n' =>
    let! t := now in
    match ctx_Err ctx t with
    | Some e => ret (Some e)
    | None =>
      let! err := fn ctx in
      match err with
      | None => ret None
      | Some e =>
        if (attempt =? maxAttempts) || negb (shouldRetry e) then ret (Some e)
        else
          let! delay := retryDelay baseDelay maxDelay jitter attempt in
          let! serr := sleep ctx delay in
          match serr with
          | Some e' => ret (Some e')
          | None => retry_loop n' (attempt + 1) (Some e)
          end
      end
    end
  end.
End loop.

(** What [Retry] substitutes for unset fields. *)
Definition retry_attempts (cfg : RetryConfig) : Z :=
  if MaxAttempts cfg <=? 0 then 1 else MaxAttempts cfg.
Definition retry_base (cfg : RetryConfig) : Z :=
  if BaseDelay cfg <=? 0 then 50 * Millisecond else BaseDelay cfg.
Definition retry_max (cfg : RetryConfig) : Z := if MaxDelay cfg <=? 0 then Second else MaxDelay cfg.
Definition retry_if (cfg : RetryConfig) : goerror → bool :=
  match ShouldRetry cfg with Some f => f | None => λ _, true end.

(* go: internal/service/resilience.go Retry *)
Definition Retry (ctx : Ctx) (cfg : RetryConfig) (fn : Ctx → Prog W error) : Prog W error :=
  let maxAttempts := retry_attempts cfg in
  let baseDelay := retry_base cfg in
  let maxDelay := retry_max cfg in
  let sleep := match cfg_sleep with Some f => f | None => default_sleep end in
  let shouldRetry := retry_if cfg in
  retry_loop ctx maxAttempts baseDelay maxDelay (Jitter cfg) shouldRetry sleep fn
    (Z.to_nat maxAttempts) 1 None.
End programs.

(** ** A rule for the retry loop *)

(** [I k w]: the operation has been called [k] times and the world is [w];
    [J w]: its last call has returned nil. *)
Section retry_rule.
Context {W : Type} (now : Prog W Z) (pick : Prog W bool) (Int63n : Z → Prog W Z).
Context (ov : Z → Z → Z) (cfg_sleep : option (Ctx → Z → Prog W error)).
Context (ctx : Ctx) (fn : Ctx → Prog W error) (I : nat → W → Prop) (J : W → Prop).

Definition keeps {A} (m : Prog W A) : Prop := ∀ k w, I k w → wp m (λ _ w', I k w') w.

Hypothesis now_I : keeps now.
Hypothesis pick_I : keeps pick.
Hypothesis rand_I : ∀ n, keeps (Int63n n).
Hypothesis sleep_I : ∀ f d, cfg_sleep = Some f → keeps (f ctx d).
Hypothesis fn_I : ∀ k w, I k w → wp (fn ctx) (λ r w', I (S k) w' ∧ (r = None → J w')) w.

Lemma keeps_sleep d :
  keeps (match cfg_sleep with Some f => f | None => default_sleep now pick end ctx d).
Proof.
  destruct cfg_sleep as [f|] eqn:E; [by apply (sleep_I f d)|]. intros k w Hk. unfold default_sleep.
  apply wp_bind. wp_use (now_I k w Hk). intros t w1 H1.
  apply wp_bind. wp_use (now_I k w1 H1). intros t' w2 H2.
  apply wp_bind. wp_use (pick_I k w2 H2). intros b w3 H3. by apply wp_ret.
Qed.

Lemma keeps_retryDelay b m j a : keeps (retryDelay Int63n ov b m j a).
Proof.
  intros k w Hk. unfold retryDelay. case_match; [by apply wp_ret|].
  apply wp_bind. wp_use (rand_I j k w Hk). intros r w1 H1. by apply wp_ret.
Qed.

Lemma wp_retry_loop_inv max base maxd jit sr n : ∀ attempt last k w,
  I k w → (0 < n)%nat ∨ is_Some last →
  wp (retry_loop now Int63n ov ctx max base maxd jit sr
       (match cfg_sleep with Some f => f | None => default_sleep now pick end) fn n attempt last)
    (λ r w', (∃ j, (j ≤ n)%nat ∧ I (k + j) w') ∧ (r = None → J w')) w.
Proof.
  induction n as [|n IH]; intros attempt last k w Hk Hlast; simpl.
  { apply wp_ret. split; [exists 0%nat; by rewrite Nat.add_0_r|].
    destruct Hlast as [?|[? ->]]; [lia|done]. }
  apply wp_bind. wp_use (now_I k w Hk). intros t w1 H1.
  assert (∀ w', I k w' → ∃ j, (j ≤ S n)%nat ∧ I (k + j) w') as Hnone.
  { intros w' ?. exists 0%nat. rewrite Nat.add_0_r. split; [lia|done]. }
  assert (∀ w', I (S k) w' → ∃ j, (j ≤ S n)%nat ∧ I (k + j) w') as Hone.
  { intros w' ?. exists 1%nat. rewrite Nat.add_1_r. split; [lia|done]. }
  destruct (ctx_Err ctx t); [apply wp_ret; split; [by apply Hnone|done]|].
  apply wp_bind. wp_use (fn_I k w1 H1). intros err w2 [H2 HJ].
  destruct err as [e|]; [|by apply wp_ret; split; [apply Hone|auto]].
  destruct (_ || _); [apply wp_ret; split; [by apply Hone|done]|].
  apply wp_bind. wp_use (keeps_retryDelay base maxd jit attempt (S k) w2 H2). intros d w3 H3.
  apply wp_bind. wp_use (keeps_sleep d (S k) w3 H3). intros se w4 H4.
  destruct se; [apply wp_ret; split; [by apply Hone|done]|].
  wp_use (IH (attempt + 1) (Some e) (S k) w4 H4); [by right; eexists|].
  intros r w5 [(j & Hj & HI) HJ5]. split; [|done].
  exists (S j). split; [lia|]. by rewrite Nat.add_succ_r.
Qed.

Lemma wp_Retry_inv cfg w :
  I 0 w →
  wp (Retry now pick Int63n ov cfg_sleep ctx cfg fn)
    (λ r w', (∃ j, Z.of_nat j ≤ retry_attempts cfg ∧ I j w') ∧ (r = None → J w')) w.
Proof.
  intros H0. unfold Retry.
  assert (0 < retry_attempts cfg).
  { unfold retry_attempts. destruct (Z.leb_spec (MaxAttempts cfg) 0); lia. }
  eapply wp_mono; [apply (wp_retry_loop_inv _ _ _ _ _ _ _ None 0); [done | left; lia]|].
  intros r w' [(j & Hj & HI) HJ]. split; [|done]. exists j. split; [lia | done].
Qed.

(** A first call that succeeds ends the loop. *)
Lemma wp_Retry_first cfg w (Q : error → W → Prop) :
  wp now (λ t w1, ctx_Err ctx t = None ∧ wp (fn ctx) (λ r w2, r = None ∧ Q None w2) w1) w →
  wp (Retry now pick Int63n ov cfg_sleep ctx cfg fn) Q w.
Proof.
  intros H. unfold Retry.
  assert (∃ n, Z.to_nat (retry_attempts cfg) = S n) as [n ->].
  { exists (pred (Z.to_nat (retry_attempts cfg))). unfold retry_attempts.
    destruct (Z.leb_spec (MaxAttempts cfg) 0); lia. }
  simpl. apply wp_bind. wp_use H. intros t w1 [-> Hfn].
  apply wp_bind. wp_use Hfn. intros r w2 [-> HQ]. by apply wp_ret.
Qed.
End retry_rule.

(** ** The breaker invariant *)

Record cb_ok (cb : CircuitBreaker) : Prop := {
  cb_ok_threshold : 0 < cb_threshold cb;
  cb_ok_reset : 0 < cb_resetTimeout cb;
  cb_ok_failures : 0 ≤ cb_failures cb;
  cb_ok_closed : cb_state cb = CircuitClosed → cb_failures cb < cb_threshold cb;
  cb_ok_running : cb_halfOpenRunning cb = true → cb_state cb = CircuitHalfOpen
}.

Ltac cb_cases :=
  repeat (simpl in *; subst;
    match goal with
    | H : cb_ok _ |- _ => destruct H; simpl in *
    | cb : CircuitBreaker |- _ => destruct cb; simpl in *
    | s : CircuitState |- _ => destruct s
    | |- context [ match ?x with _ => _ end ] => destruct x eqn:?
    | H : context [ match ?x with _ => _ end ] |- _ => destruct x eqn:?
    | H : (_, _) = (_, _) |- _ => injection H as ?
    end).

Ltac cb_solve := cb_cases; simpl in *; try constructor; simpl; intros; try lia; try naive_solver.

Lemma NewCircuitBreaker_ok threshold resetTimeout : cb_ok (NewCircuitBreaker threshold resetTimeout).
Proof. unfold NewCircuitBreaker, Second. cb_solve. Qed.

Lemma State_ok now cb : cb_ok cb → cb_ok (State now cb).2.
Proof.
  intros [? ? ? ? Hr]. unfold State.
  destruct (bool_decide_reflect (cb_state cb = CircuitOpen)); simpl; [|by constructor].
  destruct (_ <=? _); constructor; simpl; try done; intros; congruence.
Qed.

Lemma beforeRequest_ok now cb : cb_ok cb → cb_ok (beforeRequest now cb).2.
Proof. unfold beforeRequest. intros. cb_solve. Qed.

Lemma afterRequest_ok now err cb : cb_ok cb → cb_ok (afterRequest now err cb).
Proof. unfold afterRequest. intros. cb_solve. Qed.

#[export] Hint Resolve NewCircuitBreaker_ok State_ok beforeRequest_ok afterRequest_ok : core.

(** ** Requests in flight *)

(** The breaker shared by concurrent requests: the clock, the number of
    requests in flight that were admitted in the closed state and as half-open
    probes, and how often a request admitted in the closed state finished while
    the circuit was half open. *)
Record BState := mkBState {
  bs_now : Z; bs_cb : CircuitBreaker; bs_normal : nat; bs_probes : nat; bs_strays : nat
}.

Definition halfopen (cb : CircuitBreaker) : nat :=
  match cb_state cb with CircuitHalfOpen => 1 | _ => 0 end.

Inductive bstep : BState → BState → Prop :=
| bstep_tick now now' cb n p s :
    now ≤ now' → bstep (mkBState now cb n p s) (mkBState now' cb n p s)
| bstep_State now cb n p s :
    bstep (mkBState now cb n p s) (mkBState now (State now cb).2 n p s)
| bstep_admit now cb cb' n p s :
    beforeRequest now cb = (None, cb') →
    bstep (mkBState now cb n p s)
      (mkBState now cb' (n + (1 - halfopen cb')) (p + halfopen cb') s)
| bstep_reject now cb e n p s :
    (beforeRequest now cb).1 = Some e →
    bstep (mkBState now cb n p s) (mkBState now (beforeRequest now cb).2 n p s)
| bstep_finish now err cb n p s :
    bstep (mkBState now cb (S n) p s)
      (mkBState now (afterRequest now err cb) n p (s + halfopen cb))
| bstep_finish_probe now err cb n p s :
    bstep (mkBState now cb n (S p) s) (mkBState now (afterRequest now err cb) n p s).

Inductive breachable (cb0 : CircuitBreaker) (t0 : Z) : BState → Prop :=
| breach_start : breachable cb0 t0 (mkBState t0 cb0 0 0 0)
| breach_step b b' : breachable cb0 t0 b → bstep b b' → breachable cb0 t0 b'.

Definition running (cb : CircuitBreaker) : nat := if cb_halfOpenRunning cb then 1 else 0.

Lemma bstep_ok b b' : bstep b b' → cb_ok (bs_cb b) → cb_ok (bs_cb b').
Proof.
  intros Hs Hok. destruct Hs as [| |now cb cb' n p s Ha| | |]; cbn [bs_cb] in *; auto.
  replace cb' with (beforeRequest now cb).2 by (by rewrite Ha). auto.
Qed.

Lemma admit_probes now cb cb' :
  cb_ok cb → beforeRequest now cb = (None, cb') →
  (halfopen cb' + running cb = running cb')%nat.
Proof.
  unfold beforeRequest, running, halfopen. intros Hok Hb.
  pose proof (cb_ok_running _ Hok) as Hr.
  cb_cases; simplify_eq; simpl in *; naive_solver.
Qed.

Lemma reject_same now cb e :
  (beforeRequest now cb).1 = Some e → (beforeRequest now cb).2 = cb.
Proof. unfold beforeRequest. cb_cases; simplify_eq; done. Qed.

Lemma finish_running now err cb :
  (running cb ≤ running (afterRequest now err cb) + halfopen cb)%nat.
Proof. unfold afterRequest, running, halfopen. cb_cases; simpl in *; lia. Qed.

Lemma finish_probe_running now err cb :
  cb_ok cb → (running cb ≤ 1 + running (afterRequest now err cb))%nat.
Proof. unfold afterRequest, running. intros _. cb_cases; simpl in *; lia. Qed.

Lemma bstep_probes b b' :
  bstep b b' → cb_ok (bs_cb b) →
  (bs_probes b ≤ running (bs_cb b) + bs_strays b)%nat →
  (bs_probes b' ≤ running (bs_cb b') + bs_strays b')%nat.
Proof.
  intros Hs Hok Hp.
  destruct Hs as [now now' cb n p s Ht | now cb n p s | now cb cb' n p s Ha | now cb e n p s Hr
    | now err cb n p s | now err cb n p s]; simpl in *.
  - done.
  - unfold running, State in *. simpl in *. by destruct (_ && _).
  - pose proof (admit_probes _ _ _ Hok Ha). lia.
  - by rewrite (reject_same _ _ _ Hr).
  - pose proof (finish_running now err cb). lia.
  - pose proof (finish_probe_running now err cb Hok). lia.
Qed.

Lemma breachable_inv cb0 t0 b :
  cb_ok cb0 → cb_halfOpenRunning cb0 = false → breachable cb0 t0 b →
  cb_ok (bs_cb b) ∧ (bs_probes b ≤ running (bs_cb b) + bs_strays b)%nat.
Proof.
  intros Hok Hr. induction 1 as [|b b' _ [IH1 IH2] Hs]; simpl.
  - split; [done|]. lia.
  - split; [by eapply bstep_ok | by eapply bstep_probes].
Qed.

(** ** Properties of the breaker *)

(** C21 However requests, clock ticks and [State] calls interleave, the breaker
    keeps its invariant (a closed circuit has seen fewer failures than the
    threshold, the probe flag is only up in the half-open state), and the
    half-open probes in flight exceed one only by the number of requests
    admitted before the circuit opened that finished while it was half open. *)
Theorem breaker_probes cb0 t0 b :
  cb_ok cb0 → cb_halfOpenRunning cb0 = false → breachable cb0 t0 b →
  cb_ok (bs_cb b) ∧ (bs_probes b ≤ 1 + bs_strays b)%nat.
Proof.
  intros Hok Hr Hb. destruct (breachable_inv _ _ _ Hok Hr Hb) as [? Hp].
  split; [done|]. unfold running in Hp. destruct (cb_halfOpenRunning (bs_cb b)); lia.
Qed.

Lemma breaker_probes_witness :
  breachable (NewCircuitBreaker 3 5) 0 (mkBState 0 (NewCircuitBreaker 3 5) 1 0 0) ∧
  cb_ok (NewCircuitBreaker 3 5) ∧ (0 ≤ 1 + 0)%nat.
Proof.
  assert (breachable (NewCircuitBreaker 3 5) 0 (mkBState 0 (NewCircuitBreaker 3 5) 1 0 0)) as Hb.
  { eapply breach_step; [apply breach_start|]. by refine (bstep_admit 0 (NewCircuitBreaker 3 5) (NewCircuitBreaker 3 5) 0 0 0 _). }
  split; [done|].
  exact (breaker_probes _ 0 _ (NewCircuitBreaker_ok 3 5) eq_refl Hb).
Defined.

Section execute.
Context {W : Type} (now : Prog W Z) (cb_of : W → CircuitBreaker) (put_cb : CircuitBreaker → W → W).
Hypothesis cb_put : ∀ cb w, cb_of (put_cb cb w) = cb.
Hypothesis put_same : ∀ w, put_cb (cb_of w) w = w.
Hypothesis now_cb : ∀ w, cb_of (now w).2 = cb_of w.

(** A function that leaves the breaker alone. *)
Definition leaves_cb (fn : Prog W error) : Prop := ∀ w, cb_of (fn w).2 = cb_of w.

(** One request after the other. *)
Fixpoint executes (fns : list (Prog W error)) : Prog W (list error) :=
  match fns with
  | [] => ret []
  | fn :: fns =>
    let! e := Execute now cb_of put_cb fn in
    let! es := executes fns in
    ret (e :: es)
  end.

(** How many failures in a row end a list of outcomes. *)
Fixpoint leading (es : list error) : nat :=
  match es with Some _ :: es => S (leading es) | _ => O end.
Definition streak (es : list error) : Z := Z.of_nat (leading (reverse es)).

Lemma streak_snoc es e : streak (es ++ [e]) = match e with None => 0 | Some _ => streak es + 1 end.
Proof. unfold streak. rewrite reverse_snoc. destruct e; simpl; lia. Qed.

(** A request in the closed state runs the function and counts its outcome. *)
Lemma Execute_closed fn w :
  cb_ok (cb_of w) → cb_state (cb_of w) = CircuitClosed → leaves_cb fn →
  wp (Execute now cb_of put_cb fn) (λ e w',
    (∃ v, (fn v).1 = e) ∧ cb_ok (cb_of w') ∧
    let n := match e with None => 0 | Some _ => cb_failures (cb_of w) + 1 end in
    cb_failures (cb_of w') = n ∧ cb_threshold (cb_of w') = cb_threshold (cb_of w) ∧
    if cb_threshold (cb_of w) <=? n
    then cb_state (cb_of w') = CircuitOpen ∧ ∃ v, cb_openedAt (cb_of w') = (now v).1
    else cb_state (cb_of w') = CircuitClosed) w.
Proof.
  intros Hok Hc Hfn. unfold wp, Execute, bind, get, modify, ret.
  pose proof (now_cb w) as Hn. destruct (now w) as [t w1] eqn:E. simpl in *.
  unfold beforeRequest. rewrite Hn, Hc, <- Hn, put_same.
  pose proof (Hfn w1) as Hf. destruct (fn w1) as [err w2] eqn:Ef.
  pose proof (now_cb w2) as Hn2. destruct (now w2) as [t2 w3] eqn:E2. simpl in *.
  rewrite cb_put, Hn2, Hf, Hn. split; [exists w1; by rewrite Ef|]. split; [by apply afterRequest_ok|].
  unfold afterRequest. rewrite Hc. destruct Hok. destruct err; simpl.
  - destruct (Z.leb_spec (cb_threshold (cb_of w)) (cb_failures (cb_of w) + 1)); simpl; split_and!; try done.
    exists w2. by rewrite E2.
  - split_and!; [done..|]. by destruct (Z.leb_spec (cb_threshold (cb_of w)) 0); [lia|].
Qed.

Lemma executes_closed fns : ∀ p w,
  cb_ok (cb_of w) → cb_state (cb_of w) = CircuitClosed → cb_failures (cb_of w) = streak p →
  Forall leaves_cb fns →
  wp (executes fns) (λ es w',
    (∀ q, q `prefix_of` es → q ≠ es → streak (p ++ q) < cb_threshold (cb_of w)) →
    Forall2 (λ (fn : Prog W error) e, ∃ v, (fn v).1 = e) fns es ∧
    if cb_threshold (cb_of w) <=? streak (p ++ es)
    then cb_state (cb_of w') = CircuitOpen ∧ ∃ v, cb_openedAt (cb_of w') = (now v).1
    else cb_state (cb_of w') = CircuitClosed ∧ cb_failures (cb_of w') = streak (p ++ es)) w.
Proof.
  induction fns as [|fn fns IH]; intros p w Hok Hc Hf Hfns; simpl.
  { apply wp_ret. intros _. rewrite app_nil_r. split; [done|]. rewrite <- Hf.
    pose proof (cb_ok_closed _ Hok Hc). by destruct (Z.leb_spec (cb_threshold (cb_of w)) (cb_failures (cb_of w))); [lia|]. }
  apply Forall_cons in Hfns as [Hfn Hfns]. apply wp_bind.
  wp_use (Execute_closed fn w Hok Hc Hfn). intros e w1 (Hres & Hok1 & Hf1 & Ht1 & Hs1).
  rewrite Hf, <- streak_snoc in Hf1, Hs1. apply wp_bind.
  destruct (Z.leb_spec (cb_threshold (cb_of w)) (streak (p ++ [e]))) as [Hle|Hlt].
  - apply wp_intro. intros es w2 E2. apply wp_ret. intros Hq. destruct fns as [|fn2 fns].
    + injection E2 as <- <-. split; [by constructor|].
      by destruct (Z.leb_spec (cb_threshold (cb_of w)) (streak (p ++ [e]))); [|lia].
    + exfalso. simpl in E2. unfold bind, ret in E2. destruct (Execute _ _ _ fn2 w1) as [e2 w1'].
      destruct (executes fns w1') as [es' w1'']. injection E2 as <- <-.
      specialize (Hq [e] ltac:(by exists (e2 :: es')) ltac:(done)). lia.
  - wp_use (IH (p ++ [e])%list w1 Hok1 Hs1 Hf1 Hfns). intros es w2 H2. apply wp_ret. intros Hq. rewrite Ht1 in H2.
    destruct H2 as [Hall H2].
    { intros q [k ->] Hne. rewrite <- (assoc_L (++)). apply Hq; [by exists k | by intros [= ?]]. }
    split; [by constructor|]. by rewrite <- (assoc_L (++)) in H2.
Qed.

(** C22 A closed circuit opens exactly when the last outcomes are as many
    failures in a row as the threshold: take requests executed one after the
    other on a closed breaker without failures, whose outcomes, successes and
    failures in any order, never had that many failures in a row before the
    last one.  Then every function has been run, and the circuit is open, since
    a time that was read from the clock, if the outcomes end in that many
    failures, and closed, with their number as its count, if they do not. *)
Theorem breaker_opens fns w :
  cb_ok (cb_of w) → cb_state (cb_of w) = CircuitClosed → cb_failures (cb_of w) = 0 →
  Forall leaves_cb fns →
  wp (executes fns) (λ es w',
    (∀ q, q `prefix_of` es → q ≠ es → streak q < cb_threshold (cb_of w)) →
    Forall2 (λ (fn : Prog W error) e, ∃ v, (fn v).1 = e) fns es ∧
    if cb_threshold (cb_of w) <=? streak es
    then cb_state (cb_of w') = CircuitOpen ∧ ∃ v, cb_openedAt (cb_of w') = (now v).1
    else cb_state (cb_of w') = CircuitClosed ∧ cb_failures (cb_of w') = streak es) w.
Proof. intros Hok Hc Hf. by apply (executes_closed fns []). Qed.

(** While the circuit is open and the reset timeout has not elapsed, or a
    half-open probe is running, [Execute] answers [ErrCircuitOpen] without
    running the function: the world is the same but for the clock reading. *)
Theorem Execute_open fn w :
  (cb_state (cb_of w) = CircuitOpen ∧
     (now w).1 - cb_openedAt (cb_of w) < cb_resetTimeout (cb_of w)) ∨
  (cb_state (cb_of w) = CircuitHalfOpen ∧ cb_halfOpenRunning (cb_of w) = true) →
  Execute now cb_of put_cb fn w = (Some ErrCircuitOpen, (now w).2).
Proof.
  intros H. unfold Execute, bind, get, modify, ret.
  pose proof (now_cb w) as Hn. destruct (now w) as [t w'] eqn:E. simpl in *.
  assert (beforeRequest t (cb_of w') = (Some ErrCircuitOpen, cb_of w')) as ->.
  { unfold beforeRequest. rewrite Hn. destruct H as [[-> Ht]|[-> ->]]; [|done].
    by destruct (Z.ltb_spec (t - cb_openedAt (cb_of w)) (cb_resetTimeout (cb_of w))); [|lia]. }
  by rewrite put_same.
Qed.

(** After the reset timeout the next request is let through as the probe,
    and its outcome alone decides: a success closes the circuit with a clean
    failure count, a failure opens it again for another full timeout. *)
Theorem Execute_probe fn w :
  cb_state (cb_of w) = CircuitOpen →
  cb_resetTimeout (cb_of w) ≤ (now w).1 - cb_openedAt (cb_of w) →
  (∀ v, cb_of (fn v).2 = cb_of v) →
  wp (Execute now cb_of put_cb fn) (λ err w',
    cb_halfOpenRunning (cb_of w') = false ∧
    match err with
    | None => cb_state (cb_of w') = CircuitClosed ∧ cb_failures (cb_of w') = 0
    | Some _ => cb_state (cb_of w') = CircuitOpen ∧ ∃ v, cb_openedAt (cb_of w') = (now v).1
    end) w.
Proof.
  intros Ho Ht Hfn. unfold wp, Execute, bind, get, modify, ret.
  pose proof (now_cb w) as Hn. destruct (now w) as [t w1] eqn:E. simpl in *.
  unfold beforeRequest. rewrite Hn, Ho.
  destruct (Z.ltb_spec (t - cb_openedAt (cb_of w)) (cb_resetTimeout (cb_of w))); [lia|].
  destruct (fn _) as [err w2] eqn:Ef.
  pose proof (now_cb w2) as Hn2. destruct (now w2) as [t2 w3] eqn:E2. simpl in *.
  assert (cb_of w3 = cb_of w2) as Hw by done. pose proof (Hfn (put_cb
    (cb_set_running true (cb_set_failures 0 (cb_set_state CircuitHalfOpen (cb_of w)))) w1)) as Hv.
  rewrite Ef, cb_put in Hv. simpl in Hv.
  rewrite cb_put. unfold afterRequest. rewrite Hw, Hv. simpl.
  destruct err; simpl; split_and!; try done. exists w2. by rewrite E2.
Qed.
End execute.

(** A world that is a clock and a breaker. *)
Definition tick (w : Z * CircuitBreaker) : Z * (Z * CircuitBreaker) := (w.1, (w.1 + 1, w.2)).

Lemma proper_prefixes {A} (P : list A → Prop) l :
  Forall (λ n, P (take n l)) (seq 0 (length l)) → ∀ q, q `prefix_of` l → q ≠ l → P q.
Proof.
  intros Hall q [k ->] Hne. rewrite Forall_seq in Hall. rewrite <- (take_app_length q k). apply Hall.
  rewrite length_app. destruct k; [by rewrite app_nil_r in Hne|]. simpl. lia.
Qed.

(** A failure, a success and two failures on a breaker with threshold 2. *)
Definition failing : Prog (Z * CircuitBreaker) error := ret (Some (Opaque "down")).
Definition succeeding : Prog (Z * CircuitBreaker) error := ret None.

Definition failure : error := Some (Opaque "down").
Definition after_failures : (list error) * (Z * CircuitBreaker) :=
  ([failure; None; failure; failure], (8, mkCircuitBreaker CircuitOpen 2 2 5 7 false)).

Example failures_run :
  executes tick snd (λ cb w, (w.1, cb)) [failing; succeeding; failing; failing] (0, NewCircuitBreaker 2 5)
  = after_failures.
Proof. reflexivity. Qed.

Lemma breaker_opens_witness :
  streak after_failures.1 = 2 ∧ cb_state after_failures.2.2 = CircuitOpen ∧
  ∃ v, cb_openedAt after_failures.2.2 = (tick v).1.
Proof.
  pose proof (breaker_opens tick snd (λ cb w, (w.1, cb)) ltac:(by intros) ltac:(by intros []) ltac:(by intros)
    [failing; succeeding; failing; failing] (0, NewCircuitBreaker 2 5)
    (NewCircuitBreaker_ok 2 5) eq_refl eq_refl ltac:(by repeat constructor)) as Hw.
  unfold wp in Hw. rewrite failures_run in Hw. split; [reflexivity|].
  refine (proj2 (Hw _)). apply proper_prefixes. repeat constructor.
Defined.

Lemma Execute_open_witness :
  let cb := mkCircuitBreaker CircuitOpen 3 3 10 100 false in
  Execute tick snd (λ cb w, (w.1, cb)) (λ w, (None, w)) (105, cb)
    = (Some ErrCircuitOpen, (106, cb)).
Proof.
  intros cb. apply (Execute_open tick snd (λ cb w, (w.1, cb)));
    [by intros [] | by intros [] | by left].
Defined.

Lemma Execute_probe_witness :
  let cb := mkCircuitBreaker CircuitOpen 3 3 10 100 false in
  wp (Execute tick snd (λ cb w, (w.1, cb)) (λ w, (None, w))) (λ err w',
    cb_halfOpenRunning w'.2 = false ∧
    match err with
    | None => cb_state w'.2 = CircuitClosed ∧ cb_failures w'.2 = 0
    | Some _ => cb_state w'.2 = CircuitOpen ∧ ∃ v, cb_openedAt w'.2 = (tick v).1
    end) (115, cb).
Proof.
  intros cb. apply (Execute_probe tick snd (λ cb w, (w.1, cb)));
    [done | by intros [] | done | simpl; lia | done].
Defined.

(** The single-probe rule can be broken: a request admitted before the
    circuit opened that fails while the probe is running reopens the circuit,
    and after another timeout a second probe runs beside the first. *)
Theorem breaker_two_probes :
  ∃ b, breachable (NewCircuitBreaker 1 10) 0 b ∧ bs_probes b = 2%nat.
Proof.
  set (cb0 := NewCircuitBreaker 1 10). set (fail := Some (Opaque "down")).
  set (half := cb_set_running true (cb_set_failures 0 (cb_set_state CircuitHalfOpen
    (afterRequest 0 fail cb0)))).
  set (half2 := cb_set_running true (cb_set_failures 0 (cb_set_state CircuitHalfOpen
    (afterRequest 15 fail half)))).
  exists (mkBState 30 half2 0 2 1). split; [|done].
  (* two requests admitted while closed; one of them opens the circuit at 0 *)
  pose proof (breach_start cb0 0) as H.
  eapply breach_step in H; [|refine (bstep_admit 0 cb0 cb0 0 0 0 _); reflexivity].
  eapply breach_step in H; [|refine (bstep_admit 0 cb0 cb0 1 0 0 _); reflexivity].
  eapply breach_step in H; [|refine (bstep_finish 0 fail cb0 1 0 0)].
  (* the first probe at 15, the straggler fails, the second probe at 30 *)
  eapply breach_step in H; [|refine (bstep_tick 0 15 _ _ _ _ _); lia].
  eapply breach_step in H; [|refine (bstep_admit 15 _ half 1 0 0 _); reflexivity].
  eapply breach_step in H; [|refine (bstep_finish 15 fail half 0 1 0)].
  eapply breach_step in H; [|refine (bstep_tick 15 30 _ _ _ _ _); lia].
  eapply breach_step in H; [|refine (bstep_admit 30 _ half2 0 1 1 _); reflexivity].
  exact H.
Qed.

(** ** Properties of the retry loop *)

Section retry.
Context {W : Type} (now : Prog W Z) (pick : Prog W bool) (Int63n : Z → Prog W Z).
Context (float_overflow : Z → Z → Z) (cfg_sleep : option (Ctx → Z → Prog W error)).

(** The world has a clock, which does not run backwards, and counts the calls of
    [fn]; the answer of each call is given. *)
Context (clock : W → Z) (calls : W → nat) (answers : nat → error) (fn : Ctx → Prog W error) (ctx : Ctx).

Definition passes {A} (m : Prog W A) : Prop := ∀ w, calls (m w).2 = calls w ∧ clock w ≤ clock (m w).2.

Hypothesis now_passes : passes now.
Hypothesis now_reads : ∀ w, (now w).1 = clock (now w).2.
Hypothesis pick_passes : passes pick.
Hypothesis rand_passes : ∀ n, passes (Int63n n).
Hypothesis sleep_passes : ∀ f d, cfg_sleep = Some f → passes (f ctx d).
Hypothesis fn_calls : ∀ w, (fn ctx w).1 = answers (calls w) ∧ calls (fn ctx w).2 = S (calls w) ∧
  clock w ≤ clock (fn ctx w).2.

Variables (base maxd jit : Z) (retryable : goerror → bool).

Abbreviation delay_of := (retryDelay Int63n float_overflow base maxd jit).
Abbreviation sleep := (match cfg_sleep with Some f => f | None => default_sleep now pick end).

(** What ends a run before its outcome is that of the last call: the context has
    ended by the end of the run; or it ends before the delay is over, or the
    [Sleep] of the caller fails on the delay. *)
Definition interrupted (e : goerror) (w' : W) : Prop :=
  ctx_Err ctx (clock w') = Some e ∨
  ∃ attempt v, let d := (delay_of attempt v).1 in
    match cfg_sleep with
    | Some f => ∃ v', (f ctx d v').1 = Some e
    | None => ∃ T, ctx_done ctx = Some (T, e) ∧ T < clock w' + d
    end.

(** What a run from [w] to [w'] reports: [k] calls of at most [max]. *)
Record retry_outcome (w w' : W) (k : nat) (max : Z) (r : error) : Prop := {
  ro_calls : calls w' = (calls w + k)%nat;
  ro_max : Z.of_nat k ≤ max;
  ro_retryable i : (S i < k)%nat → ∃ e, answers (calls w + i) = Some e ∧ retryable e = true;
  ro_ended : ∀ e, ctx_Err ctx (now w).1 = Some e → k = 0%nat ∧ r = Some e;
  ro_called : ctx_Err ctx (now w).1 = None → (0 < k)%nat;
  ro_result :
    (∃ e, r = Some e ∧ interrupted e w' ∧ Z.of_nat k < max) ∨
    (∃ n, k = S n ∧ r = answers (calls w + n) ∧
       match r with None => True | Some e => Z.of_nat k = max ∨ retryable e = false end)
}.

Lemma wp_passes {A} (m : Prog W A) (Q : A → W → Prop) w :
  passes m → (∀ a w', m w = (a, w') → calls w' = calls w → clock w ≤ clock w' → Q a w') → wp m Q w.
Proof. intros Hm HQ. apply wp_intro. intros a w' E. destruct (Hm w) as [? ?]. rewrite E in *. by apply HQ. Qed.

Lemma passes_retryDelay a : passes (delay_of a).
Proof.
  intros w. unfold retryDelay. case_match; [done|]. unfold bind. pose proof (rand_passes jit w) as Hr.
  by destruct (Int63n jit w).
Qed.

(** The default sleep fails with the error of the context, which has ended or
    ends before the delay does. *)
Lemma wp_default_sleep d (Q : error → W → Prop) w :
  (∀ r w', calls w' = calls w → clock w ≤ clock w' →
     (∀ e, r = Some e → ctx_Err ctx (clock w') = Some e ∨
        ∃ T, ctx_done ctx = Some (T, e) ∧ T < clock w' + d) → Q r w') →
  wp (default_sleep now pick ctx d) Q w.
Proof.
  intros HQ. unfold default_sleep.
  apply wp_bind, (wp_passes now); [done|]. intros t0 w1 E1 C1 K1. pose proof (now_reads w) as R1.
  apply wp_bind, (wp_passes now); [done|]. intros t w2 E2 C2 K2. pose proof (now_reads w1) as R2.
  apply wp_bind, (wp_passes pick); [done|]. intros b w3 _ C3 K3. rewrite E1 in R1. rewrite E2 in R2. simpl in *.
  apply wp_ret, HQ; [congruence | lia |]. intros e. unfold select_done, ctx_Err.
  destruct (ctx_done ctx) as [[T c]|]; [|done].
  destruct (Z.leb_spec T t) as [Ht|Ht], (Z.leb_spec (t0 + d) t), (Z.ltb_spec T (t0 + d)); simpl;
    repeat case_match; intros; simplify_eq; first [left; destruct (Z.leb_spec T (clock w3)); [done | lia] |
      right; exists T; split; [done | lia]].
Qed.

Lemma wp_sleep attempt w0 w (Q : error → W → Prop) :
  (∀ r w', calls w' = calls w → clock w ≤ clock w' → (∀ e, r = Some e → interrupted e w') → Q r w') →
  wp (sleep ctx (delay_of attempt w0).1) Q w.
Proof.
  intros HQ. destruct cfg_sleep as [f|] eqn:Ef.
  - apply wp_passes; [by apply sleep_passes|]. intros r w' E C K. apply HQ; [done..|]. intros e ->.
    right. exists attempt, w0. rewrite Ef. exists w. by rewrite E.
  - apply wp_default_sleep. intros r w' C K Hr. apply HQ; [done..|]. intros e He.
    destruct (Hr e He) as [?|(T & ? & ?)]; [by left|]. right. exists attempt, w0. rewrite Ef. by exists T.
Qed.

Lemma retry_loop_spec max n : ∀ attempt w last,
  0 < attempt → attempt + Z.of_nat n = max + 1 → (0 < n)%nat →
  wp (retry_loop now Int63n float_overflow ctx max base maxd jit retryable sleep fn n attempt last)
     (λ r w', clock w ≤ clock w' ∧ ∃ k, retry_outcome w w' k (Z.of_nat n) r) w.
Proof.
  induction n as [|n IH]; intros attempt w last Hpos Hmax Hn; [lia|].
  simpl retry_loop. apply wp_bind, (wp_passes now); [done|]. intros t w1 E1 C1 K1.
  pose proof (now_reads w) as R1. rewrite E1 in R1. simpl in R1.
  destruct (ctx_Err ctx t) as [e|] eqn:Ec.
  { apply wp_ret. split; [done|]. exists 0%nat. split; rewrite ?E1; simpl; try lia; try congruence; [naive_solver congruence|].
    left. exists e. split_and!; [done | left; by rewrite <- R1 | lia]. }
  apply wp_bind, wp_intro. intros err w2 Ef.
  destruct (fn_calls w1) as (Hans & C2 & K2). rewrite Ef in *. simpl in Hans, C2, K2. rewrite C1 in Hans, C2.
  assert (∀ r, r = err → (r = None ∨ ∃ e, r = Some e ∧ (attempt = max ∨ retryable e = false)) →
    clock w ≤ clock w2 ∧ ∃ k, retry_outcome w w2 k (Z.of_nat (S n)) r) as Hlast.
  { intros r -> Hr. split; [lia|]. exists 1%nat. split; rewrite ?E1; simpl; try lia; try congruence.
    right. exists 0%nat. rewrite Nat.add_0_r. split_and!; [done..|].
    destruct Hr as [->|(e & -> & [?|?])]; [done | left; lia | by right]. }
  destruct err as [e|]; [|apply wp_ret, Hlast; [done | by left]].
  destruct ((attempt =? max) || negb (retryable e)) eqn:Eb.
  { apply wp_ret, Hlast; [done|]. right. exists e. split; [done|].
    apply orb_true_iff in Eb as [Eb|Eb]; [left; lia | right; by apply negb_true_iff]. }
  apply orb_false_iff in Eb as [Eatt Eret]. apply negb_false_iff in Eret.
  apply wp_bind, (wp_passes (delay_of attempt)); [apply passes_retryDelay|]. intros d w3 E3 C3 K3.
  assert (d = (delay_of attempt w2).1) as -> by by rewrite E3.
  apply wp_bind, wp_sleep. intros serr w4 C4 K4 Hint. destruct serr as [e'|].
  { apply wp_ret. split; [lia|]. exists 1%nat. split; rewrite ?E1; simpl; try lia; try congruence.
    left. exists e'. split_and!; [done | by apply Hint | lia]. }
  wp_use (IH (attempt + 1) w4 (Some e)); try lia.
  intros r w5 (K5 & k & [HC HM HR HE Hcl Hres]). split; [lia|]. exists (S k).
  assert (calls w4 = S (calls w)) as C by congruence. rewrite C in *.
  split; rewrite ?E1; simpl; try lia; try congruence.
  - intros [|i] Hi; [rewrite Nat.add_0_r; by exists e|].
    destruct (HR i ltac:(lia)) as (e0 & He0 & ?). exists e0. by rewrite Nat.add_succ_r.
  - destruct Hres as [(e0 & ? & ? & ?)|(m & -> & Hr & Hm)].
    + left. exists e0. split_and!; try done. lia.
    + right. exists (S m). rewrite Nat.add_succ_r. split_and!; try done.
      destruct r; [|done]. destruct Hm; [left; lia | by right].
Qed.
End retry.

(** C23 [Retry] calls the operation at most [MaxAttempts] times, and at least
    once unless the context has ended when it starts, in which case it returns
    the error of the context; it repeats the operation only after an error that
    can be retried; and it returns what the last call returned, an error only
    if it cannot be retried or was that of the last attempt, unless it gives
    up before: with the error of the context, if that has ended or ends while
    it sleeps between two attempts, or with that of the caller's [Sleep]. *)
Theorem Retry_outcome {W} (now : Prog W Z) pick Int63n ov cfg_sleep clock calls answers fn ctx cfg w :
  passes clock calls now → (∀ w, (now w).1 = clock (now w).2) →
  passes clock calls pick → (∀ n, passes clock calls (Int63n n)) →
  (∀ f d, cfg_sleep = Some f → passes clock calls (f ctx d)) →
  (∀ w, (fn ctx w).1 = answers (calls w) ∧ calls (fn ctx w).2 = S (calls w) ∧ clock w ≤ clock (fn ctx w).2) →
  wp (Retry now pick Int63n ov cfg_sleep ctx cfg fn) (λ r w', ∃ k,
    retry_outcome now Int63n ov cfg_sleep clock calls answers ctx (retry_base cfg) (retry_max cfg) (Jitter cfg)
      (retry_if cfg) w w' k (retry_attempts cfg) r) w.
Proof.
  intros Hnow Hreads Hpick Hrand Hsleep Hfn.
  assert (0 < retry_attempts cfg) by (unfold retry_attempts; destruct (Z.leb_spec (MaxAttempts cfg) 0); lia).
  unfold Retry. eapply wp_mono.
  { apply (retry_loop_spec now pick Int63n ov cfg_sleep clock calls answers); first [done | lia]. }
  intros r w' (_ & k & Hout). exists k. by rewrite Z2Nat.id in Hout by lia.
Qed.

(** A world that counts calls, and whose clock advances by one with each call. *)
Lemma Retry_outcome_witness :
  let answers n := if (n <? 2)%nat then Some (Opaque "busy") else None in
  let fn (_ : Ctx) (n : nat) := (answers n, S n) in
  let now (n : nat) := (Z.of_nat n, n) in
  let cfg := mkRetryConfig 5 0 0 0 None in
  Retry now (ret true) (λ _, ret 0) (λ _ _, 0) None Background cfg fn 0%nat = (None, 3%nat) ∧
  wp (Retry now (ret true) (λ _, ret 0) (λ _ _, 0) None Background cfg fn) (λ r w', ∃ k,
    retry_outcome now (λ _, ret 0) (λ _ _, 0) None Z.of_nat id answers Background
      (50 * Millisecond) Second 0 (λ _, true) 0%nat w' k 5 r) 0%nat.
Proof.
  intros answers fn now cfg. split; [reflexivity|].
  apply (Retry_outcome now (ret true) (λ _, ret 0) (λ _ _, 0) None Z.of_nat id answers fn Background cfg 0%nat);
    first [by intros | intros v; unfold fn; simpl; split_and!; [done..|lia]].
Defined.

(** The delay of the first attempts, and of those where the product overflows. *)
Lemma backoff_exact ov base attempt :
  0 < base ≤ 2 ^ 53 → 1 ≤ attempt → base * 2 ^ (attempt - 1) ≤ max_int64 →
  backoff ov base attempt = base * 2 ^ (attempt - 1).
Proof.
  intros Hb Ha Hm. unfold backoff. rewrite round53_exact by lia.
  rewrite bool_decide_true; [done|].
  pose proof (Z.pow_pos_nonneg 2 (attempt - 1)). int64.
Qed.

(** C24 The delay before the next attempt doubles from [BaseDelay] up to
    [MaxDelay], plus a jitter below [Jitter]: as long as the doubled delay fits
    in 64 bits it lies between the capped delay and that plus the jitter. *)
Theorem retryDelay_bounds {W} (Int63n : Z → Prog W Z) ov base maxd jit attempt w :
  (∀ n v, 0 < n → 0 ≤ (Int63n n v).1 < n) →
  0 < base ≤ 2 ^ 53 → 1 ≤ attempt → base * 2 ^ (attempt - 1) ≤ max_int64 →
  0 ≤ jit → maxd + jit ≤ max_int64 → 0 < maxd →
  wp (retryDelay Int63n ov base maxd jit attempt) (λ d _,
    Z.min (base * 2 ^ (attempt - 1)) maxd ≤ d ≤
      Z.min (base * 2 ^ (attempt - 1)) maxd + Z.max 0 (jit - 1)) w.
Proof.
  intros Hr Hb Ha Hm Hj Hmj Hmax. unfold retryDelay.
  rewrite backoff_exact by done. set (d := base * 2 ^ (attempt - 1)) in *.
  assert (0 < d) by (apply Z.mul_pos_pos; [lia | apply Z.pow_pos_nonneg; lia]).
  replace (if maxd <? d then maxd else d) with (Z.min d maxd)
    by (destruct (Z.ltb_spec maxd d); lia).
  destruct (Z.leb_spec jit 0); [apply wp_ret; lia|].
  apply wp_bind, wp_intro. intros j w' E. apply wp_ret.
  pose proof (Hr jit w ltac:(lia)) as Hjit. rewrite E in Hjit. simpl in Hjit.
  rewrite add64_exact; [lia|int64].
Qed.

Lemma retryDelay_bounds_witness :
  wp (W := unit) (retryDelay (λ _, ret 0) (λ _ _, 0) (100 * Millisecond) Second (50 * Millisecond) 2)
    (λ d _, Z.min (100 * Millisecond * 2 ^ (2 - 1)) Second ≤ d ≤
      Z.min (100 * Millisecond * 2 ^ (2 - 1)) Second + Z.max 0 (50 * Millisecond - 1)) tt.
Proof.
  apply (retryDelay_bounds (λ _, ret 0) (λ _ _, 0)); by vm_compute.
Defined.
