(* ===== verification/Bank.v ===== *)
(** * Bank: the bank clients of internal/service/bank.go

    Also the errors after which the payment service asks the bank again. *)

From stdpp Require Import base tactics list gmap strings.
From Stdlib Require Import Ascii.
From S2P Require Import Prelude GoLib Domain.

Open Scope string_scope.
Open Scope Z_scope.

(* go: internal/service/bank.go 15-20 *)
Record BankChargeRequest := mkBankChargeRequest {
  bq_TransactionID : string;
  bq_MerchantID : string;
  bq_AmountCents : Z;
  bq_Currency : string
}.

(* go: internal/service/bank.go 22-26 *)
Record BankChargeResponse := mkBankChargeResponse {
  br_Approved : bool;
  br_Code : string;
  br_Message : string
}.

#[export] Instance BankChargeRequest_eq_dec : EqDecision BankChargeRequest.
Proof. solve_decision. Defined.

(** [Charge] returns a response and an error. *)
Abbreviation charge_result := (option BankChargeResponse * error)%type.

(* go: internal/service/bank.go 32-36 *)
Record SimulatedBankClient := mkSimulatedBankClient {
  Latency : Z;
  RejectAmounts : gmap Z bool;
  FailAmounts : gmap Z bool
}.

(** A lookup in a [map[int64]bool], nil maps included. *)
Definition map_bool (m : gmap Z bool) (k : Z) : bool := default false (m !! k).

(** The outcome of an HTTP exchange: a transport error, or a status code and
    the result of decoding the body as JSON. *)
Record HttpResponse := mkHttpResponse {
  StatusCode : Z;
  decoded : result goerror BankChargeResponse
}.

(* go: internal/service/bank.go 60-63 *)
Record HTTPBankClient := mkHTTPBankClient { BaseURL : string; ClientTimeout : Z }.

(* go: internal/service/bank.go NewHTTPBankClient *)
Definition NewHTTPBankClient (baseURL : string) (timeout : Z) : HTTPBankClient :=
  let timeout := if timeout <=? 0 then 5 * Second else timeout in
  mkHTTPBankClient (TrimRight baseURL "/"%char) timeout.

Definition rejected_message : string := "bank rejected the transaction".

(** The [switch] on the decoded response. *)
(* go: internal/service/bank.go 104-119 *)
Definition classify_response (status : Z) (bankResp : BankChargeResponse) : charge_result :=
  let with_message :=
    if bool_decide (br_Message bankResp = "")
    then mkBankChargeResponse (br_Approved bankResp) (br_Code bankResp) rejected_message
    else bankResp in
  if 500 <=? status then (None, Some ErrBankUnavailable)
  else if 400 <=? status then
    (Some with_message, Some (Wrap "" ErrBankRejected (": " +:+ br_Message with_message)))
  else if negb (br_Approved bankResp) then
    (Some with_message, Some (Wrap "" ErrBankRejected (": " +:+ br_Message with_message)))
  else (Some bankResp, None).

(** The default [ShouldRetry] of the payment service. *)
(* go: internal/service/payment.go isRetryableBankError *)
Definition isRetryableBankError (err : goerror) : bool :=
  is_target err ErrBankTimeout || is_target err ErrBankUnavailable ||
  is_target err DeadlineExceeded.

Section clients.
Context {W : Type}.
Variable now : Prog W Z.
Variable pick : Prog W bool.

(* go: internal/service/bank.go SimulatedBankClient.Charge *)
Definition SimulatedBankClient_Charge (c : SimulatedBankClient) (ctx : Ctx)
    (req : BankChargeRequest) : Prog W charge_result :=
  let latency := if Latency c <=? 0 then 150 * Millisecond else Latency c in
  let! t0 := now in
  let! t := now in
  let! first := pick in
  match select_done ctx t0 latency t first with
  | Some _ => ret (None, Some ErrBankTimeout)
  | None =>
    if map_bool (FailAmounts c) (bq_AmountCents req) then ret (None, Some ErrBankUnavailable)
    else if map_bool (RejectAmounts c) (bq_AmountCents req) then
      ret (Some (mkBankChargeResponse false "DECLINED" "transaction declined"), Some ErrBankRejected)
    else ret (Some (mkBankChargeResponse true "APPROVED" ""), None)
  end.

(** [http.NewRequestWithContext], which fails on a malformed URL, and
    [http.Client.Do], which fails when no response arrives. *)
Variable new_request : string → error.
Variable http_Do : Ctx → Z → string → BankChargeRequest → Prog W (result goerror HttpResponse).

(* go: internal/service/bank.go HTTPBankClient.Charge *)
Definition HTTPBankClient_Charge (c : HTTPBankClient) (ctx : Ctx) (req : BankChargeRequest)
  : Prog W charge_result :=
  let url := BaseURL c +:+ "/charge" in
  match new_request url with
  | Some err => ret (None, Some (Errorf "build bank request: " err))
  | None =>
    let! resp := http_Do ctx (ClientTimeout c) url req in
    match resp with
    | Err _ =>
      let! t := now in
      match ctx_Err ctx t with
      | Some _ => ret (None, Some ErrBankTimeout)
      | None => ret (None, Some ErrBankUnavailable)
      end
    | Ok resp =>
      match decoded resp with
      | Err err => ret (None, Some (Errorf "decode bank response: " err))
      | Ok bankResp => ret (classify_response (StatusCode resp) bankResp)
      end
    end
  end.

(** ** Properties *)

(** C25 The HTTP client reports success only for a decoded, approved answer with
    a status below 400.  A transport failure is a timeout if the context has
    ended and otherwise unavailability, and the service retries both; a decoded
    5xx is unavailability and retried; a decoded refusal is [ErrBankRejected]
    and not retried.  An answer that does not decode is, whatever its status,
    one of the errors the program knows only if the error of the decoder is one
    itself: a 5xx answer with a body that is not JSON is neither recognised as
    unavailability nor retried. *)
Theorem HTTP_Charge_outcome c ctx req w resp w' :
  new_request (BaseURL c +:+ "/charge") = None →
  http_Do ctx (ClientTimeout c) (BaseURL c +:+ "/charge") req w = (resp, w') →
  let r := (HTTPBankClient_Charge c ctx req w).1 in
  let retried := from_option isRetryableBankError false r.2 in
  match resp with
  | Err _ =>
    r = (None, Some (if ctx_Err ctx (now w').1 then ErrBankTimeout else ErrBankUnavailable)) ∧ retried = true
  | Ok h =>
    match decoded h with
    | Err e =>
      r = (None, Some (Errorf "decode bank response: " e)) ∧
      (∀ target, is_sentinel target = true → errors_Is r.2 target = is_target e target) ∧
      retried = isRetryableBankError e
    | Ok b =>
      (r = (Some b, None) ↔ StatusCode h < 400 ∧ br_Approved b = true) ∧
      (500 ≤ StatusCode h → r = (None, Some ErrBankUnavailable) ∧ retried = true) ∧
      (StatusCode h < 500 → 400 ≤ StatusCode h ∨ br_Approved b = false →
         errors_Is r.2 ErrBankRejected = true ∧ retried = false)
    end
  end.
Proof.
  intros En Ed r. subst r. unfold HTTPBankClient_Charge, bind. rewrite En, Ed.
  destruct resp as [h|e].
  - destruct (decoded h) as [b|e].
    + simpl. unfold classify_response.
      destruct (Z.leb_spec 500 (StatusCode h)), (Z.leb_spec 400 (StatusCode h));
        [| lia | | destruct (br_Approved b) eqn:Ea]; simpl; split_and!;
        try done; try lia; try (split; [done | lia]); try naive_solver lia.
    + split_and!; [done | by intros; apply is_target_Wrap | done].
  - destruct (now w') as [t w2]. simpl. by destruct (ctx_Err ctx t).
Qed.

(** The simulated bank approves exactly when the context survives the latency
    and the amount is configured neither to fail nor to be rejected. *)
Theorem Simulated_Charge_outcome c req w :
  wp (SimulatedBankClient_Charge c Background req) (λ r _,
    r.2 = if map_bool (FailAmounts c) (bq_AmountCents req) then Some ErrBankUnavailable
          else if map_bool (RejectAmounts c) (bq_AmountCents req) then Some ErrBankRejected
          else None) w.
Proof.
  unfold SimulatedBankClient_Charge. do 3 (apply wp_bind, wp_intro; intros ? ? _).
  rewrite select_done_background. repeat case_match; by apply wp_ret.
Qed.
End clients.

(** A gateway answers 503 with a page that is not JSON. *)
Lemma HTTP_Charge_outcome_witness :
  let syntax := Opaque "invalid character '<' looking for beginning of value" in
  let http_Do (_ : Ctx) (_ : Z) (_ : string) (_ : BankChargeRequest) (w : unit) :=
    (Ok (E := goerror) (mkHttpResponse 503 (Err syntax)), w) in
  let r := (HTTPBankClient_Charge (ret 0) (λ _, None) http_Do
              (mkHTTPBankClient "http://bank" 5) Background
              (mkBankChargeRequest "tx_1" "m_001" 100 "CAD") tt).1 in
  r = (None, Some (Errorf "decode bank response: " syntax)) ∧
  (∀ target, is_sentinel target = true → errors_Is r.2 target = is_target syntax target) ∧
  from_option isRetryableBankError false r.2 = false.
Proof.
  intros syntax http_Do r.
  exact (HTTP_Charge_outcome (ret 0) (λ _, None) http_Do (mkHTTPBankClient "http://bank" 5)
    Background (mkBankChargeRequest "tx_1" "m_001" 100 "CAD") tt _ tt eq_refl eq_refl).
Defined.
