(* ===== verification/Payment.v ===== *)
(** * Payment: the payment service of internal/service/payment.go

    The service is written against the repository interfaces, over a world
    that holds the store, the circuit breaker and the requests the bank has
    received.  Everything the service does not decide (the clock, database
    faults, the random bytes of ids, the bank's answers) comes from an
    environment, indexed by the number of interactions so far, over which the
    theorems quantify. *)

From stdpp Require Import base tactics list gmap strings pretty.
From S2P Require Import Prelude GoLib Domain Repository Resilience Bank.

Open Scope string_scope.
Open Scope Z_scope.

(* go: internal/service/payment.go 21 *)
Definition DefaultMaxTransactionCents : Z := 2500000.

(** ** World and environment *)

Record World (R : Type) := mkWorld {
  w_step : nat;
  w_repo : R;
  w_cb : CircuitBreaker;
  w_charges : list BankChargeRequest
}.
Arguments mkWorld {R}.
Arguments w_step {R}.
Arguments w_repo {R}.
Arguments w_cb {R}.
Arguments w_charges {R}.

Definition set_step {R} n (w : World R) := mkWorld n (w_repo w) (w_cb w) (w_charges w).
Definition set_repo {R} (r : R) (w : World R) := mkWorld (w_step w) r (w_cb w) (w_charges w).
Definition set_cb {R} c (w : World R) := mkWorld (w_step w) (w_repo w) c (w_charges w).
Definition log_charge {R} q (w : World R) :=
  mkWorld (w_step w) (w_repo w) (w_cb w) (w_charges w ++ [q]).

Record Env := mkEnv {
  env_now : nat → Z;
  env_fault : nat → Fault;
  env_bytes : nat → option (list Z);
  env_pick : nat → bool;
  env_rand : nat → Z → Z;
  env_overflow : Z → Z → Z
}.

(** ** The service *)

(** [s.db != nil] and [s.outbox != nil]; with a database the outbox is assumed
    to be set, as it is in [main]. *)
(* go: internal/service/payment.go 23-35 *)
Record PaymentService (R : Type) := mkPaymentService {
  s_db : bool;
  s_outbox : bool;
  s_bank : Ctx → BankChargeRequest → Prog (World R) charge_result;
  s_sleep : option (Ctx → Z → Prog (World R) error);
  s_retry : RetryConfig;
  s_bankTimeout : Z;
  s_maxTransactionCents : Z
}.
Arguments mkPaymentService {R}.
Arguments s_db {R}.
Arguments s_outbox {R}.
Arguments s_bank {R}.
Arguments s_sleep {R}.
Arguments s_retry {R}.
Arguments s_bankTimeout {R}.
Arguments s_maxTransactionCents {R}.

(** The defaults of the constructor; a nil bank client or breaker is replaced
    by the caller of this definition. *)
(* go: internal/service/payment.go NewPaymentService *)
Definition NewPaymentService {R} (cfg : PaymentService R) : PaymentService R :=
  let retry := s_retry cfg in
  let retryCfg := mkRetryConfig
    (if MaxAttempts retry <=? 0 then 3 else MaxAttempts retry)
    (if BaseDelay retry <=? 0 then 100 * Millisecond else BaseDelay retry)
    (if MaxDelay retry <=? 0 then Second else MaxDelay retry)
    (if Jitter retry <=? 0 then 50 * Millisecond else Jitter retry)
    (match ShouldRetry retry with
     | None => Some isRetryableBankError
     | Some f => Some f
     end) in
  let maxTransaction :=
    if s_maxTransactionCents cfg <=? 0 then DefaultMaxTransactionCents
    else s_maxTransactionCents cfg in
  mkPaymentService (s_db cfg) (s_outbox cfg) (s_bank cfg) (s_sleep cfg) retryCfg
    (s_bankTimeout cfg) maxTransaction.

(* go: internal/service/payment.go 104-110 *)
Record CreateTransactionInput := mkCreateTransactionInput {
  in_MerchantID : string;
  in_AmountCents : Z;
  in_Currency : string;
  in_IdempotencyKey : string;
  in_Description : string
}.

(* go: internal/service/payment.go matchesIdempotentRequest *)
Definition matchesIdempotentRequest (existing : option Transaction)
    (input : CreateTransactionInput) : bool :=
  match existing with
  | None => false
  | Some t =>
    bool_decide (tx_MerchantID t = in_MerchantID input) &&
    (tx_AmountCents t =? in_AmountCents input) &&
    bool_decide (tx_Currency t = in_Currency input) &&
    bool_decide (tx_Description t = in_Description input)
  end.

(** [json.Marshal] of a map of strings and integers does not fail. *)
(* go: internal/service/payment.go marshalOutboxPayload *)
Definition marshalOutboxPayload (payload : RawMessage) : result goerror RawMessage := Ok payload.

(* go: internal/service/payment.go transactionOutboxPayload *)
Definition transactionOutboxPayload (tx : Transaction) (extra : RawMessage)
  : result goerror RawMessage :=
  let payload : RawMessage :=
    {[ "transaction_id" := JStr (tx_ID tx);
       "merchant_id" := JStr (tx_MerchantID tx);
       "amount_cents" := JInt (tx_AmountCents tx);
       "currency" := JStr (tx_Currency tx);
       "status" := JStr (tx_Status tx) ]} in
  marshalOutboxPayload (extra ∪ payload).

(** The id drawn at step [n]: eight random bytes in hex, or the time in
    nanoseconds when no randomness is available. *)
(* go: internal/service/payment.go generateTransactionID *)
Definition generateTransactionID (env : Env) (n : nat) : string :=
  match env_bytes env n with
  | None => "tx_" +:+ pretty (env_now env n)
  | Some buf => "tx_" +:+ EncodeToString buf
  end.

(* go: internal/service/payment.go bankCallContext *)
Definition bankCallContext (ctx : Ctx) (now timeout : Z) : Ctx :=
  if timeout <=? 0 then WithCancel ctx else WithTimeout ctx now timeout.

(* go: internal/service/payment.go postBankContext *)
Definition postBankContext (ctx : option Ctx) : Ctx :=
  match ctx with None => Background | Some c => WithoutCancel c end.

Section service.
Context {R : Type} `{!MerchantRepository R, !TransactionRepository R,
  !EventRepository R, !OutboxRepository R, !Database R}.
Variable env : Env.
Variable s : PaymentService R.
Abbreviation W := (World R).

(** ** Interactions *)

Definition fresh_step : Prog W nat := λ w, (w_step w, set_step (S (w_step w)) w).

Definition now : Prog W Z := let! n := fresh_step in ret (env_now env n).
Definition pick : Prog W bool := let! n := fresh_step in ret (env_pick env n).
Definition Int63n (m : Z) : Prog W Z := let! n := fresh_step in ret (env_rand env n m).

(** A repository call with the context [ctx]. *)
Definition call_info (ctx : Ctx) (n : nat) : CallInfo :=
  mkCallInfo (env_now env n) (ctx_Err ctx (env_now env n)) (env_fault env n).

Definition repo {A} (ctx : Ctx) (op : CallInfo → Prog R A) : Prog W A :=
  let! n := fresh_step in
  λ w, let (a, r') := op (call_info ctx n) (w_repo w) in (a, set_repo r' w).

(** ** Helpers *)

(* go: internal/service/payment.go contextError *)
Definition contextError (ctx : option Ctx) : Prog W error :=
  match ctx with
  | None => ret None
  | Some c => let! t := now in ret (ctx_Err c t)
  end.

(* go: internal/service/payment.go withTransaction *)
Definition withTransaction (ctx : Ctx) (fn : Prog W error) : Prog W error :=
  check! repo ctx db_BeginTx or err => ret (Some (Errorf "begin transaction: " err));
  let! r0 := get w_repo in
  check! fn or err =>
    (let! _ := modify (λ w, set_repo (db_Rollback r0 (w_repo w)) w) in ret (Some err));
  repo ctx (λ ci, db_Commit ci r0).

(* go: internal/service/payment.go PaymentService.emitOutboxEvent *)
Definition emitOutboxEvent (ctx : Ctx) (eventType : string) (tx : option Transaction)
    (createdAt : Z) (extra : RawMessage) : Prog W error :=
  if negb (s_outbox s) then ret None
  else match tx with
  | None => ret None
  | Some tx =>
    match transactionOutboxPayload tx extra with
    | Err err => ret (Some err)
    | Ok payload =>
      repo ctx (λ ci, outbox_Create ci (mkOutboxEvent 0 eventType payload false createdAt))
    end
  end.

(* go: internal/service/payment.go PaymentService.emitTransitionOutboxEvent *)
Definition emitTransitionOutboxEvent (ctx : Ctx) (tx : Transaction) (to : TransactionStatus)
  : Prog W error :=
  if bool_decide (to = TxStatusCompleted) then
    let! t := now in emitOutboxEvent ctx "transaction.completed" (Some tx) t ∅
  else if bool_decide (to = TxStatusFailed) then
    let! t := now in emitOutboxEvent ctx "transaction.failed" (Some tx) t ∅
  else ret None.

(** ** Transitions *)

(** The functions that take the transaction by pointer return it, with its
    in-memory status updated, beside the error. *)

(* go: internal/service/payment.go PaymentService.rollbackTransition *)
Definition rollbackTransition (ctx : Ctx) (tx : Transaction) (from : TransactionStatus)
    (cause : goerror) : Prog W (Transaction * error) :=
  check! repo ctx (λ ci, txns_UpdateStatus ci (tx_ID tx) from) or rollbackErr =>
    ret (tx, Some (Join cause (Errorf ("rollback status to " +:+ from +:+ ": ") rollbackErr)));
  ret (set_Status from tx, Some cause).

Definition invalid_transition (from to : TransactionStatus) : goerror :=
  Wrap "" ErrInvalidTransition (": " +:+ from +:+ " → " +:+ to).

(* go: internal/service/payment.go PaymentService.transition *)
Definition transition (ctx : Ctx) (tx : Transaction) (to : TransactionStatus)
  : Prog W (Transaction * error) :=
  check! contextError (Some ctx) or err => ret (tx, Some err);
  let from := tx_Status tx in
  if negb (CanTransition from to) then ret (tx, Some (invalid_transition from to))
  else
  check! repo ctx (λ ci, txns_UpdateStatus ci (tx_ID tx) to) or err => ret (tx, Some err);
  let transitionedTx := set_Status to tx in
  let! t := now in
  check! repo ctx (λ ci, events_Create ci
      (mkTransactionEvent 0 (tx_ID tx) ("STATUS_" +:+ to) from to None t)) or err =>
    rollbackTransition ctx tx from (Errorf "record transition event: " err);
  check! emitTransitionOutboxEvent ctx transitionedTx to or err =>
    rollbackTransition ctx tx from (Errorf "record transition outbox event: " err);
  ret (set_Status to tx, None).

(** ** Creating the record *)

(* go: internal/service/payment.go PaymentService.createInDBTransaction *)
Definition createInDBTransaction (ctx : Ctx) (tx : Transaction) : Prog W error :=
  withTransaction ctx (
    check! repo ctx (λ ci, txns_Create ci tx) or err =>
      ret (Some (Errorf "save transaction: " err));
    check! repo ctx (λ ci, events_Create ci
        (mkTransactionEvent 0 (tx_ID tx) "CREATED" "" TxStatusPending None (tx_CreatedAt tx)))
      or err => ret (Some (Errorf "save creation event: " err));
    match marshalOutboxPayload
      {[ "transaction_id" := JStr (tx_ID tx);
         "merchant_id" := JStr (tx_MerchantID tx);
         "amount_cents" := JInt (tx_AmountCents tx);
         "currency" := JStr (tx_Currency tx);
         "status" := JStr (tx_Status tx) ]} with
    | Err err => ret (Some (Errorf "marshal created outbox payload: " err))
    | Ok payload =>
      check! repo ctx (λ ci, outbox_Create ci
          (mkOutboxEvent 0 "transaction.created" payload false (tx_CreatedAt tx)))
        or err => ret (Some (Errorf "save outbox event: " err));
      ret None
    end).

(* go: internal/service/payment.go PaymentService.createWithMocks *)
Definition createWithMocks (ctx : Ctx) (tx : Transaction) : Prog W error :=
  check! repo ctx (λ ci, txns_Create ci tx) or err => ret (Some err);
  check! repo ctx (λ ci, events_Create ci
      (mkTransactionEvent 0 (tx_ID tx) "CREATED" "" TxStatusPending None (tx_CreatedAt tx)))
    or err => ret (Some (Errorf "save creation event: " err));
  emitOutboxEvent ctx "transaction.created" (Some tx) (tx_CreatedAt tx) ∅.

(** ** Completion *)

(* go: internal/service/payment.go PaymentService.completeInDBTransaction *)
Definition completeInDBTransaction (ctx : Ctx) (tx : Transaction) : Prog W (Transaction * error) :=
  check! contextError (Some ctx) or err => ret (tx, Some err);
  let from := tx_Status tx in
  let to := TxStatusCompleted in
  if negb (CanTransition from to) then ret (tx, Some (invalid_transition from to))
  else
  let! completedAt := now in
  let completedTx := set_Status to tx in
  check! withTransaction ctx (
      check! repo ctx (λ ci, txns_UpdateStatus ci (tx_ID tx) to) or err =>
        ret (Some (Errorf "set completed status: " err));
      check! repo ctx (λ ci, merchants_UpdateBalance ci (tx_MerchantID tx) (tx_AmountCents tx))
        or err => ret (Some (Errorf "credit merchant balance: " err));
      check! repo ctx (λ ci, events_Create ci
          (mkTransactionEvent 0 (tx_ID tx) ("STATUS_" +:+ to) from to None completedAt))
        or err => ret (Some (Errorf "record transition event: " err));
      match transactionOutboxPayload completedTx ∅ with
      | Err err => ret (Some (Errorf "marshal completed outbox payload: " err))
      | Ok payload =>
        check! repo ctx (λ ci, outbox_Create ci
            (mkOutboxEvent 0 "transaction.completed" payload false completedAt))
          or err => ret (Some (Errorf "record transition outbox event: " err));
        ret None
      end) or err => ret (tx, Some err);
  ret (set_Status to tx, None).

(* go: internal/service/payment.go PaymentService.completeWithMocks *)
Definition completeWithMocks (ctx : Ctx) (tx : Transaction) : Prog W (Transaction * error) :=
  check! contextError (Some ctx) or err => ret (tx, Some err);
  check! repo ctx (λ ci, merchants_UpdateBalance ci (tx_MerchantID tx) (tx_AmountCents tx))
    or err => ret (tx, Some (Errorf "credit merchant balance: " err));
  let! r := transition ctx tx TxStatusCompleted in
  match r with
  | (tx, Some err) =>
    check! repo ctx (λ ci, merchants_UpdateBalance ci (tx_MerchantID tx) (neg64 (tx_AmountCents tx)))
      or rollbackErr => ret (tx, Some (Join err (Errorf "rollback credited balance: " rollbackErr)));
    ret (tx, Some err)
  | (tx, None) => ret (tx, None)
  end.

(* go: internal/service/payment.go PaymentService.completePayment *)
Definition completePayment (ctx : Ctx) (tx : Transaction) : Prog W (Transaction * error) :=
  if s_db s then completeInDBTransaction ctx tx else completeWithMocks ctx tx.

(** ** The bank call *)

(* go: internal/service/payment.go normalizeBankError *)
Definition normalizeBankError (parentCtx bankCtx : option Ctx) (err : error) : Prog W error :=
  match err with
  | None => ret None
  | Some _ =>
    let! perr := contextError parentCtx in
    if errors_Is err Canceled && errors_Is perr Canceled then ret (Some Canceled)
    else if errors_Is err DeadlineExceeded then
      let! perr := contextError parentCtx in
      if errors_Is perr DeadlineExceeded then ret (Some DeadlineExceeded)
      else
        let! berr := contextError bankCtx in
        if errors_Is berr DeadlineExceeded then ret (Some ErrBankTimeout)
        else ret err
    else ret err
  end.

(** One attempt; the bank receives the request. *)
Definition charge_attempt (req : BankChargeRequest) (attemptCtx : Ctx) : Prog W error :=
  let! _ := modify (log_charge req) in
  let! r := s_bank s attemptCtx req in
  ret r.2.

(* go: internal/service/payment.go PaymentService.callBank *)
Definition callBank (parentCtx bankCtx : Ctx) (tx : Transaction) : Prog W error :=
  let req := mkBankChargeRequest (tx_ID tx) (tx_MerchantID tx) (tx_AmountCents tx) (tx_Currency tx) in
  let! err := Execute now w_cb set_cb
    (Retry now pick Int63n (env_overflow env) (s_sleep s) bankCtx (s_retry s) (charge_attempt req)) in
  normalizeBankError (Some parentCtx) (Some bankCtx) err.

(* go: internal/service/payment.go PaymentService.processPayment *)
Definition processPayment (ctx : Ctx) (tx : Transaction) : Prog W (Transaction * error) :=
  check! contextError (Some ctx) or err => ret (tx, Some err);
  let! r := transition ctx tx TxStatusProcessing in
  match r with
  | (tx, Some err) => ret (tx, Some (Errorf "set processing status: " err))
  | (tx, None) =>
    let! t := now in
    let bankCtx := bankCallContext ctx t (s_bankTimeout s) in
    check! callBank ctx bankCtx tx or err =>
      (let! r := transition (postBankContext (Some ctx)) tx TxStatusFailed in
       match r with
       | (tx, Some transitionErr) =>
         ret (tx, Some (Join err (Errorf "set failed status: " transitionErr)))
       | (tx, None) => ret (tx, Some err)
       end);
    completePayment (postBankContext (Some ctx)) tx
  end.

(** ** The operations *)

(** [CreateTransaction] once the idempotency key is known to be unused. *)
(* go: internal/service/payment.go 146-230 *)
Definition create_unused (ctx : Ctx) (input : CreateTransactionInput)
  : Prog W (option Transaction * error) :=
  let! r := repo ctx (λ ci, merchants_GetByID ci (in_MerchantID input)) in
  match r with
  | Err err => ret (None, Some err)
  | Ok merchant =>
    if negb (IsActive merchant) then ret (None, Some ErrMerchantInactive)
    else if in_AmountCents input <=? 0 then ret (None, Some ErrInvalidAmount)
    else if s_maxTransactionCents s <? in_AmountCents input then
      ret (None, Some ErrAmountExceedsLimit)
    else if negb (bool_decide (in_Currency input = "CAD")) &&
            negb (bool_decide (in_Currency input = "USD")) then
      ret (None, Some ErrInvalidCurrency)
    else
      let! t := now in
      let! n := fresh_step in
      let tx := mkTransaction (generateTransactionID env n) (in_MerchantID input)
        (in_AmountCents input) (in_Currency input) TxStatusPending (in_IdempotencyKey input)
        (in_Description input) None t t in
      check! if s_db s then createInDBTransaction ctx tx else createWithMocks ctx tx or err =>
        ret (None, Some err);
      let! r := processPayment ctx tx in
      ret (Some r.1, r.2)
  end.

(* go: internal/service/payment.go PaymentService.CreateTransaction *)
Definition CreateTransaction (ctx : Ctx) (input : CreateTransactionInput)
  : Prog W (option Transaction * error) :=
  check! contextError (Some ctx) or err => ret (None, Some err);
  if bool_decide (in_IdempotencyKey input = "") then create_unused ctx input
  else
    let! r := repo ctx (λ ci, txns_GetByIdempotencyKey ci (in_IdempotencyKey input)) in
    match r with
    | Err err => ret (None, Some (Errorf "idempotency check: " err))
    | Ok (Some existing) =>
      if negb (matchesIdempotentRequest (Some existing) input) then
        ret (None, Some (Wrap "" ErrDuplicateTransaction
          ": idempotency key reused with different request"))
      else ret (Some existing, None)
    | Ok None => create_unused ctx input
    end.

(* go: internal/service/payment.go PaymentService.ownedTransaction *)
Definition ownedTransaction (ctx : Ctx) (merchantID txID : string)
  : Prog W (result goerror Transaction) :=
  let! r := repo ctx (λ ci, txns_GetByID ci txID) in
  match r with
  | Err err => ret (Err err)
  | Ok tx =>
    if negb (bool_decide (tx_MerchantID tx = merchantID)) then ret (Err ErrTransactionNotFound)
    else ret (Ok tx)
  end.

(* go: internal/service/payment.go PaymentService.refundInDBTransaction *)
Definition refundInDBTransaction (ctx : Ctx) (tx : Transaction) (reason : string) : Prog W error :=
  withTransaction ctx (
    check! repo ctx (λ ci, txns_UpdateStatus ci (tx_ID tx) TxStatusRefunded) or err =>
      ret (Some err);
    check! repo ctx (λ ci, merchants_UpdateBalance ci (tx_MerchantID tx) (neg64 (tx_AmountCents tx)))
      or err => ret (Some err);
    match marshalOutboxPayload {[ "reason" := JStr reason ]} with
    | Err err => ret (Some (Errorf "marshal refund payload: " err))
    | Ok payload =>
      let! t := now in
      check! repo ctx (λ ci, events_Create ci (mkTransactionEvent 0 (tx_ID tx) "REFUNDED"
          TxStatusCompleted TxStatusRefunded (Some payload) t)) or err => ret (Some err);
      match marshalOutboxPayload
        {[ "transaction_id" := JStr (tx_ID tx);
           "merchant_id" := JStr (tx_MerchantID tx);
           "amount_cents" := JInt (tx_AmountCents tx);
           "status" := JStr "REFUNDED";
           "reason" := JStr reason ]} with
      | Err err => ret (Some (Errorf "marshal refunded outbox payload: " err))
      | Ok outboxPayload =>
        let! t := now in
        repo ctx (λ ci, outbox_Create ci
          (mkOutboxEvent 0 "transaction.refunded" outboxPayload false t))
      end
    end).

(* go: internal/service/payment.go PaymentService.refundWithMocks *)
Definition refundWithMocks (ctx : Ctx) (tx : Transaction) (reason : string) : Prog W error :=
  check! repo ctx (λ ci, txns_UpdateStatus ci (tx_ID tx) TxStatusRefunded) or err => ret (Some err);
  let tx := set_Status TxStatusRefunded tx in
  check! repo ctx (λ ci, merchants_UpdateBalance ci (tx_MerchantID tx) (neg64 (tx_AmountCents tx)))
    or err => ret (Some err);
  match marshalOutboxPayload {[ "reason" := JStr reason ]} with
  | Err err => ret (Some (Errorf "marshal refund payload: " err))
  | Ok payload =>
    let! t := now in
    check! repo ctx (λ ci, events_Create ci (mkTransactionEvent 0 (tx_ID tx) "REFUNDED"
        TxStatusCompleted TxStatusRefunded (Some payload) t)) or err => ret (Some err);
    let! t := now in
    emitOutboxEvent ctx "transaction.refunded" (Some tx) t {[ "reason" := JStr reason ]}
  end.

Definition cannot_refund (status : TransactionStatus) : goerror :=
  Wrap "" ErrCannotRefund (": current status is " +:+ status).

(* go: internal/service/payment.go PaymentService.RefundTransaction *)
Definition RefundTransaction (ctx : Ctx) (merchantID txID reason : string)
  : Prog W (option Transaction * error) :=
  check! contextError (Some ctx) or err => ret (None, Some err);
  let! r := ownedTransaction ctx merchantID txID in
  match r with
  | Err err => ret (None, Some err)
  | Ok tx =>
    if negb (CanTransition (tx_Status tx) TxStatusRefunded) then
      ret (None, Some (cannot_refund (tx_Status tx)))
    else
      let! err := if s_db s then refundInDBTransaction ctx tx reason
                  else refundWithMocks ctx tx reason in
      match err with
      | Some err => ret (None, Some err)
      | None => ret (Some (set_Status TxStatusRefunded tx), None)
      end
  end.

(* go: internal/service/payment.go PaymentService.GetTransaction *)
Definition GetTransaction (ctx : Ctx) (merchantID id : string) : Prog W (result goerror Transaction) :=
  ownedTransaction ctx merchantID id.

(* go: internal/service/payment.go PaymentService.GetMerchantBalance *)
Definition GetMerchantBalance (ctx : Ctx) (merchantID : string) : Prog W (result goerror Merchant) :=
  repo ctx (λ ci, merchants_GetByID ci merchantID).

(* go: internal/service/payment.go PaymentService.ListTransactions *)
Definition ListTransactions (ctx : Ctx) (merchantID : string) (params : ListParams)
  : Prog W (result goerror (list Transaction * Z)) :=
  repo ctx (λ ci, txns_ListByMerchant ci merchantID params).

(* go: internal/service/payment.go PaymentService.GetTransactionHistory *)
Definition GetTransactionHistory (ctx : Ctx) (merchantID txID : string)
  : Prog W (result goerror (list TransactionEvent)) :=
  let! r := ownedTransaction ctx merchantID txID in
  match r with
  | Err err => ret (Err err)
  | Ok _ => repo ctx (λ ci, events_ListByTransaction ci txID)
  end.
End service.
