(* ===== verification/Accounting.v ===== *)
(** * Accounting: what a ledger owes to its merchants

    The amount settled for a merchant is the sum of its completed
    transactions; the surplus of a merchant is its balance beyond that.  Two
    ledgers agree on money when every merchant has the same surplus in both:
    an equivalence coarser than equality, which payments must preserve. *)

From stdpp Require Import base tactics list gmap strings fin_maps.
From S2P Require Import Prelude GoLib Domain Repository.

Open Scope string_scope.
Open Scope Z_scope.

(** What one transaction contributes to a merchant's balance. *)
Definition contrib (mid : string) (t : Transaction) : Z :=
  if bool_decide (tx_MerchantID t = mid) && bool_decide (tx_Status t = TxStatusCompleted)
  then tx_AmountCents t else 0.

Definition settled (txns : gmap string Transaction) (mid : string) : Z :=
  map_fold (λ _ t acc, contrib mid t + acc) 0 txns.

Definition surplus (L : Ledger) (mid : string) : option Z :=
  (λ m, m_BalanceCents m - settled (l_txns L) mid) <$> l_merchants L !! mid.

Definition money_eq (L L' : Ledger) : Prop := ∀ mid, surplus L mid = surplus L' mid.

#[export] Instance money_eq_equiv : Equivalence money_eq.
Proof.
  split; [by intros L mid | by intros L L' H mid |].
  intros L1 L2 L3 H12 H23 mid. by rewrite (H12 mid).
Qed.

#[export] Instance surplus_proper : Proper (money_eq ==> eq ==> eq) surplus.
Proof. by intros L L' HL mid ? <-. Qed.

Definition contrib_at (mid : string) (o : option Transaction) : Z := from_option (contrib mid) 0 o.

Lemma settled_insert_None txns mid id t :
  txns !! id = None → settled (<[id := t]> txns) mid = contrib mid t + settled txns mid.
Proof. intros E. unfold settled. by rewrite map_fold_insert_L by (try done; intros; lia). Qed.

Lemma settled_insert txns mid id t :
  settled (<[id := t]> txns) mid = settled txns mid - contrib_at mid (txns !! id) + contrib mid t.
Proof.
  destruct (txns !! id) as [t'|] eqn:E; simpl.
  - pose proof (settled_insert_None (delete id txns) mid id t (lookup_delete_eq _ _)) as H.
    pose proof (settled_insert_None (delete id txns) mid id t' (lookup_delete_eq _ _)) as H'.
    rewrite insert_delete_eq in H. rewrite insert_delete_id in H' by done. lia.
  - rewrite settled_insert_None by done. lia.
Qed.

Lemma contrib_not_completed mid t : tx_Status t ≠ TxStatusCompleted → contrib mid t = 0.
Proof.
  intros H. unfold contrib.
  rewrite (bool_decide_false (tx_Status t = TxStatusCompleted)) by done. by rewrite andb_false_r.
Qed.

(** Recording events changes no money, nor does a transaction that is not
    completed before and after. *)
Lemma money_same L L' :
  l_merchants L' = l_merchants L → l_txns L' = l_txns L → money_eq L' L.
Proof. intros Hm Ht mid. unfold surplus. by rewrite Hm, Ht. Qed.

Lemma money_pending L L' id t :
  l_merchants L' = l_merchants L → l_txns L' = <[id := t]> (l_txns L) →
  tx_Status t ≠ TxStatusCompleted →
  (∀ t', l_txns L !! id = Some t' → tx_Status t' ≠ TxStatusCompleted) →
  money_eq L' L.
Proof.
  intros Hm Ht Hs Hold mid. unfold surplus. rewrite Hm, Ht.
  f_equal. rewrite settled_insert, (contrib_not_completed mid t) by done.
  destruct (l_txns L !! id) as [t'|] eqn:E; simpl; [|by rewrite Z.sub_0_r, Z.add_0_r].
  rewrite contrib_not_completed by eauto. by rewrite Z.sub_0_r, Z.add_0_r.
Qed.

(** A transaction whose contribution changes by [d] together with the balance
    of its merchant. *)
Lemma money_move L L' id t t' m d :
  l_txns L !! id = Some t → tx_MerchantID t = tx_MerchantID t' →
  l_merchants L !! tx_MerchantID t = Some m →
  l_merchants L' = <[tx_MerchantID t := set_Balance (m_BalanceCents m + d) m]> (l_merchants L) →
  l_txns L' = <[id := t']> (l_txns L) →
  contrib (tx_MerchantID t) t' = contrib (tx_MerchantID t) t + d →
  money_eq L' L.
Proof.
  intros Ht Hmid Hm HM HT Hd mid. unfold surplus.
  rewrite HM, HT, settled_insert, Ht. simpl.
  destruct (decide (tx_MerchantID t = mid)) as [<-|Hne].
  - rewrite lookup_insert_eq, Hm, Hd. simpl. f_equal. lia.
  - rewrite lookup_insert_ne by done.
    assert (contrib mid t = 0 ∧ contrib mid t' = 0) as [-> ->].
    { unfold contrib. rewrite <- Hmid, !bool_decide_false by done. done. }
    destruct (l_merchants L !! mid); simpl; [f_equal; lia | done].
Qed.

Lemma contrib_completed t :
  tx_Status t = TxStatusCompleted → contrib (tx_MerchantID t) t = tx_AmountCents t.
Proof. intros H. unfold contrib. by rewrite H, !bool_decide_true. Qed.
