(* ===== verification/PaymentLogic.v ===== *)
(** * PaymentLogic: reasoning rules for the payment service

    One rule per repository call, derived from the repository contract, and
    one specification per internal function of the service. *)

From stdpp Require Import base tactics list gmap strings.
From S2P Require Import Prelude GoLib Domain Repository Resilience Bank Payment.

Open Scope string_scope.
Open Scope Z_scope.

Section logic.
Context {R : Type} `{!MerchantRepository R, !TransactionRepository R,
  !EventRepository R, !OutboxRepository R, !Database R,
  !RepositoryLaws R, !DatabaseLaws R}.
Variable env : Env.
Variable s : PaymentService R.
Abbreviation W := (World R).
Implicit Types w : W.

(** The ledger of a world, and the invariant of the store. *)
Definition ledger w : Ledger := view (w_repo w).
Definition Inv w : Prop := good (w_repo w) ∧ ledger_ok (ledger w).

(** Nothing but the store and the clock moved. *)
Definition frame w w' : Prop :=
  w_cb w' = w_cb w ∧ w_charges w' = w_charges w ∧ (w_step w ≤ w_step w')%nat.

#[export] Instance frame_preorder : PreOrder frame.
Proof.
  split; [intros w; by split_and!|].
  intros w1 w2 w3 (?&?&?) (?&?&?). split_and!; congruence || lia.
Qed.

(** The context never ends and no statement fails. *)
Definition clean_run (ctx : Ctx) : Prop :=
  ∀ n, env_fault env n = NoFault ∧ ctx_Err ctx (env_now env n) = None.

Lemma clean_call ctx n : clean_run ctx → clean (call_info env ctx n).
Proof. intros H. destruct (H n). by split. Qed.

(** ** The clock and the rest of the environment *)

Lemma wp_now (Q : Z → W → Prop) w :
  (∀ t w', frame w w' → w_repo w' = w_repo w → Q t w') → wp (now env) Q w.
Proof. intros H. apply H; [|done]. split_and!; simpl; try done; lia. Qed.

Lemma wp_now_at (Q : Z → W → Prop) w :
  (∀ n w', frame w w' → w_repo w' = w_repo w → Q (env_now env n) w') → wp (now env) Q w.
Proof. intros H. apply H; [|done]. split_and!; simpl; try done; lia. Qed.

Lemma wp_fresh (Q : nat → W → Prop) w :
  (∀ w', frame w w' → w_repo w' = w_repo w → Q (w_step w) w') → wp fresh_step Q w.
Proof. intros H. apply H; [|done]. split_and!; simpl; try done; lia. Qed.

Lemma wp_contextError ctx (Q : error → W → Prop) w :
  (∀ e w', frame w w' → w_repo w' = w_repo w → (clean_run ctx → e = None) → Q e w') →
  wp (contextError env (Some ctx)) Q w.
Proof.
  intros H. unfold contextError. apply H; [split_and!; simpl; try done; lia | done |].
  intros Hc. by apply Hc.
Qed.

(** The same in a state that satisfies the invariant. *)
Lemma same_repo_Inv w w' : w_repo w' = w_repo w → Inv w → Inv w' ∧ ledger w' = ledger w.
Proof. intros Hr [Hg Hok]. assert (ledger w' = ledger w) as HL by (unfold ledger; by rewrite Hr). unfold Inv. by rewrite Hr, HL. Qed.

Lemma wp_now_Inv (Q : Z → W → Prop) w :
  Inv w → (∀ t w', Inv w' → frame w w' → ledger w' = ledger w → Q t w') → wp (now env) Q w.
Proof. intros HI HQ. apply wp_now. intros t w' Hf [HI' HL]%same_repo_Inv; [by apply HQ | done]. Qed.

Lemma wp_contextError_Inv ctx (Q : error → W → Prop) w :
  Inv w → (∀ e w', Inv w' → frame w w' → ledger w' = ledger w → (clean_run ctx → e = None) → Q e w') →
  wp (contextError env (Some ctx)) Q w.
Proof. intros HI HQ. apply wp_contextError. intros e w' Hf [HI' HL]%same_repo_Inv Hc; [by apply HQ | done]. Qed.

(** ** Repository calls *)

(** The outcome of one call in a run. *)
Definition outcome {A} (is_err : A → Prop) (ctx : Ctx) (spec : aspec A) : aspec A := λ L a L',
  spec L a L' ∨ (¬ clean_run ctx ∧ is_err a ∧ (L' = L ∨ ∃ a', spec L a' L')).

Lemma wp_repo {A} ctx (op : CallInfo → Prog R A) is_err spec (Q : A → W → Prop) w :
  (∀ ci, call_ok view good (op ci) (w_repo w) (refines is_err ci spec)) →
  (∀ a w', frame w w' → good (w_repo w') → outcome is_err ctx spec (ledger w) a (ledger w') → Q a w') →
  wp (repo env ctx op) Q w.
Proof.
  intros Hop HQ. specialize (Hop (call_info env ctx (w_step w))).
  unfold call_ok, wp in Hop. unfold repo, bind, fresh_step, wp. simpl.
  destruct (op _ _) as [a r']. destruct Hop as [Hg Hr]. apply HQ; [|done|].
  - split_and!; simpl; try done. lia.
  - destruct Hr as [Hr|(Hc & Hr)]; [by left | right].
    split; [|done]. intros Hrun. by apply Hc, clean_call.
Qed.

Ltac call law := eapply wp_repo; [intros; by eapply law|].

Section calls.
Variables (ctx : Ctx) (w : W).
Hypothesis HInv : Inv w.
Let Hgood : good (w_repo w) := proj1 HInv.
Let Hok : ledger_ok (ledger w) := proj2 HInv.

Lemma wp_merchant_GetByID id (Q : result goerror Merchant → W → Prop) :
  (∀ a w', Inv w' → frame w w' → ledger w' = ledger w →
    match a with
    | Ok m => l_merchants (ledger w) !! id = Some (norm_merchant m)
    | Err e => (l_merchants (ledger w) !! id = None ∧ e = ErrMerchantNotFound) ∨ ¬ clean_run ctx
    end → Q a w') →
  wp (repo env ctx (λ ci, merchants_GetByID ci id)) Q w.
Proof.
  intros HQ. call merchant_GetByID_law. intros a w' Hf Hg' Ho.
  assert (ledger w' = ledger w) as HL.
  { destruct Ho as [[-> _]|(_ & _ & [->|(? & -> & _)])]; done. }
  apply HQ; [split; [done|by rewrite HL] | done | done |].
  destruct Ho as [[_ Ha]|(Hc & He & _)].
  - destruct a; simpl in Ha; destruct (l_merchants (ledger w) !! id); simplify_eq; try done. by left.
  - destruct a; [done|]. by right.
Qed.

Lemma wp_txn_GetByID id (Q : result goerror Transaction → W → Prop) :
  (∀ a w', Inv w' → frame w w' → ledger w' = ledger w →
    match a with
    | Ok t => l_txns (ledger w) !! id = Some (norm_txn t)
    | Err e => (l_txns (ledger w) !! id = None ∧ e = ErrTransactionNotFound) ∨ ¬ clean_run ctx
    end → Q a w') →
  wp (repo env ctx (λ ci, txns_GetByID ci id)) Q w.
Proof.
  intros HQ. call txn_GetByID_law. intros a w' Hf Hg' Ho.
  assert (ledger w' = ledger w) as HL.
  { destruct Ho as [[-> _]|(_ & _ & [->|(? & -> & _)])]; done. }
  apply HQ; [split; [done|by rewrite HL] | done | done |].
  destruct Ho as [[_ Ha]|(Hc & He & _)].
  - destruct a; simpl in Ha; destruct (l_txns (ledger w) !! id); simplify_eq; try done. by left.
  - destruct a; [done|]. by right.
Qed.

Lemma wp_GetByIdempotencyKey key (Q : result goerror (option Transaction) → W → Prop) :
  key ≠ "" →
  (∀ a w', Inv w' → frame w w' → ledger w' = ledger w →
    match a with
    | Ok (Some t) => tx_IdempotencyKey t = key ∧ l_txns (ledger w) !! tx_ID t = Some (norm_txn t)
    | Ok None => ∀ id t, l_txns (ledger w) !! id = Some t → tx_IdempotencyKey t ≠ key
    | Err e => ¬ clean_run ctx
    end → Q a w') →
  wp (repo env ctx (λ ci, txns_GetByIdempotencyKey ci key)) Q w.
Proof.
  intros Hk HQ. call GetByIdempotencyKey_law. intros a w' Hf Hg' Ho.
  assert (ledger w' = ledger w) as HL.
  { destruct Ho as [[-> _]|(_ & _ & [->|(? & -> & _)])]; done. }
  apply HQ; [split; [done|by rewrite HL] | done | done |].
  destruct Ho as [[_ Ha]|(Hc & He & _)]; [|by destruct a].
  by destruct a as [[t|]|].
Qed.

Lemma wp_txn_Create t (Q : error → W → Prop) :
  insertable t (ledger w) →
  (∀ e w', Inv w' → frame w w' →
    match e with
    | None => ledger w' = put_txn (tx_ID t) (norm_txn t) (ledger w)
    | Some _ => ¬ clean_run ctx ∧ (ledger w' = ledger w ∨ ledger w' = put_txn (tx_ID t) (norm_txn t) (ledger w))
    end → Q e w') →
  wp (repo env ctx (λ ci, txns_Create ci t)) Q w.
Proof.
  intros Hi HQ. call txn_Create_law. intros a w' Hf Hg' Ho.
  assert (ledger_ok (put_txn (tx_ID t) (norm_txn t) (ledger w))) as Hok'.
  { destruct Hi. by apply put_txn_ok. }
  assert (ledger w' = ledger w ∨ ledger w' = put_txn (tx_ID t) (norm_txn t) (ledger w)) as HL.
  { destruct Ho as [[_ ->]|(_ & _ & [->|(? & _ & ->)])]; auto. }
  apply HQ; [split; [done|by destruct HL as [-> | ->]] | done |].
  destruct Ho as [[-> ?]|(Hc & [e ->] & _)]; done.
Qed.

Lemma wp_UpdateStatus id st t (Q : error → W → Prop) :
  valid_status st → l_txns (ledger w) !! id = Some t →
  (∀ e w', Inv w' → frame w w' →
    match e with
    | None => ledger w' = put_txn id (set_Status st t) (ledger w)
    | Some _ => ¬ clean_run ctx ∧ (ledger w' = ledger w ∨ ledger w' = put_txn id (set_Status st t) (ledger w))
    end → Q e w') →
  wp (repo env ctx (λ ci, txns_UpdateStatus ci id st)) Q w.
Proof.
  intros Hst Ht HQ. call UpdateStatus_law. intros a w' Hf Hg' Ho.
  destruct (ok_txn _ Hok _ _ Ht) as (Hid & Ham & Hm & _).
  assert (ledger_ok (put_txn id (set_Status st t) (ledger w))) as Hok' by (by apply put_txn_ok).
  unfold outcome, spec_UpdateStatus in Ho. rewrite Ht in Ho.
  assert (ledger w' = ledger w ∨ ledger w' = put_txn id (set_Status st t) (ledger w)) as HL.
  { destruct Ho as [[_ ->]|(_ & _ & [->|(? & _ & ->)])]; auto. }
  apply HQ; [split; [done|by destruct HL as [-> | ->]] | done |].
  destruct Ho as [[-> ?]|(Hc & [e ->] & _)]; done.
Qed.

Lemma wp_UpdateBalance id delta m (Q : error → W → Prop) :
  in_int64 delta → l_merchants (ledger w) !! id = Some m →
  (∀ e w', Inv w' → frame w w' →
    let b := m_BalanceCents m + delta in
    let L' := put_merchant id (set_Balance b m) (ledger w) in
    match e with
    | None => 0 ≤ b ≤ max_int64 ∧ ledger w' = L'
    | Some err =>
      (ledger w' = ledger w ∧ ((b < 0 ∧ err = ErrInsufficientFunds) ∨ max_int64 < b)) ∨
      (¬ clean_run ctx ∧ (ledger w' = ledger w ∨ (0 ≤ b ≤ max_int64 ∧ ledger w' = L')))
    end → Q e w') →
  wp (repo env ctx (λ ci, merchants_UpdateBalance ci id delta)) Q w.
Proof.
  intros Hd Hm HQ. call UpdateBalance_law. intros a w' Hf Hg' Ho.
  destruct (ok_merchant _ Hok _ _ Hm) as [Hid Hb].
  unfold outcome, spec_UpdateBalance in Ho. rewrite Hm in Ho. simpl in Ho.
  assert (ledger w' = ledger w ∨ (0 ≤ m_BalanceCents m + delta ≤ max_int64 ∧
    ledger w' = put_merchant id (set_Balance (m_BalanceCents m + delta) m) (ledger w))) as HL.
  { destruct Ho as [[?|[?|?]]|(_ & _ & [?|(? & [?|[?|?]])])]; destruct_and?; auto. }
  apply HQ.
  - split; [done|]. destruct HL as [-> | [? ->]]; [done|]. by apply put_merchant_ok.
  - done.
  - simpl. destruct Ho as [[(?&->&?)|[(?&[? ->]&?)|(?&->&?)]]|(Hc & [e ->] & _)]; auto.
Qed.

Lemma wp_event_Create e (Q : error → W → Prop) :
  is_Some (l_txns (ledger w) !! ev_TransactionID e) →
  (∀ r w', Inv w' → frame w w' →
    match r with
    | None => ledger w' = add_event (norm_event e) (ledger w)
    | Some _ => ¬ clean_run ctx ∧ (ledger w' = ledger w ∨ ledger w' = add_event (norm_event e) (ledger w))
    end → Q r w') →
  wp (repo env ctx (λ ci, events_Create ci e)) Q w.
Proof.
  intros Hi HQ. call event_Create_law. intros a w' Hf Hg' Ho.
  assert (ledger w' = ledger w ∨ ledger w' = add_event (norm_event e) (ledger w)) as HL.
  { destruct Ho as [[_ ->]|(_ & _ & [->|(? & _ & ->)])]; auto. }
  apply HQ; [split; [done|destruct HL as [-> | ->]; auto with ledger] | done |].
  destruct Ho as [[-> ?]|(Hc & [? ->] & _)]; done.
Qed.

Lemma wp_outbox_Create e (Q : error → W → Prop) :
  (∀ r w', Inv w' → frame w w' →
    match r with
    | None => ledger w' = add_outbox (norm_outbox e) (ledger w)
    | Some _ => ¬ clean_run ctx ∧ (ledger w' = ledger w ∨ ledger w' = add_outbox (norm_outbox e) (ledger w))
    end → Q r w') →
  wp (repo env ctx (λ ci, outbox_Create ci e)) Q w.
Proof.
  intros HQ. call outbox_Create_law. intros a w' Hf Hg' Ho.
  assert (ledger w' = ledger w ∨ ledger w' = add_outbox (norm_outbox e) (ledger w)) as HL.
  { destruct Ho as [[_ ->]|(_ & _ & [->|(? & _ & ->)])]; auto. }
  apply HQ; [split; [done|destruct HL as [-> | ->]; auto with ledger] | done |].
  destruct Ho as [[-> ?]|(Hc & [? ->] & _)]; done.
Qed.

Lemma wp_ListByMerchant mid p (Q : result goerror (list Transaction * Z) → W → Prop) :
  0 ≤ Limit p → 0 ≤ Offset p →
  (∀ a w', Inv w' → frame w w' → ledger w' = ledger w →
    match a with
    | Ok (l, _) => Forall (λ t, tx_MerchantID t = mid ∧
        l_txns (ledger w) !! tx_ID t = Some (norm_txn t)) l
    | Err _ => True
    end → Q a w') →
  wp (repo env ctx (λ ci, txns_ListByMerchant ci mid p)) Q w.
Proof.
  intros Hl Hoff HQ. call ListByMerchant_law. intros a w' Hf Hg' Ho.
  assert (ledger w' = ledger w) as HL.
  { destruct Ho as [[-> _]|(_ & _ & [->|(? & -> & _)])]; done. }
  apply HQ; [split; [done|by rewrite HL] | done | done |].
  destruct Ho as [[_ Ha]|(Hc & He & _)]; [done|]. by destruct a.
Qed.

Lemma wp_ListByTransaction id (Q : result goerror (list TransactionEvent) → W → Prop) :
  (∀ a w', Inv w' → frame w w' → ledger w' = ledger w →
    match a with
    | Ok l => map norm_event l ≡ₚ filter (λ e, ev_TransactionID e = id) (l_events (ledger w))
    | Err _ => True
    end → Q a w') →
  wp (repo env ctx (λ ci, events_ListByTransaction ci id)) Q w.
Proof.
  intros HQ. call ListByTransaction_law. intros a w' Hf Hg' Ho.
  assert (ledger w' = ledger w) as HL.
  { destruct Ho as [[-> _]|(_ & _ & [->|(? & -> & _)])]; done. }
  apply HQ; [split; [done|by rewrite HL] | done | done |].
  destruct Ho as [[_ Ha]|(Hc & He & _)]; [done|]. by destruct a.
Qed.
End calls.

(** ** Database transactions *)

(** [P] holds of the ledger the body leaves when it succeeds, [E] of its error. *)
Lemma wp_withTransaction ctx fn (P : Ledger → Prop) (E : goerror → Prop) (Q : error → W → Prop) w :
  Inv w →
  (∀ w1, Inv w1 → frame w w1 → ledger w1 = ledger w →
    wp fn (λ e w2, Inv w2 ∧ frame w1 w2 ∧
      match e with None => P (ledger w2) | Some err => E err end) w1) →
  (∀ e w', Inv w' → frame w w' →
    match e with
    | None => P (ledger w')
    | Some err => (ledger w' = ledger w ∧ (E err ∨ ¬ clean_run ctx)) ∨ (¬ clean_run ctx ∧ P (ledger w'))
    end → Q e w') →
  wp (withTransaction env ctx fn) Q w.
Proof.
  intros HInv Hfn HQ. unfold withTransaction. apply wp_bind.
  unfold repo at 1, wp at 1, bind at 1, fresh_step. simpl.
  pose proof (BeginTx_law (call_info env ctx (w_step w)) (w_repo w) (proj1 HInv)) as Hb.
  unfold wp in Hb. destruct (db_BeginTx _ _) as [a r1]. destruct Hb as (Hg1 & Hv1 & Hc1).
  set (w1 := set_repo r1 (set_step (S (w_step w)) w)).
  assert (ledger w1 = ledger w) as HL1 by (unfold ledger; by rewrite <- Hv1).
  assert (Inv w1) as HInv1 by (split; [done | rewrite HL1; apply HInv]).
  assert (frame w w1) as Hf1 by (split_and!; simpl; try done; lia).
  destruct a as [err|].
  { apply wp_ret, HQ; [done|done|]. left. split; [done|]. right.
    intros Hrun. by specialize (Hc1 (clean_call _ _ Hrun)). }
  apply wp_bind, wp_get, wp_bind. wp_use (Hfn w1 HInv1 Hf1 HL1).
  intros e w2 (HInv2 & Hf2 & Hpost). destruct e as [err|].
  - apply wp_bind, wp_modify, wp_ret.
    destruct (Rollback_law r1 (w_repo w2) (proj1 HInv1) (proj1 HInv2)) as [Hg Hv].
    assert (ledger (set_repo (db_Rollback r1 (w_repo w2)) w2) = ledger w) as HL by (rewrite <- HL1; apply Hv).
    apply HQ; [split; simpl; [done|]; unfold ledger; simpl; rewrite Hv; apply HInv1 | |].
    + etrans; [done|]. etrans; [done|]. split_and!; simpl; try done; lia.
    + left. auto.
  - unfold repo, wp, bind, fresh_step. simpl.
    pose proof (Commit_law (call_info env ctx (w_step w2)) r1 (w_repo w2)
      (proj1 HInv1) (proj1 HInv2)) as Hcm.
    unfold wp in Hcm. destruct (db_Commit _ _ _) as [a r3]. destruct Hcm as (Hg3 & Hcm).
    set (w3 := set_repo r3 (set_step (S (w_step w2)) w2)).
    assert (ledger w3 = ledger w ∨ ledger w3 = ledger w2) as HL3.
    { destruct a; [destruct Hcm as [_ [Hv|Hv]]|]; unfold ledger; simpl; [left|right|right]; try done.
      rewrite Hv. apply HL1. }
    apply HQ.
    + split; [done|]. destruct HL3 as [-> | ->]; [apply HInv | apply HInv2].
    + etrans; [done|]. etrans; [done|]. split_and!; simpl; try done; lia.
    + destruct a as [err|].
      * destruct Hcm as [Hc Hv].
        assert (¬ clean_run ctx) by (intros Hrun; by apply Hc, clean_call).
        destruct Hv as [Hv|Hv]; [left|right].
        -- split; [|by right]. unfold ledger; simpl. rewrite Hv. apply HL1.
        -- split; [done|]. unfold ledger; simpl. by rewrite Hv.
      * unfold ledger; simpl. by rewrite Hcm.
Qed.
End logic.
