(* ===== verification/PaymentSpecs.v ===== *)
(** * PaymentSpecs: specifications of the internal functions of the payment service

    For each function, the ledger it leaves when it returns nil and the
    ledgers it may leave when it returns an error. *)

From stdpp Require Import base tactics list gmap strings.
From S2P Require Import Prelude GoLib Domain Repository Resilience Bank Payment Accounting PaymentLogic.

Open Scope string_scope.
Open Scope Z_scope.

(** ** Descriptions of ledgers *)

(** The transaction in memory and its row agree. *)
Definition stored (tx : Transaction) (L : Ledger) : Prop :=
  l_txns L !! tx_ID tx = Some (norm_txn tx).

(** [L'] is [L] with the row of [tx] replaced, and events and outbox entries added. *)
Definition wrote (tx : Transaction) (evs : list TransactionEvent)
    (obs : list (string * RawMessage * Z)) (L : Ledger) : Ledger :=
  mkLedger (l_merchants L) (<[tx_ID tx := norm_txn tx]> (l_txns L))
    (l_events L ++ evs) (l_outbox L ++ obs).

Definition credited (mid : string) (m : Merchant) (delta : Z) (L : Ledger) : Ledger :=
  put_merchant mid (set_Balance (m_BalanceCents m + delta) m) L.

(** The payload of an outbox entry of [tx]. *)
Definition tx_payload (tx : Transaction) : RawMessage :=
  {[ "transaction_id" := JStr (tx_ID tx); "merchant_id" := JStr (tx_MerchantID tx);
     "amount_cents" := JInt (tx_AmountCents tx); "currency" := JStr (tx_Currency tx);
     "status" := JStr (tx_Status tx) ]}.

Definition created_event (tx : Transaction) : TransactionEvent :=
  mkTransactionEvent 0 (tx_ID tx) "CREATED" "" TxStatusPending None (tx_CreatedAt tx).
Definition status_event (tx : Transaction) (to : TransactionStatus) (t : Z) : TransactionEvent :=
  mkTransactionEvent 0 (tx_ID tx) ("STATUS_" +:+ to) (tx_Status tx) to None t.
Definition refund_event (tx : Transaction) (reason : string) (t : Z) : TransactionEvent :=
  mkTransactionEvent 0 (tx_ID tx) "REFUNDED" TxStatusCompleted TxStatusRefunded
    (Some {[ "reason" := JStr reason ]}) t.

(** The outbox entry of a transition, if it has one. *)
Definition status_entry (tx : Transaction) (to : TransactionStatus) (t : Z)
  : list (string * RawMessage * Z) :=
  if bool_decide (to = TxStatusCompleted) then
    [("transaction.completed", tx_payload (set_Status to tx), t)]
  else if bool_decide (to = TxStatusFailed) then
    [("transaction.failed", tx_payload (set_Status to tx), t)]
  else [].

Lemma set_Status_id tx : set_Status (tx_Status tx) tx = tx.
Proof. by destruct tx. Qed.

Lemma wrote_same tx L : stored tx L → wrote tx [] [] L = L.
Proof.
  intros H. unfold wrote. rewrite !app_nil_r, insert_id by done. by destruct L.
Qed.

Lemma wrote_wrote tx tx' evs evs' obs obs' L :
  tx_ID tx' = tx_ID tx →
  wrote tx' evs' obs' (wrote tx evs obs L) = wrote tx' (evs ++ evs') (obs ++ obs') L.
Proof. intros H. unfold wrote. simpl. by rewrite H, insert_insert_eq, !app_assoc. Qed.

Lemma put_txn_wrote tx L : put_txn (tx_ID tx) (norm_txn tx) L = wrote tx [] [] L.
Proof. unfold wrote. by rewrite !app_nil_r. Qed.

Lemma update_wrote tx st L :
  put_txn (tx_ID tx) (set_Status st (norm_txn tx)) L = wrote (set_Status st tx) [] [] L.
Proof. unfold wrote. by rewrite !app_nil_r. Qed.

Lemma add_event_wrote tx evs obs e L :
  add_event e (wrote tx evs obs L) = wrote tx (evs ++ [e]) obs L.
Proof. unfold wrote, add_event. simpl. by rewrite app_assoc. Qed.

Lemma add_outbox_wrote tx evs obs o L :
  add_outbox o (wrote tx evs obs L) = wrote tx evs (obs ++ [o]) L.
Proof. unfold wrote, add_outbox. simpl. by rewrite app_assoc. Qed.

Lemma stored_wrote tx evs obs L : stored tx (wrote tx evs obs L).
Proof. unfold stored, wrote. simpl. apply lookup_insert_eq. Qed.

Lemma credited_wrote mid m d tx evs obs L :
  credited mid m d (wrote tx evs obs L) = wrote tx evs obs (credited mid m d L).
Proof. done. Qed.

Create Rewrite HintDb wrote.
#[export] Hint Rewrite put_txn_wrote update_wrote add_event_wrote add_outbox_wrote : wrote.

Section specs.
Context {R : Type} `{!MerchantRepository R, !TransactionRepository R,
  !EventRepository R, !OutboxRepository R, !Database R,
  !RepositoryLaws R, !DatabaseLaws R}.
Variable env : Env.
Variable s : PaymentService R.
Abbreviation W := (World R).
Implicit Types w : W.

(** Frames compose. *)
Ltac fr := first [eassumption | reflexivity | etrans; [eassumption|fr]].

(** A row in the ledger of a world: its merchant exists and its amount is in range. *)
Lemma stored_facts tx w :
  Inv w → stored tx (ledger w) →
  0 < tx_AmountCents tx ≤ max_int64 ∧ ∃ m, l_merchants (ledger w) !! tx_MerchantID tx = Some m.
Proof.
  intros [_ Hok] Hs. by destruct (ok_txn _ Hok _ _ Hs) as (_ & ? & [m Hm] & _); eauto.
Qed.

(** ** Outbox entries *)

Lemma wp_emit ctx ty tx t extra (Q : error → W → Prop) w :
  Inv w →
  (∀ e w', Inv w' → frame w w' →
    let o := (ty, extra ∪ tx_payload tx, t) in
    match e with
    | None => ledger w' = if s_outbox s then add_outbox o (ledger w) else ledger w
    | Some _ => ¬ clean_run env ctx ∧ (ledger w' = ledger w ∨ ledger w' = add_outbox o (ledger w))
    end → Q e w') →
  wp (emitOutboxEvent env s ctx ty (Some tx) t extra) Q w.
Proof.
  intros HInv HQ. unfold emitOutboxEvent. destruct (s_outbox s); simpl.
  - by eapply wp_outbox_Create.
  - apply wp_ret, HQ; [done | fr | done].
Qed.

Lemma wp_emitTransition ctx tx to (Q : error → W → Prop) w :
  Inv w →
  (∀ e w' t, Inv w' → frame w w' →
    let obs := if s_outbox s then status_entry tx to t else [] in
    match e with
    | None => ∀ tx' evs obs0 L0, ledger w = wrote tx' evs obs0 L0 →
        ledger w' = wrote tx' evs (obs0 ++ obs) L0
    | Some _ => ¬ clean_run env ctx ∧ ∀ tx' evs obs0 L0, ledger w = wrote tx' evs obs0 L0 →
        ∃ obs', ledger w' = wrote tx' evs (obs0 ++ obs') L0
    end → Q e w') →
  wp (emitTransitionOutboxEvent env s ctx (set_Status to tx) to) Q w.
Proof.
  intros HInv HQ. unfold emitTransitionOutboxEvent, status_entry in *.
  assert (∀ ty, wp (let! t := now env in emitOutboxEvent env s ctx ty (Some (set_Status to tx)) t ∅)
    (λ e w', Inv w' ∧ frame w w' ∧ ∃ t,
      let o := (ty, tx_payload (set_Status to tx), t) in
      match e with
      | None => ledger w' = if s_outbox s then add_outbox o (ledger w) else ledger w
      | Some _ => ¬ clean_run env ctx ∧ (ledger w' = ledger w ∨ ledger w' = add_outbox o (ledger w))
      end) w) as Hemit.
  { intros ty. apply wp_bind, wp_now. intros t w1 Hf1 Hr1.
    assert (ledger w1 = ledger w) as HL by (unfold ledger; by rewrite Hr1).
    apply wp_emit; [split; [rewrite Hr1|rewrite HL]; apply HInv|].
    intros e w2 HInv2 Hf2. rewrite HL, (left_id_L ∅ (∪)). intros o He. subst o.
    cbv beta. split_and!; [done | fr | by exists t]. }
  case_bool_decide as Hc; [|case_bool_decide as Hf].
  1,2: wp_use Hemit; intros e w' (HI & Hf' & t & He);
    apply (HQ e w' t HI Hf'); cbv zeta in *; destruct e as [e|].
  1,3: destruct He as [Hcl He]; split; [done|]; intros tx' evs obs0 L0 HL;
    rewrite HL in He; destruct He as [He|He];
    [exists []; by rewrite app_nil_r | eexists [_]; by rewrite He, add_outbox_wrote].
  1,2: intros tx' evs obs0 L0 HL; rewrite He, HL;
    destruct (s_outbox s); [by rewrite add_outbox_wrote | by rewrite app_nil_r].
  apply wp_ret, (HQ _ _ 0); [done | fr |]. intros tx' evs obs0 L0 ->.
  destruct (s_outbox s); by rewrite app_nil_r.
Qed.

(** ** Transitions *)

(** What a failed transition may leave behind: the old or the new status, and
    possibly entries of the audit trail and the outbox. *)
Definition half_moved (tx : Transaction) (to : TransactionStatus) (L L' : Ledger) : Prop :=
  ∃ st evs obs, (st = tx_Status tx ∨ (st = to ∧ CanTransition (tx_Status tx) to = true)) ∧
    L' = wrote (set_Status st tx) evs obs L.

Lemma half_moved_refl tx to L : stored tx L → half_moved tx to L L.
Proof.
  intros H. exists (tx_Status tx), [], []. split; [by left|].
  rewrite set_Status_id. by rewrite wrote_same.
Qed.

Lemma wp_rollbackTransition ctx tx cause evs obs L0 w (Q : Transaction * error → W → Prop) to :
  Inv w → CanTransition (tx_Status tx) to = true →
  ledger w = wrote (set_Status to tx) evs obs L0 →
  (∀ e w', Inv w' → frame w w' → half_moved tx to L0 (ledger w') →
    (e = cause ∨ ¬ clean_run env ctx) → Q (tx, Some e) w') →
  wp (rollbackTransition env ctx tx (tx_Status tx) cause) Q w.
Proof.
  intros HInv Hto HL HQ. unfold rollbackTransition. apply wp_bind.
  apply (wp_UpdateStatus env ctx w HInv _ _ (norm_txn (set_Status to tx))).
  - by apply CanTransition_valid in Hto as [? _].
  - rewrite HL. apply (stored_wrote (set_Status to tx)).
  - intros e w' HI Hf He.
    assert (put_txn (tx_ID tx) (set_Status (tx_Status tx) (norm_txn (set_Status to tx))) (ledger w)
      = wrote (set_Status (tx_Status tx) tx) evs obs L0) as Hput.
    { rewrite HL. change (set_Status (tx_Status tx) (norm_txn (set_Status to tx))) with
        (set_Status (tx_Status tx) (norm_txn tx)).
      rewrite update_wrote, wrote_wrote by done. by rewrite !app_nil_r. }
    rewrite Hput in He. rewrite ?HL in He.
    assert (half_moved tx to L0 (ledger w')) as Hh.
    { destruct e; [destruct He as [_ [He|He]]|]; rewrite He; do 3 eexists; (split; [|done]); auto. }
    destruct e as [e|]; apply wp_ret; [|rewrite set_Status_id]; apply HQ; try done; [|by left].
    right. apply He.
Qed.

Lemma wp_transition ctx tx to (Q : Transaction * error → W → Prop) w :
  Inv w → stored tx (ledger w) →
  (∀ tx' e w', Inv w' → frame w w' →
    match e with
    | None => CanTransition (tx_Status tx) to = true ∧ tx' = set_Status to tx ∧ ∃ te t,
        ledger w' = wrote (set_Status to tx) [status_event tx to te]
          (if s_outbox s then status_entry tx to t else []) (ledger w)
    | Some err => tx' = tx ∧ half_moved tx to (ledger w) (ledger w') ∧
        (¬ clean_run env ctx ∨ (CanTransition (tx_Status tx) to = false ∧ ledger w' = ledger w))
    end → Q (tx', e) w') →
  wp (transition env s ctx tx to) Q w.
Proof.
  intros HInv Hst HQ. unfold transition. apply wp_bind, (wp_contextError_Inv env _ _ _ HInv). intros e w1 HI1 Hf1 HL1 Hc1.
  destruct e as [e|].
  { apply wp_ret, HQ; [done | fr |]. rewrite HL1.
    split_and!; [done | by apply half_moved_refl | left; naive_solver]. }
  destruct (CanTransition (tx_Status tx) to) eqn:Eto; simpl.
  2:{ apply wp_ret, HQ; [done | fr |]. rewrite HL1.
      split_and!; [done | by apply half_moved_refl | auto]. }
  apply wp_bind, (wp_UpdateStatus env ctx w1 HI1 _ _ (norm_txn tx)).
  { by apply CanTransition_valid in Eto as [_ ?]. }
  { by rewrite HL1. }
  intros e w2 HI2 Hf2 He. rewrite update_wrote, HL1 in He. destruct e as [e|].
  { apply wp_ret, HQ; [done | fr |]. destruct He as [Hc He].
    split_and!; [done | | by left]. destruct He as [-> | ->]; [by apply half_moved_refl|].
    do 3 eexists. split; [by right | done]. }
  apply wp_bind, wp_now. intros te w3 Hf3 Hr3.
  assert (ledger w3 = wrote (set_Status to tx) [] [] (ledger w)) as HL3
    by (unfold ledger at 1; by rewrite Hr3).
  assert (Inv w3) as HI3.
  { split; [rewrite Hr3; apply HI2 | rewrite HL3, <- He; apply HI2]. }
  apply wp_bind, (wp_event_Create env ctx w3 HI3).
  { rewrite HL3. eexists. apply (stored_wrote (set_Status to tx)). }
  intros e w4 HI4 Hf4 Hev. rewrite HL3, add_event_wrote in Hev. simpl in Hev.
  destruct e as [e|].
  { destruct Hev as [Hc Hev].
    assert (∃ evs, ledger w4 = wrote (set_Status to tx) evs [] (ledger w)) as [evs HL4]
      by (destruct Hev; eauto).
    eapply wp_rollbackTransition; try done.
    intros err w5 HI5 Hf5 Hh _. apply HQ; [done | fr |]. split_and!; auto. }
  apply wp_bind, wp_emitTransition; [done|].
  intros e w5 t HI5 Hf5 ob Hemit. subst ob. destruct e as [e|].
  { destruct Hemit as [Hc Hemit]. destruct (Hemit _ _ _ _ Hev) as [obs HL5].
    eapply wp_rollbackTransition; try done.
    intros err w6 HI6 Hf6 Hh _. apply HQ; [done | fr |]. split_and!; auto. }
  apply wp_ret, HQ; [done | fr |]. split_and!; try done.
  exists te, t. by apply Hemit in Hev.
Qed.

(** ** Creating the record *)

Definition created_entry (tx : Transaction) : string * RawMessage * Z :=
  ("transaction.created", tx_payload tx, tx_CreatedAt tx).

Definition created (tx : Transaction) (outbox : bool) (L : Ledger) : Ledger :=
  wrote tx [created_event tx] (if outbox then [created_entry tx] else []) L.

Lemma wp_createInDBTransaction ctx tx (Q : error → W → Prop) w :
  Inv w → insertable tx (ledger w) →
  (∀ e w', Inv w' → frame w w' →
    match e with
    | None => ledger w' = created tx true (ledger w)
    | Some _ => ¬ clean_run env ctx ∧ (ledger w' = ledger w ∨ ledger w' = created tx true (ledger w))
    end → Q e w') →
  wp (createInDBTransaction env ctx tx) Q w.
Proof.
  intros HInv Hins HQ. unfold createInDBTransaction.
  apply (wp_withTransaction env ctx _ (λ L, L = created tx true (ledger w))
    (λ _, ¬ clean_run env ctx)); [done | |].
  - intros w1 HI1 Hf1 HL1. rewrite <- HL1 in *.
    apply wp_bind, (wp_txn_Create env ctx w1 HI1); [done|]. intros e w2 HI2 Hf2 He.
    destruct e as [e|]; [apply wp_ret; split_and!; [done | fr | apply He]|].
    rewrite put_txn_wrote in He.
    apply wp_bind, (wp_event_Create env ctx w2 HI2).
    { rewrite He. eexists. apply stored_wrote. }
    intros e w3 HI3 Hf3 He3. rewrite He, add_event_wrote in He3.
    destruct e as [e|]; [apply wp_ret; split_and!; [done | fr | apply He3]|].
    apply wp_bind, (wp_outbox_Create env ctx w3 HI3). intros e w4 HI4 Hf4 He4.
    rewrite He3, add_outbox_wrote in He4.
    destruct e as [e|]; apply wp_ret; split_and!; [done | fr | apply He4 | done | fr | done].
  - intros e w' HI Hf He. apply HQ; [done | fr |]. destruct e as [e|]; [|done].
    destruct He as [[? [?|?]]|[? ?]]; auto.
Qed.

Lemma wp_createWithMocks ctx tx (Q : error → W → Prop) w :
  Inv w → insertable tx (ledger w) →
  (∀ e w', Inv w' → frame w w' →
    match e with
    | None => ledger w' = created tx (s_outbox s) (ledger w)
    | Some _ => ¬ clean_run env ctx ∧
        (ledger w' = ledger w ∨ ∃ evs obs, ledger w' = wrote tx evs obs (ledger w))
    end → Q e w') →
  wp (createWithMocks env s ctx tx) Q w.
Proof.
  intros HInv Hins HQ. unfold createWithMocks.
  apply wp_bind, (wp_txn_Create env ctx w HInv); [done|]. intros e w2 HI2 Hf2 He.
  rewrite put_txn_wrote in He.
  destruct e as [e|].
  { apply wp_ret, HQ; [done | fr |]. destruct He as [? [?|?]]; eauto. }
  apply wp_bind, (wp_event_Create env ctx w2 HI2).
  { rewrite He. eexists. apply stored_wrote. }
  intros e w3 HI3 Hf3 He3. rewrite He, add_event_wrote in He3.
  destruct e as [e|].
  { apply wp_ret, HQ; [done | fr |]. destruct He3 as [? [?|?]]; eauto. }
  apply wp_emit; [done|]. intros e w4 HI4 Hf4 o He4. subst o.
  rewrite (left_id_L ∅ (∪)), He3, add_outbox_wrote in He4.
  apply HQ; [done | fr |]. destruct e as [e|]; [destruct He4 as [? [?|?]]; eauto|].
  rewrite He4. unfold created, created_entry. by destruct (s_outbox s).
Qed.

(** ** Completion *)

(** The ledger after completing [tx] for the merchant [m]. *)
Definition completed (tx : Transaction) (m : Merchant) (te t : Z) (outbox : bool) (L : Ledger)
  : Ledger :=
  credited (tx_MerchantID tx) m (tx_AmountCents tx)
    (wrote (set_Status TxStatusCompleted tx) [status_event tx TxStatusCompleted te]
      (if outbox then status_entry tx TxStatusCompleted t else []) L).

Definition overflows (m : Merchant) (tx : Transaction) : Prop :=
  max_int64 < m_BalanceCents m + tx_AmountCents tx.

(** The statements of the completion inside the database transaction. *)
Lemma wp_complete_statements ctx tx m t w :
  Inv w → stored tx (ledger w) → l_merchants (ledger w) !! tx_MerchantID tx = Some m →
  valid_status TxStatusCompleted →
  wp (check! repo env ctx (λ ci, txns_UpdateStatus ci (tx_ID tx) TxStatusCompleted) or err =>
        ret (Some (Errorf "set completed status: " err));
      check! repo env ctx (λ ci, merchants_UpdateBalance ci (tx_MerchantID tx) (tx_AmountCents tx))
        or err => ret (Some (Errorf "credit merchant balance: " err));
      check! repo env ctx (λ ci, events_Create ci
          (mkTransactionEvent 0 (tx_ID tx) ("STATUS_" +:+ TxStatusCompleted) (tx_Status tx) TxStatusCompleted None t))
        or err => ret (Some (Errorf "record transition event: " err));
      match transactionOutboxPayload (set_Status TxStatusCompleted tx) ∅ with
      | Err err => ret (Some (Errorf "marshal completed outbox payload: " err))
      | Ok payload =>
        check! repo env ctx (λ ci, outbox_Create ci
            (mkOutboxEvent 0 "transaction.completed" payload false t))
          or err => ret (Some (Errorf "record transition outbox event: " err));
        ret None
      end) (λ e w', Inv w' ∧ frame w w' ∧
    match e with
    | None => ledger w' = completed tx m t t true (ledger w)
    | Some _ => ¬ clean_run env ctx ∨ overflows m tx
    end) w.
Proof.
  intros HI Hst Hm Hv. destruct (stored_facts _ _ HI Hst) as [Ham _].
  apply wp_bind, (wp_UpdateStatus env ctx w HI _ _ (norm_txn tx)); [done | done |].
  intros e w4 HI4 Hf4 He4. rewrite update_wrote in He4.
  destruct e as [e|]; [apply wp_ret; split_and!; [done | fr | naive_solver]|].
  apply wp_bind, (wp_UpdateBalance env ctx w4 HI4 _ _ m); [int64 | by rewrite He4 |].
  intros e w5 HI5 Hf5 b L' He5. subst b L'.
  change (put_merchant _ _ (ledger w4)) with
    (credited (tx_MerchantID tx) m (tx_AmountCents tx) (ledger w4)) in He5.
  rewrite He4, credited_wrote in He5.
  destruct e as [e|].
  { apply wp_ret; split_and!; [done | fr |].
    destruct (ok_merchant _ (proj2 HI) _ _ Hm) as [_ Hb].
    destruct He5 as [[_ [[? _]|?]]|[? _]]; [lia | by right | by left]. }
  destruct He5 as [_ He5].
  apply wp_bind, (wp_event_Create env ctx w5 HI5).
  { rewrite He5. eexists. apply (stored_wrote (set_Status TxStatusCompleted tx)). }
  intros e w6 HI6 Hf6 He6. rewrite He5, add_event_wrote in He6.
  destruct e as [e|]; [apply wp_ret; split_and!; [done | fr | naive_solver]|].
  apply wp_bind, (wp_outbox_Create env ctx w6 HI6). intros e w7 HI7 Hf7 He7.
  rewrite He6, add_outbox_wrote in He7.
  destruct e as [e|]; apply wp_ret; (split_and!; [done | fr |]); [naive_solver|].
  rewrite He7. unfold completed. by rewrite credited_wrote.
Qed.

Lemma wp_completeInDBTransaction ctx tx m (Q : Transaction * error → W → Prop) w :
  Inv w → stored tx (ledger w) → l_merchants (ledger w) !! tx_MerchantID tx = Some m →
  (∀ tx' e w', Inv w' → frame w w' →
    match e with
    | None => CanTransition (tx_Status tx) TxStatusCompleted = true ∧
        tx' = set_Status TxStatusCompleted tx ∧
        ∃ t, ledger w' = completed tx m t t true (ledger w)
    | Some _ => tx' = tx ∧
        ((ledger w' = ledger w ∧ (¬ clean_run env ctx ∨
            CanTransition (tx_Status tx) TxStatusCompleted = false ∨ overflows m tx)) ∨
         (¬ clean_run env ctx ∧ CanTransition (tx_Status tx) TxStatusCompleted = true ∧
            ∃ t, ledger w' = completed tx m t t true (ledger w)))
    end → Q (tx', e) w') →
  wp (completeInDBTransaction env ctx tx) Q w.
Proof.
  intros HInv Hst Hm HQ. unfold completeInDBTransaction.
  apply wp_bind, (wp_contextError_Inv env _ _ _ HInv). intros e w1 HI1 Hf1 HL1 Hc1.
  destruct e as [e|].
  { apply wp_ret, HQ; [done | fr |]. split; [done|]. left. split; [done|]. left. naive_solver. }
  destruct (CanTransition (tx_Status tx) TxStatusCompleted) eqn:Eto; simpl.
  2:{ apply wp_ret, HQ; [done | fr |]. split; [done|]. left. auto. }
  apply wp_bind, (wp_now_Inv env _ _ HI1). intros t w2 HI2 Hf2 HL2. rewrite HL1 in HL2.
  apply wp_bind, (wp_withTransaction env ctx _ (λ L, L = completed tx m t t true (ledger w))
    (λ _, ¬ clean_run env ctx ∨ overflows m tx)); [done | |].
  - intros w3 HI3 Hf3 HL3. rewrite HL2 in HL3. rewrite <- HL3 in Hst, Hm |- *.
    apply wp_complete_statements; [done..|]. by apply CanTransition_valid in Eto as [_ ?].
  - intros e w3 HI3 Hf3 He. rewrite HL2 in He. destruct e as [e|]; apply wp_ret, HQ;
      [exact HI3 | fr | | exact HI3 | fr | split_and!; [done..|by exists t]].
    split; [done|]. destruct He as [[HL3 [[Hc|Hov]|Hc]]|[Hc HL3]].
    + left. split; [exact HL3 | by left].
    + left. split; [exact HL3 | by right; right].
    + left. split; [exact HL3 | by left].
    + right. split; [exact Hc | split; [done | by exists t]].
Qed.

Lemma credited_merchant mid m d L : l_merchants (credited mid m d L) !! mid = Some (set_Balance (m_BalanceCents m + d) m).
Proof. apply lookup_insert_eq. Qed.

Lemma half_moved_merchants tx to L L' : half_moved tx to L L' → l_merchants L' = l_merchants L.
Proof. by intros (st & evs & obs & _ & ->). Qed.

Lemma credited_credited mid m d d' L :
  credited mid (set_Balance (m_BalanceCents m + d) m) d' (credited mid m d L) =
  credited mid m (d + d') L.
Proof.
  unfold credited, put_merchant. simpl. rewrite insert_insert_eq.
  unfold set_Balance. simpl. by rewrite Z.add_assoc.
Qed.

Lemma credited_0 mid m L : l_merchants L !! mid = Some m → credited mid m 0 L = L.
Proof.
  intros Hm. unfold credited, put_merchant. rewrite insert_id; [by destruct L|].
  rewrite Hm, Z.add_0_r. by destruct m.
Qed.

(** What a completion without a database transaction may leave when the store
    fails: the credit and the status separately, and any entries. *)
Definition half_completed (tx : Transaction) (m : Merchant) (L L' : Ledger) : Prop :=
  ∃ st evs obs d, (st = tx_Status tx ∨ st = TxStatusCompleted) ∧
    (d = 0 ∨ d = tx_AmountCents tx) ∧
    L' = credited (tx_MerchantID tx) m d (wrote (set_Status st tx) evs obs L).

Lemma half_completed_intro tx m d L L' :
  l_merchants L !! tx_MerchantID tx = Some m → d = 0 ∨ d = tx_AmountCents tx →
  half_moved tx TxStatusCompleted L L' →
  half_completed tx m L (credited (tx_MerchantID tx) m d L').
Proof. intros Hm Hd (st & evs & obs & Hst & ->). exists st, evs, obs, d. naive_solver. Qed.

Lemma half_moved_credited tx to mid m d L L' :
  half_moved tx to (credited mid m d L) L' →
  ∃ L0, half_moved tx to L L0 ∧ L' = credited mid m d L0.
Proof.
  intros (st & evs & obs & Hst & ->). exists (wrote (set_Status st tx) evs obs L).
  split; [by exists st, evs, obs | done].
Qed.

Lemma half_completed_same tx m L :
  stored tx L → l_merchants L !! tx_MerchantID tx = Some m → half_completed tx m L L.
Proof.
  intros Hst Hm. rewrite <- (credited_0 (tx_MerchantID tx) m L) at 2 by done.
  apply half_completed_intro; [done | by left | by apply half_moved_refl].
Qed.

(** Taking the credit back when the transition has failed. *)
Lemma wp_take_back ctx tx m err L w :
  Inv w → 0 < tx_AmountCents tx ≤ max_int64 → 0 ≤ m_BalanceCents m → m_BalanceCents m + tx_AmountCents tx ≤ max_int64 →
  stored tx L → l_merchants L !! tx_MerchantID tx = Some m →
  let credit := credited (tx_MerchantID tx) m (tx_AmountCents tx) in
  half_moved tx TxStatusCompleted (credit L) (ledger w) →
  (¬ clean_run env ctx ∨ CanTransition (tx_Status tx) TxStatusCompleted = false ∧ ledger w = credit L) →
  wp (check! repo env ctx (λ ci, merchants_UpdateBalance ci (tx_MerchantID tx) (neg64 (tx_AmountCents tx)))
        or rollbackErr => ret (tx, Some (Join err (Errorf "rollback credited balance: " rollbackErr)));
      ret (tx, Some err)) (λ r w', Inv w' ∧ frame w w' ∧ r.1 = tx ∧ r.2 ≠ None ∧
    ((¬ clean_run env ctx ∧ half_completed tx m L (ledger w')) ∨
     (ledger w' = L ∧ CanTransition (tx_Status tx) TxStatusCompleted = false))) w.
Proof.
  intros HI Ham Hb Hb' Hst Hm. cbv zeta. set (mid := tx_MerchantID tx) in *. set (a := tx_AmountCents tx) in *.
  intros (L0 & Hh & HL3)%half_moved_credited Hwhy.
  apply wp_bind, (wp_UpdateBalance env ctx w HI _ _ (set_Balance (m_BalanceCents m + a) m)).
  { rewrite neg64_id; int64. }
  { rewrite HL3. apply credited_merchant. }
  intros e' w4 HI4 Hf4 b L' He4. subst b L'. rewrite neg64_id in He4 by (unfold a; lia).
  change (put_merchant _ _ (ledger w)) with
    (credited mid (set_Balance (m_BalanceCents m + a) m) (- a) (ledger w)) in He4.
  rewrite HL3, credited_credited, Z.add_opp_diag_r in He4. simpl in He4.
  assert (∀ d, d = 0 ∨ d = a → half_completed tx m L (credited mid m d L0)) as Hhalf.
  { intros d Hd. by apply half_completed_intro. }
  assert ((¬ clean_run env ctx ∧ half_completed tx m L (ledger w4)) ∨
    (ledger w4 = L ∧ CanTransition (tx_Status tx) TxStatusCompleted = false)) as Hpost.
  { destruct Hwhy as [Hc|[Hno HL3']].
    - left. split; [exact Hc|].
      destruct e' as [e'|]; [destruct He4 as [[HL _]|[_ [HL|[_ HL]]]]|destruct He4 as [_ HL]];
        rewrite HL; apply Hhalf; auto.
    - rewrite HL3 in HL3'.
      pose proof (f_equal (credited mid (set_Balance (m_BalanceCents m + a) m) (- a)) HL3') as H0.
      rewrite !credited_credited, Z.add_opp_diag_r, (credited_0 mid m L) in H0 by done.
      destruct e' as [e'|]; [|right; split; [by rewrite (proj2 He4) | exact Hno]].
      destruct He4 as [[_ [[? _]|?]]|[Hc [HL|[_ HL]]]]; [lia | lia | |];
        left; (split; [exact Hc|]); rewrite HL; apply Hhalf; auto. }
  destruct e' as [e'|]; apply wp_ret; by split_and!.
Qed.

Lemma wp_completeWithMocks ctx tx m (Q : Transaction * error → W → Prop) w :
  Inv w → stored tx (ledger w) → l_merchants (ledger w) !! tx_MerchantID tx = Some m →
  (∀ tx' e w', Inv w' → frame w w' →
    match e with
    | None => CanTransition (tx_Status tx) TxStatusCompleted = true ∧
        tx' = set_Status TxStatusCompleted tx ∧
        ∃ te t, ledger w' = completed tx m te t (s_outbox s) (ledger w)
    | Some _ => tx' = tx ∧
        ((¬ clean_run env ctx ∧ half_completed tx m (ledger w) (ledger w')) ∨
         (ledger w' = ledger w ∧
           (CanTransition (tx_Status tx) TxStatusCompleted = false ∨ overflows m tx)))
    end → Q (tx', e) w') →
  wp (completeWithMocks env s ctx tx) Q w.
Proof.
  intros HInv Hst Hm HQ. unfold completeWithMocks.
  destruct (stored_facts _ _ HInv Hst) as [Ham _].
  destruct (ok_merchant _ (proj2 HInv) _ _ Hm) as [_ Hb].
  pose proof (half_completed_same tx m (ledger w) Hst Hm) as Hsame.
  apply wp_bind, (wp_contextError_Inv env _ _ _ HInv). intros e w1 HI1 Hf1 HL1 Hc1.
  destruct e as [e|].
  { apply wp_ret, HQ; [done | fr |]. split; [done|]. left. rewrite HL1. naive_solver. }
  apply wp_bind, (wp_UpdateBalance env ctx w1 HI1 _ _ m); [int64 | by rewrite HL1 |].
  intros e w2 HI2 Hf2 b L' He. subst b L'.
  change (put_merchant _ _ (ledger w1)) with (credited (tx_MerchantID tx) m (tx_AmountCents tx) (ledger w1)) in He.
  rewrite HL1 in He. destruct e as [e|].
  { apply wp_ret, HQ; [done | fr |]. split; [done|].
    destruct He as [[HL [[? _]|?]]|[Hc [HL|[_ HL]]]].
    - lia.
    - right. split; [exact HL | by right].
    - left. split; [exact Hc|]. rewrite HL. exact Hsame.
    - left. split; [exact Hc|]. rewrite HL.
      apply half_completed_intro; [done | by right | by apply half_moved_refl]. }
  destruct He as [Hb' HL2].
  apply wp_bind, wp_transition; [done | by rewrite HL2 |].
  intros tx' e w3 HI3 Hf3 He. rewrite HL2 in He. destruct e as [e|].
  - destruct He as (-> & Hh & Hwhy).
    wp_use (wp_take_back ctx tx m e (ledger w) w3); [done | done | lia | lia | done | done | done | exact Hwhy |].
    intros [t [x|]] w4 (HI4 & Hf4 & Et & Hx & Hpost); [|done]. simpl in Et. subst t. apply HQ; [done | fr |]. split; [done|].
    destruct Hpost as [?|[? ?]]; [by left | right; auto].
  - destruct He as (Hto & -> & te & t & He). apply wp_ret, HQ; [done | fr |].
    split_and!; [done..|]. by exists te, t.
Qed.

(** ** The bank *)

(** The bank client and the sleep function do not touch the store or the
    breaker. *)
Definition quiet w w' : Prop := frame w w' ∧ w_repo w' = w_repo w.

Record service_ok : Prop := {
  bank_quiet ctx req w : wp (s_bank s ctx req) (λ _ w', quiet w w') w;
  sleep_quiet f ctx d w : s_sleep s = Some f → wp (f ctx d) (λ _ w', quiet w w') w
}.

Definition charge_request (tx : Transaction) : BankChargeRequest :=
  mkBankChargeRequest (tx_ID tx) (tx_MerchantID tx) (tx_AmountCents tx) (tx_Currency tx).

(** The world after [k] requests were sent to the bank. *)
Definition charged (q : BankChargeRequest) (w : W) (k : nat) (w' : W) : Prop :=
  w_repo w' = w_repo w ∧ w_charges w' = (w_charges w ++ replicate k q)%list ∧
  (w_step w ≤ w_step w')%nat.

Lemma charged_quiet q w k w1 w2 : charged q w k w1 → quiet w1 w2 → charged q w k w2.
Proof.
  intros (Hr & Hc & Hs) [(_ & Hc' & Hs') Hr'].
  split_and!; [by rewrite Hr' | by rewrite Hc' | lia].
Qed.

(** The bank approved the charge [q], in a world that has [k] charges more
    than [w] and the store of [w]. *)
Definition approves (q : BankChargeRequest) (w : W) : Prop :=
  ∃ c k w1 resp w2, charged q w (S k) w1 ∧ s_bank s c q w1 = ((resp, None), w2).

Lemma wp_charge_attempt q ctx w k w1 :
  service_ok → charged q w k w1 →
  wp (charge_attempt s q ctx)
    (λ r w2, charged q w (S k) w2 ∧ (r = None → approves q w ∧ (0 < S k)%nat)) w1.
Proof.
  intros Hs (Hr & Hc & Hst). unfold charge_attempt. apply wp_bind, wp_modify, wp_bind.
  assert (charged q w (S k) (log_charge q w1)) as Hlog.
  { split_and!; [done | | done]. cbn [log_charge w_charges]. rewrite Hc.
    by rewrite replicate_S_end, (assoc_L (++)). }
  apply wp_intro. intros r w2 E. apply wp_ret. split.
  - apply (charged_quiet q w (S k) (log_charge q w1)); [exact Hlog|].
    exact (wp_run _ _ _ _ _ E (bank_quiet Hs ctx q (log_charge q w1))).
  - intros Hr2. destruct r as [resp e]. simpl in Hr2. subst. split; [|lia].
    by exists ctx, k, (log_charge q w1), resp, w2.
Qed.

Lemma wp_contextError_quiet c w : wp (contextError env c) (λ _ w', quiet w w') w.
Proof.
  destruct c as [c|]; unfold contextError; [|by apply wp_ret; split].
  apply wp_bind, wp_now. intros t w' ? ?. by apply wp_ret.
Qed.

Lemma wp_normalizeBankError p b err (Q : error → W → Prop) w :
  (∀ e w', quiet w w' → (err = None ↔ e = None) → Q e w') →
  wp (normalizeBankError env p b err) Q w.
Proof.
  intros HQ. unfold normalizeBankError. destruct err as [err|]; [|by apply wp_ret, HQ].
  assert (∀ w1 w2, quiet w w1 → quiet w1 w2 → quiet w w2) as Htr.
  { intros w1 w2 [? Hr] [? Hr']. split; [fr | congruence]. }
  apply wp_bind. wp_use wp_contextError_quiet. cbv beta. intros e1 w1 Hq1.
  destruct (_ && _); [by apply wp_ret, HQ|].
  destruct (errors_Is _ _); [|by apply wp_ret, HQ].
  apply wp_bind. wp_use wp_contextError_quiet. cbv beta. intros e2 w2 Hq2.
  assert (quiet w w2) by eauto.
  destruct (errors_Is _ _); [by apply wp_ret, HQ|].
  apply wp_bind. wp_use wp_contextError_quiet. cbv beta. intros e3 w3 Hq3.
  assert (quiet w w3) by eauto. destruct (errors_Is _ _); by apply wp_ret, HQ.
Qed.

(** Nothing stands between the service and an approving bank: the circuit is
    closed, the context [bank] does not end, and the bank approves [q]. *)
Record bank_live (bank : Ctx) (q : BankChargeRequest) (w : W) : Prop := {
  live_closed : cb_state (w_cb w) = CircuitClosed;
  live_time n : ctx_Err bank (env_now env n) = None;
  live_bank c w1 : (s_bank s c q w1).1.2 = None
}.

Lemma wp_Retry_live bank q w v :
  bank_live bank q v →
  wp (Retry (now env) (pick env) (Int63n env) (env_overflow env) (s_sleep s) bank (s_retry s)
       (charge_attempt s q)) (λ e _, e = None) w.
Proof.
  intros [_ Ht Hb]. apply wp_Retry_first, wp_now_at. intros n w1 _ _. split; [done|].
  unfold charge_attempt. apply wp_bind, wp_modify, wp_bind, wp_intro. intros r w2 E.
  apply wp_ret. split; [|done]. specialize (Hb bank (log_charge q w1)). by rewrite E in Hb.
Qed.

(** The charges, their number, and that success follows an approval. *)
Definition bank_called (bank : Ctx) (q : BankChargeRequest) (w : W) (e : error) (w' : W) : Prop :=
  ∃ k, Z.of_nat k ≤ retry_attempts (s_retry s) ∧ charged q w k w' ∧
    (e = None → approves q w ∧ (0 < k)%nat) ∧ (bank_live bank q w → e = None).

Lemma charged_same q w k w1 w2 :
  w_repo w2 = w_repo w1 → w_charges w2 = w_charges w1 → w_step w2 = w_step w1 →
  charged q w k w1 → charged q w k w2.
Proof. intros E1 E2 E3. unfold charged. by rewrite E1, E2, E3. Qed.

Lemma wp_clock {A} (m : nat → A) q w k w1 :
  charged q w k w1 →
  wp (W := W) (let! n := fresh_step in ret (m n)) (λ _ w2, charged q w k w2 ∧ w_cb w2 = w_cb w1) w1.
Proof.
  intros Hc. apply wp_bind, wp_fresh. intros w2 [? ?] ?. apply wp_ret. split; [|done].
  eapply charged_quiet; [done | by split].
Qed.

(** All attempts of one call, in a world that was reached without a charge. *)
Lemma wp_attempts bank q w w1 :
  service_ok → charged q w 0 w1 →
  wp (Retry (now env) (pick env) (Int63n env) (env_overflow env) (s_sleep s) bank (s_retry s)
       (charge_attempt s q)) (bank_called bank q w) w1.
Proof.
  intros Hs H1.
  assert (∀ A (m : nat → A) k v, charged q w k v → wp (W := W) (let! n := fresh_step in ret (m n))
    (λ _ v', charged q w k v') v) as Hclock.
  { intros A m k v Hv. wp_use (wp_clock m q w k v Hv). by intros ? ? [? _]. }
  eapply wp_mono; [apply wp_and; [apply (wp_Retry_inv _ _ _ _ _ _ _ (charged q w)
      (λ w', approves q w ∧ (length (w_charges w) < length (w_charges w'))%nat)); [..|exact H1]|]|].
  - intros k v Hv. by apply (Hclock _ (env_now env)).
  - intros k v Hv. by apply (Hclock _ (env_pick env)).
  - intros n k v Hv. by apply (Hclock _ (λ i, env_rand env i n)).
  - intros f d Hf k v Hv. wp_use (sleep_quiet Hs f bank d v Hf). intros ? w2 ?.
    by eapply charged_quiet.
  - intros k v Hv. wp_use (wp_charge_attempt q bank w k v Hs Hv).
    intros r w2 [Hc Ha]. split; [done|]. intros Hr. split; [by apply Ha|].
    destruct Hc as (_ & -> & _). rewrite length_app, length_replicate. lia.
  - apply wp_intro. intros e w2 E. exact (λ Hl, wp_run _ _ _ _ _ E (wp_Retry_live bank q w1 w Hl)).
  - intros e w2 [[(k & Hk & Hc) Ha] Hl]. exists k. split_and!; try done.
    intros He. destruct (Ha He) as [? Hlen]. split; [done|].
    destruct Hc as (_ & Hc & _). rewrite Hc, length_app, length_replicate in Hlen. lia.
Qed.

Lemma wp_callBank parent bank tx w :
  service_ok →
  wp (callBank env s parent bank tx) (bank_called bank (charge_request tx) w) w.
Proof.
  intros Hs. unfold callBank. apply wp_bind.
  set (q := charge_request tx). fold (charge_request tx). fold q.
  eapply (wp_mono _ (bank_called bank q w)).
  2:{ intros e w1 (k & Hk & Hc & Ha & Hl). apply wp_normalizeBankError. intros e' w2 Hq He'.
      exists k. split_and!; [done | by eapply charged_quiet | naive_solver..]. }
  assert (charged q w 0 w) as H0 by (split_and!; [done | by rewrite app_nil_r | lia]).
  assert (0 ≤ retry_attempts (s_retry s)) as Hpos.
  { unfold retry_attempts. destruct (Z.leb_spec (MaxAttempts (s_retry s)) 0); lia. }
  unfold Execute. apply wp_bind. wp_use (wp_clock (env_now env) q w 0%nat w H0).
  intros t w1 [H1 Hcb]. apply wp_bind, wp_get.
  destruct (beforeRequest t (w_cb w1)) as [err cb'] eqn:Eb. apply wp_bind, wp_modify.
  destruct err as [err|].
  { apply wp_ret. exists 0%nat. split_and!; [done | by eapply charged_same | done |].
    intros [Hcl _ _]. rewrite Hcb in Eb. unfold beforeRequest in Eb. by rewrite Hcl in Eb. }
  apply wp_bind. wp_use (wp_attempts bank q w (set_cb cb' w1) Hs); [by eapply charged_same|].
  intros err w2 (k & Hk & Hc & Ha & Hl). apply wp_bind.
  wp_use (wp_clock (env_now env) q w k w2 Hc).
  intros t' w3 [H3 _]. apply wp_bind, wp_get, wp_bind, wp_modify, wp_ret. exists k.
  split_and!; [done | by eapply charged_same | done | done].
Qed.
End specs.
