(* ===== verification/PaymentOutcome.v ===== *)
(** * PaymentOutcome: the abstract specification of the payment operations

    What creating, processing and refunding a payment may report and the
    ledger each outcome leaves, as inductive relations on ledgers; and the
    refinement lemmas: the operations of the service only produce these
    outcomes, whatever the clock, the faults of the store, the context and the
    bank do. *)

From stdpp Require Import base tactics list gmap strings.
From S2P Require Import Prelude GoLib Domain Repository Resilience Bank Payment Accounting PaymentLogic PaymentSpecs.

Open Scope string_scope.
Open Scope Z_scope.

Section outcome.
Context {R : Type} `{!MerchantRepository R, !TransactionRepository R,
  !EventRepository R, !OutboxRepository R, !Database R,
  !RepositoryLaws R, !DatabaseLaws R}.
Variable env : Env.
Variable s : PaymentService R.
Abbreviation W := (World R).
Implicit Types w : W.

Ltac fr := first [eassumption | reflexivity | etrans; [eassumption|fr]].

(** ** Faults and contexts *)

Definition faultless : Prop := ∀ n, env_fault env n = NoFault.

Lemma clean_faultless ctx : clean_run env ctx → faultless.
Proof. intros H n. apply H. Qed.

(** The context after the bank call outlives the request: only the store can
    make the rest fail. *)
Lemma post_bank_clean ctx : faultless → clean_run env (postBankContext (Some ctx)).
Proof. intros H n. by split; [apply H|]. Qed.

Lemma post_bank_unclean ctx : ¬ clean_run env (postBankContext (Some ctx)) → ¬ faultless.
Proof. intros H ?. by apply H, post_bank_clean. Qed.

(** ** Processing *)

Definition processing (tx : Transaction) (te : Z) (L : Ledger) : Ledger :=
  wrote (set_Status TxStatusProcessing tx) [status_event tx TxStatusProcessing te] [] L.

Definition failed (tx : Transaction) (te te' t : Z) (L : Ledger) : Ledger :=
  wrote (set_Status TxStatusFailed tx)
    [status_event tx TxStatusProcessing te;
     status_event (set_Status TxStatusProcessing tx) TxStatusFailed te']
    (if s_outbox s then status_entry tx TxStatusFailed t else []) L.

Definition paid (tx : Transaction) (m : Merchant) (te te' t : Z) (L : Ledger) : Ledger :=
  credited (tx_MerchantID tx) m (tx_AmountCents tx)
    (wrote (set_Status TxStatusCompleted tx)
      [status_event tx TxStatusProcessing te;
       status_event (set_Status TxStatusProcessing tx) TxStatusCompleted te']
      (if s_db s || s_outbox s then status_entry tx TxStatusCompleted t else []) L).

(** The bank approved the charge of [tx] while its row said PROCESSING. *)
Definition approved (tx : Transaction) : Prop :=
  ∃ c w1 resp w2, s_bank s c (charge_request tx) w1 = ((resp, None), w2) ∧
    stored (set_Status TxStatusProcessing tx) (ledger w1) ∧
    last (w_charges w1) = Some (charge_request tx).

(** The circuit is closed, no deadline passes, and the bank approves. *)
Record live (ctx : Ctx) (q : BankChargeRequest) (w : W) : Prop := {
  live_circuit : cb_state (w_cb w) = CircuitClosed;
  live_deadline n m :
    ctx_Err (bankCallContext ctx (env_now env n) (s_bankTimeout s)) (env_now env m) = None;
  live_approves c w1 : (s_bank s c q w1).1.2 = None
}.

(** The outcomes of [processPayment] on a pending [tx], after [k] charges. *)
Inductive payment (ctx : Ctx) (alive : Prop) (tx : Transaction) (m : Merchant) (L : Ledger)
  : nat → Transaction * error → Ledger → Prop :=
| payment_completed k te te' t :
    (0 < k)%nat → approved tx →
    payment ctx alive tx m L k (set_Status TxStatusCompleted tx, None) (paid tx m te te' t L)
| payment_failed k e te te' t :
    ¬ alive →
    payment ctx alive tx m L k (set_Status TxStatusFailed tx, Some e) (failed tx te te' t L)
| payment_overflow k e te :
    (0 < k)%nat → approved tx → overflows m tx →
    payment ctx alive tx m L k (set_Status TxStatusProcessing tx, Some e) (processing tx te L)
| payment_interrupted e st evs obs :
    ¬ clean_run env ctx → st = TxStatusPending ∨ st = TxStatusProcessing →
    payment ctx alive tx m L 0 (tx, Some e) (wrote (set_Status st tx) evs obs L)
| payment_fault k e st evs obs :
    ¬ faultless → st = TxStatusProcessing ∨ st = TxStatusFailed →
    payment ctx alive tx m L k (set_Status TxStatusProcessing tx, Some e)
      (wrote (set_Status st tx) evs obs L)
| payment_unacknowledged k e te te' t :
    ¬ faultless → s_db s = true → (0 < k)%nat → approved tx →
    payment ctx alive tx m L k (set_Status TxStatusProcessing tx, Some e) (paid tx m te te' t L)
| payment_half_credited k e st evs obs d :
    ¬ faultless → s_db s = false → (0 < k)%nat → approved tx →
    st = TxStatusProcessing ∨ st = TxStatusCompleted → d = 0 ∨ d = tx_AmountCents tx →
    payment ctx alive tx m L k (set_Status TxStatusProcessing tx, Some e)
      (credited (tx_MerchantID tx) m d (wrote (set_Status st tx) evs obs L)).

(** The charges between two worlds. *)
Definition charges (q : BankChargeRequest) w k w' : Prop :=
  w_charges w' = (w_charges w ++ replicate k q)%list ∧ Z.of_nat k ≤ retry_attempts (s_retry s).

Lemma charges_none q w w' : frame w w' → charges q w 0 w'.
Proof.
  intros (_ & Hc & _). split; [by rewrite Hc, app_nil_r|]. unfold retry_attempts.
  destruct (Z.leb_spec (MaxAttempts (s_retry s)) 0); lia.
Qed.

Lemma frame_step w w' : frame w w' → (w_step w ≤ w_step w')%nat.
Proof. by intros (_ & _ & ?). Qed.

Lemma half_moved_wrote tx L L' :
  tx_Status tx = TxStatusPending →
  half_moved tx TxStatusProcessing L L' →
  ∃ st evs obs, (st = TxStatusPending ∨ st = TxStatusProcessing) ∧
    L' = wrote (set_Status st tx) evs obs L.
Proof.
  intros Hp (st & evs & obs & Hst & ->). exists st, evs, obs. split; [|done].
  rewrite Hp in Hst. naive_solver.
Qed.

Lemma wp_completePayment ctx tx m (Q : Transaction * error → W → Prop) w :
  Inv w → stored tx (ledger w) → tx_Status tx = TxStatusProcessing →
  l_merchants (ledger w) !! tx_MerchantID tx = Some m →
  (∀ tx' e w', Inv w' → frame w w' →
    match e with
    | None => tx' = set_Status TxStatusCompleted tx ∧
        ∃ te t, ledger w' = completed tx m te t (s_db s || s_outbox s) (ledger w)
    | Some _ => tx' = tx ∧
        ((ledger w' = ledger w ∧ overflows m tx) ∨
         (¬ clean_run env ctx ∧ s_db s = true ∧
            (ledger w' = ledger w ∨
             ∃ te t, ledger w' = completed tx m te t (s_db s || s_outbox s) (ledger w))) ∨
         (¬ clean_run env ctx ∧ s_db s = false ∧
            half_completed tx m (ledger w) (ledger w')))
    end → Q (tx', e) w') →
  wp (completePayment env s ctx tx) Q w.
Proof.
  intros HInv Hst Hs Hm HQ. unfold completePayment.
  assert (CanTransition (tx_Status tx) TxStatusCompleted = true) as Hto by by rewrite Hs.
  destruct (s_db s) eqn:Edb.
  - eapply wp_completeInDBTransaction; [exact HInv | exact Hst | exact Hm |].
    intros tx' e w' HI Hf He. apply HQ; [exact HI | exact Hf |]. destruct e as [e|].
    + destruct He as [-> He]. split; [done|]. rewrite Hto in He. cbn [orb].
      destruct He as [(HL & [Hc|[?|Ho]])|(Hc & _ & [t HL])]; [|done| |].
      * right; left. split; [exact Hc | split; [done | by left]].
      * left. split; [exact HL | exact Ho].
      * right; left. split; [exact Hc | split; [done | right; exists t, t; exact HL]].
    + destruct He as (_ & -> & t & HL). split; [done|]. exists t, t. exact HL.
  - eapply wp_completeWithMocks; [exact HInv | exact Hst | exact Hm |].
    intros tx' e w' HI Hf He. apply HQ; [exact HI | exact Hf |]. destruct e as [e|].
    + destruct He as [-> He]. split; [done|]. rewrite Hto in He.
      destruct He as [[Hc Hh]|[HL [?|Ho]]]; [right; right; auto | done |].
      left. split; [exact HL | exact Ho].
    + destruct He as (_ & -> & te & t & HL). split; [done|]. exists te, t. exact HL.
Qed.

(** The world after the transition to PROCESSING. *)
Lemma wp_start ctx tx (Q : Transaction * error → W → Prop) w :
  Inv w → tx_Status tx = TxStatusPending → stored tx (ledger w) →
  (∀ r w', Inv w' → frame w w' →
    match r with
    | (tx', None) => tx' = set_Status TxStatusProcessing tx ∧
        ∃ te, ledger w' = processing tx te (ledger w)
    | (tx', Some _) => tx' = tx ∧ ¬ clean_run env ctx ∧ ∃ st evs obs,
        (st = TxStatusPending ∨ st = TxStatusProcessing) ∧
        ledger w' = wrote (set_Status st tx) evs obs (ledger w)
    end → Q r w') →
  wp (transition env s ctx tx TxStatusProcessing) Q w.
Proof.
  intros HInv Hp Hst HQ. apply wp_transition; [done..|]. intros tx' e w1 HI Hf He.
  apply HQ; [done | done |]. rewrite Hp in He. destruct e as [e|].
  - destruct He as (-> & Hh & Hwhy). apply half_moved_wrote in Hh; [|done].
    split; [done|]. destruct Hwhy as [Hc|[? _]]; [split; [exact Hc | exact Hh] | done].
  - destruct He as (_ & -> & te & t & HL). split; [done|]. exists te. rewrite HL.
    unfold processing. by destruct (s_outbox s).
Qed.

(** The transition to FAILED after the bank call. *)
Lemma wp_fail ctx tx te L (Q : Transaction * error → W → Prop) w :
  Inv w → tx_Status tx = TxStatusPending → ledger w = processing tx te L →
  (∀ r w', Inv w' → frame w w' →
    match r with
    | (tx', None) => tx' = set_Status TxStatusFailed tx ∧
        ∃ te' t, ledger w' = failed tx te te' t L
    | (tx', Some _) => tx' = set_Status TxStatusProcessing tx ∧ ¬ faultless ∧ ∃ st evs obs,
        (st = TxStatusProcessing ∨ st = TxStatusFailed) ∧
        ledger w' = wrote (set_Status st tx) evs obs L
    end → Q r w') →
  wp (transition env s (postBankContext (Some ctx)) (set_Status TxStatusProcessing tx)
        TxStatusFailed) Q w.
Proof.
  intros HInv Hp HL HQ. apply wp_transition; [done | |].
  { rewrite HL. apply (stored_wrote (set_Status TxStatusProcessing tx)). }
  intros tx' e w1 HI Hf He. apply HQ; [done | done |]. rewrite HL in He. unfold processing in He.
  destruct e as [e|].
  - destruct He as (-> & (st & evs & obs & Hst & HL1) & Hwhy). split; [done|].
    destruct Hwhy as [Hc|[? _]]; [|done]. split; [by apply post_bank_unclean in Hc|].
    rewrite wrote_wrote in HL1 by done. exists st. do 2 eexists.
    split; [|exact HL1]. destruct Hst as [->|[-> _]]; auto.
  - destruct He as (_ & -> & te' & t & HL1). split; [done|]. exists te', t.
    rewrite HL1, wrote_wrote by done. done.
Qed.

Lemma completed_processing tx m te te' t ob L :
  completed (set_Status TxStatusProcessing tx) m te' t ob (processing tx te L) =
  credited (tx_MerchantID tx) m (tx_AmountCents tx)
    (wrote (set_Status TxStatusCompleted tx)
      [status_event tx TxStatusProcessing te;
       status_event (set_Status TxStatusProcessing tx) TxStatusCompleted te']
      (if ob then status_entry tx TxStatusCompleted t else []) L).
Proof. unfold completed, processing. by rewrite wrote_wrote. Qed.

Lemma payment_unmoved ctx alive tx m L e :
  tx_Status tx = TxStatusPending → stored tx L → ¬ clean_run env ctx →
  payment ctx alive tx m L 0 (tx, Some e) L.
Proof.
  intros Hp Hst Hc.
  pose proof (payment_interrupted ctx alive tx m L e _ [] [] Hc (or_introl eq_refl)) as H.
  replace (set_Status TxStatusPending tx) with tx in H by (by rewrite <- Hp, set_Status_id).
  by rewrite wrote_same in H.
Qed.

(** After the bank has refused. *)
Lemma wp_refused ctx (alive : Prop) tx m te L k e w :
  Inv w → tx_Status tx = TxStatusPending → ledger w = processing tx te L → ¬ alive →
  wp (let! r := transition env s (postBankContext (Some ctx)) (set_Status TxStatusProcessing tx) TxStatusFailed in
      match r with
      | (tx, Some transitionErr) => ret (tx, Some (Join e (Errorf "set failed status: " transitionErr)))
      | (tx, None) => ret (tx, Some e)
      end) (λ r w', Inv w' ∧ frame w w' ∧ payment ctx alive tx m L k r (ledger w')) w.
Proof.
  intros HI Hp HL Ha. apply wp_bind, (wp_fail ctx tx te L); [done..|]. intros [t2 [e2|]] w5 HI5 Hf5 Hpost.
  - destruct Hpost as (-> & Hc & st & evs & obs & Hst' & HL5).
    apply wp_ret. split_and!; [done..|]. rewrite HL5. by apply payment_fault.
  - destruct Hpost as (-> & te' & t & HL5).
    apply wp_ret. split_and!; [done..|]. rewrite HL5. by apply payment_failed.
Qed.

(** After the bank has approved. *)
Lemma wp_approved ctx (alive : Prop) tx m te L k w :
  Inv w → l_merchants L !! tx_MerchantID tx = Some m → ledger w = processing tx te L → (0 < k)%nat → approved tx →
  wp (completePayment env s (postBankContext (Some ctx)) (set_Status TxStatusProcessing tx))
    (λ r w', Inv w' ∧ frame w w' ∧ payment ctx alive tx m L k r (ledger w')) w.
Proof.
  intros HI Hm HL Hk Happ. set (tx' := set_Status TxStatusProcessing tx).
  apply (wp_completePayment _ tx' m); [done | rewrite HL; apply (stored_wrote tx') | done | by rewrite HL |].
  intros t2 e2 w5 HI5 Hf5 Hpost. rewrite HL in Hpost. split_and!; [done..|]. destruct e2 as [e2|].
  - destruct Hpost as [-> [[HL5 Ho]|[(Hc & Hdb & [HL5|(te' & t & HL5)])|(Hc & Hdb & Hh)]]].
    + rewrite HL5. by apply payment_overflow.
    + rewrite HL5. apply payment_fault; [by apply post_bank_unclean in Hc | by left].
    + rewrite HL5. unfold tx'. rewrite completed_processing.
      apply payment_unacknowledged; try done. by apply post_bank_unclean in Hc.
    + destruct Hh as (st & evs & obs & d & Hst' & Hd & HL5). rewrite HL5.
      unfold processing. rewrite wrote_wrote by done.
      apply (payment_half_credited _ _ tx); try done. by apply post_bank_unclean in Hc.
  - destruct Hpost as (-> & te' & t & HL5). rewrite HL5. unfold tx'. rewrite completed_processing.
    exact (payment_completed _ _ tx m L k te te' t Hk Happ).
Qed.

(** The bank approves only what it was asked, the stored transaction. *)
Lemma approves_stored tx te L w :
  ledger w = processing tx te L → approves s (charge_request tx) w → approved tx.
Proof.
  intros HL (c & j & wa & resp & wb & (Hra1 & Hra2 & _) & Hrun). exists c, wa, resp, wb. split_and!; [done| |].
  - unfold ledger. rewrite Hra1. change (stored (set_Status TxStatusProcessing tx) (ledger w)).
    rewrite HL. apply stored_wrote.
  - rewrite Hra2, replicate_S_end, (assoc_L (++)). apply last_snoc.
Qed.

Lemma wp_processPayment ctx tx m w :
  service_ok s → Inv w → tx_Status tx = TxStatusPending → stored tx (ledger w) →
  l_merchants (ledger w) !! tx_MerchantID tx = Some m →
  wp (processPayment env s ctx tx) (λ r w', Inv w' ∧ (w_step w ≤ w_step w')%nat ∧ ∃ k, charges (charge_request tx) w k w' ∧
    payment ctx (live ctx (charge_request tx) w) tx m (ledger w) k r (ledger w')) w.
Proof.
  intros Hs HInv Hp Hst Hm. unfold processPayment.
  apply wp_bind, (wp_contextError_Inv env _ _ _ HInv). intros e w1 HI1 Hf1 HL1 Hc1. destruct e as [e|].
  { apply wp_ret. split_and!; [done | by apply frame_step |].
    exists 0%nat. split; [by apply charges_none|]. rewrite HL1. apply payment_unmoved; [done..|naive_solver]. }
  apply wp_bind, wp_start; [done | done | by rewrite HL1 |]. rewrite HL1.
  intros [tx' [e|]] w2 HI2 Hf2 Hpost.
  { destruct Hpost as (-> & Hc & st & evs & obs & Hst' & HL2).
    assert (frame w w2) by fr. apply wp_ret. split_and!; [done | by apply frame_step |].
    exists 0%nat. split; [by apply charges_none|]. cbv beta. rewrite HL2. by apply payment_interrupted. }
  destruct Hpost as (-> & te & HL2).
  apply wp_bind, wp_now_at. intros n w3 Hf3 [HI3 HL3]%same_repo_Inv; [|done]. rewrite HL2 in HL3.
  assert (frame w w3) as (Hcb & Hcw & Hsw) by fr. apply wp_bind. wp_use (wp_callBank env s ctx
    (bankCallContext ctx (env_now env n) (s_bankTimeout s)) (set_Status TxStatusProcessing tx) w3 Hs).
  change (charge_request (set_Status TxStatusProcessing tx)) with (charge_request tx).
  set (q := charge_request tx). intros e w4 (k & Hk & (Hr4 & Hc4 & Hst4) & Ha & Hl).
  destruct (same_repo_Inv _ _ Hr4 HI3) as [HI4 HL4]. rewrite HL3 in HL4.
  assert (∀ r w', Inv w' ∧ frame w4 w' ∧ payment ctx (live ctx q w) tx m (ledger w) k r (ledger w') →
    Inv w' ∧ (w_step w ≤ w_step w')%nat ∧ ∃ k, charges q w k w' ∧
      payment ctx (live ctx q w) tx m (ledger w) k r (ledger w')) as Hend.
  { intros r w' (HI' & (_ & Hc & ?) & Hpay). split_and!; [done | lia |]. exists k.
    split; [|done]. split; [|done]. by rewrite Hc, Hc4, Hcw. }
  destruct e as [e|]; (eapply wp_mono; [|exact Hend]).
  - apply (wp_refused ctx _ tx m te); [done..|]. intros [Hcl Hd Hb]. discriminate Hl.
    split; [by rewrite Hcb | done | done].
  - destruct (Ha eq_refl) as [Happ Hk0]. apply (wp_approved ctx _ tx m te); [done..|].
    exact (approves_stored _ _ _ _ HL3 Happ).
Qed.

(** ** Creation *)

(** The error a request gets from the checks on the merchant and the fields. *)
Definition refusal (input : CreateTransactionInput) (om : option Merchant) : error :=
  match om with
  | None => Some ErrMerchantNotFound
  | Some m =>
    if negb (bool_decide (m_Status m = MerchantActive)) then Some ErrMerchantInactive
    else if bool_decide (in_AmountCents input ≤ 0) then Some ErrInvalidAmount
    else if bool_decide (s_maxTransactionCents s < in_AmountCents input) then
      Some ErrAmountExceedsLimit
    else if bool_decide (in_Currency input ∈ ["CAD"; "USD"]) then None
    else Some ErrInvalidCurrency
  end.

Definition key_unused (key : string) (L : Ledger) : Prop :=
  key = "" ∨ ∀ id t, l_txns L !! id = Some t → tx_IdempotencyKey t ≠ key.

Definition new_txn (input : CreateTransactionInput) (id : string) (t : Z) : Transaction :=
  mkTransaction id (in_MerchantID input) (in_AmountCents input) (in_Currency input)
    TxStatusPending (in_IdempotencyKey input) (in_Description input) None t t.

(** The outcomes of [CreateTransaction] after [k] charges [q]; [n] is the step
    at which the id was drawn. *)
Inductive creation (ctx : Ctx) (alive : BankChargeRequest → Prop) (input : CreateTransactionInput)
    (L : Ledger)
  : option string → BankChargeRequest → nat → option Transaction * error → Ledger → Prop :=
| creation_refused e q :
    key_unused (in_IdempotencyKey input) L →
    refusal input (l_merchants L !! in_MerchantID input) = Some e →
    creation ctx alive input L None q 0 (None, Some e) L
| creation_interrupted e q :
    ¬ clean_run env ctx → creation ctx alive input L None q 0 (None, Some e) L
| creation_replayed t q :
    in_IdempotencyKey input ≠ "" → tx_IdempotencyKey t = in_IdempotencyKey input →
    stored t L → matchesIdempotentRequest (Some t) input = true →
    creation ctx alive input L None q 0 (Some t, None) L
| creation_conflict t q :
    in_IdempotencyKey input ≠ "" → tx_IdempotencyKey t = in_IdempotencyKey input →
    stored t L → matchesIdempotentRequest (Some t) input = false →
    creation ctx alive input L None q 0 (None, Some (Wrap "" ErrDuplicateTransaction
      ": idempotency key reused with different request")) L
| creation_unsaved e id t evs obs q :
    ¬ clean_run env ctx → key_unused (in_IdempotencyKey input) L →
    (s_db s = true → wrote (new_txn input id t) evs obs L = created (new_txn input id t) true L) →
    creation ctx alive input L (Some id) q 0 (None, Some e) (wrote (new_txn input id t) evs obs L)
| creation_processed id t m k r L' :
    key_unused (in_IdempotencyKey input) L →
    l_merchants L !! in_MerchantID input = Some m → refusal input (Some m) = None →
    payment ctx (alive (charge_request (new_txn input id t))) (new_txn input id t) m
      (created (new_txn input id t) (s_db s || s_outbox s) L) k r L' →
    creation ctx alive input L (Some id) (charge_request (new_txn input id t)) k (Some r.1, r.2) L'.

Lemma payment_alive ctx (alive alive' : Prop) tx m L k r L' :
  (alive' → alive) → payment ctx alive tx m L k r L' → payment ctx alive' tx m L k r L'.
Proof.
  intros Ha [ | | | | | |]; [by apply payment_completed | apply payment_failed; tauto |
    by apply payment_overflow | by apply payment_interrupted | by apply payment_fault |
    by apply payment_unacknowledged | by apply payment_half_credited].
Qed.

(** The ids that will be drawn from the world [w] on are not in use. *)
Definition fresh_ids w : Prop :=
  ∀ n, (w_step w ≤ n)%nat → l_txns (ledger w) !! generateTransactionID env n = None.

(** Saving the record, with or without a database. *)
Lemma wp_save ctx tx (Q : error → W → Prop) w :
  Inv w → insertable tx (ledger w) →
  (∀ e w', Inv w' → frame w w' →
    match e with
    | None => ledger w' = created tx (s_db s || s_outbox s) (ledger w)
    | Some _ => ¬ clean_run env ctx ∧
        (ledger w' = ledger w ∨ ∃ evs obs, ledger w' = wrote tx evs obs (ledger w) ∧
           (s_db s = true → wrote tx evs obs (ledger w) = created tx true (ledger w)))
    end → Q e w') →
  wp (if s_db s then createInDBTransaction env ctx tx else createWithMocks env s ctx tx) Q w.
Proof.
  intros HInv Hins HQ. destruct (s_db s) eqn:Edb.
  - apply wp_createInDBTransaction; [done..|]. intros e w' HI Hf He. apply HQ; [done..|].
    destruct e as [e|]; [|exact He]. destruct He as [Hc [HL|HL]]; (split; [exact Hc|]); [by left|].
    right. do 2 eexists. split; [exact HL | done].
  - apply wp_createWithMocks; [done..|]. intros e w' HI Hf He. apply HQ; [done..|].
    destruct e as [e|]; [|exact He].
    destruct He as [Hc [HL|(evs & obs & HL)]]; (split; [exact Hc|]); [by left|].
    right. exists evs, obs. split; [exact HL | done].
Qed.

Definition created_post ctx input w (r : option Transaction * error) w' : Prop :=
  Inv w' ∧ (w_step w ≤ w_step w')%nat ∧ ∃ o q k,
    (∀ id, o = Some id → ∃ n, (w_step w ≤ n < w_step w')%nat ∧ id = generateTransactionID env n) ∧
    charges q w k w' ∧
    creation ctx (λ q, live ctx q w) input (ledger w) o q k r (ledger w').

Lemma created_post_frame ctx input w v r w' :
  frame w v → ledger v = ledger w → created_post ctx input v r w' → created_post ctx input w r w'.
Proof.
  intros (Hcb & Hc & Hst) HL (HI & Hle & o & q & k & Hid & [Hch Hk] & Hcr).
  split_and!; [done | lia |]. exists o, q, k. split_and!.
  - intros id Ho. destruct (Hid id Ho) as (n & ? & ->). exists n. split; [lia | done].
  - split; [by rewrite Hch, Hc | done].
  - rewrite HL in Hcr. destruct Hcr; try by econstructor. apply (creation_processed _ _ _ _ _ _ m); try done.
    eapply payment_alive; [|done]. intros [? ? ?]. split; [by rewrite Hcb | done..].
Qed.

Lemma created_post_idle ctx input w w' r :
  Inv w' → frame w w' →
  (∀ q, creation ctx (λ q, live ctx q w) input (ledger w) None q 0 r (ledger w')) →
  created_post ctx input w r w'.
Proof.
  intros HI (_ & Hc & Hst) Hcr. split_and!; [done..|].
  exists None, (mkBankChargeRequest "" "" 0 ""), 0%nat. split_and!; [done| |done].
  split; [by rewrite Hc, app_nil_r|]. unfold retry_attempts.
  destruct (Z.leb_spec (MaxAttempts (s_retry s)) 0); lia.
Qed.

Lemma checks_refusal {A} (ko : goerror → A) (ok : A) m input :
  (if negb (IsActive m) then ko ErrMerchantInactive
   else if in_AmountCents input <=? 0 then ko ErrInvalidAmount
   else if s_maxTransactionCents s <? in_AmountCents input then ko ErrAmountExceedsLimit
   else if negb (bool_decide (in_Currency input = "CAD")) &&
           negb (bool_decide (in_Currency input = "USD")) then ko ErrInvalidCurrency
   else ok) =
  match refusal input (Some (norm_merchant m)) with Some e => ko e | None => ok end.
Proof.
  unfold refusal, IsActive. change (m_Status (norm_merchant m)) with (m_Status m).
  destruct (negb _); [done|].
  rewrite (bool_decide_ext (in_AmountCents input ≤ 0) ((in_AmountCents input <=? 0) = true)) by lia.
  rewrite (bool_decide_ext (s_maxTransactionCents s < in_AmountCents input)
    ((s_maxTransactionCents s <? in_AmountCents input) = true)) by lia.
  destruct (_ <=? 0); simpl; [done|]. destruct (_ <? _); simpl; [done|].
  rewrite (bool_decide_ext (_ ∈ _) (in_Currency input = "CAD" ∨ in_Currency input = "USD"))
    by set_solver.
  rewrite bool_decide_or. by destruct (bool_decide (_ = "CAD")), (bool_decide (_ = "USD")).
Qed.

Lemma refusal_None input m :
  refusal input (Some m) = None →
  0 < in_AmountCents input ∧ (in_Currency input = "CAD" ∨ in_Currency input = "USD").
Proof.
  unfold refusal. intros H. repeat (case_bool_decide; simplify_eq/=); try done.
  split; [lia | set_solver].
Qed.

Lemma new_insertable input id t L m :
  refusal input (Some m) = None → l_merchants L !! in_MerchantID input = Some m →
  in_int64 (in_AmountCents input) → key_unused (in_IdempotencyKey input) L →
  l_txns L !! id = None → insertable (new_txn input id t) L.
Proof.
  intros [? ?]%refusal_None Hm Ham Hk Hid. split; simpl; [done | done | by eexists | int64 | done |].
  unfold valid_status, statuses. set_solver.
Qed.

(** Saving the record under a fresh id, and paying. *)
Lemma wp_save_and_process ctx input m n t w v :
  service_ok s → Inv v → frame w v → ledger v = ledger w → (w_step w ≤ n < w_step v)%nat →
  l_txns (ledger w) !! generateTransactionID env n = None → in_int64 (in_AmountCents input) →
  key_unused (in_IdempotencyKey input) (ledger w) → refusal input (Some m) = None →
  l_merchants (ledger w) !! in_MerchantID input = Some m →
  let tx := new_txn input (generateTransactionID env n) t in
  wp (check! if s_db s then createInDBTransaction env ctx tx else createWithMocks env s ctx tx or err =>
        ret (None, Some err);
      let! r := processPayment env s ctx tx in ret (Some r.1, r.2)) (created_post ctx input w) v.
Proof.
  intros Hs HI Hf HL Hn Hfresh Ham Hkey Eref Ha. cbv zeta. set (id := generateTransactionID env n) in *.
  assert (∀ w' i, (w_step v ≤ w_step w')%nat → Some id = Some i → ∃ n',
    (w_step w ≤ n' < w_step w')%nat ∧ i = generateTransactionID env n') as Hid.
  { intros w' i Hle [= <-]. exists n. split; [lia | done]. }
  apply wp_bind, wp_save; [done | |].
  { rewrite HL. by apply (new_insertable _ _ _ _ m). }
  rewrite HL. intros e w4 HI4 Hf4 He. assert (frame w w4) as Hfw4 by fr. destruct e as [e|].
  { apply wp_ret. destruct He as [Hc [HL4|(evs & obs & HL4 & Hdb)]].
    - apply created_post_idle; [done..|]. intros q. rewrite HL4. by apply creation_interrupted.
    - split_and!; [done | by destruct Hfw4 as (?&?&?) |].
      exists (Some id), (mkBankChargeRequest "" "" 0 ""), 0%nat. split_and!.
      + intros i. apply Hid. by destruct Hf4 as (?&?&?).
      + by apply charges_none.
      + rewrite HL4. by apply creation_unsaved. }
  apply wp_bind. wp_use (wp_processPayment ctx (new_txn input id t) m); [done..| | |].
  { rewrite He. apply stored_wrote. }
  { rewrite He. exact Ha. }
  intros [tx' e] w5 (HI5 & Hst5 & k & Hch & Hpay). apply wp_ret.
  destruct Hfw4 as (Hcb4 & Hcw4 & ?). destruct Hf4 as (_ & _ & ?). split_and!; [done | lia |].
  exists (Some id), (charge_request (new_txn input id t)), k. split_and!.
  - intros i. apply Hid. lia.
  - destruct Hch as [Hch ?]. split; [|done]. by rewrite Hch, Hcw4.
  - apply (creation_processed _ _ _ _ _ _ m k (tx', e)); [done..|].
    rewrite <- He. eapply payment_alive; [|exact Hpay].
    intros [Hcb ? ?]. split; [|done..]. by rewrite Hcb4.
Qed.

Lemma wp_create_unused ctx input w :
  service_ok s → Inv w → fresh_ids w → in_int64 (in_AmountCents input) →
  key_unused (in_IdempotencyKey input) (ledger w) →
  wp (create_unused env s ctx input) (created_post ctx input w) w.
Proof.
  intros Hs HInv Hfresh Ham Hkey. unfold create_unused.
  apply wp_bind, (wp_merchant_GetByID env ctx w HInv). intros a w1 HI1 Hf1 HL1 Ha. destruct a as [m|e].
  2:{ apply wp_ret, created_post_idle; [done..|]. intros q. rewrite HL1.
      destruct Ha as [[Hm ->]|Hc]; [apply creation_refused; [done | by rewrite Hm] |
        by apply creation_interrupted]. }
  rewrite (checks_refusal (λ e, ret (None, Some e)) _ m input).
  destruct (refusal input (Some (norm_merchant m))) as [e|] eqn:Eref.
  { apply wp_ret, created_post_idle; [done..|]. intros q. rewrite HL1.
    apply creation_refused; [done | by rewrite Ha]. }
  apply wp_bind, (wp_now_Inv env _ _ HI1). intros t w2 HI2 Hf2 HL2. rewrite HL1 in HL2.
  apply wp_bind. unfold wp at 1. change (fresh_step w2) with (w_step w2, set_step (S (w_step w2)) w2).
  assert (frame w w2) as (Hcb & Hcw & Hst) by fr.
  apply (wp_save_and_process ctx input (norm_merchant m)); try done.
  - split_and!; simpl; [done | done | lia].
  - simpl. lia.
  - apply Hfresh. lia.
Qed.

Lemma wp_CreateTransaction ctx input w :
  service_ok s → Inv w → fresh_ids w → in_int64 (in_AmountCents input) →
  wp (CreateTransaction env s ctx input) (created_post ctx input w) w.
Proof.
  intros Hs HInv Hfresh Ham. unfold CreateTransaction.
  apply wp_bind, (wp_contextError_Inv env _ _ _ HInv). intros e w1 HI1 Hf1 HL1 Hc1.
  destruct e as [e|].
  { apply wp_ret, created_post_idle; [done..|]. intros q. rewrite HL1.
    apply creation_interrupted. naive_solver. }
  assert (∀ v, Inv v → frame w v → ledger v = ledger w → key_unused (in_IdempotencyKey input) (ledger w) →
    wp (create_unused env s ctx input) (created_post ctx input w) v) as Hun.
  { intros v HIv Hfv HLv Hk. wp_use (wp_create_unused ctx input v); [done | done | | done | by rewrite HLv |].
    - intros n Hn. rewrite HLv. apply Hfresh. destruct Hfv as (?&?&?). lia.
    - intros r w' H. by apply (created_post_frame ctx input w v). }
  case_bool_decide as Hkey; [apply Hun; [done..|by left]|].
  apply wp_bind, (wp_GetByIdempotencyKey env ctx w1 HI1); [done|]. rewrite HL1.
  intros [[t|]|e] w2 HI2 Hf2 HL2 Ha.
  - destruct Ha as [Hkt Ht].
    destruct (matchesIdempotentRequest (Some t) input) eqn:Em;
      (apply wp_ret, created_post_idle; [done | fr |]; intros q; rewrite HL2);
      [by apply creation_replayed | by apply (creation_conflict _ _ _ _ t)].
  - apply Hun; [done | fr | done | by right].
  - apply wp_ret, created_post_idle; [done | fr |]. intros q. rewrite HL2.
    by apply creation_interrupted.
Qed.

(** ** Refunds *)

Definition refund_entry (tx : Transaction) (reason : string) (t : Z) : list (string * RawMessage * Z) :=
  if s_db s then
    [("transaction.refunded",
      {[ "transaction_id" := JStr (tx_ID tx); "merchant_id" := JStr (tx_MerchantID tx);
         "amount_cents" := JInt (tx_AmountCents tx); "status" := JStr "REFUNDED";
         "reason" := JStr reason ]}, t)]
  else if s_outbox s then
    [("transaction.refunded",
      {[ "reason" := JStr reason ]} ∪ tx_payload (set_Status TxStatusRefunded tx), t)]
  else [].

Definition refunded (tx : Transaction) (m : Merchant) (reason : string) (te t : Z) (L : Ledger)
  : Ledger :=
  credited (tx_MerchantID tx) m (- tx_AmountCents tx)
    (wrote (set_Status TxStatusRefunded tx) [refund_event tx reason te] (refund_entry tx reason t) L).

(** The outcomes of refunding the completed [tx]; without a database
    transaction the status stays REFUNDED when the debit fails. *)
Inductive refund (ctx : Ctx) (tx : Transaction) (m : Merchant) (reason : string) (L : Ledger)
  : error → Ledger → Prop :=
| refund_done te t :
    tx_AmountCents tx ≤ m_BalanceCents m →
    refund ctx tx m reason L None (refunded tx m reason te t L)
| refund_insufficient :
    m_BalanceCents m < tx_AmountCents tx →
    refund ctx tx m reason L (Some ErrInsufficientFunds)
      (if s_db s then L else wrote (set_Status TxStatusRefunded tx) [] [] L)
| refund_failed e : ¬ clean_run env ctx → refund ctx tx m reason L (Some e) L
| refund_unacknowledged e te t :
    ¬ clean_run env ctx → s_db s = true → tx_AmountCents tx ≤ m_BalanceCents m →
    refund ctx tx m reason L (Some e) (refunded tx m reason te t L)
| refund_partial e evs obs d :
    ¬ clean_run env ctx → s_db s = false → d = 0 ∨ d = - tx_AmountCents tx →
    refund ctx tx m reason L (Some e)
      (credited (tx_MerchantID tx) m d (wrote (set_Status TxStatusRefunded tx) evs obs L)).

(** The status and the balance, the steps both refund paths share; [K] is the
    rest of the path. *)
Lemma wp_refund_money ctx tx m (K : Prog W error) (Q : error → W → Prop) w :
  Inv w → stored tx (ledger w) → l_merchants (ledger w) !! tx_MerchantID tx = Some m →
  (∀ e w', Inv w' → frame w w' →
    (m_BalanceCents m < tx_AmountCents tx ∧ e = ErrInsufficientFunds ∧
       ledger w' = wrote (set_Status TxStatusRefunded tx) [] [] (ledger w)) ∨
    (¬ clean_run env ctx ∧ (ledger w' = ledger w ∨ ∃ d, (d = 0 ∨ d = - tx_AmountCents tx) ∧
       ledger w' = credited (tx_MerchantID tx) m d
         (wrote (set_Status TxStatusRefunded tx) [] [] (ledger w)))) →
    Q (Some e) w') →
  (∀ w', Inv w' → frame w w' → tx_AmountCents tx ≤ m_BalanceCents m →
    ledger w' = credited (tx_MerchantID tx) m (- tx_AmountCents tx)
      (wrote (set_Status TxStatusRefunded tx) [] [] (ledger w)) → wp K Q w') →
  wp (check! repo env ctx (λ ci, txns_UpdateStatus ci (tx_ID tx) TxStatusRefunded) or err =>
        ret (Some err);
      check! repo env ctx (λ ci, merchants_UpdateBalance ci (tx_MerchantID tx)
        (neg64 (tx_AmountCents tx))) or err => ret (Some err);
      K) Q w.
Proof.
  intros HInv Hst Hm Herr HK. destruct (stored_facts _ _ HInv Hst) as [Ham _].
  destruct (ok_merchant _ (proj2 HInv) _ _ Hm) as [_ Hb].
  set (mid := tx_MerchantID tx) in *. set (a := tx_AmountCents tx) in *.
  assert (∀ L, l_merchants L = l_merchants (ledger w) → credited mid m 0 L = L) as H0.
  { intros L HL. apply credited_0. by rewrite HL. }
  apply wp_bind, (wp_UpdateStatus env ctx w HInv _ _ (norm_txn tx));
    [unfold valid_status, statuses; set_solver | exact Hst |].
  rewrite update_wrote. set (L1 := wrote _ [] [] (ledger w)) in *.
  intros e w1 HI1 Hf1 He. destruct e as [e|].
  { apply wp_ret, Herr; [done..|]. right. destruct He as [Hc [HL|HL]]; (split; [exact Hc|]);
      [by left | right]. exists 0. rewrite H0 by done. auto. }
  apply wp_bind, (wp_UpdateBalance env ctx w1 HI1 _ _ m); [rewrite neg64_id; int64 | by rewrite He |].
  rewrite neg64_id by lia. intros e w2 HI2 Hf2 b L' He2. subst b L'.
  change (put_merchant _ _ (ledger w1)) with (credited mid m (- a) (ledger w1)) in He2.
  rewrite He in He2. destruct e as [e|].
  - apply wp_ret, Herr; [done | fr |]. destruct He2 as [[HL [[? ->]|?]]|[Hc [HL|[_ HL]]]].
    + left. split_and!; [lia | done | exact HL].
    + lia.
    + right. split; [exact Hc|]. right. exists 0. rewrite H0 by done. auto.
    + right. split; [exact Hc|]. right. exists (- a). auto.
  - apply HK; [done | fr | lia | apply He2].
Qed.

Lemma wp_refundInDBTransaction ctx tx m reason w :
  Inv w → stored tx (ledger w) → l_merchants (ledger w) !! tx_MerchantID tx = Some m →
  s_db s = true →
  wp (refundInDBTransaction env ctx tx reason) (λ e w', Inv w' ∧ frame w w' ∧
    refund ctx tx m reason (ledger w) e (ledger w')) w.
Proof.
  intros HInv Hst Hm Hdb. unfold refundInDBTransaction.
  apply (wp_withTransaction env ctx _
    (λ L, tx_AmountCents tx ≤ m_BalanceCents m ∧ ∃ te t, L = refunded tx m reason te t (ledger w))
    (λ e, ¬ clean_run env ctx ∨ (m_BalanceCents m < tx_AmountCents tx ∧ e = ErrInsufficientFunds)));
    [done | |].
  2:{ intros e w' HI Hf He. split_and!; [done..|]. destruct e as [e|].
      - destruct He as [[-> [[?|[? ->]]|?]]|(Hc & ? & te & t & ->)];
          [by apply refund_failed | | by apply refund_failed | by apply refund_unacknowledged].
        pose proof (refund_insufficient ctx tx m reason (ledger w)) as Hin. rewrite Hdb in Hin. auto.
      - destruct He as (? & te & t & ->). by apply refund_done. }
  intros w1 HI1 Hf1 HL1. apply (wp_refund_money ctx tx m); rewrite ?HL1; [done..| |].
  { intros e w2 HI2 Hf2 He. split_and!; [done..|]. destruct He as [(? & -> & _)|[? _]]; auto. }
  intros w2 HI2 Hf2 Hle HL2. apply wp_bind, (wp_now_Inv env _ _ HI2). intros te w3 HI3 Hf3 HL3.
  apply wp_bind, (wp_event_Create env ctx w3 HI3).
  { rewrite HL3, HL2. eexists. apply (stored_wrote (set_Status TxStatusRefunded tx)). }
  intros e w4 HI4 Hf4 He4. rewrite HL3, HL2, credited_wrote, add_event_wrote in He4.
  destruct e as [e|].
  { apply wp_ret. split_and!; [done | fr | by left; apply He4]. }
  apply wp_bind, (wp_now_Inv env _ _ HI4). intros t w5 HI5 Hf5 HL5.
  apply (wp_outbox_Create env ctx w5 HI5). intros e w6 HI6 Hf6 He6.
  rewrite HL5, He4, add_outbox_wrote in He6. split_and!; [done | fr |].
  destruct e as [e|]; [by left; apply He6|]. split; [done|]. exists te, t. rewrite He6.
  unfold refunded, refund_entry. by rewrite Hdb, credited_wrote.
Qed.

Lemma wp_refundWithMocks ctx tx m reason w :
  Inv w → stored tx (ledger w) → l_merchants (ledger w) !! tx_MerchantID tx = Some m →
  s_db s = false →
  wp (refundWithMocks env s ctx tx reason) (λ e w', Inv w' ∧ frame w w' ∧
    refund ctx tx m reason (ledger w) e (ledger w')) w.
Proof.
  intros HInv Hst Hm Hdb. unfold refundWithMocks.
  assert (∀ e evs obs d, ¬ clean_run env ctx → d = 0 ∨ d = - tx_AmountCents tx →
    refund ctx tx m reason (ledger w) (Some e)
      (credited (tx_MerchantID tx) m d (wrote (set_Status TxStatusRefunded tx) evs obs (ledger w))))
    as Hpart by (intros; by apply refund_partial).
  apply (wp_refund_money ctx tx m); [done..| |].
  { intros e w1 HI1 Hf1 He. split_and!; [done..|].
    destruct He as [(? & -> & HL)|[Hc [HL|(d & Hd & HL)]]]; rewrite HL.
    - pose proof (refund_insufficient ctx tx m reason (ledger w)) as Hin. rewrite Hdb in Hin. auto.
    - by apply refund_failed.
    - by apply Hpart. }
  intros w2 HI2 Hf2 Hle HL2. apply wp_bind, (wp_now_Inv env _ _ HI2). intros te w3 HI3 Hf3 HL3.
  apply wp_bind, (wp_event_Create env ctx w3 HI3).
  { rewrite HL3, HL2. eexists. apply (stored_wrote (set_Status TxStatusRefunded tx)). }
  intros e w4 HI4 Hf4 He4. rewrite HL3, HL2, credited_wrote, add_event_wrote in He4.
  rewrite <- !credited_wrote in He4. destruct e as [e|].
  { apply wp_ret. split_and!; [done | fr |].
    destruct He4 as [Hc [HL|HL]]; rewrite HL; apply Hpart; auto. }
  apply wp_bind, (wp_now_Inv env _ _ HI4). intros t w5 HI5 Hf5 HL5.
  apply wp_emit; [done|]. intros e w6 HI6 Hf6 o He6. subst o.
  rewrite HL5, He4, credited_wrote, add_outbox_wrote in He6. rewrite <- !credited_wrote in He6.
  split_and!; [done | fr |]. destruct e as [e|].
  { destruct He6 as [Hc [HL|HL]]; rewrite HL; apply Hpart; auto. }
  rewrite He6. pose proof (refund_done ctx tx m reason (ledger w) te t Hle) as H.
  unfold refunded, refund_entry in H. rewrite Hdb in H. by destruct (s_outbox s).
Qed.

Inductive refunding (ctx : Ctx) (mid txID reason : string) (L : Ledger)
  : option Transaction * error → Ledger → Prop :=
| refunding_interrupted e :
    ¬ clean_run env ctx → refunding ctx mid txID reason L (None, Some e) L
| refunding_missing :
    (∀ t, l_txns L !! txID = Some t → tx_MerchantID t ≠ mid) →
    refunding ctx mid txID reason L (None, Some ErrTransactionNotFound) L
| refunding_refused t :
    l_txns L !! txID = Some t → tx_MerchantID t = mid → tx_Status t ≠ TxStatusCompleted →
    refunding ctx mid txID reason L (None, Some (cannot_refund (tx_Status t))) L
| refunding_tried tx m e L' :
    tx_ID tx = txID → stored tx L → tx_MerchantID tx = mid → tx_Status tx = TxStatusCompleted →
    l_merchants L !! mid = Some m → refund ctx tx m reason L e L' →
    refunding ctx mid txID reason L
      (match e with None => Some (set_Status TxStatusRefunded tx) | Some _ => None end, e) L'.

Lemma wp_ownedTransaction ctx mid txID w (Q : result goerror Transaction → W → Prop) :
  Inv w →
  (∀ a w', Inv w' → frame w w' → ledger w' = ledger w →
    match a with
    | Ok t => tx_ID t = txID ∧ stored t (ledger w) ∧ tx_MerchantID t = mid
    | Err e => ¬ clean_run env ctx ∨ (e = ErrTransactionNotFound ∧
        ∀ t, l_txns (ledger w) !! txID = Some t → tx_MerchantID t ≠ mid)
    end → Q a w') →
  wp (ownedTransaction env ctx mid txID) Q w.
Proof.
  intros HInv HQ. unfold ownedTransaction.
  apply wp_bind, (wp_txn_GetByID env ctx w HInv). intros [t|e] w1 HI1 Hf1 HL1 Ha.
  - destruct (ok_txn _ (proj2 HInv) _ _ Ha) as (Hid & _). simpl in Hid.
    case_bool_decide as Hmid; (apply wp_ret, HQ; [done..|]).
    + split_and!; [done | by unfold stored; rewrite Hid | done].
    + right. split; [done|]. rewrite Ha. by intros ? [= <-].
  - apply wp_ret, HQ; [done..|]. destruct Ha as [[Hn ->]|?]; [right | by left].
    split; [done|]. by rewrite Hn.
Qed.

Lemma CanTransition_refund st :
  valid_status st → CanTransition st TxStatusRefunded = bool_decide (st = TxStatusCompleted).
Proof.
  unfold valid_status, statuses. intros H.
  repeat (apply elem_of_cons in H as [->|H]; [by vm_compute|]). by apply elem_of_nil in H.
Qed.

Lemma wp_RefundTransaction ctx mid txID reason w :
  Inv w →
  wp (RefundTransaction env s ctx mid txID reason) (λ r w', Inv w' ∧ frame w w' ∧
    refunding ctx mid txID reason (ledger w) r (ledger w')) w.
Proof.
  intros HInv. unfold RefundTransaction.
  apply wp_bind, (wp_contextError_Inv env _ _ _ HInv). intros e w1 HI1 Hf1 HL1 Hc1.
  destruct e as [e|].
  { apply wp_ret. split_and!; [done..|]. rewrite HL1. apply refunding_interrupted. naive_solver. }
  apply wp_bind, wp_ownedTransaction; [done|]. rewrite HL1. intros a w2 HI2 Hf2 HL2 Ha.
  destruct a as [tx|e].
  2:{ apply wp_ret. split_and!; [done | fr |]. rewrite HL2.
      destruct Ha as [?|[-> ?]]; [by apply refunding_interrupted | by apply refunding_missing]. }
  destruct Ha as (Hid & Hst & Hmid).
  destruct (ok_txn _ (proj2 HInv) _ _ Hst) as (_ & _ & [m Hm] & Hval).
  simpl in Hm, Hval. rewrite CanTransition_refund by done.
  case_bool_decide as Hcomp.
  2:{ apply wp_ret. split_and!; [done | fr |]. rewrite HL2.
      apply (refunding_refused _ _ _ _ _ (norm_txn tx)); [by rewrite <- Hid | done..]. }
  cbn [negb]. apply wp_bind.
  eapply (wp_mono _ (λ e w', Inv w' ∧ frame w2 w' ∧ refund ctx tx m reason (ledger w) e (ledger w'))).
  { rewrite <- HL2 in *. destruct (s_db s) eqn:Edb;
      [by apply wp_refundInDBTransaction | by apply wp_refundWithMocks]. }
  intros e w3 (HI3 & Hf3 & Hr).
  destruct e as [e|]; apply wp_ret; (split_and!; [done | fr |]);
    eapply (refunding_tried _ _ _ _ _ tx m (Some e)) || eapply (refunding_tried _ _ _ _ _ tx m None);
    try done; by rewrite <- Hmid.
Qed.
End outcome.
