(* ===== verification/PaymentTheorems.v ===== *)
(** * PaymentTheorems: what the payment service guarantees

    Consequences of the abstract specification, for one request and for any
    sequence of requests. *)

From stdpp Require Import base tactics list gmap strings.
From S2P Require Import Prelude GoLib Domain Repository Resilience Bank Payment Accounting PaymentLogic PaymentSpecs PaymentOutcome.

Open Scope string_scope.
Open Scope Z_scope.

(** ** Footprints *)

(** Only the balance of [mid] and transactions of [mid] changed. *)
Record footprint (mid : string) (L L' : Ledger) : Prop := {
  fp_merchants i : i ≠ mid → l_merchants L' !! i = l_merchants L !! i;
  fp_txns id t : tx_MerchantID t ≠ mid → l_txns L' !! id = Some t ↔ l_txns L !! id = Some t
}.

(** [L'] differs from [L] by the row of [tx], the balance of its merchant and
    entries. *)
Definition touched (tx : Transaction) (L L' : Ledger) : Prop :=
  ∃ st, l_txns L' = <[tx_ID tx := norm_txn (set_Status st tx)]> (l_txns L) ∧
    ∀ i, i ≠ tx_MerchantID tx → l_merchants L' !! i = l_merchants L !! i.

Lemma touched_wrote tx st evs obs L : touched tx L (wrote (set_Status st tx) evs obs L).
Proof. by exists st. Qed.

Lemma touched_wrote_same tx evs obs L : touched tx L (wrote tx evs obs L).
Proof. exists (tx_Status tx). by rewrite set_Status_id. Qed.

Lemma touched_credited tx m d L L' :
  touched tx L L' → touched tx L (credited (tx_MerchantID tx) m d L').
Proof.
  intros (st & Ht & Hm). exists st. split; [done|]. intros i Hi. simpl.
  by rewrite lookup_insert_ne, Hm.
Qed.

Lemma touched_trans tx st L0 L L' :
  l_txns L = <[tx_ID tx := norm_txn (set_Status st tx)]> (l_txns L0) →
  l_merchants L = l_merchants L0 → touched tx L L' → touched tx L0 L'.
Proof.
  intros Ht Hm (st' & Ht' & Hm'). exists st'. split; [by rewrite Ht', Ht, insert_insert_eq|].
  intros i Hi. by rewrite Hm', Hm.
Qed.

Lemma touched_footprint tx L L' :
  (∀ t, l_txns L !! tx_ID tx = Some t → tx_MerchantID t = tx_MerchantID tx) →
  touched tx L L' → footprint (tx_MerchantID tx) L L'.
Proof.
  intros Hold (st & Ht & Hm). split; [done|]. intros id t Hne. rewrite Ht.
  destruct (decide (id = tx_ID tx)) as [->|]; [|by rewrite lookup_insert_ne].
  rewrite lookup_insert_eq. split.
  - intros [= <-]. done.
  - intros Hl. by rewrite Hold in Hne.
Qed.

#[export] Hint Resolve touched_wrote touched_wrote_same touched_credited : ledger.

Section theorems.
Context {R : Type} `{!MerchantRepository R, !TransactionRepository R,
  !EventRepository R, !OutboxRepository R, !Database R,
  !RepositoryLaws R, !DatabaseLaws R}.
Variable env : Env.
Variable s : PaymentService R.
Abbreviation W := (World R).
Implicit Types w : W.

Lemma payment_touched ctx alive tx m L k r L' : payment env s ctx alive tx m L k r L' → touched tx L L'.
Proof.
  destruct 1; unfold paid, failed, processing; auto with ledger.
Qed.

Lemma creation_touched ctx alive input L o q k r L' :
  creation env s ctx alive input L o q k r L' →
  match o with
  | None => L' = L
  | Some id => ∃ t, touched (new_txn input id t) L L'
  end.
Proof.
  destruct 1; try done.
  - exists t. auto with ledger.
  - exists t. apply payment_touched in H2. eapply touched_trans; [..|exact H2]; [|done].
    instantiate (1 := TxStatusPending). done.
Qed.

Lemma refund_touched ctx tx m reason L e L' :
  stored tx L → refund env s ctx tx m reason L e L' → touched tx L L'.
Proof.
  intros Hst. assert (touched tx L L) as Hrefl.
  { rewrite <- (wrote_same tx L Hst) at 2. auto with ledger. }
  destruct 1; unfold refunded; auto with ledger. case_match; auto with ledger.
Qed.

(** ** Money *)

Lemma money_wrote tx evs obs L :
  tx_Status tx ≠ TxStatusCompleted →
  (∀ t, l_txns L !! tx_ID tx = Some t → tx_Status t ≠ TxStatusCompleted) →
  money_eq (wrote tx evs obs L) L.
Proof. intros Hst Hold. by eapply (money_pending L _ (tx_ID tx) (norm_txn tx)). Qed.

Lemma money_credited tx st m d evs obs L :
  stored tx L → l_merchants L !! tx_MerchantID tx = Some m →
  contrib (tx_MerchantID tx) (set_Status st tx) = contrib (tx_MerchantID tx) tx + d →
  money_eq (credited (tx_MerchantID tx) m d (wrote (set_Status st tx) evs obs L)) L.
Proof.
  intros Hst Hm Hd.
  by eapply (money_move L _ (tx_ID tx) (norm_txn tx) (norm_txn (set_Status st tx)) m d).
Qed.

Lemma money_paid tx m te te' t L :
  tx_Status tx = TxStatusPending → stored tx L → l_merchants L !! tx_MerchantID tx = Some m →
  money_eq (paid s tx m te te' t L) L.
Proof.
  intros Hp Hst Hm. apply money_credited; [done..|].
  etrans; [exact (contrib_completed (set_Status TxStatusCompleted tx) eq_refl)|].
  rewrite contrib_not_completed by (by rewrite Hp). done.
Qed.

Lemma payment_money ctx alive tx m L k r L' :
  s_db s = true → tx_Status tx = TxStatusPending → stored tx L →
  l_merchants L !! tx_MerchantID tx = Some m →
  payment env s ctx alive tx m L k r L' → money_eq L' L.
Proof.
  intros Hdb Hp Hst Hm Hpay.
  assert (∀ t, l_txns L !! tx_ID tx = Some t → tx_Status t ≠ TxStatusCompleted) as Hold.
  { rewrite Hst. intros t [= <-]. simpl. by rewrite Hp. }
  destruct Hpay; unfold failed, processing.
  1,6: by apply money_paid.
  1-4: apply (money_wrote (set_Status _ tx)); [|done].
  1,2: done.
  1,2: by destruct H0 as [-> | ->].
  congruence.
Qed.

Lemma creation_money ctx alive input L o q k r L' :
  s_db s = true → (∀ id, o = Some id → l_txns L !! id = None) →
  creation env s ctx alive input L o q k r L' → money_eq L' L.
Proof.
  intros Hdb Hid Hc.
  assert (∀ id t evs obs, o = Some id → money_eq (wrote (new_txn input id t) evs obs L) L) as Hw.
  { intros id t evs obs Ho. apply money_wrote; [done|]. simpl. by rewrite (Hid id Ho). }
  destruct Hc as [| | | | |id t m k [tx' e] L' Hk Hm Href Hpay]; try done; [by apply Hw|].
  transitivity (created (new_txn input id t) (s_db s || s_outbox s) L); [|by apply Hw].
  apply (payment_money _ _ _ m _ k _ L' Hdb) in Hpay; [exact Hpay | done | apply stored_wrote | exact Hm].
Qed.

Lemma refund_money ctx tx m reason L e L' :
  s_db s = true → tx_Status tx = TxStatusCompleted → stored tx L →
  l_merchants L !! tx_MerchantID tx = Some m →
  refund env s ctx tx m reason L e L' → money_eq L' L.
Proof.
  intros Hdb Hc Hst Hm Hr.
  assert (∀ te t, money_eq (refunded s tx m reason te t L) L) as Hrf.
  { intros te t. apply money_credited; [done..|].
    rewrite (contrib_completed tx) by done.
    rewrite contrib_not_completed by done. lia. }
  destruct Hr; try done; [by rewrite Hdb | congruence].
Qed.

(** ** Requests *)

Inductive Request :=
| ReqCreate (ctx : Ctx) (input : CreateTransactionInput)
| ReqRefund (ctx : Ctx) (merchantID txID reason : string)
| ReqGet (ctx : Ctx) (merchantID txID : string)
| ReqBalance (ctx : Ctx) (merchantID : string)
| ReqHistory (ctx : Ctx) (merchantID txID : string)
| ReqList (ctx : Ctx) (merchantID : string) (params : ListParams).

(** The merchant on whose behalf a request is made. *)
Definition requester (r : Request) : string :=
  match r with
  | ReqCreate _ input => in_MerchantID input
  | ReqRefund _ mid _ _ | ReqGet _ mid _ | ReqBalance _ mid | ReqHistory _ mid _ | ReqList _ mid _ => mid
  end.

(** Amounts are 64-bit, and list parameters come from [NewListParams]. *)
Definition request_ok (r : Request) : Prop :=
  match r with
  | ReqCreate _ input => in_int64 (in_AmountCents input)
  | ReqList _ _ p => 0 ≤ Limit p ∧ 0 ≤ Offset p
  | _ => True
  end.

Definition run_request (r : Request) : Prog W unit :=
  match r with
  | ReqCreate ctx input => let! _ := CreateTransaction env s ctx input in ret tt
  | ReqRefund ctx mid id reason => let! _ := RefundTransaction env s ctx mid id reason in ret tt
  | ReqGet ctx mid id => let! _ := GetTransaction env ctx mid id in ret tt
  | ReqBalance ctx mid => let! _ := GetMerchantBalance env ctx mid in ret tt
  | ReqHistory ctx mid id => let! _ := GetTransactionHistory env ctx mid id in ret tt
  | ReqList ctx mid p => let! _ := ListTransactions env ctx mid p in ret tt
  end.

Fixpoint run_requests (rs : list Request) : Prog W unit :=
  match rs with
  | [] => ret tt
  | r :: rs => let! _ := run_request r in run_requests rs
  end.

(** ** Invariants of any sequence of requests *)

(** Distinct draws of random bytes give distinct ids. *)
Definition ids_unique : Prop := ∀ n m, generateTransactionID env n = generateTransactionID env m → n = m.

(** What one request preserves. *)
Definition preserved (mid : string) w w' : Prop :=
  Inv w' ∧ fresh_ids env w' ∧ footprint mid (ledger w) (ledger w') ∧
  (s_db s = true → money_eq (ledger w') (ledger w)).

Lemma footprint_refl mid L : footprint mid L L.
Proof. by split. Qed.

Lemma preserved_idle mid w w' :
  fresh_ids env w → Inv w' → frame w w' → ledger w' = ledger w → preserved mid w w'.
Proof.
  intros Hfr HI Hf HL. split_and!; [done | | rewrite HL; apply footprint_refl | by rewrite HL].
  intros n Hn. rewrite HL. apply Hfr. apply frame_step in Hf. lia.
Qed.

Lemma preserved_touched mid tx w w' :
  fresh_ids env w → Inv w' → (w_step w ≤ w_step w')%nat → tx_MerchantID tx = mid →
  (∀ t, l_txns (ledger w) !! tx_ID tx = Some t → tx_MerchantID t = mid) →
  (∀ n, (w_step w' ≤ n)%nat → generateTransactionID env n ≠ tx_ID tx) →
  (s_db s = true → money_eq (ledger w') (ledger w)) →
  touched tx (ledger w) (ledger w') → preserved mid w w'.
Proof.
  intros Hfr HI Hle <- Hold Hid Hmon Ht. split_and!; [done | | by apply touched_footprint | done].
  intros n Hn. destruct Ht as (st & -> & _). rewrite lookup_insert_ne by (by apply not_eq_sym, Hid).
  apply Hfr. lia.
Qed.

Lemma wp_Create_preserved ctx input w :
  service_ok s → ids_unique → Inv w → fresh_ids env w → in_int64 (in_AmountCents input) →
  wp (CreateTransaction env s ctx input) (λ _ w', preserved (in_MerchantID input) w w') w.
Proof.
  intros Hs Hu HInv Hfr Ham. wp_use (wp_CreateTransaction env s ctx input w Hs HInv Hfr Ham).
  intros r w' (HI & Hle & o & q & k & Hid & _ & Hc).
  pose proof (creation_touched _ _ _ _ _ _ _ _ _ Hc) as Ht.
  assert (∀ id, o = Some id → l_txns (ledger w) !! id = None) as Hnew.
  { intros id Ho. destruct (Hid id Ho) as (n & ? & ->). apply Hfr. lia. }
  destruct o as [id|].
  - destruct Ht as [t Ht]. eapply (preserved_touched _ (new_txn input id t)); try done.
    + simpl. by rewrite (Hnew id eq_refl).
    + intros n Hn. destruct (Hid id eq_refl) as (n' & ? & ->). intros E%Hu. lia.
    + intros Hdb. by eapply creation_money.
  - split_and!; [done | | rewrite Ht; apply footprint_refl | by rewrite Ht].
    intros n Hn. rewrite Ht. apply Hfr. lia.
Qed.

Lemma wp_Refund_preserved ctx mid txID reason w :
  Inv w → fresh_ids env w →
  wp (RefundTransaction env s ctx mid txID reason) (λ _ w', preserved mid w w') w.
Proof.
  intros HInv Hfr. wp_use (wp_RefundTransaction env s ctx mid txID reason w HInv).
  intros r w' (HI & Hf & Hr).
  inversion Hr as [? ? HL HL'|? HL HL'|? ? ? ? HL HL'|tx m e L' Hid Hst Hm Hcomp Hmer Hrf].
  1-3: by apply preserved_idle.
  subst. pose proof (refund_touched _ _ _ _ _ _ _ Hst Hrf) as Ht.
  eapply preserved_touched; [done | done | by apply frame_step | done | | | | exact Ht].
  - rewrite Hst. by intros ? [= <-].
  - intros n Hn E. pose proof (Hfr n) as Hno. rewrite E, Hst in Hno.
    apply frame_step in Hf. by specialize (Hno ltac:(lia)).
  - intros Hdb. by eapply refund_money.
Qed.

(** Everything but creating and refunding only reads. *)
Definition reads (r : Request) : Prop :=
  match r with ReqCreate _ _ | ReqRefund _ _ _ _ => False | _ => True end.

Lemma wp_read_request r w :
  reads r → request_ok r → Inv w →
  wp (run_request r) (λ _ w', Inv w' ∧ frame w w' ∧ ledger w' = ledger w) w.
Proof.
  intros Hr Hok HInv. destruct r as [ctx input|ctx mid id reason|ctx mid id|ctx mid|ctx mid id|ctx mid p];
    [done | done | ..]; simpl; apply wp_bind.
  - apply wp_ownedTransaction; [done|]. intros ? ? ? ? ? _. by apply wp_ret.
  - apply wp_merchant_GetByID; [done|]. intros ? ? ? ? ? _. by apply wp_ret.
  - unfold GetTransactionHistory. apply wp_bind, wp_ownedTransaction; [done|].
    intros a w1 HI1 Hf1 HL1 _. destruct a; [|by apply wp_ret, wp_ret].
    apply wp_ListByTransaction; [done|]. intros ? w2 ? ? HL2 _.
    apply wp_ret. split_and!; [done | by etrans | by rewrite HL2].
  - apply wp_ListByMerchant; [done|apply Hok..|]. intros ? ? ? ? ? _. by apply wp_ret.
Qed.

Lemma wp_run_request r w :
  service_ok s → ids_unique → request_ok r → Inv w → fresh_ids env w →
  wp (run_request r) (λ _ w', preserved (requester r) w w') w.
Proof.
  intros Hs Hu Hok HInv Hfr.
  pose proof (λ H : reads r, wp_read_request r w H Hok HInv) as Hread.
  destruct r as [ctx input|ctx mid id reason|ctx mid id|ctx mid|ctx mid id|ctx mid p];
    [by apply wp_bind; wp_use wp_Create_preserved | by apply wp_bind; wp_use wp_Refund_preserved |
     wp_use (Hread I); intros ? ? (?&?&?); by apply preserved_idle..].
Qed.

Lemma wp_run_requests rs : ∀ w,
  service_ok s → ids_unique → Forall request_ok rs → Inv w → fresh_ids env w →
  wp (run_requests rs) (λ _ w', Inv w' ∧ fresh_ids env w' ∧
    (∀ mid, Forall (λ r, requester r ≠ mid) rs →
       l_merchants (ledger w') !! mid = l_merchants (ledger w) !! mid ∧
       ∀ id t, tx_MerchantID t = mid → l_txns (ledger w') !! id = Some t ↔ l_txns (ledger w) !! id = Some t) ∧
    (s_db s = true → money_eq (ledger w') (ledger w))) w.
Proof.
  induction rs as [|r rs IH]; intros w Hs Hu Hok HInv Hfr; simpl; [by apply wp_ret|].
  apply Forall_cons in Hok as [Hr Hrs]. apply wp_bind.
  wp_use (wp_run_request r w Hs Hu Hr HInv Hfr). intros _ w1 (HI1 & Hfr1 & [Hm1 Ht1] & Hmon1).
  wp_use (IH w1 Hs Hu Hrs HI1 Hfr1). intros _ w2 (HI2 & Hfr2 & Hiso2 & Hmon2). split_and!; [done..| |].
  - intros mid [Hne Hrest]%Forall_cons. destruct (Hiso2 mid Hrest) as [Hm2 Ht2].
    split; [by rewrite Hm2, Hm1 by congruence|].
    intros id t Hmid. rewrite (Ht2 id t Hmid). apply Ht1. congruence.
  - intros Hdb. by rewrite Hmon2, Hmon1.
Qed.

(** C1 Money is conserved: with the database, any sequence of requests (under
    any faults of the store, any cancellation, any clock and any answers of the
    bank) leaves every merchant's balance minus the sum of its completed
    transactions unchanged. *)
Theorem requests_conserve_money rs w :
  s_db s = true → service_ok s → ids_unique → Forall request_ok rs → Inv w → fresh_ids env w →
  wp (run_requests rs) (λ _ w', ∀ mid, surplus (ledger w') mid = surplus (ledger w) mid) w.
Proof.
  intros Hdb Hs Hu Hok HInv Hfr. wp_use (wp_run_requests rs w Hs Hu Hok HInv Hfr).
  intros _ w' (_ & _ & _ & H). exact (H Hdb).
Qed.

(** C11 The store stays well formed whatever happens: balances between 0 and the
    largest int64, positive amounts, one of the five statuses, every
    transaction filed under its id with an existing merchant; with or without
    the database. *)
Theorem requests_keep_ledger_ok rs w :
  service_ok s → ids_unique → Forall request_ok rs → Inv w → fresh_ids env w →
  wp (run_requests rs) (λ _ w', ledger_ok (ledger w')) w.
Proof.
  intros Hs Hu Hok HInv Hfr. wp_use (wp_run_requests rs w Hs Hu Hok HInv Hfr).
  intros _ w' ([_ H] & _). exact H.
Qed.

(** C12 Merchants are isolated: requests made on behalf of other merchants change
    neither the balance of a merchant nor any of its transactions. *)
Theorem requests_isolated rs mid w :
  service_ok s → ids_unique → Forall request_ok rs → Inv w → fresh_ids env w →
  Forall (λ r, requester r ≠ mid) rs →
  wp (run_requests rs) (λ _ w',
    l_merchants (ledger w') !! mid = l_merchants (ledger w) !! mid ∧
    ∀ id t, tx_MerchantID t = mid →
      (l_txns (ledger w') !! id = Some t ↔ l_txns (ledger w) !! id = Some t)) w.
Proof.
  intros Hs Hu Hok HInv Hfr Hne. wp_use (wp_run_requests rs w Hs Hu Hok HInv Hfr).
  intros _ w' (_ & _ & H & _). exact (H mid Hne).
Qed.

(** ** Creating a payment *)

(** Neither the store nor the bank was touched. *)
Definition untouched (w w' : W) : Prop := ledger w' = ledger w ∧ w_charges w' = w_charges w.

(** The new payment and the ledger of a completed request. *)
Definition settled_payment (input : CreateTransactionInput) (w : W) (t : Transaction) (L' : Ledger)
  : Prop :=
  ∃ id now m te te' to,
    t = set_Status TxStatusCompleted (new_txn input id now) ∧
    l_txns (ledger w) !! id = None ∧
    l_merchants (ledger w) !! in_MerchantID input = Some m ∧
    L' = paid s (new_txn input id now) m te te' to
           (created (new_txn input id now) (s_db s || s_outbox s) (ledger w)).

Lemma created_id ctx input w r w' :
  fresh_ids env w → created_post env s ctx input w r w' →
  ∃ o q k, (∀ id, o = Some id → l_txns (ledger w) !! id = None) ∧
    charges s q w k w' ∧ creation env s ctx (λ q, live env s ctx q w) input (ledger w) o q k r (ledger w').
Proof.
  intros Hfr (_ & _ & o & q & k & Hid & Hch & Hc). exists o, q, k. split_and!; [|done..].
  intros id Ho. destruct (Hid id Ho) as (n & ? & ->). apply Hfr. lia.
Qed.

(** What a nil error means. *)
Definition succeeded (input : CreateTransactionInput) (w w' : W) (t : Transaction) : Prop :=
  (in_IdempotencyKey input ≠ "" ∧ tx_IdempotencyKey t = in_IdempotencyKey input ∧
     stored t (ledger w) ∧ ledger w' = ledger w ∧ w_charges w' = w_charges w) ∨
  (approved s (set_Status TxStatusPending t) ∧ settled_payment input w t (ledger w')).

Lemma created_success ctx input w r w' :
  fresh_ids env w → created_post env s ctx input w r w' →
  r.2 = None → ∃ t, r.1 = Some t ∧ succeeded input w w' t.
Proof.
  intros Hfr Hpost Hok. unfold succeeded. apply created_id in Hpost as (o & q & k & Hid & [Hch _] & Hc); [|done].
  destruct Hc as [| |t q Hne Hk Hst Hm| | |id t m k [tx' e] L' Hk Hm Href Hpay]; try done.
  - exists t. split; [done|]. left. split_and!; try done. by rewrite Hch, app_nil_r.
  - simpl in Hok. subst e. inversion Hpay as [? te te' to Hk0 Happ Hr HL| | | | | |]; subst.
    exists (set_Status TxStatusCompleted (new_txn input id t)). split; [done|]. right.
    split; [exact Happ|]. exists id, t, m, te, te', to. split_and!; [done | by apply Hid | done | done].
Qed.

(** C7 Success is exact: when [CreateTransaction] reports no error, either it
    replayed a stored transaction of the same idempotency key and changed
    nothing, or the bank approved this very charge while the row said
    PROCESSING, and the ledger is the old one with the completed transaction,
    its credit, its three audit events and its outbox entries. *)
Theorem CreateTransaction_success ctx input w :
  service_ok s → Inv w → fresh_ids env w → in_int64 (in_AmountCents input) →
  wp (CreateTransaction env s ctx input) (λ r w', r.2 = None → ∃ t, r.1 = Some t ∧
    ((in_IdempotencyKey input ≠ "" ∧ tx_IdempotencyKey t = in_IdempotencyKey input ∧
      stored t (ledger w) ∧ ledger w' = ledger w ∧ w_charges w' = w_charges w) ∨
     (approved s (set_Status TxStatusPending t) ∧ settled_payment input w t (ledger w')))) w.
Proof.
  intros Hs HInv Hfr Ham. wp_use (wp_CreateTransaction env s ctx input w Hs HInv Hfr Ham).
  intros r w' Hpost. by apply (created_success ctx).
Qed.

Lemma created_completes ctx input m w r w' :
  fresh_ids env w → clean_run env ctx → (∀ q, live env s ctx q w) →
  key_unused (in_IdempotencyKey input) (ledger w) →
  l_merchants (ledger w) !! in_MerchantID input = Some m → refusal s input (Some m) = None →
  m_BalanceCents m + in_AmountCents input ≤ max_int64 →
  created_post env s ctx input w r w' →
  ∃ t, r = (Some t, None) ∧ tx_Status t = TxStatusCompleted ∧ settled_payment input w t (ledger w').
Proof.
  intros Hfr Hcl Hlive Hkey Hm Href Hov Hpost. apply created_id in Hpost as (o & q & k & Hid & _ & Hc); [|done].
  assert (faultless env) as Hff by (by eapply clean_faultless).
  destruct Hc as [e q Hk' Href'|e q Hc|t q Hne Hk' Hst _|t q Hne Hk' Hst _|e id t evs obs q Hc _
    |id t m' k [tx' e] L' Hk' Hm' _ Hpay]; try done.
  - congruence.
  - destruct Hkey as [?|Hkey]; [done|]. by destruct (Hkey _ _ Hst).
  - destruct Hkey as [?|Hkey]; [done|]. by destruct (Hkey _ _ Hst).
  - rewrite Hm in Hm'. injection Hm' as <-.
    destruct Hpay as [k te te' to Hk0 Happ| |k e0 te Hk0 Happ Ho| | | |]; try done.
    + eexists. split; [done|]. split; [done|]. exists id, t, m, te, te', to.
      split_and!; [done | by apply Hid | done | done].
    + by destruct H.
    + unfold overflows in Ho. simpl in Ho. lia.
Qed.

(** Nothing stands in the way of a valid payment: in a run without faults
    and cancellation, with a closed circuit and an approving bank, a request
    that passes the checks with an unused key, and whose credit does not
    overflow the balance, is completed. *)
Theorem CreateTransaction_completes ctx input m w :
  service_ok s → Inv w → fresh_ids env w → in_int64 (in_AmountCents input) →
  clean_run env ctx → (∀ q, live env s ctx q w) → key_unused (in_IdempotencyKey input) (ledger w) →
  l_merchants (ledger w) !! in_MerchantID input = Some m → refusal s input (Some m) = None →
  m_BalanceCents m + in_AmountCents input ≤ max_int64 →
  wp (CreateTransaction env s ctx input) (λ r w', ∃ t, r = (Some t, None) ∧
    tx_Status t = TxStatusCompleted ∧ settled_payment input w t (ledger w')) w.
Proof.
  intros Hs HInv Hfr Ham Hcl Hlive Hkey Hm Href Hov.
  wp_use (wp_CreateTransaction env s ctx input w Hs HInv Hfr Ham).
  intros r w' Hpost. by eapply created_completes.
Qed.

(** C16 A request that fails the checks has no effect: it reports the error of
    the first failing check (unknown merchant, inactive merchant, amount not
    positive, amount over the limit, currency), charges nothing and leaves the
    ledger as it was. *)
Theorem CreateTransaction_refused ctx input e w :
  service_ok s → Inv w → fresh_ids env w → in_int64 (in_AmountCents input) →
  clean_run env ctx → key_unused (in_IdempotencyKey input) (ledger w) →
  refusal s input (l_merchants (ledger w) !! in_MerchantID input) = Some e →
  wp (CreateTransaction env s ctx input) (λ r w', r = (None, Some e) ∧ untouched w w') w.
Proof.
  intros Hs HInv Hfr Ham Hcl Hkey Href.
  wp_use (wp_CreateTransaction env s ctx input w Hs HInv Hfr Ham).
  intros r w' Hpost. apply created_id in Hpost as (o & q & k & _ & [Hch _] & Hc); [|done].
  unfold untouched. destruct Hc as [e' q Hk' Href'|e' q Hc|t q Hne Hk' Hst _|t q Hne Hk' Hst _|e' id t evs obs q Hc _
    |id t m k r L' Hk' Hm' Href' _]; try done.
  - rewrite Href in Href'. injection Href' as <-. split; [done|]. split; [done|].
    by rewrite Hch, app_nil_r.
  - destruct Hkey as [?|Hkey]; [done|]. by destruct (Hkey _ _ Hst).
  - destruct Hkey as [?|Hkey]; [done|]. by destruct (Hkey _ _ Hst).
  - rewrite Hm' in Href. congruence.
Qed.

(** The [k] charges [q] that serving [input] may cause: for the amount and the
    merchant of a request that passes the checks, and with the approval of the
    bank whenever a balance changed. *)
Definition accounted (input : CreateTransactionInput) (w w' : W) (q : BankChargeRequest) (k : nat)
  : Prop :=
  ((0 < k)%nat → bq_MerchantID q = in_MerchantID input ∧ bq_AmountCents q = in_AmountCents input ∧
     bq_Currency q = in_Currency input ∧
     refusal s input (l_merchants (ledger w) !! in_MerchantID input) = None) ∧
  (l_merchants (ledger w') ≠ l_merchants (ledger w) →
     (0 < k)%nat ∧ ∃ tx, q = charge_request tx ∧ approved s tx).

(** C15 The bank is asked at most [MaxAttempts] times, always for the same
    transaction, and a balance only changes after the bank approved a charge
    of that merchant's transaction; under any faults. *)
Theorem CreateTransaction_charges ctx input w :
  service_ok s → Inv w → fresh_ids env w → in_int64 (in_AmountCents input) →
  wp (CreateTransaction env s ctx input) (λ _ w', ∃ q k,
    w_charges w' = (w_charges w ++ replicate k q)%list ∧
    Z.of_nat k ≤ retry_attempts (s_retry s) ∧ accounted input w w' q k) w.
Proof.
  intros Hs HInv Hfr Ham. wp_use (wp_CreateTransaction env s ctx input w Hs HInv Hfr Ham).
  intros r w' Hpost. apply created_id in Hpost as (o & q & k & _ & [Hch Hk] & Hc); [|done].
  exists q, k. split; [done|]. split; [done|].
  unfold accounted. destruct Hc as [| | | | |id t m k r L' Hk' Hm' Href' Hpay];
    [split; [lia | done].. |].
  split; [intros _; split_and!; [done.. | by rewrite Hm']|]. intros Hne.
  destruct Hpay; try done; (split; [done | by eexists]).
Qed.

(** A transaction of [input] that is COMPLETED or FAILED, or PROCESSING because
    its credit would overflow. *)
Definition concluded (input : CreateTransactionInput) (w w' : W) : Prop :=
  ∃ id now m t, l_txns (ledger w') !! id = Some t ∧
    l_merchants (ledger w) !! in_MerchantID input = Some m ∧
    (tx_Status t = TxStatusCompleted ∨ tx_Status t = TxStatusFailed ∨
     (tx_Status t = TxStatusProcessing ∧ overflows m (new_txn input id now))).

(** C8 Cancellation cannot strand a charge: when the store does not fail, a
    request that reached the bank ends with its transaction COMPLETED or
    FAILED, whatever happened to its context, except that a credit that would
    overflow the balance leaves it PROCESSING. *)
Theorem CreateTransaction_cancelled ctx input w :
  service_ok s → Inv w → fresh_ids env w → in_int64 (in_AmountCents input) →
  faultless env →
  wp (CreateTransaction env s ctx input) (λ _ w',
    w_charges w' ≠ w_charges w → concluded input w w') w.
Proof.
  intros Hs HInv Hfr Ham Hff. wp_use (wp_CreateTransaction env s ctx input w Hs HInv Hfr Ham).
  intros r w' Hpost Hne. apply created_id in Hpost as (o & q & k & _ & [Hch Hk] & Hc); [|done].
  unfold concluded. destruct Hc as [| | | | |id t m k r L' Hk' Hm' Href' Hpay];
    [by destruct Hne; rewrite Hch, app_nil_r..|].
  exists id, t, m. destruct Hpay as [| |k e te Hk0 Ha Ho| | | |]; try done.
  - eexists. split; [apply lookup_insert_eq|]. auto.
  - eexists. split; [apply lookup_insert_eq|]. auto.
  - eexists. split; [apply lookup_insert_eq|]. auto.
  - by destruct Hne; rewrite Hch, app_nil_r.
Qed.

(** ** Replays *)

(** Non-empty idempotency keys identify transactions. *)
Definition keys_unique (L : Ledger) : Prop := ∀ i j t t',
  l_txns L !! i = Some t → l_txns L !! j = Some t' →
  tx_IdempotencyKey t = tx_IdempotencyKey t' → tx_IdempotencyKey t ≠ "" → i = j.

Lemma touched_keys_unique input id t L L' :
  key_unused (in_IdempotencyKey input) L → l_txns L !! id = None →
  touched (new_txn input id t) L L' → keys_unique L → keys_unique L'.
Proof.
  intros Hun Hid (st & Ht & _) Hu i j t1 t2. rewrite Ht, !lookup_insert_Some.
  intros [[<- <-]|[? H1]] [[<- <-]|[? H2]] Heq Hne; simpl in *; try done.
  - destruct Hun as [?|Hun]; [congruence|]. by destruct (Hun _ _ H2).
  - destruct Hun as [?|Hun]; [congruence|]. by destruct (Hun _ _ H1).
  - by apply (Hu i j t1 t2).
Qed.

Lemma matches_norm t input :
  matchesIdempotentRequest (Some (norm_txn t)) input = matchesIdempotentRequest (Some t) input.
Proof. done. Qed.

Lemma wp_replay ctx input t w :
  service_ok s → Inv w → fresh_ids env w → in_int64 (in_AmountCents input) →
  clean_run env ctx → keys_unique (ledger w) → in_IdempotencyKey input ≠ "" →
  stored t (ledger w) → tx_IdempotencyKey t = in_IdempotencyKey input →
  matchesIdempotentRequest (Some t) input = true →
  wp (CreateTransaction env s ctx input) (λ r w',
    (∃ t', r = (Some t', None) ∧ norm_txn t' = norm_txn t) ∧
    ledger w' = ledger w ∧ w_charges w' = w_charges w) w.
Proof.
  intros Hs HInv Hfr Ham Hcl Hu Hne Hst Hk Hmt.
  wp_use (wp_CreateTransaction env s ctx input w Hs HInv Hfr Ham).
  intros r w' Hpost. apply created_id in Hpost as (o & q & k & _ & [Hch _] & Hc); [|done].
  assert (¬ key_unused (in_IdempotencyKey input) (ledger w)) as Hused.
  { intros [?|Hun]; [done|]. by destruct (Hun _ _ Hst). }
  assert (∀ t', tx_IdempotencyKey t' = in_IdempotencyKey input → stored t' (ledger w) →
    norm_txn t' = norm_txn t) as Hsame.
  { intros t' Hk' Hst'. assert (tx_ID t' = tx_ID t) as E.
    { apply (Hu _ _ _ _ Hst' Hst); simpl; congruence. }
    unfold stored in Hst, Hst'. congruence. }
  destruct Hc as [| |t' q _ Hk' Hst' _|t' q _ Hk' Hst' Hno| |]; try done.
  - split_and!; [|done|by rewrite Hch, app_nil_r]. exists t'. split; [done|]. by apply Hsame.
  - exfalso. rewrite <- (matches_norm t'), (Hsame t' Hk' Hst'), matches_norm in Hno. congruence.
Qed.

Lemma payment_result ctx alive tx m L k tx' e L' :
  payment env s ctx alive tx m L k (tx', e) L' → faultless env ∧ clean_run env ctx →
  stored tx' L' ∧ ∃ st, tx' = set_Status st tx.
Proof.
  intros Hp [Hff Hcl]. inversion Hp; subst; try done;
    (split; [|by eexists]); unfold stored; apply lookup_insert_eq.
Qed.

(** C10 Retrying a request is safe: in a clean run, when a request with an
    idempotency key has created a transaction (even if the payment then
    failed) the same request again returns that transaction with no error,
    charges nothing and changes nothing. *)
Theorem CreateTransaction_idempotent ctx input w :
  service_ok s → ids_unique → Inv w → fresh_ids env w → in_int64 (in_AmountCents input) →
  clean_run env ctx → keys_unique (ledger w) → in_IdempotencyKey input ≠ "" →
  wp (CreateTransaction env s ctx input) (λ r1 w1, ∀ t, r1.1 = Some t →
    wp (CreateTransaction env s ctx input) (λ r2 w2,
      (∃ t', r2 = (Some t', None) ∧ norm_txn t' = norm_txn t) ∧
      ledger w2 = ledger w1 ∧ w_charges w2 = w_charges w1) w1) w.
Proof.
  intros Hs Huniq HInv Hfr Ham Hcl Hu Hne.
  eapply wp_mono; [apply wp_and; [apply (wp_CreateTransaction env s ctx input w Hs HInv Hfr Ham) |
    apply (wp_Create_preserved ctx input w Hs Huniq HInv Hfr Ham)]|].
  intros r w1 [Hpost (HI1 & Hfr1 & _)] t Ht.
  apply created_id in Hpost as (o & q & k & Hid & _ & Hc); [|done].
  pose proof (creation_touched _ _ _ _ _ _ _ _ _ Hc) as Htouch.
  inversion Hc as [| |t' q' Hne' Hk Hst Hm Ho Hq Hk0 Hr HL| | |id t0 m k' r' L' Hk Hm' Href Hpay Ho Hq Hk0 Hr HL];
    subst; try done.
  - simpl in Ht. injection Ht as ->. rewrite HL in Hst, Hu. wp_use (wp_replay ctx input t w1); [done..|]. intros r2 w2 (?&?&?). split_and!; congruence.
  - simpl in Ht. injection Ht as <-. destruct Htouch as [t1 Htouch]. destruct r' as [tx' e].
    apply payment_result in Hpay as [Hst [st ->]]; [|split; [by eapply clean_faultless | done]].
    apply wp_replay; try done.
    + eapply touched_keys_unique; [done | by apply Hid | exact Htouch | done].
    + unfold matchesIdempotentRequest. simpl. by rewrite !bool_decide_true, Z.eqb_refl.
Qed.

(** A key that has a transaction is spent. *)
Definition key_used (key : string) (L : Ledger) : Prop :=
  key ≠ "" ∧ ∃ id t, l_txns L !! id = Some t ∧ tx_IdempotencyKey t = key.

(** An effect of a request with a key spends the key. *)
Lemma creation_spends ctx alive input L o q k r L' :
  in_IdempotencyKey input ≠ "" → creation env s ctx alive input L o q k r L' →
  L' = L ∧ k = 0%nat ∨ key_used (in_IdempotencyKey input) L'.
Proof.
  intros Hne Hc. pose proof (creation_touched _ _ _ _ _ _ _ _ _ Hc) as Ht.
  destruct o as [id|]; [|left; split; [done | by inversion Hc]].
  destruct Ht as (t & st & Ht & _). right. split; [done|]. eexists id, _. rewrite Ht. simpl.
  by rewrite lookup_insert_eq.
Qed.

(** Whatever fails, creating a payment under a spent key has no effect, and a
    creation that has an effect spends its key. *)
Lemma wp_Create_spent ctx input w :
  service_ok s → Inv w → fresh_ids env w → in_int64 (in_AmountCents input) → in_IdempotencyKey input ≠ "" →
  wp (CreateTransaction env s ctx input) (λ _ w',
    untouched w w' ∨ ¬ key_used (in_IdempotencyKey input) (ledger w) ∧ key_used (in_IdempotencyKey input) (ledger w')) w.
Proof.
  intros Hs HI Hfr Ham Hne. wp_use (wp_CreateTransaction env s ctx input w Hs HI Hfr Ham).
  intros r w' (_ & _ & o & q & k & _ & [Hch _] & Hc).
  assert (ledger w' = ledger w ∧ k = 0%nat → untouched w w') as Hsame.
  { intros [HL ->]. split; [done|]. by rewrite Hch, app_nil_r. }
  destruct (creation_spends _ _ _ _ _ _ _ _ _ Hne Hc) as [Hn|Hu]; [left; by apply Hsame|].
  destruct Hc; try (left; by apply Hsame).
  all: right; split; [|done]; intros (_ & i & t' & Ht' & Hk').
  all: match goal with H : key_unused _ _ |- _ => destruct H as [?|Hun]; [done | by apply (Hun i t')] end.
Qed.

(** ** Refunds *)

(** C17 Refunds, case by case: in a clean run an unknown transaction and one of
    another merchant are not found, one that is not COMPLETED cannot be
    refunded, and neither has an effect; a refund of a completed transaction
    that the balance covers sets REFUNDED, debits exactly the amount and
    records it; otherwise it reports insufficient funds, with no effect when
    there is a database. *)
Theorem RefundTransaction_outcome ctx mid txID reason w :
  Inv w → clean_run env ctx →
  wp (RefundTransaction env s ctx mid txID reason) (λ r w',
    match l_txns (ledger w) !! txID with
    | None => r = (None, Some ErrTransactionNotFound) ∧ untouched w w'
    | Some t =>
      if decide (tx_MerchantID t = mid) then
        if decide (tx_Status t = TxStatusCompleted) then
          ∃ tx m, norm_txn tx = t ∧ l_merchants (ledger w) !! mid = Some m ∧
            ((tx_AmountCents t ≤ m_BalanceCents m ∧ ∃ te to,
                r = (Some (set_Status TxStatusRefunded tx), None) ∧
                ledger w' = refunded s tx m reason te to (ledger w)) ∨
             (m_BalanceCents m < tx_AmountCents t ∧ r = (None, Some ErrInsufficientFunds) ∧
                (s_db s = true → untouched w w')))
        else r = (None, Some (cannot_refund (tx_Status t))) ∧ untouched w w'
      else r = (None, Some ErrTransactionNotFound) ∧ untouched w w'
    end) w.
Proof.
  intros HInv Hcl. wp_use (wp_RefundTransaction env s ctx mid txID reason w HInv).
  intros r w' (_ & (_ & Hch & _) & Hr). unfold untouched. rewrite Hch.
  remember (ledger w') as L' eqn:HL'. clear HL'.
  destruct Hr as [e Hc|Hmiss|t Ht Hmid Hst|tx m e L' Hid Hst Hmid Hcomp Hm Hr]; [done| | |].
  - destruct (l_txns (ledger w) !! txID) as [t|]; [|done].
    rewrite decide_False by (by apply Hmiss). done.
  - rewrite Ht, decide_True, decide_False by done. done.
  - rewrite <- Hid, Hst, decide_True, decide_True by done. exists tx, m. split_and!; [done..|].
    destruct Hr as [te t Hle|Hlt| | |]; [left | right | done | done | done].
    + split; [done|]. by exists te, t.
    + split_and!; [done | done |]. by intros ->.
Qed.

(** Status, debit, audit event and outbox entry of one covered refund. *)
Definition fully_refunded (mid txID reason : string) (L L' : Ledger) : Prop :=
  ∃ tx m te to, tx_ID tx = txID ∧ stored tx L ∧ tx_MerchantID tx = mid ∧
    tx_Status tx = TxStatusCompleted ∧ l_merchants L !! mid = Some m ∧
    tx_AmountCents tx ≤ m_BalanceCents m ∧ L' = refunded s tx m reason te to L.

(** C9 With the database a refund is all or nothing under any faults: the
    ledger is untouched, or status, debit, audit event and outbox entry are
    all there; and a reported success means the latter. *)
Theorem RefundTransaction_atomic ctx mid txID reason w :
  Inv w → s_db s = true →
  wp (RefundTransaction env s ctx mid txID reason) (λ r w',
    (ledger w' = ledger w ∧ is_Some r.2) ∨
    fully_refunded mid txID reason (ledger w) (ledger w')) w.
Proof.
  intros HInv Hdb. wp_use (wp_RefundTransaction env s ctx mid txID reason w HInv).
  intros r w' (_ & _ & Hr).
  destruct Hr as [e Hc|Hmiss|t Ht Hmid Hst|tx m e L' Hid Hst Hmid Hcomp Hm Hr];
    [by left; split; [|eexists]..|].
  destruct Hr as [te t Hle|Hlt|e Hc|e te t Hc _ Hle|]; [right | left | left | right | congruence].
  1,4: exists tx, m, te, t; done.
  - by rewrite Hdb.
  - done.
Qed.

(** The row says REFUNDED and the balance is the old one. *)
Definition refunded_unpaid (tx : Transaction) (m : Merchant) (L : Ledger) : Prop :=
  l_merchants L !! tx_MerchantID tx = Some m ∧
  l_txns L !! tx_ID tx = Some (norm_txn (set_Status TxStatusRefunded tx)).

(** Without the database an uncovered refund is not undone: it reports
    insufficient funds, but the transaction is already REFUNDED, with no
    debit, and a second attempt is turned away. *)
Theorem refund_without_database ctx mid tx m reason w :
  Inv w → clean_run env ctx → s_db s = false → stored tx (ledger w) →
  tx_MerchantID tx = mid → tx_Status tx = TxStatusCompleted →
  l_merchants (ledger w) !! mid = Some m → m_BalanceCents m < tx_AmountCents tx →
  wp (RefundTransaction env s ctx mid (tx_ID tx) reason) (λ r w1,
    r = (None, Some ErrInsufficientFunds) ∧ refunded_unpaid tx m (ledger w1) ∧
    wp (RefundTransaction env s ctx mid (tx_ID tx) reason) (λ r' _,
      r' = (None, Some (cannot_refund TxStatusRefunded))) w1) w.
Proof.
  intros HInv Hcl Hdb Hst Hmid Hcomp Hm Hlt.
  wp_use (wp_RefundTransaction env s ctx mid (tx_ID tx) reason w HInv).
  intros r w1 (HI1 & _ & Hr). remember (ledger w1) as L1 eqn:HL1.
  destruct Hr as [e Hc|Hmiss|t Ht Hm' Hst'|tx' m' e L1 Hid Hst' Hmid' _ Hm' Hr];
    [done | by destruct (Hmiss _ Hst) | |].
  { unfold stored in Hst. rewrite Hst in Ht. by injection Ht as <-. }
  rewrite Hm in Hm'. injection Hm' as <-.
  assert (norm_txn tx' = norm_txn tx) as En by (unfold stored in *; congruence).
  assert (tx_AmountCents tx' = tx_AmountCents tx ∧
    norm_txn (set_Status TxStatusRefunded tx') = norm_txn (set_Status TxStatusRefunded tx))
    as [Ea En'] by (destruct tx, tx'; by simplify_eq/=).
  destruct Hr as [te t Hle|_| | |]; [lia | | done | done | done].
  rewrite Hdb in HL1 |- *.
  assert (l_txns (ledger w1) !! tx_ID tx = Some (norm_txn (set_Status TxStatusRefunded tx))) as Hrow.
  { rewrite <- HL1, <- Hid, <- En'. apply lookup_insert_eq. }
  split; [done|]. split; [split; [by rewrite Hmid | by rewrite HL1]|].
  wp_use (wp_RefundTransaction env s ctx mid (tx_ID tx) reason w1 HI1).
  intros r' w2 (_ & _ & Hr').
  destruct Hr' as [e Hc|Hmiss|t Ht _ _|tx2 m2 e L2 Hid2 Hst2 _ Hcomp2 _ _];
    [done | by destruct (Hmiss _ Hrow) | |].
  - rewrite Hrow in Ht. by injection Ht as <-.
  - unfold stored in Hst2. rewrite Hid2, Hrow in Hst2.
    apply (f_equal (from_option tx_Status "")) in Hst2. simpl in Hst2. by rewrite Hcomp2 in Hst2.
Qed.

(** ** Two refunds at once *)

(** [RefundTransaction] reads the transaction outside the database transaction
    that refunds it; the two halves of a call. *)
(* go: internal/service/payment.go 481-490 *)
Definition refund_read (ctx : Ctx) (mid txID : string) : Prog W (result goerror Transaction) :=
  check! contextError env (Some ctx) or err => ret (Err err);
  ownedTransaction env ctx mid txID.

(* go: internal/service/payment.go 492-509 *)
Definition refund_write (ctx : Ctx) (reason : string) (a : result goerror Transaction)
  : Prog W (option Transaction * error) :=
  match a with
  | Err err => ret (None, Some err)
  | Ok tx =>
    if negb (CanTransition (tx_Status tx) TxStatusRefunded) then
      ret (None, Some (cannot_refund (tx_Status tx)))
    else
      let! err := if s_db s then refundInDBTransaction env ctx tx reason
                  else refundWithMocks env s ctx tx reason in
      match err with
      | Some err => ret (None, Some err)
      | None => ret (Some (set_Status TxStatusRefunded tx), None)
      end
  end.

Lemma refund_halves ctx mid txID reason w :
  RefundTransaction env s ctx mid txID reason w =
  bind (refund_read ctx mid txID) (refund_write ctx reason) w.
Proof.
  unfold RefundTransaction, refund_read, bind.
  destruct (contextError env (Some ctx) w) as [[e|] w1]; [done|].
  destruct (ownedTransaction env ctx mid txID w1) as [[t|e] w2]; done.
Qed.

Lemma wp_refund_read ctx mid tx w (Q : result goerror Transaction → W → Prop) :
  Inv w → clean_run env ctx → stored tx (ledger w) → tx_MerchantID tx = mid →
  (∀ tx' w', Inv w' → ledger w' = ledger w → norm_txn tx' = norm_txn tx → Q (Ok tx') w') →
  wp (refund_read ctx mid (tx_ID tx)) Q w.
Proof.
  intros HInv Hcl Hst Hmid HQ. unfold refund_read. apply wp_bind, wp_contextError.
  intros e w1 Hf1 Hr1 Hc1. rewrite Hc1 by done.
  assert (ledger w1 = ledger w) as HL1 by (unfold ledger; by rewrite Hr1).
  apply wp_ownedTransaction; [split; [rewrite Hr1 | rewrite HL1]; apply HInv|].
  rewrite HL1. intros a w2 HI2 Hf2 HL2 Ha. destruct a as [tx'|e'].
  - destruct Ha as (Hid & Hst' & _). apply HQ; [done..|].
    unfold stored in *. rewrite Hid, Hst in Hst'. congruence.
  - destruct Ha as [?|[-> Hno]]; [done|]. by destruct (Hno _ Hst).
Qed.

Lemma wp_refund_write ctx mid tx row m reason w (Q : option Transaction * error → W → Prop) :
  Inv w → clean_run env ctx → s_db s = true → tx_Status tx = TxStatusCompleted →
  tx_MerchantID tx = mid → row = tx ∨ row = set_Status TxStatusRefunded tx →
  stored row (ledger w) → l_merchants (ledger w) !! mid = Some m →
  tx_AmountCents tx ≤ m_BalanceCents m →
  (∀ w' te t, Inv w' → ledger w' = refunded s row m reason te t (ledger w) →
    Q (Some (set_Status TxStatusRefunded tx), None) w') →
  wp (refund_write ctx reason (Ok tx)) Q w.
Proof.
  intros HInv Hcl Hdb Hcomp Hmid Hrow Hst Hm Hle HQ. unfold refund_write. rewrite Hdb, Hcomp.
  change (negb (CanTransition TxStatusCompleted TxStatusRefunded)) with false. cbv iota.
  apply wp_bind.
  assert (refundInDBTransaction env ctx tx reason = refundInDBTransaction env ctx row reason) as ->
    by by destruct Hrow as [-> | ->].
  assert (tx_AmountCents row = tx_AmountCents tx ∧ tx_MerchantID row = mid) as [Ea Em].
  { by destruct Hrow as [-> | ->]. }
  wp_use (wp_refundInDBTransaction env s ctx row m reason w HInv Hst); [by rewrite Em | done |].
  intros e w' (HI & _ & Hr). remember (ledger w') as L' eqn:HL'.
  destruct Hr as [te t _|Hlt| | |]; [|lia|done..]. apply wp_ret. by eapply HQ.
Qed.

(** C18 Two refunds of one transaction can both succeed: when the second reads
    the transaction before the first commits, both report success and the
    balance is debited twice, although each runs in its own database
    transaction. *)
Theorem refund_race ctx mid tx m reason1 reason2 w :
  Inv w → clean_run env ctx → s_db s = true → stored tx (ledger w) →
  tx_MerchantID tx = mid → tx_Status tx = TxStatusCompleted →
  l_merchants (ledger w) !! mid = Some m → 2 * tx_AmountCents tx ≤ m_BalanceCents m →
  wp (let! a1 := refund_read ctx mid (tx_ID tx) in
      let! a2 := refund_read ctx mid (tx_ID tx) in
      let! r1 := refund_write ctx reason1 a1 in
      let! r2 := refund_write ctx reason2 a2 in
      ret (r1.2, r2.2)) (λ r w', r = (None, None) ∧
        l_merchants (ledger w') !! mid =
          Some (set_Balance (m_BalanceCents m - 2 * tx_AmountCents tx) m)) w.
Proof.
  intros HInv Hcl Hdb Hst Hmid Hcomp Hm Hle.
  destruct (stored_facts _ _ HInv Hst) as [Ham _].
  apply wp_bind, wp_refund_read; [done..|]. intros tx1 w1 HI1 HL1 E1.
  apply wp_bind, wp_refund_read; rewrite ?HL1; [done..|]. intros tx2 w2 HI2 HL2 E2.
  assert (∀ tx', norm_txn tx' = norm_txn tx → tx_ID tx' = tx_ID tx ∧
    tx_AmountCents tx' = tx_AmountCents tx ∧ tx_MerchantID tx' = mid ∧
    tx_Status tx' = TxStatusCompleted) as Hsame.
  { intros tx' E. destruct tx, tx'. by simplify_eq/=. }
  destruct (Hsame tx1 E1) as (I1 & A1 & M1 & C1), (Hsame tx2 E2) as (I2 & A2 & M2 & C2).
  apply wp_bind, (wp_refund_write ctx mid tx1 tx1 m); try done; [by left | | by rewrite HL2 | lia |].
  { unfold stored in *. by rewrite HL2, I1, E1. }
  intros w3 te t HI3 HL3. rewrite HL2 in HL3.
  apply wp_bind, (wp_refund_write ctx mid tx2 (set_Status TxStatusRefunded tx2)
    (set_Balance (m_BalanceCents m - tx_AmountCents tx) m)); try done; [by right | | | simpl; lia |].
  { rewrite HL3. unfold stored. simpl. rewrite I1, I2, lookup_insert_eq. f_equal.
    change (set_Status TxStatusRefunded (norm_txn tx1) = set_Status TxStatusRefunded (norm_txn tx2)).
    by rewrite E1, E2. }
  { rewrite HL3. simpl. rewrite M1, A1, lookup_insert_eq. do 2 f_equal. }
  intros w4 te' t' HI4 HL4. apply wp_ret. split; [done|]. rewrite HL4. simpl.
  rewrite M2, A2, lookup_insert_eq. unfold set_Balance. simpl. do 2 f_equal. lia.
Qed.
End theorems.
