(* ===== verification/Lifecycle.v ===== *)
(** * Lifecycle: the life of a transaction and its audit trail

    Two preorders on ledgers, and that every sequence of requests moves along
    them: statuses only follow the state machine, whatever fails; and when
    nothing fails, the audit events replay to the stored statuses. *)

From stdpp Require Import base tactics list gmap strings relations.
From S2P Require Import Prelude GoLib Domain Repository Resilience Bank Payment Accounting PaymentLogic PaymentSpecs PaymentOutcome PaymentTheorems.

Open Scope string_scope.
Open Scope Z_scope.

(** ** Statuses *)

Definition moves (from to : TransactionStatus) : Prop := CanTransition from to = true.

Lemma moves_terminal st st' : IsTerminal st = true → rtc moves st st' → st' = st.
Proof.
  intros Ht. destruct 1 as [|st st1 st2 Hm _]; [done|]. exfalso.
  unfold IsTerminal in Ht. apply CanTransition_edges in Hm. unfold edges in Hm.
  rewrite !elem_of_cons, elem_of_nil in Hm. destruct_or!; by simplify_eq/=.
Qed.

(** No transaction disappears or changes but for its status, statuses follow
    the state machine from PENDING on, and events and outbox entries are only
    added. *)
Record advances (L L' : Ledger) : Prop := {
  adv_old id t : l_txns L !! id = Some t →
    ∃ st, l_txns L' !! id = Some (set_Status st t) ∧ rtc moves (tx_Status t) st;
  adv_new id t : l_txns L !! id = None → l_txns L' !! id = Some t →
    rtc moves TxStatusPending (tx_Status t);
  adv_events : l_events L `prefix_of` l_events L';
  adv_outbox : l_outbox L `prefix_of` l_outbox L'
}.

#[export] Instance advances_preorder : PreOrder advances.
Proof.
  split.
  - intros L. split; [|congruence|done..]. intros id t Ht. exists (tx_Status t).
    by rewrite set_Status_id.
  - intros L1 L2 L3 [O1 N1 E1 B1] [O2 N2 E2 B2]. split; [| |by etrans..].
    + intros id t (st & H2 & Hst)%O1. apply O2 in H2 as (st' & H3 & Hst').
      exists st'. split; [exact H3 | by etrans].
    + intros id t Hn H3. destruct (l_txns L2 !! id) as [t2|] eqn:H2; [|by apply (N2 id)].
      pose proof (N1 id t2 Hn H2) as Hs. apply O2 in H2 as (st & H3' & Hst).
      rewrite H3 in H3'. injection H3' as ->. simpl. by etrans.
Qed.

Lemma advances_key_used key L L' : advances L L' → key_used key L → key_used key L'.
Proof.
  intros Ha (Hne & id & t & Ht & Hk). destruct (adv_old _ _ Ha id t Ht) as (st & Ht' & _).
  split; [done|]. by exists id, (set_Status st t).
Qed.

(** Where a transaction that is to be written stands. *)
Definition from_status (tx : Transaction) (L : Ledger) (st : TransactionStatus) : Prop :=
  (stored tx L ∧ tx_Status tx = st) ∨ (l_txns L !! tx_ID tx = None ∧ st = TxStatusPending).

Lemma advances_wrote tx st0 st evs obs L :
  from_status tx L st0 → rtc moves st0 st → advances L (wrote (set_Status st tx) evs obs L).
Proof.
  intros Hfrom Hst. split; simpl; [| |by eexists..]; intros id t.
  - destruct (decide (id = tx_ID tx)) as [->|Hne].
    + intros Ht. destruct Hfrom as [[Hs <-]|[Hn _]]; [|congruence].
      unfold stored in Hs. rewrite Hs in Ht. injection Ht as <-.
      exists st. by rewrite lookup_insert_eq.
    + rewrite lookup_insert_ne by done. intros Ht. exists (tx_Status t). by rewrite set_Status_id.
  - intros Hn. rewrite lookup_insert_Some. intros [[<- <-]|[_ Ht]]; [|congruence]. simpl.
    destruct Hfrom as [[Hs _]|[_ ->]]; [unfold stored in Hs; congruence | done].
Qed.

Lemma advances_wrote_same tx st evs obs L :
  from_status tx L st → tx_Status tx = st → advances L (wrote tx evs obs L).
Proof.
  intros Hf Hst. pose proof (advances_wrote tx st st evs obs L Hf) as H.
  rewrite <- Hst, set_Status_id in H. by apply H.
Qed.

Lemma advances_credited mid m d L L' : advances L L' → advances L (credited mid m d L').
Proof. by intros [? ? ? ?]. Qed.

Lemma moves_path :
  rtc moves TxStatusPending TxStatusProcessing ∧ rtc moves TxStatusPending TxStatusFailed ∧
  rtc moves TxStatusPending TxStatusCompleted ∧ rtc moves TxStatusCompleted TxStatusRefunded.
Proof.
  assert (moves TxStatusPending TxStatusProcessing) by done.
  assert (moves TxStatusProcessing TxStatusCompleted) by done.
  assert (moves TxStatusProcessing TxStatusFailed) by done.
  assert (moves TxStatusCompleted TxStatusRefunded) by done.
  split_and!; eauto using rtc_once, rtc_l.
Qed.

(** ** The audit trail *)

(** The status a trail of events ends in; none if an event does not start where
    the one before ended, or is not an allowed transition. *)
Fixpoint replay (cur : TransactionStatus) (evs : list TransactionEvent) : option TransactionStatus :=
  match evs with
  | [] => Some cur
  | e :: evs =>
    if bool_decide (ev_FromStatus e = cur) &&
       (if bool_decide (cur = "") then bool_decide (ev_ToStatus e = TxStatusPending)
        else CanTransition cur (ev_ToStatus e))
    then replay (ev_ToStatus e) evs else None
  end.

Lemma replay_app cur evs evs' :
  replay cur (evs ++ evs') = (replay cur evs ≫= λ st, replay st evs').
Proof. revert cur. induction evs as [|e evs IH]; intros cur; simpl; [done|]. by case_match. Qed.

Definition trail (id : string) (evs : list TransactionEvent) : list TransactionEvent :=
  filter (λ e, ev_TransactionID e = id) evs.

(** The empty string is the status of a transaction that does not exist. *)
Definition status_at (id : string) (L : Ledger) : TransactionStatus :=
  from_option tx_Status "" (l_txns L !! id).

(** The events added between two ledgers replay every transaction from its old
    status to its new one. *)
Definition audits (L L' : Ledger) : Prop :=
  ∃ evs, l_events L' = (l_events L ++ evs)%list ∧
    ∀ id, replay (status_at id L) (trail id evs) = Some (status_at id L').

#[export] Instance audits_preorder : PreOrder audits.
Proof.
  split.
  - intros L. exists []. by rewrite app_nil_r.
  - intros L1 L2 L3 (evs & E & H) (evs' & E' & H'). exists (evs ++ evs')%list.
    split; [by rewrite E', E, (assoc_L (++))|]. intros id. unfold trail.
    rewrite filter_app, replay_app. unfold trail in H, H'. by rewrite H; simpl.
Qed.

Lemma trail_own id evs : Forall (λ e, ev_TransactionID e = id) evs → trail id evs = evs.
Proof. induction 1 as [|e evs He _ IH]; [done|]. unfold trail in *. by rewrite filter_cons_True, IH. Qed.

Lemma trail_other id id' evs :
  id ≠ id' → Forall (λ e, ev_TransactionID e = id') evs → trail id evs = [].
Proof.
  intros Hne. induction 1 as [|e evs He _ IH]; [done|]. unfold trail in *.
  by rewrite filter_cons_False by congruence.
Qed.

Lemma audits_wrote tx evs obs L :
  Forall (λ e, ev_TransactionID e = tx_ID tx) evs →
  replay (status_at (tx_ID tx) L) evs = Some (tx_Status tx) → audits L (wrote tx evs obs L).
Proof.
  intros Hev Hre. exists evs. split; [done|]. intros id. unfold status_at at 2. simpl.
  destruct (decide (id = tx_ID tx)) as [->|Hne].
  - by rewrite trail_own, Hre, lookup_insert_eq.
  - by rewrite (trail_other id (tx_ID tx)), lookup_insert_ne by done.
Qed.

Lemma audits_credited mid m d L L' : audits L L' → audits L (credited mid m d L').
Proof. done. Qed.

#[export] Hint Resolve advances_credited audits_credited : ledger.

(** ** Requests *)

Section lifecycle.
Context {R : Type} `{!MerchantRepository R, !TransactionRepository R,
  !EventRepository R, !OutboxRepository R, !Database R,
  !RepositoryLaws R, !DatabaseLaws R}.
Variable env : Env.
Variable s : PaymentService R.
Abbreviation W := (World R).
Implicit Types w : W.

(** *** One request *)

Lemma payment_advances ctx alive tx m L k r L' :
  tx_Status tx = TxStatusPending → stored tx L →
  payment env s ctx alive tx m L k r L' → advances L L'.
Proof.
  intros Hp Hst Hpay. destruct moves_path as (P1 & P2 & P3 & _).
  assert (∀ st evs obs, rtc moves TxStatusPending st → advances L (wrote (set_Status st tx) evs obs L)) as Hw.
  { intros st evs obs. apply advances_wrote. by left. }
  destruct Hpay; unfold paid, failed, processing; try apply advances_credited; apply Hw;
    destruct_or?; subst; done || apply rtc_refl.
Qed.

Lemma creation_advances ctx alive input L o q k r L' :
  (∀ id, o = Some id → l_txns L !! id = None) →
  creation env s ctx alive input L o q k r L' → advances L L'.
Proof.
  intros Hid Hc.
  assert (∀ id t evs obs, o = Some id → advances L (wrote (new_txn input id t) evs obs L)) as Hw.
  { intros id t evs obs Ho. apply (advances_wrote_same _ TxStatusPending); [|done].
    right. split; [by apply Hid | done]. }
  destruct Hc as [| | | | |id t m k r L' _ _ _ Hpay]; try done; [by apply Hw|].
  etrans; [by apply (Hw id t [created_event (new_txn input id t)])|].
  by eapply payment_advances; [| |exact Hpay]; [|apply stored_wrote].
Qed.

Lemma refund_advances ctx tx m reason L e L' :
  stored tx L → tx_Status tx = TxStatusCompleted →
  refund env s ctx tx m reason L e L' → advances L L'.
Proof.
  intros Hst Hcomp Hr. destruct moves_path as (_ & _ & _ & P4).
  assert (∀ evs obs, advances L (wrote (set_Status TxStatusRefunded tx) evs obs L)) as Hw.
  { intros evs obs. apply (advances_wrote _ TxStatusCompleted); [by left | done]. }
  destruct Hr; unfold refunded; try case_match; try apply advances_credited; done || apply Hw.
Qed.

(** A step along a preorder of ledgers, for creations, refunds and reads. *)
Lemma wp_request_pre (Rel : relation Ledger) `{!PreOrder Rel} r w :
  (∀ ctx input o q k res L', r = ReqCreate ctx input →
     (∀ id, o = Some id → l_txns (ledger w) !! id = None) →
     creation env s ctx (λ q, live env s ctx q w) input (ledger w) o q k res L' → Rel (ledger w) L') →
  (∀ ctx mid id reason tx m e L', r = ReqRefund ctx mid id reason →
     stored tx (ledger w) → tx_Status tx = TxStatusCompleted →
     refund env s ctx tx m reason (ledger w) e L' → Rel (ledger w) L') →
  service_ok s → request_ok r → Inv w → fresh_ids env w →
  wp (run_request env s r) (λ _ w', Rel (ledger w) (ledger w')) w.
Proof.
  intros Hcreate Hrefund Hs Hok HInv Hfr.
  pose proof (λ H : reads r, wp_read_request env s r w H Hok HInv) as Hread.
  destruct r as [ctx input|ctx mid id reason| | | |];
    [| |wp_use (Hread I); intros ? ? (_ & _ & ->); reflexivity..]; apply wp_bind.
  - wp_use (wp_CreateTransaction env s ctx input w Hs HInv Hfr Hok). intros res w' Hpost.
    apply created_id in Hpost as (o & q & k & Hid & _ & Hc); [|done]. apply wp_ret.
    by eapply Hcreate.
  - wp_use (wp_RefundTransaction env s ctx mid id reason w HInv). intros res w' (_ & _ & Hr).
    apply wp_ret. destruct Hr; [reflexivity..|]. by eapply Hrefund.
Qed.

Lemma wp_request_advances r w :
  service_ok s → request_ok r → Inv w → fresh_ids env w →
  wp (run_request env s r) (λ _ w', advances (ledger w) (ledger w')) w.
Proof.
  intros Hs Hq HI Hf. apply (wp_request_pre advances); try done.
  - intros. by eapply creation_advances.
  - intros. by eapply refund_advances.
Qed.

Lemma wp_run_requests_pre (Rel : relation Ledger) `{!PreOrder Rel} (ok : Request → Prop) :
  service_ok s → ids_unique env →
  (∀ r w, ok r → request_ok r → Inv w → fresh_ids env w →
     wp (run_request env s r) (λ _ w', Rel (ledger w) (ledger w')) w) →
  ∀ rs w, Forall ok rs → Forall request_ok rs → Inv w → fresh_ids env w →
  wp (run_requests env s rs) (λ _ w', Rel (ledger w) (ledger w')) w.
Proof.
  intros Hs Hu Hstep rs. induction rs as [|r rs IH]; intros w Hok Hreq HInv Hfr; simpl.
  { by apply wp_ret. }
  apply Forall_cons in Hok as [Hr Hrs], Hreq as [Hq Hqs]. apply wp_bind.
  eapply wp_mono; [apply wp_and; [by apply Hstep | by apply wp_run_request]|].
  intros _ w1 [H1 (HI1 & Hfr1 & _)]. wp_use (IH w1); [done..|]. intros ? w2 H2. by etrans.
Qed.

(** C13 The life of a transaction follows the state machine: under any faults,
    cancellations and answers of the bank, with or without the database, no
    sequence of requests removes a transaction or changes anything of it but
    its status, statuses only move along the allowed transitions (from PENDING
    for a new transaction), FAILED and REFUNDED are final, and audit events
    and outbox entries are only appended. *)
Theorem requests_lifecycle rs w :
  service_ok s → ids_unique env → Forall request_ok rs → Inv w → fresh_ids env w →
  wp (run_requests env s rs) (λ _ w', advances (ledger w) (ledger w') ∧
    ∀ id t, l_txns (ledger w) !! id = Some t → IsTerminal (tx_Status t) = true →
      l_txns (ledger w') !! id = Some t) w.
Proof.
  intros Hs Hu Hok HInv Hfr.
  wp_use (wp_run_requests_pre advances (λ _, True) Hs Hu); try done; [|by apply Forall_true|].
  - intros r v _ Hq HIv Hfv. by apply wp_request_advances.
  - intros ? w' Ha. split; [done|]. intros id t Ht Hterm.
    destruct (adv_old _ _ Ha id t Ht) as (st & -> & Hst).
    by rewrite (moves_terminal _ _ Hterm Hst), set_Status_id.
Qed.

(** *** Audit trails of clean runs *)

Lemma status_stored tx L : stored tx L → status_at (tx_ID tx) L = tx_Status tx.
Proof. unfold stored, status_at. by intros ->. Qed.

Lemma creation_audits ctx alive input L o q k r L' :
  clean_run env ctx → (∀ id, o = Some id → l_txns L !! id = None) →
  creation env s ctx alive input L o q k r L' → audits L L'.
Proof.
  intros Hcl Hid Hc. pose proof (clean_faultless env ctx Hcl) as Hff.
  destruct Hc as [| | | | |id t m k r L' _ _ _ Hpay]; try done.
  assert (audits L (created (new_txn input id t) (s_db s || s_outbox s) L)) as Hnew.
  { apply audits_wrote; [by repeat constructor|]. unfold status_at. simpl. by rewrite Hid. }
  etrans; [exact Hnew|]. set (L1 := created _ _ _) in *.
  assert (status_at id L1 = TxStatusPending) as Hst.
  { apply (status_stored (new_txn input id t) L1), stored_wrote. }
  destruct Hpay; try done; unfold paid, failed, processing; try apply audits_credited;
    (apply audits_wrote; [by repeat constructor | simpl; by rewrite Hst]).
Qed.

Lemma refund_audits ctx tx m reason L e L' :
  clean_run env ctx → s_db s = true → stored tx L → tx_Status tx = TxStatusCompleted →
  refund env s ctx tx m reason L e L' → audits L L'.
Proof.
  intros Hcl Hdb Hst Hcomp Hr. destruct Hr; try done; [|by rewrite Hdb].
  apply audits_credited, audits_wrote; [by repeat constructor|].
  simpl. by rewrite (status_stored tx), Hcomp.
Qed.

Definition request_ctx (r : Request) : Ctx :=
  match r with
  | ReqCreate ctx _ | ReqRefund ctx _ _ _ | ReqGet ctx _ _ | ReqBalance ctx _ | ReqHistory ctx _ _
  | ReqList ctx _ _ => ctx
  end.

(** C14 The audit trail tells the truth: with the database, when no statement
    fails and no context ends, replaying the audit events that a sequence of
    requests recorded takes every transaction, existing or new, from its
    status before to its status after, each event starting where the one
    before ended and along an allowed transition; whatever the bank answered. *)
Theorem requests_audited rs w :
  s_db s = true → service_ok s → ids_unique env → Forall request_ok rs →
  Forall (λ r, clean_run env (request_ctx r)) rs → Inv w → fresh_ids env w →
  wp (run_requests env s rs) (λ _ w', ∃ evs,
    l_events (ledger w') = (l_events (ledger w) ++ evs)%list ∧
    ∀ id, replay (status_at id (ledger w)) (filter (λ e, ev_TransactionID e = id) evs)
      = Some (status_at id (ledger w'))) w.
Proof.
  intros Hdb Hs Hu Hok Hcl HInv Hfr.
  wp_use (wp_run_requests_pre audits (λ r, clean_run env (request_ctx r)) Hs Hu); try done.
  intros r v Hrc Hq HIv Hfv. apply (wp_request_pre audits); try done.
  - intros. subst. by eapply creation_audits.
  - intros. subst. by eapply refund_audits.
Qed.
End lifecycle.
