(* ===== verification/Announce.v ===== *)
(** * Announce: the transactional outbox, as a relation on ledgers

    With the database every payment that is created, completed or refunded is
    announced: the database transaction that writes the row also writes the
    entry of the outbox, so the one is never there without the other. *)

From stdpp Require Import base tactics list gmap strings.
From S2P Require Import Prelude GoLib Domain Repository Payment Accounting PaymentSpecs PaymentOutcome Lifecycle.

Open Scope string_scope.
Open Scope Z_scope.

(** An entry of type [ty] that names the transaction [id]. *)
Definition has_entry (ty id : string) (obs : list (string * RawMessage * Z)) : Prop :=
  ∃ p t, (ty, p, t) ∈ obs ∧ p !! "transaction_id" = Some (JStr id).

Definition announced (ty id : string) (L : Ledger) : Prop := has_entry ty id (l_outbox L).

(** The statuses that are reached in a database transaction, and the type of
    their announcement. *)
Definition announced_as (st : TransactionStatus) : option string :=
  if bool_decide (st = TxStatusCompleted) then Some "transaction.completed"
  else if bool_decide (st = TxStatusRefunded) then Some "transaction.refunded"
  else None.

(** From [L] to [L'] no entry disappears, and every new row and every change
    to COMPLETED or REFUNDED has its entry in [L']. *)
Record announces (L L' : Ledger) : Prop := {
  an_outbox : l_outbox L `prefix_of` l_outbox L';
  an_created id : l_txns L !! id = None → is_Some (l_txns L' !! id) →
    announced "transaction.created" id L';
  an_status id t' ty : l_txns L' !! id = Some t' → announced_as (tx_Status t') = Some ty →
    (∃ t, l_txns L !! id = Some t ∧ tx_Status t = tx_Status t') ∨ announced ty id L'
}.

Lemma announced_prefix ty id L L' :
  l_outbox L `prefix_of` l_outbox L' → announced ty id L → announced ty id L'.
Proof.
  intros [k E] (p & t & Hin & Hp). exists p, t. split; [|exact Hp].
  rewrite E. apply elem_of_app. by left.
Qed.

#[export] Instance announces_preorder : PreOrder announces.
Proof.
  split.
  - intros L. split; [done | intros id ->; by intros [] | intros id t ty Ht _; left; eauto].
  - intros L1 L2 L3 [O1 C1 S1] [O2 C2 S2]. split; [by etrans| |].
    + intros id Hn H3. destruct (l_txns L2 !! id) as [t2|] eqn:H2; [|by apply C2].
      eapply announced_prefix; [exact O2 | by apply C1; [|rewrite H2]].
    + intros id t3 ty H3 Hty. destruct (S2 id t3 ty H3 Hty) as [(t2 & H2 & E)|?]; [|by right].
      rewrite <- E in Hty |- *. destruct (S1 id t2 ty H2 Hty) as [?|Ha]; [by left|].
      right. by eapply announced_prefix.
Qed.

(** Writing a row. *)
Lemma announces_wrote tx evs obs L :
  (l_txns L !! tx_ID tx = None → has_entry "transaction.created" (tx_ID tx) obs) →
  (∀ ty, announced_as (tx_Status tx) = Some ty →
     (∃ t, l_txns L !! tx_ID tx = Some t ∧ tx_Status t = tx_Status tx) ∨ has_entry ty (tx_ID tx) obs) →
  announces L (wrote tx evs obs L).
Proof.
  intros Hc Hs.
  assert (∀ ty, has_entry ty (tx_ID tx) obs → announced ty (tx_ID tx) (wrote tx evs obs L)) as Hnew.
  { intros ty (p & t & Hin & Hp). exists p, t. split; [|exact Hp]. apply elem_of_app. by right. }
  split; simpl; [by eexists| |].
  - intros id Hn. rewrite lookup_insert_is_Some. intros [<-|[_ [t Ht]]]; [auto | congruence].
  - intros id t' ty. rewrite lookup_insert_Some. intros [[<- <-]|[_ Ht]] Hty; [|left; eauto].
    destruct (Hs ty Hty); auto.
Qed.

Lemma announces_credited mid m d L L' : announces L L' → announces L (credited mid m d L').
Proof. by intros [? ? ?]. Qed.

#[export] Hint Resolve announces_credited : ledger.

(** A status that needs no entry, of a row that was there. *)
Lemma announces_quiet tx st evs obs L :
  stored tx L → announced_as st = None → announces L (wrote (set_Status st tx) evs obs L).
Proof.
  intros Hst Hn. apply announces_wrote; simpl; [|congruence]. unfold stored in Hst. congruence.
Qed.

Lemma entry_of ty p t id : p !! "transaction_id" = Some (JStr id) → has_entry ty id [(ty, p, t)].
Proof. intros Hp. exists p, t. split; [by left | exact Hp]. Qed.

Lemma announces_created input id t L :
  announces L (created (new_txn input id t) true L).
Proof.
  apply announces_wrote; [|done]. intros _. apply entry_of. by simplify_map_eq.
Qed.

Lemma announces_completed tx m te t L : stored tx L → announces L (completed tx m te t true L).
Proof.
  intros Hst. unfold completed. apply announces_credited, announces_wrote.
  - simpl. unfold stored in Hst. congruence.
  - intros ty [= <-]. right. apply entry_of. by simplify_map_eq.
Qed.

Lemma announces_refund {R} env (s : PaymentService R) ctx tx m reason L e L' :
  s_db s = true → stored tx L → refund env s ctx tx m reason L e L' → announces L L'.
Proof.
  intros Hdb Hst Hr.
  assert (∀ te t, announces L (refunded s tx m reason te t L)) as Hrf.
  { intros te t. unfold refunded, refund_entry. rewrite Hdb.
    apply announces_credited, announces_wrote.
    - simpl. unfold stored in Hst. congruence.
    - intros ty [= <-]. right. apply entry_of. by simplify_map_eq. }
  destruct Hr; [apply Hrf | by rewrite Hdb | done | apply Hrf | congruence].
Qed.
