(* ===== verification/PaymentWitnesses.v ===== *)
(** * PaymentWitnesses: the hypotheses of the payment theorems can hold

    One concrete service over the SQL store, with one merchant and one
    completed transaction, at which each theorem of PaymentTheorems and
    Lifecycle applies. *)

From stdpp Require Import base tactics list gmap strings pretty.
From S2P Require Import Prelude GoLib Domain Repository Postgres Resilience Bank Payment Accounting PaymentLogic PaymentSpecs PaymentOutcome PaymentTheorems Lifecycle.

Open Scope string_scope.
Open Scope Z_scope.

#[local] Existing Instance sorted_range.
#[local] Instance plain_events : EventRepository PgStore := pg_event_repo None.

Definition maple : Merchant :=
  mkMerchant "m_001" "Maple Sports" "sk_live_maple_001" 1000 "CAD" MerchantActive 0 0.

Definition old_row : txn_row :=
  mkTxnRow "old" "m_001" 300 "CAD" TxStatusCompleted (Some "key-0") None ∅ 0 0.

(** The store in which the merchant is [m]. *)
Definition store_of (m : Merchant) : PgStore :=
  mkPgStore {[ "m_001" := m ]} {[ "old" := old_row ]} [] [] 1 1.
Definition old_txn : Transaction := scan_txn old_row.

Definition approving (_ : Ctx) (_ : BankChargeRequest) : Prog (World PgStore) charge_result :=
  ret (Some (mkBankChargeResponse true "APPROVED" ""), None).

Definition service_with (db : bool) : PaymentService PgStore :=
  NewPaymentService (mkPaymentService db true approving None (mkRetryConfig 3 0 0 0 None) 0 0).

Definition service0 : PaymentService PgStore := service_with true.

Definition env0 : Env :=
  mkEnv Z.of_nat (λ _, NoFault) (λ _, None) (λ _, true) (λ _ _, 0) (λ _ _, 0).

Definition world_of (m : Merchant) : World PgStore :=
  mkWorld 0 (store_of m) (NewCircuitBreaker 5 Second) [].
Definition world0 : World PgStore := world_of maple.

Lemma Inv_of m :
  bool_decide (m_ID m = "m_001" ∧ 0 ≤ m_BalanceCents m ≤ max_int64) = true → Inv (world_of m).
Proof.
  intros [Hid Hb]%bool_decide_eq_true. split; [split | split].
  - intros i j r r' k. simpl. by intros [<- <-]%lookup_singleton_Some [<- <-]%lookup_singleton_Some.
  - constructor.
  - constructor.
  - intros id m'. unfold ledger. simpl. rewrite lookup_fmap, fmap_Some.
    by intros (m0 & [<- <-]%lookup_singleton_Some & ->).
  - intros id t. unfold ledger. simpl. rewrite !lookup_fmap, fmap_Some.
    intros (r & [<- <-]%lookup_singleton_Some & ->).
    split; [done|]. split; [by vm_compute|]. split; [by eexists|].
    by apply (bool_decide_unpack _).
Qed.

Definition input0 : CreateTransactionInput := mkCreateTransactionInput "m_001" 250 "CAD" "key-1" "order".

Lemma clean0 : clean_run env0 Background.
Proof. by intros n. Qed.

Lemma faultless0 : faultless env0.
Proof. by intros n. Qed.

Lemma service0_ok db : service_ok (service_with db).
Proof. by split. Qed.

Lemma ids_unique0 : ids_unique env0.
Proof.
  intros n m E. unfold generateTransactionID in E. simpl in E.
  apply (inj (String.append "tx_")) in E. apply (inj pretty) in E. lia.
Qed.

Lemma fresh_ids0 : fresh_ids env0 world0.
Proof.
  intros n _. unfold ledger. simpl. rewrite lookup_fmap. 
  rewrite lookup_singleton_ne; [done|]. by vm_compute.
Qed.

Lemma Inv0 : Inv world0.
Proof. by apply (Inv_of maple). Qed.

Lemma stored0 : stored old_txn (ledger world0).
Proof. by vm_compute. Qed.

Lemma live0 q : live env0 service0 Background q world0.
Proof. by split. Qed.

Lemma key_unused0 : key_unused "key-1" (ledger world0).
Proof.
  right. intros id t. unfold ledger. simpl. rewrite lookup_fmap, fmap_Some.
  by intros (r & [<- <-]%lookup_singleton_Some & ->).
Qed.

Lemma keys_unique0 : keys_unique (ledger world0).
Proof.
  intros i j t t'. unfold ledger. simpl. rewrite !lookup_fmap, !fmap_Some.
  by intros (r & [<- <-]%lookup_singleton_Some & ->) (r' & [<- <-]%lookup_singleton_Some & ->).
Qed.

Definition requests0 : list Request :=
  [ReqCreate Background input0; ReqRefund Background "m_001" "old" "duplicate";
   ReqRefund Background "m_002" "old" ""; ReqList Background "m_001" (NewListParams 0 0)].

Lemma requests0_ok : Forall request_ok requests0.
Proof.
  unfold requests0. rewrite !Forall_cons, Forall_nil. cbn [request_ok input0 in_AmountCents].
  split; [by vm_compute|]. do 2 (split; [done|]). split; [by vm_compute | done].
Qed.

(** ** The theorems at these inputs *)

Lemma requests_conserve_money_witness :
  wp (run_requests env0 service0 requests0)
    (λ _ w', ∀ mid, surplus (ledger w') mid = surplus (ledger world0) mid) world0.
Proof.
  apply (requests_conserve_money env0 service0 requests0 world0);
    [done | apply service0_ok | apply ids_unique0 | apply requests0_ok | apply Inv0 | apply fresh_ids0].
Defined.

Lemma requests_keep_ledger_ok_witness :
  wp (run_requests env0 (service_with false) requests0) (λ _ w', ledger_ok (ledger w')) world0.
Proof.
  apply (requests_keep_ledger_ok env0 (service_with false) requests0 world0);
    [apply service0_ok | apply ids_unique0 | apply requests0_ok | apply Inv0 | apply fresh_ids0].
Defined.

Lemma requests_isolated_witness :
  wp (run_requests env0 service0 requests0) (λ _ w',
    l_merchants (ledger w') !! "m_009" = l_merchants (ledger world0) !! "m_009" ∧
    ∀ id t, tx_MerchantID t = "m_009" →
      (l_txns (ledger w') !! id = Some t ↔ l_txns (ledger world0) !! id = Some t)) world0.
Proof.
  apply (requests_isolated env0 service0 requests0 "m_009" world0);
    [apply service0_ok | apply ids_unique0 | apply requests0_ok | apply Inv0 | apply fresh_ids0 |].
  by repeat (apply Forall_cons; split).
Defined.

Lemma requests_lifecycle_witness :
  wp (run_requests env0 (service_with false) requests0) (λ _ w',
    advances (ledger world0) (ledger w') ∧
    ∀ id t, l_txns (ledger world0) !! id = Some t → IsTerminal (tx_Status t) = true →
      l_txns (ledger w') !! id = Some t) world0.
Proof.
  apply (requests_lifecycle env0 (service_with false) requests0 world0);
    [apply service0_ok | apply ids_unique0 | apply requests0_ok | apply Inv0 | apply fresh_ids0].
Defined.

Lemma requests_audited_witness :
  wp (run_requests env0 service0 requests0) (λ _ w', ∃ evs,
    l_events (ledger w') = (l_events (ledger world0) ++ evs)%list ∧
    ∀ id, replay (status_at id (ledger world0)) (filter (λ e, ev_TransactionID e = id) evs)
      = Some (status_at id (ledger w'))) world0.
Proof.
  apply (requests_audited env0 service0 requests0 world0);
    [done | apply service0_ok | apply ids_unique0 | apply requests0_ok | | apply Inv0 | apply fresh_ids0].
  repeat (apply Forall_cons; split; [apply clean0|]). apply Forall_nil. done.
Defined.

Lemma input0_amount : in_int64 (in_AmountCents input0).
Proof. by vm_compute. Qed.

Lemma CreateTransaction_success_witness :
  wp (CreateTransaction env0 service0 Background input0) (λ r w', r.2 = None → ∃ t, r.1 = Some t ∧
    ((in_IdempotencyKey input0 ≠ "" ∧ tx_IdempotencyKey t = in_IdempotencyKey input0 ∧
      stored t (ledger world0) ∧ ledger w' = ledger world0 ∧ w_charges w' = w_charges world0) ∨
     (approved service0 (set_Status TxStatusPending t) ∧
      settled_payment service0 input0 world0 t (ledger w')))) world0.
Proof.
  apply (CreateTransaction_success env0 service0 Background input0 world0);
    [apply service0_ok | apply Inv0 | apply fresh_ids0 | apply input0_amount].
Defined.

Lemma CreateTransaction_completes_witness :
  wp (CreateTransaction env0 service0 Background input0) (λ r w', ∃ t, r = (Some t, None) ∧
    tx_Status t = TxStatusCompleted ∧ settled_payment service0 input0 world0 t (ledger w')) world0.
Proof.
  apply (CreateTransaction_completes env0 service0 Background input0 maple world0);
    [apply service0_ok | apply Inv0 | apply fresh_ids0 | apply input0_amount | apply clean0 |
     apply live0 | apply key_unused0 | by vm_compute | by vm_compute | by vm_compute].
Defined.

Lemma CreateTransaction_refused_witness :
  let input := mkCreateTransactionInput "m_001" 0 "CAD" "key-1" "" in
  wp (CreateTransaction env0 service0 Background input) (λ r w',
    r = (None, Some ErrInvalidAmount) ∧ untouched world0 w') world0.
Proof.
  apply (CreateTransaction_refused env0 service0 Background _ ErrInvalidAmount world0);
    [apply service0_ok | apply Inv0 | apply fresh_ids0 | by vm_compute | apply clean0 |
     apply key_unused0 | by vm_compute].
Defined.

Lemma CreateTransaction_charges_witness :
  wp (CreateTransaction env0 service0 Background input0) (λ _ w', ∃ q k,
    w_charges w' = (w_charges world0 ++ replicate k q)%list ∧
    Z.of_nat k ≤ retry_attempts (s_retry service0) ∧ accounted service0 input0 world0 w' q k) world0.
Proof.
  apply (CreateTransaction_charges env0 service0 Background input0 world0);
    [apply service0_ok | apply Inv0 | apply fresh_ids0 | apply input0_amount].
Defined.

(** The client goes away at time 12, while the request is served. *)
Lemma CreateTransaction_cancelled_witness :
  let ctx := mkCtx (Some (12, Canceled)) in
  wp (CreateTransaction env0 service0 ctx input0) (λ _ w',
    w_charges w' ≠ w_charges world0 → concluded input0 world0 w') world0.
Proof.
  apply (CreateTransaction_cancelled env0 service0 _ input0 world0);
    [apply service0_ok | apply Inv0 | apply fresh_ids0 | apply input0_amount | apply faultless0].
Defined.

Lemma CreateTransaction_idempotent_witness :
  wp (CreateTransaction env0 service0 Background input0) (λ r1 w1, ∀ t, r1.1 = Some t →
    wp (CreateTransaction env0 service0 Background input0) (λ r2 w2,
      (∃ t', r2 = (Some t', None) ∧ norm_txn t' = norm_txn t) ∧
      ledger w2 = ledger w1 ∧ w_charges w2 = w_charges w1) w1) world0.
Proof.
  apply (CreateTransaction_idempotent env0 service0 Background input0 world0);
    [apply service0_ok | apply ids_unique0 | apply Inv0 | apply fresh_ids0 | apply input0_amount |
     apply clean0 | apply keys_unique0 | done].
Defined.

Lemma RefundTransaction_outcome_witness :
  wp (RefundTransaction env0 service0 Background "m_001" "old" "duplicate") (λ r w',
    match l_txns (ledger world0) !! "old" with
    | None => r = (None, Some ErrTransactionNotFound) ∧ untouched world0 w'
    | Some t =>
      if decide (tx_MerchantID t = "m_001") then
        if decide (tx_Status t = TxStatusCompleted) then
          ∃ tx m, norm_txn tx = t ∧ l_merchants (ledger world0) !! "m_001" = Some m ∧
            ((tx_AmountCents t ≤ m_BalanceCents m ∧ ∃ te to,
                r = (Some (set_Status TxStatusRefunded tx), None) ∧
                ledger w' = refunded service0 tx m "duplicate" te to (ledger world0)) ∨
             (m_BalanceCents m < tx_AmountCents t ∧ r = (None, Some ErrInsufficientFunds) ∧
                (s_db service0 = true → untouched world0 w')))
        else r = (None, Some (cannot_refund (tx_Status t))) ∧ untouched world0 w'
      else r = (None, Some ErrTransactionNotFound) ∧ untouched world0 w'
    end) world0.
Proof.
  apply (RefundTransaction_outcome env0 service0 Background "m_001" "old" "duplicate" world0);
    [apply Inv0 | apply clean0].
Defined.

Lemma RefundTransaction_atomic_witness :
  wp (RefundTransaction env0 service0 Background "m_001" "old" "duplicate") (λ r w',
    (ledger w' = ledger world0 ∧ is_Some r.2) ∨
    fully_refunded service0 "m_001" "old" "duplicate" (ledger world0) (ledger w')) world0.
Proof.
  apply (RefundTransaction_atomic env0 service0 Background "m_001" "old" "duplicate" world0);
    [apply Inv0 | done].
Defined.

Lemma refund_race_witness :
  wp (let! a1 := refund_read env0 Background "m_001" "old" in
      let! a2 := refund_read env0 Background "m_001" "old" in
      let! r1 := refund_write env0 service0 Background "first" a1 in
      let! r2 := refund_write env0 service0 Background "second" a2 in
      ret (r1.2, r2.2)) (λ r w', r = (None, None) ∧
        l_merchants (ledger w') !! "m_001" = Some (set_Balance (1000 - 2 * 300) maple)) world0.
Proof.
  apply (refund_race env0 service0 Background "m_001" old_txn maple "first" "second" world0);
    [apply Inv0 | apply clean0 | done | apply stored0 | done | done | by vm_compute | by vm_compute].
Defined.

(** The same store after the merchant has been paid out. *)
Definition drained : Merchant := set_Balance 100 maple.
Definition world1 : World PgStore := world_of drained.

Lemma Inv1 : Inv world1.
Proof. by apply (Inv_of drained). Qed.

Lemma refund_without_database_witness :
  wp (RefundTransaction env0 (service_with false) Background "m_001" "old" "duplicate") (λ r w1,
    r = (None, Some ErrInsufficientFunds) ∧ refunded_unpaid old_txn drained (ledger w1) ∧
    wp (RefundTransaction env0 (service_with false) Background "m_001" "old" "duplicate") (λ r' _,
      r' = (None, Some (cannot_refund TxStatusRefunded))) w1) world1.
Proof.
  apply (refund_without_database env0 (service_with false) Background "m_001" old_txn drained
    "duplicate" world1);
    [apply Inv1 | apply clean0 | done | by vm_compute | done | done | by vm_compute | by vm_compute].
Defined.
