(* ===== verification/Interleaving.v ===== *)
(** * Interleaving: requests that are served at the same time

    A request cut into the pieces between which other requests act on the
    store: its reads, each database transaction, the move to PROCESSING, the
    bank call.  The pieces one after the other are the request; a step of the
    server is one piece of any request in flight, or the arrival of one. *)

From stdpp Require Import base tactics list gmap strings.
From S2P Require Import Prelude GoLib Domain Repository Resilience Bank Payment PaymentOutcome PaymentTheorems.

Open Scope string_scope.
Open Scope Z_scope.

(** What a request in flight does next. *)
Inductive Task :=
| TaskCheck (ctx : Ctx) (input : CreateTransactionInput)
| TaskSave (ctx : Ctx) (input : CreateTransactionInput)
| TaskStart (ctx : Ctx) (tx : Transaction)
| TaskCharge (ctx : Ctx) (tx : Transaction)
| TaskSettle (ctx : Ctx) (tx : Transaction) (err : error)
| TaskFind (ctx : Ctx) (mid txID reason : string)
| TaskRefund (ctx : Ctx) (reason : string) (tx : Transaction)
| TaskRead (r : Request).

Section interleaving.
Context {R : Type} `{!MerchantRepository R, !TransactionRepository R,
  !EventRepository R, !OutboxRepository R, !Database R}.
Variable env : Env.
Variable s : PaymentService R.
Abbreviation W := (World R).
Implicit Types w : W.

(** ** The pieces of CreateTransaction *)

(** The idempotency check: an answer, or none to go on. *)
(* go: internal/service/payment.go 127-146 *)
Definition find_existing (ctx : Ctx) (input : CreateTransactionInput)
  : Prog W (option (option Transaction * error)) :=
  if bool_decide (in_IdempotencyKey input = "") then ret None
  else
    let! r := repo env ctx (λ ci, txns_GetByIdempotencyKey ci (in_IdempotencyKey input)) in
    match r with
    | Err err => ret (Some (None, Some (Errorf "idempotency check: " err)))
    | Ok (Some existing) =>
      if negb (matchesIdempotentRequest (Some existing) input) then
        ret (Some (None, Some (Wrap "" ErrDuplicateTransaction
          ": idempotency key reused with different request")))
      else ret (Some (Some existing, None))
    | Ok None => ret None
    end.

(** The checks of the merchant and the fields. *)
(* go: internal/service/payment.go 148-186 *)
Definition validate (ctx : Ctx) (input : CreateTransactionInput) : Prog W error :=
  let! r := repo env ctx (λ ci, merchants_GetByID ci (in_MerchantID input)) in
  match r with
  | Err err => ret (Some err)
  | Ok merchant =>
    if negb (IsActive merchant) then ret (Some ErrMerchantInactive)
    else if in_AmountCents input <=? 0 then ret (Some ErrInvalidAmount)
    else if s_maxTransactionCents s <? in_AmountCents input then ret (Some ErrAmountExceedsLimit)
    else if negb (bool_decide (in_Currency input = "CAD")) &&
            negb (bool_decide (in_Currency input = "USD")) then ret (Some ErrInvalidCurrency)
    else ret None
  end.

(* go: internal/service/payment.go 116-186 *)
Definition check (ctx : Ctx) (input : CreateTransactionInput)
  : Prog W (option (option Transaction * error)) :=
  check! contextError env (Some ctx) or err => ret (Some (None, Some err));
  let! o := find_existing ctx input in
  match o with
  | Some r => ret (Some r)
  | None => check! validate ctx input or err => ret (Some (None, Some err)); ret None
  end.

(* go: internal/service/payment.go 188-219 *)
Definition save (ctx : Ctx) (input : CreateTransactionInput) : Prog W (result goerror Transaction) :=
  let! t := now env in
  let! n := fresh_step in
  let tx := new_txn input (generateTransactionID env n) t in
  check! if s_db s then createInDBTransaction env ctx tx else createWithMocks env s ctx tx or err =>
    ret (Err err);
  ret (Ok tx).

(* go: internal/service/payment.go 298-307 *)
Definition start (ctx : Ctx) (tx : Transaction) : Prog W (Transaction * error) :=
  check! contextError env (Some ctx) or err => ret (tx, Some err);
  let! r := transition env s ctx tx TxStatusProcessing in
  match r with
  | (tx, Some err) => ret (tx, Some (Errorf "set processing status: " err))
  | (tx, None) => ret (tx, None)
  end.

(* go: internal/service/payment.go 309-312 *)
Definition charge (ctx : Ctx) (tx : Transaction) : Prog W error :=
  let! t := now env in
  callBank env s ctx (bankCallContext ctx t (s_bankTimeout s)) tx.

(* go: internal/service/payment.go 313-330 *)
Definition settle (ctx : Ctx) (tx : Transaction) (err : error) : Prog W (Transaction * error) :=
  match err with
  | Some err =>
    let! r := transition env s (postBankContext (Some ctx)) tx TxStatusFailed in
    match r with
    | (tx, Some transitionErr) => ret (tx, Some (Join err (Errorf "set failed status: " transitionErr)))
    | (tx, None) => ret (tx, Some err)
    end
  | None => completePayment env s (postBankContext (Some ctx)) tx
  end.

(** The pieces one after the other. *)
Definition create_pieces (ctx : Ctx) (input : CreateTransactionInput)
  : Prog W (option Transaction * error) :=
  let! o := check ctx input in
  match o with
  | Some r => ret r
  | None =>
    let! t := save ctx input in
    match t with
    | Err err => ret (None, Some err)
    | Ok tx =>
      let! r := start ctx tx in
      match r with
      | (tx, Some err) => ret (Some tx, Some err)
      | (tx, None) =>
        let! err := charge ctx tx in
        let! r := settle ctx tx err in
        ret (Some r.1, r.2)
      end
    end
  end.

Lemma create_unused_pieces ctx input w :
  create_unused env s ctx input w =
  (let! e := validate ctx input in
   match e with
   | Some err => ret (None, Some err)
   | None =>
     let! t := save ctx input in
     match t with
     | Err err => ret (None, Some err)
     | Ok tx => let! r := processPayment env s ctx tx in ret (Some r.1, r.2)
     end
   end) w.
Proof.
  unfold create_unused, validate, save, bind.
  destruct (repo _ _ _ w) as [[m|e] w1]; [|done].
  do 4 (case_match; [done|]). cbn [ret].
  destruct (now env w1) as [t w2]. destruct (fresh_step w2) as [n w3].
  unfold new_txn. set (tx := mkTransaction _ _ _ _ _ _ _ _ _ _).
  by destruct ((if s_db s then createInDBTransaction env ctx tx else createWithMocks env s ctx tx) w3)
    as [[e|] w4].
Qed.

Lemma process_pieces ctx tx w :
  processPayment env s ctx tx w =
  (let! r := start ctx tx in
   match r with
   | (tx, Some err) => ret (tx, Some err)
   | (tx, None) => let! err := charge ctx tx in settle ctx tx err
   end) w.
Proof.
  unfold processPayment, start, charge, settle, bind.
  destruct (contextError env (Some ctx) w) as [[e|] w1]; [done|].
  destruct (transition env s ctx tx TxStatusProcessing w1) as [[tx' [e|]] w2]; [done|]. cbn [ret].
  destruct (now env w2) as [t w3].
  by destruct (callBank env s ctx (bankCallContext ctx t (s_bankTimeout s)) tx' w3) as [[e|] w4].
Qed.

Lemma create_pieces_eq ctx input w : CreateTransaction env s ctx input w = create_pieces ctx input w.
Proof.
  unfold CreateTransaction, create_pieces, check, find_existing.
  assert (∀ v, create_unused env s ctx input v =
    (let! o := (check! validate ctx input or err => ret (Some (None, Some err)); ret None) in
     match o with
     | Some r => ret r
     | None => let! t := save ctx input in
       match t with
       | Err err => ret (None, Some err)
       | Ok tx =>
         let! r := start ctx tx in
         match r with
         | (tx, Some err) => ret (Some tx, Some err)
         | (tx, None) =>
           let! err := charge ctx tx in let! r := settle ctx tx err in ret (Some r.1, r.2)
         end
       end
     end) v) as Hun.
  { intros v. rewrite create_unused_pieces. unfold bind.
    destruct (validate ctx input v) as [[e|] v1]; [done|]. cbn [ret].
    destruct (save ctx input v1) as [[tx|e] v2]; [|done].
    rewrite process_pieces. unfold bind.
    destruct (start ctx tx v2) as [[tx' [e|]] v3]; [done|].
    destruct (charge ctx tx' v3) as [e v4]. by destruct (settle ctx tx' e v4) as [r v5]. }
  unfold bind in *. destruct (contextError env (Some ctx) w) as [[e|] w1]; [done|].
  case_bool_decide; cbn [ret].
  - rewrite Hun. by destruct (validate ctx input w1) as [[e|] w2].
  - destruct (repo env ctx _ w1) as [[[t|]|e] w2]; [by destruct (negb _)| |done].
    cbn [ret]. rewrite Hun. by destruct (validate ctx input w2) as [[e|] w3].
Qed.

(** ** Tasks *)

(** One piece, and what is left to do. *)
Definition run_task (t : Task) : Prog W (option Task) :=
  match t with
  | TaskCheck ctx input =>
    let! o := check ctx input in
    ret (match o with Some _ => None | None => Some (TaskSave ctx input) end)
  | TaskSave ctx input =>
    let! r := save ctx input in
    ret (match r with Ok tx => Some (TaskStart ctx tx) | Err _ => None end)
  | TaskStart ctx tx =>
    let! r := start ctx tx in
    ret (match r with (tx, None) => Some (TaskCharge ctx tx) | _ => None end)
  | TaskCharge ctx tx => let! err := charge ctx tx in ret (Some (TaskSettle ctx tx err))
  | TaskSettle ctx tx err => let! _ := settle ctx tx err in ret None
  | TaskFind ctx mid txID reason =>
    let! a := refund_read env ctx mid txID in
    ret (match a with Ok tx => Some (TaskRefund ctx reason tx) | Err _ => None end)
  | TaskRefund ctx reason tx => let! _ := refund_write env s ctx reason (Ok tx) in ret None
  | TaskRead r => let! _ := run_request env s r in ret None
  end.

Definition task_of (r : Request) : Task :=
  match r with
  | ReqCreate ctx input => TaskCheck ctx input
  | ReqRefund ctx mid txID reason => TaskFind ctx mid txID reason
  | _ => TaskRead r
  end.

Fixpoint run_alone (n : nat) (t : Task) : Prog W unit :=
  match n with
  | O => ret tt
  | S n => let! o := run_task t in match o with Some t => run_alone n t | None => ret tt end
  end.

(** A request that is not interrupted is its pieces. *)
Lemma run_alone_eq r w : run_alone 5 (task_of r) w = run_request env s r w.
Proof.
  assert (∀ r, run_alone 5 (TaskRead r) w = run_request env s r w) as Hread.
  { intros r'. cbn [run_alone run_task]. unfold bind. by destruct (run_request env s r' w) as [[] w1]. }
  destruct r as [ctx input|ctx mid txID reason| | | |]; [| |apply Hread..].
  - change (run_request env s (ReqCreate ctx input)) with
      (let! _ := CreateTransaction env s ctx input in ret tt).
    unfold bind at 1. rewrite create_pieces_eq. unfold create_pieces.
    do 2 (cbn [run_alone run_task task_of ret]; unfold bind).
    destruct (check ctx input w) as [[r|] w1]; [done|].
    do 2 (cbn [run_alone run_task ret]; unfold bind).
    destruct (save ctx input w1) as [[tx|e] w2]; [|done].
    do 2 (cbn [run_alone run_task ret]; unfold bind).
    destruct (start ctx tx w2) as [[tx' [e|]] w3]; [done|].
    do 2 (cbn [run_alone run_task ret]; unfold bind).
    destruct (charge ctx tx' w3) as [e w4].
    do 2 (cbn [run_alone run_task ret]; unfold bind). by destruct (settle ctx tx' e w4).
  - change (run_request env s (ReqRefund ctx mid txID reason)) with
      (let! _ := RefundTransaction env s ctx mid txID reason in ret tt).
    unfold bind at 1. rewrite refund_halves. do 2 (cbn [run_alone run_task task_of ret]; unfold bind).
    destruct (refund_read env ctx mid txID w) as [[tx|e] w1]; [|done].
    do 2 (cbn [run_alone run_task ret]; unfold bind).
    by destruct (refund_write env s ctx reason (Ok tx) w1).
Qed.

(** The transaction a payment in flight works on, and the one a refund in
    flight is for. *)
Definition payment_of (t : Task) : option string :=
  match t with
  | TaskStart _ tx | TaskCharge _ tx | TaskSettle _ tx _ => Some (tx_ID tx)
  | _ => None
  end.

Definition refund_of (t : Task) : option string :=
  match t with
  | TaskFind _ _ txID _ => Some txID
  | TaskRefund _ _ tx => Some (tx_ID tx)
  | _ => None
  end.

(** Requests arrive at any time, but two refunds of one transaction do not
    overlap; and any request in flight may do its next piece. *)
Inductive cstep : W * list Task → W * list Task → Prop :=
| cstep_arrive w ts r :
    request_ok r → (∀ id, refund_of (task_of r) = Some id → id ∉ omap refund_of ts) →
    cstep (w, ts) (w, task_of r :: ts)
| cstep_run w l t k :
    cstep (w, l ++ t :: k)%list
      ((run_task t w).2, l ++ option_list (run_task t w).1 ++ k)%list.

(** The [i]-th request in flight does its next piece. *)
Definition run_at (i : nat) (c : W * list Task) : W * list Task :=
  match c.2 !! i with
  | Some t => let r := run_task t c.1 in (r.2, take i c.2 ++ option_list r.1 ++ drop (S i) c.2)%list
  | None => c
  end.

Lemma run_at_csteps i c : rtc cstep c (run_at i c).
Proof.
  unfold run_at. destruct c as [w ts]; simpl. destruct (ts !! i) as [t|] eqn:E; [|done].
  apply rtc_once. rewrite <- (take_drop_middle ts i t E) at 1. apply cstep_run.
Qed.

(** The pieces a request still has before it. *)
Definition pieces_left (t : Task) : nat :=
  match t with
  | TaskCheck _ _ => 5
  | TaskSave _ _ => 4
  | TaskStart _ _ => 3
  | TaskCharge _ _ | TaskFind _ _ _ _ => 2
  | TaskSettle _ _ _ | TaskRefund _ _ _ | TaskRead _ => 1
  end.

Lemma run_task_progress t w t' : (run_task t w).1 = Some t' → (pieces_left t' < pieces_left t)%nat.
Proof.
  destruct t; simpl; unfold bind;
    repeat (case_match; simpl; try done); intros [= <-]; simpl; lia.
Qed.

(** A request alone runs to its end, whoever else is in flight. *)
Lemma run_alone_csteps n : ∀ t w ts,
  (pieces_left t ≤ n)%nat → rtc cstep (w, t :: ts) ((run_alone n t w).2, ts).
Proof.
  induction n as [|n IH]; intros t w ts Hn; [destruct t; simpl in Hn; lia|].
  eapply rtc_l; [apply (cstep_run w [] t ts)|]. cbn [run_alone]. unfold bind.
  pose proof (run_task_progress t w) as Hp. destruct (run_task t w) as [[t'|] w']; simpl.
  - apply IH. specialize (Hp t' eq_refl). lia.
  - done.
Qed.

(** Requests that are served one after the other are one interleaving. *)
Lemma run_requests_csteps rs : ∀ w ts,
  Forall request_ok rs → omap refund_of ts = [] →
  rtc cstep (w, ts) ((run_requests env s rs w).2, ts).
Proof.
  induction rs as [|r rs IH]; intros w ts Hok Hts; [done|].
  apply Forall_cons in Hok as [Hr Hrs]. cbn [run_requests]. unfold bind.
  eapply rtc_l; [apply (cstep_arrive w ts r); [done|rewrite Hts; intros; apply not_elem_of_nil]|].
  etrans; [apply (run_alone_csteps 5); destruct r; simpl; lia|].
  rewrite run_alone_eq. destruct (run_request env s r w) as [[] w1]. by apply IH.
Qed.
End interleaving.
