(* ===== verification/InterleavingSafety.v ===== *)
(** * InterleavingSafety: what requests served at the same time preserve

    What each piece of a request in flight does to the ledger, what it may
    rely on while others run, and the invariant that every interleaving of any
    number of requests preserves. *)

From stdpp Require Import base tactics list gmap strings.
From S2P Require Import Prelude GoLib Domain Repository Postgres Resilience Bank Payment Accounting PaymentLogic PaymentSpecs PaymentOutcome PaymentTheorems Lifecycle Announce PaymentWitnesses Interleaving.

Open Scope string_scope.
Open Scope Z_scope.

(** ** What every piece preserves *)

Section safety.
Context {R : Type} `{!MerchantRepository R, !TransactionRepository R,
  !EventRepository R, !OutboxRepository R, !Database R,
  !RepositoryLaws R, !DatabaseLaws R, !UniqueLaws R}.
Variable env : Env.
Variable s : PaymentService R.
Hypothesis db : s_db s = true.
Hypothesis s_ok : service_ok s.
Hypothesis unique : ids_unique env.
Abbreviation W := (World R).
Implicit Types w : W.

(** What a request in flight knows about the ledger. *)
Definition owns (L : Ledger) (t : Task) : Prop :=
  match t with
  | TaskCheck _ input => in_int64 (in_AmountCents input)
  | TaskSave _ input =>
    0 < in_AmountCents input ≤ max_int64 ∧ (in_Currency input = "CAD" ∨ in_Currency input = "USD") ∧
    is_Some (l_merchants L !! in_MerchantID input)
  | TaskStart _ tx => stored tx L ∧ tx_Status tx = TxStatusPending
  | TaskCharge _ tx | TaskSettle _ tx _ => stored tx L ∧ tx_Status tx = TxStatusProcessing
  | TaskFind _ _ _ _ => True
  | TaskRefund _ _ tx => tx_Status tx = TxStatusCompleted → stored tx L
  | TaskRead r => reads r ∧ request_ok r
  end.

(** At most the row [o] changed, and no merchant disappeared. *)
Record moved (o : option string) (L L' : Ledger) : Prop := {
  mv_txns i : o ≠ Some i → l_txns L' !! i = l_txns L !! i;
  mv_merchants i : is_Some (l_merchants L !! i) → is_Some (l_merchants L' !! i)
}.

(** The row that [t] may change: its own, a new one, or the completed one it
    refunds. *)
Definition may_move (t : Task) (L : Ledger) (id : string) : Prop :=
  payment_of t = Some id ∨ l_txns L !! id = None ∨
  (refund_of t = Some id ∧ ∃ row, l_txns L !! id = Some row ∧ tx_Status row = TxStatusCompleted).

(** The effect of a piece on the ledger. *)
Record safe_step (L L' : Ledger) : Prop := {
  ss_money : money_eq L' L;
  ss_keys : keys_unique L → keys_unique L';
  ss_advances : advances L L';
  ss_announces : announces L L'
}.

#[export] Instance safe_step_preorder : PreOrder safe_step.
Proof.
  split; [by intros L|]. intros L1 L2 L3 [M1 K1 A1 N1] [M2 K2 A2 N2].
  split; [by rewrite M2, M1 | auto | by etrans | by etrans].
Qed.

Record task_post (t : Task) w (o : option Task) w' : Prop := {
  tp_inv : Inv w';
  tp_fresh : fresh_ids env w';
  tp_step : safe_step (ledger w) (ledger w');
  tp_moved : ∃ oid, moved oid (ledger w) (ledger w') ∧ ∀ id, oid = Some id → may_move t (ledger w) id;
  tp_next t' : o = Some t' → owns (ledger w') t' ∧ refund_of t' = refund_of t ∧
    ∀ id, payment_of t' = Some id → payment_of t = Some id ∨ l_txns (ledger w) !! id = None
}.

Lemma moved_refl L : moved None L L.
Proof. by split. Qed.

Lemma fresh_later w w' :
  fresh_ids env w → (w_step w ≤ w_step w')%nat → ledger w' = ledger w → fresh_ids env w'.
Proof. intros Hf Hle HL n Hn. rewrite HL. apply Hf. lia. Qed.

(** A piece that only read. *)
Lemma post_idle t w o w' :
  fresh_ids env w → Inv w' → (w_step w ≤ w_step w')%nat → ledger w' = ledger w →
  (∀ t', o = Some t' → owns (ledger w) t' ∧ refund_of t' = refund_of t ∧ payment_of t' = payment_of t) →
  task_post t w o w'.
Proof.
  intros Hf HI Hle HL Hn. split; [done | by eapply fresh_later | by rewrite HL | |].
  - exists None. rewrite HL. split; [apply moved_refl | done].
  - intros t' Ht. rewrite HL. destruct (Hn t' Ht) as (? & ? & Hp). split_and!; [done..|].
    rewrite Hp. auto.
Qed.

Lemma touched_moved tx L L' : ledger_ok L' → touched tx L L' → moved (Some (tx_ID tx)) L L'.
Proof.
  intros Hok (st & Ht & Hm). split.
  - intros i Hne. rewrite Ht, lookup_insert_ne; [done | congruence].
  - intros i Hi. destruct (decide (i = tx_MerchantID tx)) as [->|]; [|by rewrite Hm].
    destruct (ok_txn _ Hok (tx_ID tx) (norm_txn (set_Status st tx))) as (_ & _ & H & _);
      [by rewrite Ht, lookup_insert_eq | exact H].
Qed.

Lemma touched_stored_keys tx L L' :
  stored tx L → touched tx L L' → keys_unique L → keys_unique L'.
Proof.
  intros Hst (st & Ht & _) Hu i j t1 t2. rewrite Ht, !lookup_insert_Some.
  intros [[<- <-]|[? H1]] [[<- <-]|[? H2]] Heq Hne; try done; [| |by apply (Hu i j t1 t2)];
    simpl in Heq, Hne.
  - by apply (Hu _ j _ t2 Hst H2).
  - by apply (Hu i _ t1 _ H1 Hst).
Qed.

(** A piece that changed the row it owns. *)
Lemma post_touched t tx w o w' :
  Inv w' → fresh_ids env w → (w_step w ≤ w_step w')%nat → stored tx (ledger w) →
  touched tx (ledger w) (ledger w') → money_eq (ledger w') (ledger w) →
  advances (ledger w) (ledger w') → announces (ledger w) (ledger w') →
  may_move t (ledger w) (tx_ID tx) →
  (∀ t', o = Some t' → owns (ledger w') t' ∧ refund_of t' = refund_of t ∧ payment_of t' = payment_of t) →
  task_post t w o w'.
Proof.
  intros HI Hf Hle Hst Ht Hm Ha Han Hmay Hn. split; [done | | | |].
  - intros n Hn'. destruct Ht as (st & -> & _). rewrite lookup_insert_ne; [apply Hf; lia|].
    intros E. pose proof (Hf n) as Hno. rewrite <- E, Hst in Hno. by specialize (Hno ltac:(lia)).
  - split; [done | by apply (touched_stored_keys tx) | done | done].
  - exists (Some (tx_ID tx)). split; [by apply touched_moved; [apply HI|]|]. by intros id [= <-].
  - intros t' E. destruct (Hn t' E) as (? & ? & Hp). split_and!; [done..|]. rewrite Hp. auto.
Qed.

(** *** The pieces *)

Lemma wp_check ctx input w :
  Inv w → in_int64 (in_AmountCents input) →
  wp (check env s ctx input) (λ o w', Inv w' ∧ frame w w' ∧ ledger w' = ledger w ∧
    (o = None → owns (ledger w) (TaskSave ctx input))) w.
Proof.
  intros HI Ham. unfold check.
  apply wp_bind, (wp_contextError_Inv env _ _ _ HI). intros e w1 HI1 Hf1 HL1 _.
  destruct e as [e|]; [by apply wp_ret|]. apply wp_bind.
  assert (∀ v, Inv v → frame w v → ledger v = ledger w →
    wp (check! validate env s ctx input or err => ret (Some (None, Some err));
        ret (None : option (option Transaction * error)))
      (λ o w', Inv w' ∧ frame w w' ∧ ledger w' = ledger w ∧
        (o = None → owns (ledger w) (TaskSave ctx input))) v) as Hval.
  { intros v HIv Hfv HLv. unfold validate. apply wp_bind, wp_bind, wp_merchant_GetByID; [done|].
    intros a w' HI' Hf' HL' Ha.
    assert (Inv w' ∧ frame w w' ∧ ledger w' = ledger w) as (? & ? & ?)
      by (split_and!; [done | by etrans | congruence]).
    destruct a as [m|e]; [|by apply wp_ret, wp_ret].
    destruct (negb (IsActive m)); [by apply wp_ret, wp_ret|].
    destruct (Z.leb_spec (in_AmountCents input) 0); [by apply wp_ret, wp_ret|].
    destruct (_ <? _); [by apply wp_ret, wp_ret|].
    destruct (negb _ && negb _) eqn:Ec; [by apply wp_ret, wp_ret|]. apply wp_ret, wp_ret.
    split_and!; [done..|]. intros _. split_and!; [lia | int64 | |].
    - apply andb_false_iff in Ec as [Ec|Ec]; apply negb_false_iff, bool_decide_eq_true in Ec; auto.
    - rewrite <- HLv, Ha. by eexists. }
  unfold find_existing. case_bool_decide as Hk; [apply wp_ret; by apply Hval|].
  apply wp_bind, wp_GetByIdempotencyKey; [done..|]. intros a w2 HI2 Hf2 HL2 _.
  assert (frame w w2 ∧ ledger w2 = ledger w) as [? ?] by (split; [by etrans | congruence]).
  destruct a as [[t|]|e]; [destruct (negb _)| |]; apply wp_ret; [by apply wp_ret..| |by apply wp_ret].
  by apply Hval.
Qed.

(** A key that is in use stops the INSERT. *)
Lemma wp_create_duplicate ctx tx i t w :
  Inv w → tx_IdempotencyKey tx ≠ "" → l_txns (ledger w) !! i = Some t →
  tx_IdempotencyKey t = tx_IdempotencyKey tx →
  wp (createInDBTransaction env ctx tx) (λ e w', Inv w' ∧ frame w w' ∧ ledger w' = ledger w ∧ is_Some e) w.
Proof.
  intros HI Hne Ht Hk. unfold createInDBTransaction.
  apply (wp_withTransaction env ctx _ (λ _, False) (λ _, True)); [done | |].
  - intros w1 HI1 Hf1 HL1. apply wp_bind. unfold repo, bind, fresh_step, wp at 1. simpl.
    pose proof (txn_Create_duplicate_law (call_info env ctx (w_step w1)) tx i t (w_repo w1)
      (proj1 HI1) (proj2 HI1) Hne) as Hd.
    assert (l_txns (view (w_repo w1)) !! i = Some t) as Ht1 by (change (l_txns (ledger w1) !! i = Some t); by rewrite HL1).
    specialize (Hd Ht1 Hk). unfold wp in Hd. destruct (txns_Create _ _ _) as [e r'].
    destruct Hd as (Hg & [e' ->] & Hv). apply wp_ret. split_and!; [|split_and!; simpl; try done; lia | done].
    split; [done|]. unfold ledger. simpl. rewrite Hv. apply HI1.
  - intros e w' HI' Hf' He. destruct e as [e|]; [|done]. split_and!; [done..| |by eexists].
    by destruct He as [[? _]|[_ []]].
Qed.

Lemma same_repo w w' : w_repo w' = w_repo w → Inv w → Inv w' ∧ ledger w' = ledger w.
Proof.
  intros Hr HI. assert (ledger w' = ledger w) as HL by (unfold ledger; by rewrite Hr).
  split; [|done]. split; [rewrite Hr | rewrite HL]; apply HI.
Qed.

(** The INSERT of a new payment, whose id was drawn at step [k]. *)
Lemma post_created ctx input id t k w o w' :
  Inv w' → fresh_ids env w → id = generateTransactionID env k →
  (w_step w ≤ k < w_step w')%nat → key_unused (in_IdempotencyKey input) (ledger w) →
  ledger w' = created (new_txn input id t) true (ledger w) →
  (∀ t', o = Some t' → t' = TaskStart ctx (new_txn input id t)) →
  task_post (TaskSave ctx input) w o w'.
Proof.
  intros HI Hf -> Hk Hkey HL Ho. set (id := generateTransactionID env k) in *.
  assert (l_txns (ledger w) !! id = None) as Hid by (apply Hf; lia).
  assert (touched (new_txn input id t) (ledger w) (ledger w')) as Htt
    by (rewrite HL; apply touched_wrote_same).
  split; [done | | | |].
  - intros n Hn. destruct Htt as (st & -> & _). rewrite lookup_insert_ne; [apply Hf; lia|].
    intros E. simpl in E. apply unique in E. lia.
  - split; [rewrite HL; apply money_wrote; [done|]; simpl; by rewrite Hid | | |
      rewrite HL; apply announces_created].
    + intros Hku. by apply (touched_keys_unique input id t (ledger w)).
    + rewrite HL. apply (advances_wrote_same _ TxStatusPending); [by right | done].
  - exists (Some id). split; [by apply (touched_moved (new_txn input id t)); [apply HI|]|].
    intros ? [= <-]. right. by left.
  - intros t' ->%Ho. split_and!; [split; [rewrite HL; apply stored_wrote | done] | done |].
    intros ? [= <-]. by right.
Qed.

Lemma key_unused_or key L :
  key_unused key L ∨ (key ≠ "" ∧ ∃ i t, l_txns L !! i = Some t ∧ tx_IdempotencyKey t = key).
Proof.
  destruct (decide (key ≠ "" ∧ map_Exists (λ _ t', tx_IdempotencyKey t' = key) (l_txns L)))
    as [[Hne (i & t & Hi)]|Hno]; [by right; eauto|]. left.
  destruct (decide (key = "")) as [|Hne]; [by left|]. right. intros i t Hi Hk. apply Hno.
  split; [done|]. by exists i, t.
Qed.

Lemma wp_save_task ctx input w :
  Inv w → fresh_ids env w → owns (ledger w) (TaskSave ctx input) →
  wp (run_task env s (TaskSave ctx input)) (task_post (TaskSave ctx input) w) w.
Proof.
  intros HI Hf (Ham & Hcur & Hmer). simpl. unfold save.
  apply wp_bind, wp_bind, wp_now. intros t w1 Hf1 Hr1.
  apply wp_bind. assert (fresh_step w1 = (w_step w1, set_step (S (w_step w1)) w1)) as Estep by done.
  unfold wp at 1. rewrite Estep. set (w2 := set_step (S (w_step w1)) w1).
  assert (frame w1 w2) as Hf2 by (split_and!; simpl; try done; lia).
  assert (w_repo w2 = w_repo w) as Hr2 by done.
  assert (w_step w1 < w_step w2)%nat as Hdrawn by (simpl; lia). clearbody w2.
  apply frame_step in Hf1. apply (same_repo w w2) in Hr2 as [HI2 HL2]; [|done].
  set (id := generateTransactionID env (w_step w1)). set (tx := new_txn input id t). rewrite db.
  assert (∀ w', Inv w' → frame w2 w' → ledger w' = ledger w →
    task_post (TaskSave ctx input) w None w') as Hidle.
  { intros w' HI' Hf' HL'. apply post_idle; [done..| | done | done]. apply frame_step in Hf'. lia. }
  apply wp_bind. destruct (key_unused_or (in_IdempotencyKey input) (ledger w))
    as [Hkey|[Hne (i & t' & Hi & Hk)]].
  2:{ wp_use (wp_create_duplicate ctx tx i t' w2 HI2 Hne); [by rewrite HL2 | done |].
      intros e w3 (HI3 & Hf3 & HL3 & [e' ->]). apply wp_ret, wp_ret, Hidle; congruence. }
  apply wp_createInDBTransaction; [done | |].
  { rewrite HL2. split; simpl; [by apply Hf | done..|]. unfold valid_status, statuses. set_solver. }
  rewrite HL2. intros e w3 HI3 Hf3%frame_step He.
  assert (∀ o, ledger w3 = created tx true (ledger w) →
    (∀ t', o = Some t' → t' = TaskStart ctx tx) → task_post (TaskSave ctx input) w o w3) as Hnew.
  { intros o HL3 Ho. apply (post_created ctx input id t (w_step w1)); try done. lia. }
  destruct e as [e|]; [destruct He as [_ [HL3|HL3]]|]; apply wp_ret, wp_ret; [|by apply Hnew|].
  - apply post_idle; [done..| lia | done | done].
  - apply Hnew; [done|]. by intros ? [= <-].
Qed.

(** A move of the status of the payment in flight that settles nothing. *)
Lemma post_wrote t tx st evs obs w o w' :
  Inv w' → fresh_ids env w → (w_step w ≤ w_step w')%nat → stored tx (ledger w) →
  tx_Status tx ≠ TxStatusCompleted → announced_as st = None → rtc moves (tx_Status tx) st →
  ledger w' = wrote (set_Status st tx) evs obs (ledger w) → payment_of t = Some (tx_ID tx) →
  (∀ t', o = Some t' → owns (ledger w') t' ∧ refund_of t' = refund_of t ∧ payment_of t' = payment_of t) →
  task_post t w o w'.
Proof.
  intros HI Hf Hle Hst Hn1 Hn2 Hm HL Hp Ho. apply (post_touched t tx); [done..| | | | | by left | done];
    rewrite HL; [apply touched_wrote | | | by apply announces_quiet].
  - apply money_wrote; [by destruct (decide (st = TxStatusCompleted)) as [->|]|]. simpl. rewrite Hst. by intros ? [= <-].
  - apply (advances_wrote _ (tx_Status tx)); [by left | done].
Qed.

Lemma wp_start_task ctx tx w :
  Inv w → fresh_ids env w → owns (ledger w) (TaskStart ctx tx) →
  wp (run_task env s (TaskStart ctx tx)) (task_post (TaskStart ctx tx) w) w.
Proof.
  intros HI Hf [Hst Hp]. simpl. unfold start. apply wp_bind, wp_bind, wp_contextError.
  intros e w1 Hf1%frame_step Hr1 _. apply (same_repo w w1) in Hr1 as [HI1 HL1]; [|done].
  destruct e as [e|]; [by apply wp_ret, wp_ret, post_idle|].
  destruct moves_path as (P1 & P2 & _ & _).
  apply wp_bind, wp_start; [done | done | by rewrite HL1 |].
  rewrite HL1. intros [tx' [e|]] w2 HI2 Hf2%frame_step He; apply wp_ret, wp_ret.
  - destruct He as (-> & _ & st & evs & obs & Hs & HL2).
    apply (post_wrote _ tx st evs obs); [done..| lia | exact Hst | by rewrite Hp | by destruct Hs as [-> | ->] | |
      exact HL2 | done | done].
    rewrite Hp. by destruct Hs as [-> | ->]; [apply rtc_refl|].
  - destruct He as (-> & te & HL2).
    eapply (post_wrote _ tx TxStatusProcessing); [done..| lia | exact Hst | by rewrite Hp | done |
      by rewrite Hp | exact HL2 | done |].
    intros ? [= <-]. split_and!; [split; [|done] | done..]. rewrite HL2.
    apply (stored_wrote (set_Status TxStatusProcessing tx)).
Qed.

Lemma wp_charge_task ctx tx w :
  Inv w → fresh_ids env w → owns (ledger w) (TaskCharge ctx tx) →
  wp (run_task env s (TaskCharge ctx tx)) (task_post (TaskCharge ctx tx) w) w.
Proof.
  intros HI Hf Ho. simpl. unfold charge. apply wp_bind, wp_bind, wp_now.
  intros t w1 Hf1%frame_step Hr1.
  wp_use (wp_callBank env s ctx (bankCallContext ctx t (s_bankTimeout s)) tx w1 s_ok).
  intros e w2 (k & _ & (Hr2 & _ & Hle) & _). apply wp_ret.
  destruct (same_repo w w2) as [HI2 HL2]; [congruence | done |].
  apply post_idle; [done..| lia | done |]. by intros ? [= <-].
Qed.

Lemma wp_settle_task ctx tx err w :
  Inv w → fresh_ids env w → owns (ledger w) (TaskSettle ctx tx err) →
  wp (run_task env s (TaskSettle ctx tx err)) (task_post (TaskSettle ctx tx err) w) w.
Proof.
  intros HI Hf [Hst Hp]. simpl. unfold settle. apply wp_bind. destruct err as [err|].
  - apply wp_bind, wp_transition; [done..|]. intros tx' e w1 HI1 Hf1%frame_step He.
    assert (∃ st evs obs, (st = TxStatusProcessing ∨ st = TxStatusFailed) ∧
      ledger w1 = wrote (set_Status st tx) evs obs (ledger w)) as (st & evs & obs & Hs & HL).
    { destruct e as [e|]; [|destruct He as (_ & _ & te & t & ->); eauto 10].
      destruct He as (_ & (st & evs & obs & Hs & ->) & _). exists st, evs, obs. split; [|done].
      rewrite Hp in Hs. tauto. }
    assert (task_post (TaskSettle ctx tx (Some err)) w None w1).
    { apply (post_wrote _ tx st evs obs); try done; rewrite ?Hp; try done;
        [by destruct Hs as [-> | ->]|]. destruct Hs as [-> | ->]; [done|]. by apply rtc_once. }
    by destruct e as [e|]; apply wp_ret, wp_ret.
  - destruct (stored_facts _ _ HI Hst) as [_ [m Hm]].
    apply (wp_completePayment env s _ tx m); [done..|]. intros tx' e w1 HI1 Hf1%frame_step He.
    apply wp_ret. assert (ledger w1 = ledger w ∨
      ∃ te t, ledger w1 = completed tx m te t true (ledger w)) as [HL|(te & t & HL)].
    { rewrite db in He. destruct e as [e|]; [|by right; apply He].
      destruct He as (_ & [[? _]|[(_ & _ & ?)|(_ & ? & _)]]); auto. done. }
    + by apply post_idle.
    + apply (post_touched _ tx); [done..| | | | | by left | done]; rewrite HL;
        [..|by apply announces_completed]; unfold completed.
      * auto with ledger.
      * apply money_credited; [done..|]. rewrite (contrib_not_completed _ tx) by by rewrite Hp.
        exact (contrib_completed (set_Status TxStatusCompleted tx) eq_refl).
      * apply advances_credited, (advances_wrote _ TxStatusProcessing); [by left|]. by apply rtc_once.
Qed.

Lemma wp_find_task ctx mid txID reason w :
  Inv w → fresh_ids env w →
  wp (run_task env s (TaskFind ctx mid txID reason)) (task_post (TaskFind ctx mid txID reason) w) w.
Proof.
  intros HI Hf. simpl. unfold refund_read. apply wp_bind, wp_bind, wp_contextError.
  intros e w1 Hf1%frame_step Hr1 _. apply (same_repo w w1) in Hr1 as [HI1 HL1]; [|done].
  destruct e as [e|]; [by apply wp_ret, wp_ret, post_idle|].
  apply wp_ownedTransaction; [done|]. rewrite HL1. intros a w2 HI2 Hf2%frame_step HL2 Ha.
  apply wp_ret. destruct a as [tx|e]; (apply post_idle; [done..| lia | done |]).
  - intros ? [= <-]. destruct Ha as (<- & Hst & _). by split_and!; [intros _| |].
  - done.
Qed.

Lemma CanTransition_from_refund st : CanTransition st TxStatusRefunded = true → st = TxStatusCompleted.
Proof.
  intros H%CanTransition_edges. unfold edges in H.
  rewrite !elem_of_cons, elem_of_nil in H. destruct_or!; by simplify_eq.
Qed.

Lemma wp_refund_task ctx reason tx w :
  Inv w → fresh_ids env w → owns (ledger w) (TaskRefund ctx reason tx) →
  wp (run_task env s (TaskRefund ctx reason tx)) (task_post (TaskRefund ctx reason tx) w) w.
Proof.
  intros HI Hf Ho. simpl. apply wp_bind. unfold refund_write.
  destruct (CanTransition (tx_Status tx) TxStatusRefunded) eqn:Hto; cbn [negb];
    [|by apply wp_ret, wp_ret, post_idle].
  apply CanTransition_from_refund in Hto as Hc. pose proof (Ho Hc) as Hst.
  destruct (stored_facts _ _ HI Hst) as [_ [m Hm]]. rewrite db. apply wp_bind.
  wp_use (wp_refundInDBTransaction env s ctx tx m reason w HI Hst Hm db).
  intros e w1 (HI1 & Hf1%frame_step & Hr).
  assert (task_post (TaskRefund ctx reason tx) w None w1).
  { apply (post_touched _ tx); [done..| | | | | | done].
    - by eapply refund_touched.
    - by eapply refund_money.
    - by eapply refund_advances.
    - by eapply announces_refund.
    - right. right. split; [done|]. by exists (norm_txn tx). }
  by destruct e as [e|]; apply wp_ret, wp_ret.
Qed.

(** Any piece, from what its request knows. *)
Lemma wp_run_task t w :
  Inv w → fresh_ids env w → owns (ledger w) t → wp (run_task env s t) (task_post t w) w.
Proof.
  intros HI Hf Ho. destruct t as [ctx input|ctx input|ctx tx|ctx tx|ctx tx e|ctx mid id re|ctx re tx|r].
  - simpl. apply wp_bind. wp_use (wp_check ctx input w HI Ho).
    intros o w1 (HI1 & Hf1%frame_step & HL1 & Hnext). apply wp_ret.
    destruct o as [o|]; (apply post_idle; [done..|]); [done|]. intros ? [= <-]. auto.
  - by apply wp_save_task.
  - by apply wp_start_task.
  - by apply wp_charge_task.
  - by apply wp_settle_task.
  - by apply wp_find_task.
  - by apply wp_refund_task.
  - destruct Ho as [Hr Hok]. simpl. apply wp_bind. wp_use (wp_read_request env s r w Hr Hok HI).
    intros _ w1 (HI1 & Hf1%frame_step & HL1). by apply wp_ret, post_idle.
Qed.

(** *** Requests in flight *)

Lemma payment_row t L id :
  owns L t → payment_of t = Some id → ∃ row, l_txns L !! id = Some row ∧ tx_Status row ≠ TxStatusCompleted.
Proof.
  intros Ho Hp. destruct t; simpl in Ho, Hp; simplify_eq; destruct Ho as [Hst Hs];
    exists (norm_txn tx); (split; [exact Hst | simpl; by rewrite Hs]).
Qed.

(** What a request knows survives the pieces of the others. *)
Lemma owns_moved t t2 L L' o :
  owns L t → owns L t2 → moved o L L' → (∀ id, o = Some id → may_move t L id) →
  (∀ id, payment_of t = Some id → payment_of t2 ≠ Some id) →
  (∀ id, refund_of t = Some id → refund_of t2 ≠ Some id) →
  owns L' t2.
Proof.
  intros Ho Ho2 [Ht Hm] Hmay Hpay Href.
  assert (∀ tx, stored tx L →
    (payment_of t2 = Some (tx_ID tx) ∧ tx_Status tx ≠ TxStatusCompleted) ∨
    (refund_of t2 = Some (tx_ID tx) ∧ tx_Status tx = TxStatusCompleted) → stored tx L') as Hrow.
  { intros tx Hst H2. unfold stored. rewrite Ht; [exact Hst|]. intros ->.
    destruct (Hmay _ eq_refl) as [Hp|[Hn|(Hr & row & Hl & Hc)]].
    - destruct H2 as [[H2 _]|[_ H2]]; [by destruct (Hpay _ Hp)|].
      destruct (payment_row _ _ _ Ho Hp) as (row & Hl & Hc). rewrite Hst in Hl.
      injection Hl as <-. by apply Hc.
    - unfold stored in Hst. congruence.
    - destruct H2 as [[_ H2]|[H2 _]]; [|by destruct (Href _ Hr)].
      rewrite Hst in Hl. injection Hl as <-. by apply H2. }
  destruct t2; simpl in *; try done.
  - destruct Ho2 as (? & ? & ?). auto.
  - destruct Ho2 as [Hst Hs]. split; [|done]. apply Hrow; [done | left; by rewrite Hs].
  - destruct Ho2 as [Hst Hs]. split; [|done]. apply Hrow; [done | left; by rewrite Hs].
  - destruct Ho2 as [Hst Hs]. split; [|done]. apply Hrow; [done | left; by rewrite Hs].
  - intros Hc. apply Hrow; auto.
Qed.

(** The server with requests in flight: each knows its transaction, and no two
    work on the same one. *)
Record served (c : W * list Task) : Prop := {
  sv_inv : Inv c.1;
  sv_fresh : fresh_ids env c.1;
  sv_owns : Forall (owns (ledger c.1)) c.2;
  sv_payments : NoDup (omap payment_of c.2);
  sv_refunds : NoDup (omap refund_of c.2)
}.

Lemma served_perm w ts ts' : ts ≡ₚ ts' → served (w, ts) → served (w, ts').
Proof.
  intros Hp [HI Hf Ho Hpay Href]. simpl in *. split; simpl; [done..| | |]; by rewrite <- Hp.
Qed.

Lemma NoDup_omap_cons {A B} (f : A → option B) t l :
  NoDup (omap f (t :: l)) ↔ (∀ id, f t = Some id → id ∉ omap f l) ∧ NoDup (omap f l).
Proof.
  simpl. destruct (f t) as [id|]; simpl; [rewrite NoDup_cons|]; naive_solver.
Qed.

Lemma not_elem_of_omap {A B} (f : A → option B) (l : list A) id t :
  id ∉ omap f l → t ∈ l → f t ≠ Some id.
Proof. intros Hn Ht E. apply Hn, list_elem_of_omap. eauto. Qed.

Lemma served_run w t ts :
  served (w, t :: ts) →
  let r := run_task env s t w in
  served (r.2, option_list r.1 ++ ts)%list ∧ safe_step (ledger w) (ledger r.2).
Proof.
  intros [HI Hf Ho Hpay Href]. simpl in HI, Hf. cbn [fst snd] in Ho, Hpay, Href.
  apply Forall_cons in Ho as [Ho Hos]. apply NoDup_omap_cons in Hpay as [Hp Hps], Href as [Hr Hrs].
  pose proof (wp_run_task t w HI Hf Ho) as Hpost. unfold wp in Hpost.
  destruct (run_task env s t w) as [o w']. cbn [fst snd].
  destruct Hpost as [HI' Hf' Hstep (oid & Hmv & Hmay) Hnext]. split; [|done].
  assert (Forall (owns (ledger w')) ts) as Hos'.
  { apply Forall_forall. intros t2 Ht2. rewrite Forall_forall in Hos.
    apply (owns_moved t t2 (ledger w) _ oid); auto; intros id E;
      by apply (not_elem_of_omap _ ts); auto. }
  destruct o as [t'|]; cbn [option_list app]; [|by split].
  destruct (Hnext t' eq_refl) as (Ho' & Er & Hp'). split; cbn [fst snd]; [done..| | |].
  - by constructor.
  - apply NoDup_omap_cons. split; [|done]. intros id E. destruct (Hp' id E) as [E'|Hn]; [by apply Hp|].
    intros (t2 & Ht2 & E2)%list_elem_of_omap. rewrite Forall_forall in Hos.
    destruct (payment_row _ _ _ (Hos t2 Ht2) E2) as (row & Hl & _). congruence.
  - apply NoDup_omap_cons. rewrite Er. by split.
Qed.

Lemma served_arrive w ts r :
  served (w, ts) → request_ok r → (∀ id, refund_of (task_of r) = Some id → id ∉ omap refund_of ts) →
  served (w, task_of r :: ts).
Proof.
  intros [HI Hf Ho Hpay Href] Hok Hr. split; cbn [fst snd] in *; [done..| | |].
  - constructor; [|done]. by destruct r.
  - apply NoDup_omap_cons. split; [|done]. by destruct r.
  - by apply NoDup_omap_cons.
Qed.

Lemma served_step c c' : served c → cstep env s c c' → served c' ∧ safe_step (ledger c.1) (ledger c'.1).
Proof.
  intros Hs Hstep. destruct Hstep as [w ts r Hok Hr|w l t k].
  - split; [by apply served_arrive | done].
  - destruct (served_run w t (l ++ k)) as [Hrun Hss].
    { eapply served_perm; [|exact Hs]. by rewrite Permutation_middle. }
    split; [|exact Hss]. eapply served_perm; [|exact Hrun].
    by rewrite !(assoc_L (++)), (comm (++) l).
Qed.

(** Requests served at the same time are as safe as one after the other: with
    the database, whatever way the pieces of any number of requests interleave,
    under any faults, cancellations and answers of the bank, and as long as no
    two refunds of one transaction overlap, money is conserved, no idempotency
    key is used twice (although requests with the same key may all pass the
    check before one inserts), the store stays well formed and transactions
    follow the state machine. *)
Theorem requests_interleave w w' ts :
  Inv w → fresh_ids env w → keys_unique (ledger w) → rtc (cstep env s) (w, []) (w', ts) →
  (∀ mid, surplus (ledger w') mid = surplus (ledger w) mid) ∧ keys_unique (ledger w') ∧
  ledger_ok (ledger w') ∧ advances (ledger w) (ledger w').
Proof.
  intros HI Hf Hk Hrun.
  assert (∀ c c', rtc (cstep env s) c c' → served c →
    served c' ∧ safe_step (ledger c.1) (ledger c'.1)) as Hinv.
  { induction 1 as [c|c c1 c2 Hst _ IH]; intros Hs; [by split|].
    destruct (served_step c c1 Hs Hst) as [Hs1 Hs2]. destruct (IH Hs1) as [? ?].
    split; [done | by etrans]. }
  destruct (Hinv _ _ Hrun) as [[HI' _ _ _ _] [Hm Hku Ha _]].
  { split; simpl; [done..| | |]; constructor. }
  split_and!; [exact Hm | by apply Hku | apply HI' | exact Ha].
Qed.
End safety.

(** ** Two requests with one key *)

#[local] Existing Instance sorted_range.
#[local] Instance plain_events_range : EventRepository PgStore := pg_event_repo None.

Definition rival : CreateTransactionInput := mkCreateTransactionInput "m_001" 250 "CAD" "key-1" "again".

(** Both pass the check before either inserts, and a refund runs meanwhile. *)
Definition race0 : World PgStore * list Task :=
  let c := (world0, [TaskCheck Background input0; TaskCheck Background rival]) in
  fold_left (λ c i, run_at env0 service0 i c) [0; 1; 0; 1]%nat c.

Lemma race0_csteps : rtc (cstep env0 service0) (world0, []) race0.
Proof.
  eapply rtc_l; [apply (cstep_arrive env0 service0 _ _ (ReqCreate Background rival)); [by vm_compute|done]|].
  eapply rtc_l; [apply (cstep_arrive env0 service0 _ _ (ReqCreate Background input0)); [by vm_compute|done]|].
  unfold race0. cbn [fold_left].
  do 4 (etrans; [|apply run_at_csteps]). done.
Qed.

Example race0_one : (length race0.2, size (l_txns (ledger race0.1))) = (1, 2)%nat.
Proof. vm_compute. reflexivity. Qed.

Lemma requests_interleave_witness :
  (∀ mid, surplus (ledger race0.1) mid = surplus (ledger world0) mid) ∧
  keys_unique (ledger race0.1) ∧ ledger_ok (ledger race0.1) ∧ advances (ledger world0) (ledger race0.1).
Proof.
  apply (requests_interleave env0 service0 eq_refl (service0_ok true) ids_unique0 world0 race0.1 race0.2
    Inv0 fresh_ids0 keys_unique0). rewrite <- surjective_pairing. apply race0_csteps.
Defined.
