(* ===== verification/Respect.v ===== *)
(** * Respect: relations on stores that the payment service stays within

    When every repository operation and the end of every database transaction
    stay within a preorder on the state of the store, so does every piece of
    every request.  This carries facts about a store that are not visible in
    its ledger through the service. *)

From stdpp Require Import base tactics list gmap strings.
From S2P Require Import Prelude GoLib Domain Repository Resilience Bank Payment PaymentLogic PaymentSpecs PaymentOutcome PaymentTheorems Interleaving.

Open Scope string_scope.
Open Scope Z_scope.

(** [m] only moves the store along [Rel]. *)
Definition within {R A} (Rel : relation R) (m : Prog R A) : Prop := ∀ r, Rel r (m r).2.

(** The operations of a store stay within [Rel]. *)
Class Respects (R : Type) (Rel : relation R) `{!MerchantRepository R, !TransactionRepository R,
    !EventRepository R, !OutboxRepository R, !Database R} := {
  respects_preorder :: PreOrder Rel;
  merchant_GetByID_within ci id : within Rel (merchants_GetByID ci id);
  UpdateBalance_within ci id delta : within Rel (merchants_UpdateBalance ci id delta);
  txn_Create_within ci t : within Rel (txns_Create ci t);
  txn_GetByID_within ci id : within Rel (txns_GetByID ci id);
  GetByIdempotencyKey_within ci key : within Rel (txns_GetByIdempotencyKey ci key);
  UpdateStatus_within ci id st : within Rel (txns_UpdateStatus ci id st);
  ListByMerchant_within ci mid p : within Rel (txns_ListByMerchant ci mid p);
  event_Create_within ci e : within Rel (events_Create ci e);
  ListByTransaction_within ci id : within Rel (events_ListByTransaction ci id);
  outbox_Create_within ci e : within Rel (outbox_Create ci e);
  BeginTx_within ci : within Rel (db_BeginTx ci);
  Commit_within ci r0 r : Rel r0 r → Rel r0 (db_Commit ci r0 r).2;
  Rollback_within r0 r : Rel r0 r → Rel r0 (db_Rollback r0 r)
}.

Create HintDb within discriminated.
#[export] Hint Resolve merchant_GetByID_within UpdateBalance_within txn_Create_within txn_GetByID_within
  GetByIdempotencyKey_within UpdateStatus_within ListByMerchant_within event_Create_within
  ListByTransaction_within outbox_Create_within BeginTx_within : within.

Section respect.
Context {R : Type} (Rel : relation R) `{!MerchantRepository R, !TransactionRepository R,
  !EventRepository R, !OutboxRepository R, !Database R, !Respects R Rel}.
Variable env : Env.
Variable s : PaymentService R.
Hypothesis s_ok : service_ok s.
Abbreviation W := (World R).

(** The same for programs of the service. *)
Definition moves_in {A} (m : Prog W A) : Prop := ∀ w, Rel (w_repo w) (w_repo (m w).2).

Lemma in_ret {A} (a : A) : moves_in (ret a).
Proof. by intros w. Qed.

Lemma in_bind {A B} (m : Prog W A) (k : A → Prog W B) :
  moves_in m → (∀ a, moves_in (k a)) → moves_in (bind m k).
Proof.
  intros Hm Hk w. unfold bind. specialize (Hm w). destruct (m w) as [a w1].
  etrans; [exact Hm | apply Hk].
Qed.

Lemma in_repo {A} ctx (op : CallInfo → Prog R A) : (∀ ci, within Rel (op ci)) → moves_in (repo env ctx op).
Proof.
  intros Hop w. unfold repo, bind, fresh_step. simpl.
  specialize (Hop (call_info env ctx (w_step w)) (w_repo w)). by destruct (op _ _).
Qed.

Lemma in_fresh : moves_in fresh_step.
Proof. by intros w. Qed.
Lemma in_now : moves_in (now env).
Proof. by intros w. Qed.
Lemma in_contextError ctx : moves_in (contextError env ctx).
Proof. by destruct ctx; intros w. Qed.

Lemma in_callBank parent bank tx : moves_in (callBank env s parent bank tx).
Proof.
  intros w. pose proof (wp_callBank env s parent bank tx w s_ok) as H. unfold wp in H.
  destruct (callBank env s parent bank tx w) as [e w']. destruct H as (k & _ & (E & _) & _).
  simpl. by rewrite E.
Qed.

(** A database transaction that is undone is as if it had not begun. *)
Lemma in_withTransaction ctx fn : moves_in fn → moves_in (withTransaction env ctx fn).
Proof.
  intros Hfn w. unfold withTransaction, bind at 1.
  pose proof (in_repo ctx _ BeginTx_within w) as Hb.
  destruct (repo env ctx db_BeginTx w) as [[e|] w1]; [exact Hb|].
  etrans; [exact Hb|]. simpl. unfold bind, get. specialize (Hfn w1).
  destruct (fn w1) as [[e|] w2]; simpl in Hfn |- *; [by apply Rollback_within|].
  unfold repo, bind, fresh_step. simpl.
  pose proof (Commit_within (call_info env ctx (w_step w2)) _ _ Hfn) as Hc.
  by destruct (db_Commit _ _ _).
Qed.

#[local] Hint Resolve in_fresh in_now in_contextError in_callBank : within.

(** Walk through a program: binds, branches, then the cases above. *)
Ltac walk :=
  repeat (cbv zeta; match goal with
    | |- moves_in (ret _) => apply in_ret
    | |- moves_in (bind _ _) => apply in_bind; [|intros ?]
    | |- moves_in (repo _ _ _) => apply in_repo; intros ?; cbv beta; solve [eauto 2 with within]
    | |- moves_in (withTransaction _ _ _) => apply in_withTransaction
    | |- moves_in (match ?x with _ => _ end) => destruct x
    | |- _ => solve [eauto 2 with within]
    end).

Lemma in_emit ctx ty tx t extra : moves_in (emitOutboxEvent env s ctx ty tx t extra).
Proof. unfold emitOutboxEvent. walk. Qed.
#[local] Hint Resolve in_emit : within.

Lemma in_emitTransition ctx tx to : moves_in (emitTransitionOutboxEvent env s ctx tx to).
Proof. unfold emitTransitionOutboxEvent. walk. Qed.
#[local] Hint Resolve in_emitTransition : within.

Lemma in_rollbackTransition ctx tx from cause : moves_in (rollbackTransition env ctx tx from cause).
Proof. unfold rollbackTransition. walk. Qed.
#[local] Hint Resolve in_rollbackTransition : within.

Lemma in_transition ctx tx to : moves_in (transition env s ctx tx to).
Proof. unfold transition. walk. Qed.
#[local] Hint Resolve in_transition : within.

Lemma in_createInDB ctx tx : moves_in (createInDBTransaction env ctx tx).
Proof. unfold createInDBTransaction. walk. Qed.
Lemma in_createWithMocks ctx tx : moves_in (createWithMocks env s ctx tx).
Proof. unfold createWithMocks. walk. Qed.
Lemma in_completeInDB ctx tx : moves_in (completeInDBTransaction env ctx tx).
Proof. unfold completeInDBTransaction. walk. Qed.
Lemma in_completeWithMocks ctx tx : moves_in (completeWithMocks env s ctx tx).
Proof. unfold completeWithMocks. walk. Qed.
Lemma in_refundInDB ctx tx reason : moves_in (refundInDBTransaction env ctx tx reason).
Proof. unfold refundInDBTransaction. walk. Qed.
Lemma in_refundWithMocks ctx tx reason : moves_in (refundWithMocks env s ctx tx reason).
Proof. unfold refundWithMocks. walk. Qed.
Lemma in_ownedTransaction ctx mid id : moves_in (ownedTransaction env ctx mid id).
Proof. unfold ownedTransaction. walk. Qed.
#[local] Hint Resolve in_createInDB in_createWithMocks in_completeInDB in_completeWithMocks
  in_refundInDB in_refundWithMocks in_ownedTransaction : within.

Lemma in_check ctx input : moves_in (check env s ctx input).
Proof. unfold check, find_existing, validate. walk. Qed.
Lemma in_save ctx input : moves_in (save env s ctx input).
Proof. unfold save. walk. Qed.
Lemma in_start ctx tx : moves_in (start env s ctx tx).
Proof. unfold start. walk. Qed.
Lemma in_charge ctx tx : moves_in (charge env s ctx tx).
Proof. unfold charge. walk. Qed.
Lemma in_settle ctx tx err : moves_in (settle env s ctx tx err).
Proof. unfold settle, completePayment. walk. Qed.
Lemma in_refund_read ctx mid id : moves_in (refund_read env ctx mid id).
Proof. unfold refund_read. walk. Qed.
Lemma in_refund_write ctx reason a : moves_in (refund_write env s ctx reason a).
Proof. unfold refund_write. walk. Qed.
#[local] Hint Resolve in_check in_save in_start in_charge in_settle in_refund_read in_refund_write : within.

Lemma in_read r : reads r → moves_in (run_request env s r).
Proof.
  destruct r; [done | done |..]; intros _; simpl;
    unfold GetTransaction, GetMerchantBalance, GetTransactionHistory, ListTransactions; walk.
Qed.

(** Every piece of a request stays within the relation. *)
Lemma in_run_task t :
  match t with TaskRead r => reads r | _ => True end → moves_in (run_task env s t).
Proof.
  destruct t; simpl; intros Hr; try (walk; fail).
  apply in_bind; [by apply in_read | intros; walk].
Qed.
End respect.
