(* ===== verification/WorkerPool.v ===== *)
(** * WorkerPool: the worker pool of internal/concurrency/patterns.go

    The goroutines of a pool as a step relation: the submitter that holds the
    mutex, the bounded channel of jobs, the semaphore of slots and the state of
    each worker.  A job is abstract; running it is one step. *)

From stdpp Require Import base tactics list strings sets relations.
From S2P Require Import Prelude GoLib.

Open Scope string_scope.
Open Scope nat_scope.
Open Scope list_scope.

Section pool.
Context {Job : Type}.

(** A worker waits on the channel, runs a job, or has left its loop. *)
Inductive WorkerState := WIdle | WBusy (j : Job) | WExited.

(** [p_sending] is the job of the [Submit] call that has taken a slot, holds
    the mutex and has not yet sent to the channel; [p_accepted] are the jobs
    for which [Submit] returns nil, [p_done] the jobs that have run, and
    [p_closes] counts the calls of [close] on the channel, of which a second
    one would panic. *)
(* go: internal/concurrency/patterns.go 11-18 *)
Record WorkerPool := mkWorkerPool {
  p_queueSize : nat;
  p_queue : list Job;
  p_slots : nat;
  p_workers : list WorkerState;
  p_closed : bool;
  p_sending : option Job;
  p_accepted : list Job;
  p_done : list Job;
  p_closes : nat
}.

(* go: internal/concurrency/patterns.go NewWorkerPool *)
Definition NewWorkerPool (workers queueSize : nat) : WorkerPool :=
  mkWorkerPool queueSize [] 0 (replicate workers WIdle) false None [] [] 0.

(** [cap(slots)] *)
Definition slot_cap (p : WorkerPool) : nat := length (p_workers p) + p_queueSize p.

Definition shut_down_error : goerror := Opaque "worker pool is shut down".
Definition queue_full_error : goerror := Opaque "worker pool queue full".

(** [Submit] up to the send on the channel. *)
(* go: internal/concurrency/patterns.go WorkerPool.Submit *)
Definition Submit (job : Job) (p : WorkerPool) : error * WorkerPool :=
  if p_closed p then (Some shut_down_error, p)
  else if p_slots p <? slot_cap p then
    (None, mkWorkerPool (p_queueSize p) (p_queue p) (S (p_slots p)) (p_workers p) (p_closed p)
       (Some job) (p_accepted p ++ [job]) (p_done p) (p_closes p))
  else (Some queue_full_error, p).

(** [Shutdown] closes the channel, unless that is done, and then waits until
    every worker has exited. *)
(* go: internal/concurrency/patterns.go WorkerPool.Shutdown *)
Definition Shutdown (p : WorkerPool) : WorkerPool :=
  if negb (p_closed p) then
    mkWorkerPool (p_queueSize p) (p_queue p) (p_slots p) (p_workers p) true (p_sending p)
      (p_accepted p) (p_done p) (S (p_closes p))
  else p.

Definition shutdown_returns (p : WorkerPool) : Prop := Forall (λ s, s = WExited) (p_workers p).

Definition set_queue q sending p :=
  mkWorkerPool (p_queueSize p) q (p_slots p) (p_workers p) (p_closed p) sending (p_accepted p) (p_done p)
    (p_closes p).
Definition set_workers ws p :=
  mkWorkerPool (p_queueSize p) (p_queue p) (p_slots p) ws (p_closed p) (p_sending p) (p_accepted p) (p_done p)
    (p_closes p).
Definition finish j p :=
  mkWorkerPool (p_queueSize p) (p_queue p) (pred (p_slots p)) (p_workers p) (p_closed p) (p_sending p)
    (p_accepted p) (p_done p ++ [j]) (p_closes p).

(** The steps of the goroutines of the pool.  A send needs room in the channel
    or a waiting worker; a worker leaves its loop when the channel is closed
    and empty; a job releases its slot when it ends. *)
(* go: internal/concurrency/patterns.go 33-57 *)
Inductive work : WorkerPool → WorkerPool → Prop :=
| work_send p j :
    p_sending p = Some j → length (p_queue p) < p_queueSize p →
    work p (set_queue (p_queue p ++ [j]) None p)
| work_handoff p j l k :
    p_sending p = Some j → p_queue p = [] → p_workers p = l ++ WIdle :: k →
    work p (set_workers (l ++ WBusy j :: k) (set_queue [] None p))
| work_receive p j q l k :
    p_queue p = j :: q → p_workers p = l ++ WIdle :: k →
    work p (set_workers (l ++ WBusy j :: k) (set_queue q (p_sending p) p))
| work_finish p j l k :
    p_workers p = l ++ WBusy j :: k →
    work p (finish j (set_workers (l ++ WIdle :: k) p))
| work_exit p l k :
    p_closed p = true → p_queue p = [] → p_workers p = l ++ WIdle :: k →
    work p (set_workers (l ++ WExited :: k) p).

(** The pool and its clients: [Submit] and [Shutdown] take the mutex, which is
    held while a send is pending. *)
Inductive pool_step : WorkerPool → WorkerPool → Prop :=
| pool_submit p job : p_sending p = None → pool_step p (Submit job p).2
| pool_shutdown p : p_sending p = None → pool_step p (Shutdown p)
| pool_work p p' : work p p' → pool_step p p'.

Inductive pool_reachable (workers queueSize : nat) : WorkerPool → Prop :=
| pool_start : pool_reachable workers queueSize (NewWorkerPool workers queueSize)
| pool_next p p' :
    pool_reachable workers queueSize p → pool_step p p' → pool_reachable workers queueSize p'.

(** ** The invariant *)

Definition busy_job (s : WorkerState) : option Job := match s with WBusy j => Some j | _ => None end.
Definition busy (p : WorkerPool) : list Job := omap busy_job (p_workers p).
Definition pending (p : WorkerPool) : list Job := option_list (p_sending p).

(** Jobs accepted and not yet done. *)
Definition outstanding (p : WorkerPool) : list Job := busy p ++ p_queue p ++ pending p.

Record pool_ok (p : WorkerPool) : Prop := {
  ok_queue : length (p_queue p) ≤ p_queueSize p;
  ok_slots : p_slots p = length (outstanding p);
  ok_cap : p_slots p ≤ slot_cap p;
  ok_jobs : p_accepted p ≡ₚ p_done p ++ outstanding p;
  ok_open : p_closed p = true → p_sending p = None;
  ok_exited : WExited ∈ p_workers p → p_closed p = true ∧ p_queue p = [];
  ok_closes : p_closes p = if p_closed p then 1 else 0
}.

Lemma busy_app l s k : omap busy_job (l ++ s :: k) = omap busy_job l ++ option_list (busy_job s) ++ omap busy_job k.
Proof. rewrite omap_app. simpl. by destruct (busy_job s). Qed.

Lemma omap_replicate_idle n : omap busy_job (replicate n WIdle) = [].
Proof. by induction n. Qed.

Lemma length_busy (ws : list WorkerState) : length (omap busy_job ws) ≤ length ws.
Proof. induction ws as [|[] ws IH]; csimpl; lia. Qed.

Lemma elem_exited_swap l s s' k :
  s' ≠ WExited → WExited ∈ l ++ s' :: k → WExited ∈ l ++ s :: k.
Proof. rewrite !elem_of_app, !elem_of_cons. naive_solver. Qed.

Lemma pool_ok_start workers queueSize : pool_ok (NewWorkerPool workers queueSize).
Proof.
  split; unfold outstanding, busy, pending, slot_cap; simpl; rewrite ?omap_replicate_idle; simpl; try lia;
    try done.
  intros H. apply elem_of_replicate in H. by destruct H.
Qed.

(** A step of the pool moves a job along, or finishes it. *)
Lemma work_outstanding p p' :
  work p p' → p_accepted p' = p_accepted p ∧
    ((p_done p' = p_done p ∧ outstanding p' ≡ₚ outstanding p ∧ p_slots p' = p_slots p) ∨
     ∃ j, p_done p' = p_done p ++ [j] ∧ outstanding p ≡ₚ j :: outstanding p' ∧
       p_slots p' = pred (p_slots p)).
Proof.
  unfold outstanding, busy, pending. intros Hw.
  destruct Hw as [p j Hsend Hroom|p j l k Hsend Hnil Hws|p j q l k Hqj Hws|p j l k Hws|p l k Hcl Hnil Hws];
    (split; [done|]); [left | left | left | right; exists j | left];
    (split; [done|split; [|done]]); simpl; rewrite ?Hsend, ?Hnil, ?Hqj, ?Hws, ?busy_app; simpl;
    solve_Permutation.
Qed.

Lemma work_exited p p' :
  work p p' → WExited ∈ p_workers p' → p_closed p' = true ∧ p_queue p' = [] ∨ WExited ∈ p_workers p.
Proof.
  intros Hw. destruct Hw as [p j Hsend Hroom|p j l k Hsend Hnil Hws|p j q l k Hqj Hws|p j l k Hws|p l k Hcl Hnil Hws];
    simpl; [by right | | | | by left].
  all: intros H; right; rewrite Hws; eapply elem_exited_swap; [|exact H]; done.
Qed.

Lemma work_ok p p' : work p p' → pool_ok p → pool_ok p'.
Proof.
  intros Hw [Hq Hs Hc Hj Ho He Hx].
  destruct (work_outstanding p p' Hw) as (Hacc & Hout).
  assert (p_slots p' = length (outstanding p') ∧ p_slots p' ≤ p_slots p) as [Hs' Hle].
  { destruct Hout as [(_ & Hperm & ->)|(j & _ & Hperm & ->)]; apply Permutation_length in Hperm;
      simpl in Hperm; lia. }
  assert (slot_cap p' = slot_cap p) as Hcap.
  { unfold slot_cap. destruct Hw as [| ? ? ? ? ? ? Hws|? ? ? ? ? ? Hws|? ? ? ? Hws|? ? ? ? ? Hws];
      simpl; rewrite ?Hws, ?length_app; done. }
  split; [| done | lia | | | | by destruct Hw].
  - destruct Hw; simpl in *; rewrite ?length_app; simpl; try lia. rewrite H in Hq. simpl in Hq. lia.
  - rewrite Hacc, Hj. destruct Hout as [(-> & -> & _)|(j & -> & -> & _)]; solve_Permutation.
  - destruct Hw; simpl in *; try done; intros Hcl; by rewrite Ho in H by done.
  - intros Hex. destruct (work_exited _ _ Hw Hex) as [?|Hex']; [done|].
    destruct (He Hex') as [Hcl Hnil]. specialize (Ho Hcl).
    destruct Hw; simpl in *; try done; congruence.
Qed.

Lemma Submit_ok job p : p_sending p = None → pool_ok p → pool_ok (Submit job p).2.
Proof.
  intros Hsend HP. unfold Submit. destruct (p_closed p) eqn:Ecl; [exact HP|].
  destruct (Nat.ltb_spec (p_slots p) (slot_cap p)); [|exact HP]. destruct HP as [Hq Hs Hc Hj Ho He Hx].
  unfold outstanding, pending in *. rewrite Hsend in *.
  split; unfold outstanding, pending, slot_cap, busy in *; simpl in *; try done; try lia.
  - rewrite Hs, !length_app. simpl. lia.
  - rewrite Hj. solve_Permutation.
  - intros Hex. destruct (He Hex). congruence.
  - by rewrite Ecl in Hx.
Qed.

Lemma Shutdown_ok p : p_sending p = None → pool_ok p → pool_ok (Shutdown p).
Proof.
  intros Hsend HP. unfold Shutdown. destruct (p_closed p) eqn:Ecl; [exact HP|].
  destruct HP as [Hq Hs Hc Hj Ho He Hx]. rewrite Ecl in *.
  split; simpl; try done; [|by rewrite Hx]. intros Hex. by destruct (He Hex).
Qed.

Lemma reachable_ok workers queueSize p : pool_reachable workers queueSize p → pool_ok p.
Proof.
  induction 1 as [|p p' _ IH Hstep]; [apply pool_ok_start|].
  destruct Hstep; [by apply Submit_ok | by apply Shutdown_ok | by eapply work_ok].
Qed.

Lemma work_length p p' : work p p' → length (p_workers p') = length (p_workers p).
Proof.
  intros Hw. destruct Hw as [| ? ? ? ? ? ? Hws|? ? ? ? ? ? Hws|? ? ? ? Hws|? ? ? ? ? Hws];
    simpl; rewrite ?Hws, ?length_app; done.
Qed.

Lemma reachable_workers workers queueSize p :
  pool_reachable workers queueSize p → length (p_workers p) = workers.
Proof.
  induction 1 as [|p p' _ IH Hstep]; [apply length_replicate|].
  destruct Hstep as [p job _|p _|p p' Hw]; [| unfold Shutdown; by destruct (p_closed p) | by rewrite (work_length p p' Hw)].
  unfold Submit. by destruct (p_closed p), (p_slots p <? slot_cap p).
Qed.

(** ** Progress *)

Lemma worker_cases (ws : list WorkerState) :
  (∃ l k, ws = l ++ WIdle :: k) ∨ (∃ l j k, ws = l ++ WBusy j :: k) ∨ Forall (λ s, s = WExited) ws.
Proof.
  induction ws as [|s ws IH]; [by right; right|]. destruct s as [|j|].
  - left. by exists [], ws.
  - right; left. by exists [], j, ws.
  - destruct IH as [(l & k & ->)|[(l & j & k & ->)|H]].
    + left. by exists (WExited :: l), k.
    + right; left. by exists (WExited :: l), j, k.
    + right; right. by constructor.
Qed.

(** With a worker left, either some goroutine of the pool can step, or the pool
    is open and has nothing to do. *)
Lemma work_progress p :
  pool_ok p → (∃ p', work p p') ∨
    (Forall (λ s, s = WExited) (p_workers p) ∧ (0 < length (p_workers p) → outstanding p = [])) ∨
    (p_closed p = false ∧ outstanding p = []).
Proof.
  intros [Hq Hs Hc Hj Ho He Hx].
  destruct (worker_cases (p_workers p)) as [(l & k & Hws)|[(l & j & k & Hws)|Hex]].
  - destruct (p_queue p) as [|j q] eqn:Eq; [|left; eexists; by eapply work_receive].
    destruct (p_sending p) as [j|] eqn:Es; [left; eexists; by eapply work_handoff|].
    destruct (p_closed p) eqn:Ecl; [left; eexists; by eapply work_exit|].
    destruct (decide (busy p = [])) as [Hb|Hb].
    + right; right. split; [done|]. unfold outstanding, pending. by rewrite Hb, Eq, Es.
    + left. destruct (busy p) as [|j b] eqn:Eb; [done|].
      assert (j ∈ busy p) as Hin by (rewrite Eb; set_solver). unfold busy in Hin.
      apply list_elem_of_omap in Hin as (st & Hin & Hst). destruct st as [|j'|]; simplify_eq/=.
      apply list_elem_of_split in Hin as (l' & k' & Hws'). eexists. by eapply work_finish.
  - left. eexists. by eapply work_finish.
  - right; left. split; [done|]. intros Hlen. destruct (p_workers p) as [|s ws] eqn:Ews; [simpl in *; lia|].
    pose proof (Forall_inv Hex) as ->. destruct He as [Hcl Hnil]; [left|].
    unfold outstanding, pending, busy. rewrite Ho, Hnil, Ews by done.
    assert (omap busy_job (WExited :: ws) = []) as ->; [|done].
    clear -Hex. induction Hex as [|? ? -> _ IH]; [done|]. done.
Qed.

(** ** Termination *)

Definition worker_weight (s : WorkerState) : nat :=
  match s with WIdle => 1 | WBusy _ => 2 | WExited => 0 end.

Definition weight (p : WorkerPool) : nat :=
  4 * length (pending p) + 3 * length (p_queue p) + sum_list_with worker_weight (p_workers p).

Lemma work_weight p p' : work p p' → weight p' < weight p.
Proof.
  unfold weight, pending. intros Hw.
  destruct Hw as [p j Hsend Hroom|p j l k Hsend Hnil Hws|p j q l k Hqj Hws|p j l k Hws|p l k Hcl Hnil Hws];
    simpl; rewrite ?Hsend, ?Hnil, ?Hqj, ?Hws, ?length_app, ?sum_list_with_app; simpl; lia.
Qed.

Lemma work_closed p p' : work p p' → p_closed p' = p_closed p.
Proof. by destruct 1. Qed.

(** A pool that was offered fewer jobs than it has slots accepts the next one. *)
Lemma Submit_accepts job p :
  pool_ok p → p_closed p = false → length (p_accepted p) < slot_cap p → (Submit job p).1 = None.
Proof.
  intros [_ Hs _ Hj _ _ _] Hopen Hlen. unfold Submit. rewrite Hopen.
  apply Permutation_length in Hj. rewrite length_app in Hj.
  destruct (Nat.ltb_spec (p_slots p) (slot_cap p)); [done | lia].
Qed.

(** ** Properties *)

(** C28 In every reachable state of a pool the channel and the slots are within
    their capacity, nobody is sending on a closed channel, which has been closed
    once, however often [Shutdown] is called (a send or a second close would
    panic), and every accepted job is in exactly one place: done, running,
    queued or being sent. *)
Theorem pool_safe workers queueSize p :
  pool_reachable workers queueSize p →
  length (p_queue p) ≤ p_queueSize p ∧ p_slots p ≤ slot_cap p ∧
  length (busy p) ≤ workers ∧
  (p_closed p = true → p_sending p = None) ∧ p_closes p ≤ 1 ∧
  p_accepted p ≡ₚ p_done p ++ busy p ++ p_queue p ++ pending p.
Proof.
  intros Hr. pose proof (reachable_workers _ _ _ Hr) as Hlen.
  destruct (reachable_ok _ _ _ Hr) as [Hq Hs Hc Hj Ho He Hx]. split_and!; try done.
  - rewrite <- Hlen. apply length_busy.
  - rewrite Hx. destruct (p_closed p); lia.
Qed.

(** C29 [Shutdown] returns and loses nothing: once a pool with at least one
    worker is closed, its goroutines can take only boundedly many steps, and
    when none is left every worker has exited, so that [Shutdown] returns, and
    every accepted job has run. *)
Theorem Shutdown_runs_all workers queueSize p :
  pool_reachable workers queueSize p → 0 < workers → p_closed p = true →
  (∀ n p', nsteps work n p p' → n + weight p' ≤ weight p) ∧
  (∀ p', rtc work p p' → (∀ p'', ¬ work p' p'') → shutdown_returns p' ∧ p_done p' ≡ₚ p_accepted p).
Proof.
  intros Hr Hpos Hcl. split.
  - intros n p' Hn. clear Hcl Hr. induction Hn as [|n p p1 p' Hw _ IH]; [done|].
    pose proof (work_weight _ _ Hw). lia.
  - intros p' Hw Hstuck.
    assert (pool_ok p' ∧ p_closed p' = true ∧ length (p_workers p') = workers ∧
      p_accepted p' = p_accepted p) as (Hok & Hcl' & Hlen & Hacc).
    { pose proof (reachable_workers _ _ _ Hr) as Hlen. apply reachable_ok in Hr.
      clear Hstuck. induction Hw as [|p p1 p' Hw _ IH]; [done|].
      destruct (work_outstanding _ _ Hw) as [<- _].
      apply IH; [by eapply work_ok | by rewrite (work_closed _ _ Hw) | by rewrite (work_length _ _ Hw)]. }
    destruct (work_progress p' Hok) as [[p'' ?]|[[Hex Hout]|[? _]]]; [by destruct (Hstuck p'') | | congruence].
    split; [done|]. rewrite <- Hacc, (ok_jobs p' Hok), Hout by lia. by rewrite app_nil_r.
Qed.
End pool.

(** Two jobs on one worker. *)
Definition pool1 : WorkerPool := (Submit 1 (NewWorkerPool 1 2)).2.
Definition pool2 : WorkerPool := set_queue [1] None pool1.

Lemma pool2_reachable : pool_reachable 1 2 (Shutdown pool2).
Proof.
  eapply pool_next; [|by apply pool_shutdown].
  eapply pool_next; [|apply pool_work, (work_send pool1 1); [done | simpl; lia]].
  eapply pool_next; [apply pool_start | by apply pool_submit].
Qed.

Lemma pool_safe_witness :
  let p := Shutdown pool2 in
  length (p_queue p) ≤ p_queueSize p ∧ p_slots p ≤ slot_cap p ∧ length (busy p) ≤ 1 ∧
  (p_closed p = true → p_sending p = None) ∧ p_closes p ≤ 1 ∧
  p_accepted p ≡ₚ p_done p ++ busy p ++ p_queue p ++ pending p.
Proof. exact (pool_safe 1 2 (Shutdown pool2) pool2_reachable). Defined.

Lemma Shutdown_runs_all_witness :
  let p := Shutdown pool2 in
  (∀ n p', nsteps work n p p' → n + weight p' ≤ weight p) ∧
  (∀ p', rtc work p p' → (∀ p'', ¬ work p' p'') → shutdown_returns p' ∧ p_done p' ≡ₚ p_accepted p).
Proof. exact (Shutdown_runs_all 1 2 (Shutdown pool2) pool2_reachable Nat.lt_0_1 eq_refl). Defined.
