(* ===== verification/OutboxWorker.v ===== *)
(** * OutboxWorker: the outbox worker of internal/service/outbox_worker.go

    Claiming a batch, publishing it through the worker pool and marking what
    was published.  The jobs of a batch run in an arbitrary order, each as one
    step: they touch different rows, so interleaving them more finely makes no
    difference.  Without brokers the worker only writes a log line about an
    event and marks it; what the broker accepted and what was logged are kept
    apart. *)

From stdpp Require Import base tactics list gmap strings sets sorting pretty.
From S2P Require Import Prelude GoLib Domain Repository Postgres WorkerPool.

Open Scope string_scope.
Open Scope Z_scope.

(* go: internal/service/outbox_worker.go 17 *)
Definition defaultOutboxConcurrency : Z := 4.

(** The message the Kafka publisher writes. *)
Record Message := mkMessage {
  msg_Key : string;
  msg_Value : RawMessage;
  msg_Headers : list (string * string)
}.

(** The implementations of the interface; [writer] tells whether the Kafka
    publisher has a writer. *)
(* go: internal/service/outbox_worker.go 29-32 *)
Inductive outboxPublisher :=
| logOutboxPublisher
| kafkaOutboxPublisher (topic : string) (writer : bool).

(* go: internal/service/outbox_worker.go 19-27 *)
Record OutboxWorkerConfig := mkOutboxWorkerConfig {
  cfg_Brokers : list string;
  cfg_Topic : string;
  cfg_Interval : Z;
  cfg_BatchSize : Z;
  cfg_Concurrency : Z
}.

(* go: internal/service/outbox_worker.go 34-41 *)
Record OutboxWorker := mkOutboxWorker {
  ow_publisher : outboxPublisher;
  ow_interval : Z;
  ow_batchSize : Z;
  ow_concurrency : Z
}.

(* go: internal/service/outbox_worker.go 43-48 *)
Record outboxProcessResult := mkResult {
  res_eventID : Z;
  res_eventType : string;
  res_stage : string;
  res_err : error
}.

(* go: internal/service/outbox_worker.go newOutboxPublisher *)
Definition newOutboxPublisher (cfg : OutboxWorkerConfig) : outboxPublisher :=
  if bool_decide (length (cfg_Brokers cfg) = 0%nat) || bool_decide (cfg_Topic cfg = "")
  then logOutboxPublisher
  else kafkaOutboxPublisher (cfg_Topic cfg) true.

(* go: internal/service/outbox_worker.go NewOutboxWorker *)
Definition NewOutboxWorker (cfg : OutboxWorkerConfig) : OutboxWorker :=
  let interval := if cfg_Interval cfg <=? 0 then 2 * Second else cfg_Interval cfg in
  let batchSize := if cfg_BatchSize cfg <=? 0 then 100 else cfg_BatchSize cfg in
  let concurrencyLimit :=
    if cfg_Concurrency cfg <=? 0 then defaultOutboxConcurrency else cfg_Concurrency cfg in
  let concurrencyLimit := if batchSize <? concurrencyLimit then batchSize else concurrencyLimit in
  mkOutboxWorker (newOutboxPublisher cfg) interval batchSize concurrencyLimit.

(** The lines that the log publisher and the worker write. *)
Inductive OutboxLog :=
| LogHandled (eventID : Z) (eventType : string)
| LogPublished (eventID : Z) (eventType : string)
| LogFailed (result : outboxProcessResult)
| LogClaim (err : goerror)
| LogStopped
| LogClose (err : goerror).

(** A step counter, the store, the messages that the broker has accepted, and
    the log. *)
Record OutboxWorld (R : Type) := mkOutboxWorld {
  o_step : nat;
  o_repo : R;
  o_published : list Message;
  o_log : list OutboxLog
}.
Arguments mkOutboxWorld {R}.
Arguments o_step {R}.
Arguments o_repo {R}.
Arguments o_published {R}.
Arguments o_log {R}.

(** The clock, the faults of the store, the answers of the broker and how the
    writer closes. *)
Record OutboxEnv := mkOutboxEnv {
  oe_now : nat → Z;
  oe_fault : nat → Fault;
  oe_write : nat → Message → error;
  oe_close : error
}.

Section worker.
Context {R : Type} `{!OutboxRepository R}.
Variable env : OutboxEnv.
Variable w : OutboxWorker.
Abbreviation OW := (OutboxWorld R).

(** The order in which the jobs of a batch run. *)
Variable schedule : ∀ A : Type, list A → list A.

Definition o_tick : Prog OW nat :=
  λ v, (o_step v, mkOutboxWorld (S (o_step v)) (o_repo v) (o_published v) (o_log v)).

Definition o_ctx_err (ctx : Ctx) : Prog OW error :=
  let! n := o_tick in ret (ctx_Err ctx (oe_now env n)).

Definition o_call {A} (ctx : Ctx) (op : CallInfo → Prog R A) : Prog OW A :=
  let! n := o_tick in
  λ v, let (a, r) := op (mkCallInfo (oe_now env n) (ctx_Err ctx (oe_now env n)) (oe_fault env n)) (o_repo v)
       in (a, mkOutboxWorld (o_step v) r (o_published v) (o_log v)).

(** A line of the log. *)
Definition emit (l : OutboxLog) : Prog OW unit :=
  modify (λ v, mkOutboxWorld (o_step v) (o_repo v) (o_published v) (o_log v ++ [l])%list).

(* go: internal/service/outbox_worker.go 269-275 *)
Definition event_message (event : OutboxEvent) : Message :=
  mkMessage (pretty (ob_ID event)) (ob_Payload event) [("event_type", ob_EventType event)].

(** The broker has accepted [m]. *)
Definition deliver (m : Message) : Prog OW unit :=
  modify (λ v, mkOutboxWorld (o_step v) (o_repo v) (o_published v ++ [m])%list (o_log v)).

(* go: internal/service/outbox_worker.go logOutboxPublisher.Publish *)
Definition logOutboxPublisher_Publish (event : OutboxEvent) : Prog OW error :=
  let! _ := emit (LogHandled (ob_ID event) (ob_EventType event)) in ret None.

(** [WriteMessages] waits for the answer of the broker. *)
(* go: internal/service/outbox_worker.go kafkaOutboxPublisher.Publish *)
Definition kafkaOutboxPublisher_Publish (writer : bool) (event : OutboxEvent) : Prog OW error :=
  if negb writer then ret (Some (Opaque "kafka writer is not configured"))
  else
    let m := event_message event in
    let! n := o_tick in
    match oe_write env n m with
    | Some err => ret (Some err)
    | None => let! _ := deliver m in ret None
    end.

(** [w.publisher.Publish] and [w.publisher.Close] *)
(* go: internal/service/outbox_worker.go 30 *)
Definition Publish (event : OutboxEvent) : Prog OW error :=
  match ow_publisher w with
  | logOutboxPublisher => logOutboxPublisher_Publish event
  | kafkaOutboxPublisher _ writer => kafkaOutboxPublisher_Publish writer event
  end.

(* go: internal/service/outbox_worker.go kafkaOutboxPublisher.Close *)
Definition Close : error :=
  match ow_publisher w with
  | logOutboxPublisher => None
  | kafkaOutboxPublisher _ writer => if negb writer then None else oe_close env
  end.

(* go: internal/service/outbox_worker.go OutboxWorker.processEvent *)
Definition processEvent (ctx : Ctx) (event : OutboxEvent) : Prog OW outboxProcessResult :=
  let result stage err := mkResult (ob_ID event) (ob_EventType event) stage err in
  check! o_ctx_err ctx or err => ret (result "publish" (Some err));
  check! Publish event or err => ret (result "publish" (Some err));
  check! o_call ctx (λ ci, outbox_MarkPublished ci (ob_ID event)) or err =>
    ret (result "mark_published" (Some err));
  ret (result "completed" None).

(* go: internal/service/outbox_worker.go OutboxWorker.workerCount *)
Definition workerCount (batchLen : Z) : Z :=
  if batchLen <=? 0 then 1
  else if ow_concurrency w <=? 0 then 1
  else if batchLen <? ow_concurrency w then batchLen
  else ow_concurrency w.

(** The submission loop: the jobs that were accepted, and the results of those
    that were not; no job has ended yet. *)
(* go: internal/service/outbox_worker.go 138-156 *)
Fixpoint submit_events (ctx : Ctx) (pool : @WorkerPool OutboxEvent) (events : list OutboxEvent)
  : Prog OW (list OutboxEvent * list outboxProcessResult) :=
  match events with
  | [] => ret ([], [])
  | current :: rest =>
    let! e := o_ctx_err ctx in
    match e with
    | Some _ => ret ([], [])
    | None =>
      match Submit current pool with
      | (Some err, pool) =>
        let! r := submit_events ctx pool rest in
        ret (r.1, mkResult (ob_ID current) (ob_EventType current) "submit" (Some err) :: r.2)
      | (None, pool) =>
        let! r := submit_events ctx (set_queue (p_queue pool ++ [current])%list None pool) rest in
        ret (current :: r.1, r.2)
      end
    end
  end.

Fixpoint run_jobs (ctx : Ctx) (jobs : list OutboxEvent) : Prog OW (list outboxProcessResult) :=
  match jobs with
  | [] => ret []
  | job :: jobs =>
    let! r := processEvent ctx job in
    let! rs := run_jobs ctx jobs in
    ret (r :: rs)
  end.

(* go: internal/service/outbox_worker.go OutboxWorker.processEvents *)
Definition processEvents (ctx : Ctx) (events : list OutboxEvent) : Prog OW (list outboxProcessResult) :=
  let n := length events in
  let pool := NewWorkerPool (Z.to_nat (workerCount (Z.of_nat n))) n in
  let! jobs := submit_events ctx pool events in
  let! results := run_jobs ctx (schedule OutboxEvent jobs.1) in
  ret (jobs.2 ++ results)%list.

(* go: internal/service/outbox_worker.go OutboxWorker.logProcessResult *)
Definition logProcessResult (result : outboxProcessResult) : Prog OW unit :=
  match res_err result with
  | Some _ => emit (LogFailed result)
  | None => emit (LogPublished (res_eventID result) (res_eventType result))
  end.

Fixpoint log_results (results : list outboxProcessResult) : Prog OW unit :=
  match results with
  | [] => ret tt
  | result :: results => let! _ := logProcessResult result in log_results results
  end.

(* go: internal/service/outbox_worker.go OutboxWorker.processBatch *)
Definition processBatch (ctx : Ctx) : Prog OW unit :=
  let! e := o_ctx_err ctx in
  match e with
  | Some _ => ret tt
  | None =>
    let! r := o_call ctx (λ ci, outbox_FetchUnpublished ci (ow_batchSize w)) in
    match r with
    | Err err => emit (LogClaim err)
    | Ok [] => ret tt
    | Ok events => let! results := processEvents ctx events in log_results results
    end
  end.

(** The loop of [Run] for [n] ticks; it returns when the context has ended.  A
    tick that comes with the end of the context finds a batch that does
    nothing. *)
(* go: internal/service/outbox_worker.go 100-108 *)
Fixpoint run_ticks (ctx : Ctx) (n : nat) : Prog OW bool :=
  match n with
  | O => ret false
  | S n =>
    let! e := o_ctx_err ctx in
    match e with
    | Some _ => let! _ := emit LogStopped in ret true
    | None => let! _ := processBatch ctx in run_ticks ctx n
    end
  end.

(** [Run] up to the [n]th tick, with the deferred [Close] if it has returned. *)
(* go: internal/service/outbox_worker.go OutboxWorker.Run *)
Definition Run (ctx : Ctx) (n : nat) : Prog OW unit :=
  let! _ := processBatch ctx in
  let! stopped := run_ticks ctx n in
  if (stopped : bool) then match Close with Some err => emit (LogClose err) | None => ret tt end
  else ret tt.
End worker.
