(* ===== verification/OutboxTheorems.v ===== *)
(** * OutboxTheorems: what the outbox worker promises

    A row is marked published only after its event was handed over: the broker
    has accepted the message, or, without brokers, a line was logged.  A batch
    without faults hands over and marks what it claims, and as many batches as
    there are full loads of pending rows leave none. *)

From stdpp Require Import base tactics list gmap strings sets sorting pretty.
From S2P Require Import Prelude GoLib Domain Repository Postgres WorkerPool OutboxWorker.

Open Scope string_scope.
Open Scope Z_scope.

(** ** Delivery *)

(** Filters that agree on the elements of the list. *)
Lemma list_filter_in {A} (P Q : A → Prop) `{∀ x, Decision (P x), ∀ x, Decision (Q x)} (l : list A) :
  (∀ x, x ∈ l → P x ↔ Q x) → filter P l = filter Q l.
Proof.
  induction l as [|x l IH]; intros Hl; [done|].
  assert (filter P l = filter Q l) as E by (apply IH; intros y Hy; apply Hl; by right).
  pose proof (Hl x (list_elem_of_here _ _)) as Hx. rewrite !filter_cons, E. repeat case_decide; tauto.
Qed.

(** Rows with one id are one row. *)
Lemma good_same_id (s : PgStore) r r' :
  pg_good s → r ∈ pg_outbox s → r' ∈ pg_outbox s → or_id r = or_id r' → r = r'.
Proof.
  intros Hg [i Hi]%list_elem_of_lookup [j Hj]%list_elem_of_lookup Hid.
  assert (i = j) as <-; [|congruence].
  eapply (NoDup_lookup _ _ _ _ (good_outbox_ids _ Hg)); rewrite list_lookup_fmap;
    [rewrite Hi | rewrite Hj]; simpl; [done | by rewrite Hid].
Qed.

Lemma good_rows_NoDup (s : PgStore) : pg_good s → NoDup (pg_outbox s).
Proof. intros Hg. eapply NoDup_fmap_1, (good_outbox_ids _ Hg). Qed.

(** The claimed rows, for any limit. *)
Lemma claimed_spec now limit rows :
  ∃ rest, claimed_rows now limit rows ++ rest ≡ₚ filter (λ r, claimable now r = true) rows.
Proof.
  exists (drop (Z.to_nat limit) (merge_sort outbox_order (filter (λ r, claimable now r = true) rows))).
  unfold claimed_rows. by rewrite take_drop, (merge_sort_Permutation outbox_order).
Qed.

Lemma claimed_in now limit rows r : r ∈ claimed_rows now limit rows → r ∈ rows.
Proof.
  intros Hr. destruct (claimed_spec now limit rows) as [rest Hp].
  assert (r ∈ filter (λ r, claimable now r = true) rows) as Hf by (rewrite <- Hp; apply elem_of_app; by left).
  by apply list_elem_of_filter in Hf as [_ ?].
Qed.

Lemma claimed_length now limit rows :
  length (claimed_rows now limit rows)
  = Nat.min (Z.to_nat limit) (length (filter (λ r, claimable now r = true) rows)).
Proof. unfold claimed_rows. by rewrite length_take, (merge_sort_Permutation outbox_order). Qed.

Section delivery.
Context `{MapRange}.
Variable env : OutboxEnv.
Variable w : OutboxWorker.
Variable schedule : ∀ A : Type, list A → list A.
Hypothesis schedule_perm : ∀ A (l : list A), schedule A l ≡ₚ l.
Abbreviation OW := (OutboxWorld PgStore).
Implicit Types v : OW.

(** An event was handed over: the broker has accepted its message, or the
    worker has no broker and the log has a line about it. *)
Definition handled (event : OutboxEvent) v : Prop :=
  match ow_publisher w with
  | logOutboxPublisher => LogHandled (ob_ID event) (ob_EventType event) ∈ o_log v
  | kafkaOutboxPublisher _ _ => event_message event ∈ o_published v
  end.

(** Every published row was handed over. *)
Definition delivered v : Prop :=
  ∀ r, r ∈ pg_outbox (o_repo v) → or_published r = true → handled (scan_outbox r) v.

(** The proofs that events were handed over, in order: accepted messages, or
    the lines of the log publisher. *)
Inductive Receipt := Accepted (m : Message) | Logged (eventID : Z) (eventType : string).

Definition handled_line (l : OutboxLog) : option Receipt :=
  match l with LogHandled i ty => Some (Logged i ty) | _ => None end.
Definition receipts v : list Receipt :=
  match ow_publisher w with
  | logOutboxPublisher => omap handled_line (o_log v)
  | kafkaOutboxPublisher _ _ => map Accepted (o_published v)
  end.
Definition receipt (event : OutboxEvent) : Receipt :=
  match ow_publisher w with
  | logOutboxPublisher => Logged (ob_ID event) (ob_EventType event)
  | kafkaOutboxPublisher _ _ => Accepted (event_message event)
  end.

Lemma handled_receipt event v : handled event v ↔ receipt event ∈ receipts v.
Proof.
  unfold handled, receipt, receipts. destruct (ow_publisher w).
  - rewrite list_elem_of_omap. split; [by eexists|]. intros (l & Hl & E). by destruct l; simplify_eq/=.
  - rewrite list_elem_of_fmap. split; [by eexists|]. by intros (m & [= ->] & Hm).
Qed.

(** The row of an event, and what the fetch leaves of it. *)
Definition same_event (r r' : outbox_row) : Prop :=
  or_id r' = or_id r ∧ or_event_type r' = or_event_type r ∧ or_payload r' = or_payload r.

Lemma message_same r r' : same_event r r' → event_message (scan_outbox r') = event_message (scan_outbox r).
Proof. intros (E1 & E2 & E3). unfold event_message, scan_outbox. simpl. by rewrite E1, E2, E3. Qed.

(** An event a worker holds: it has a row, whose content does not change. *)
Definition known (e : OutboxEvent) v : Prop :=
  ∀ r, r ∈ pg_outbox (o_repo v) → or_id r = ob_ID e →
    event_message (scan_outbox r) = event_message e.

(** The row of the event [i] is published. *)
Definition marked (i : Z) v : Prop :=
  ∀ r, r ∈ pg_outbox (o_repo v) → or_id r = i → or_published r = true.

(** The rows stay, in their places: an update keeps the event of a row, and a
    published row stays published. *)
Definition row_update (f : outbox_row → outbox_row) : Prop :=
  ∀ r, same_event r (f r) ∧ (or_published r = true → or_published (f r) = true).

(** What every step of a worker preserves. *)
Record progress v v' : Prop := {
  pr_rows : ∃ f, row_update f ∧ pg_outbox (o_repo v') = map f (pg_outbox (o_repo v));
  pr_delivered : delivered v → delivered v';
  pr_good : pg_good (o_repo v) → pg_good (o_repo v');
  pr_published : ∃ ms, o_published v' = (o_published v ++ ms)%list ∧
    (ow_publisher w = logOutboxPublisher → ms = []);
  pr_log : ∃ ls, o_log v' = (o_log v ++ ls)%list
}.

Lemma rows_id s : ∃ f, row_update f ∧ pg_outbox s = map f (pg_outbox s).
Proof. exists id. split; [done | by rewrite map_id]. Qed.

#[export] Instance progress_preorder : PreOrder progress.
Proof.
  split.
  - intros v. split; [apply rows_id | done | done | |]; exists []; by rewrite app_nil_r.
  - intros v1 v2 v3 [(f1 & F1 & R1) D1 G1 (ms1 & P1 & S1) [ls1 L1]] [(f2 & F2 & R2) D2 G2 (ms2 & P2 & S2) [ls2 L2]].
    split; [|auto..| |].
    + exists (f2 ∘ f1). split; [|by rewrite R2, R1, map_map]. intros r.
      destruct (F1 r) as [(A1 & B1 & C1) K1], (F2 (f1 r)) as [(A2 & B2 & C2) K2]. unfold same_event. simpl.
      split; [split_and!; congruence | by intros; apply K2, K1].
    + exists (ms1 ++ ms2)%list. split; [by rewrite P2, P1, (assoc_L (++))|].
      intros Hl. by rewrite (S1 Hl), (S2 Hl).
    + exists (ls1 ++ ls2)%list. by rewrite L2, L1, (assoc_L (++)).
Qed.

Lemma handled_mono v v' e : progress v v' → handled e v → handled e v'.
Proof.
  intros [_ _ _ (ms & P & _) [ls L]]. unfold handled.
  destruct (ow_publisher w); rewrite ?P, ?L, ?elem_of_app; by left.
Qed.

Lemma pr_known v v' : progress v v' → ∀ e, known e v → known e v'.
Proof.
  intros [(f & Hf & E) _ _ _ _] e Hk r Hr Hid. rewrite E in Hr. apply list_elem_of_fmap in Hr as (r0 & -> & Hr0).
  destruct (Hf r0) as [Hs _]. rewrite (message_same r0) by done. apply Hk; [done|]. by destruct Hs as (<- & _).
Qed.

Lemma pr_marked v v' : progress v v' → ∀ i, marked i v → marked i v'.
Proof.
  intros [(f & Hf & E) _ _ _ _] i Hm r Hr Hid. rewrite E in Hr. apply list_elem_of_fmap in Hr as (r0 & -> & Hr0).
  destruct (Hf r0) as [(Hi & _) Hp]. apply Hp, Hm; congruence.
Qed.

(** Two events with one id and one message. *)
Lemma handled_same e e' v :
  ob_ID e' = ob_ID e → event_message e' = event_message e → handled e v → handled e' v.
Proof.
  intros Hid Hm. unfold handled. destruct (ow_publisher w); [|by rewrite Hm].
  assert (ob_EventType e' = ob_EventType e) as -> by (unfold event_message in Hm; congruence).
  by rewrite Hid.
Qed.

(** Steps that leave the store alone. *)
Lemma progress_quiet v n ms ls :
  (ow_publisher w = logOutboxPublisher → ms = []) →
  progress v (mkOutboxWorld n (o_repo v) (o_published v ++ ms)%list (o_log v ++ ls)%list).
Proof.
  intros Hl. split; simpl; [apply rows_id | | done | by exists ms | by exists ls].
  intros Hd r Hr Hp. specialize (Hd r Hr Hp). unfold handled in *. simpl.
  destruct (ow_publisher w); rewrite elem_of_app; by left.
Qed.

Lemma progress_tick v n : progress v (mkOutboxWorld n (o_repo v) (o_published v) (o_log v)).
Proof. pose proof (progress_quiet v n [] [] (λ _, eq_refl)) as Hq. by rewrite !app_nil_r in Hq. Qed.

Lemma progress_emit v l : progress v (mkOutboxWorld (o_step v) (o_repo v) (o_published v) (o_log v ++ [l])%list).
Proof. pose proof (progress_quiet v (o_step v) [] [l] (λ _, eq_refl)) as Hq. by rewrite app_nil_r in Hq. Qed.

(** A step that hands nothing over and does not touch the store. *)
Definition idle v v' : Prop := progress v v' ∧ o_repo v' = o_repo v ∧ receipts v' = receipts v.

Lemma idle_refl v : idle v v.
Proof. by split_and!. Qed.

Lemma idle_trans v1 v2 v3 : idle v1 v2 → idle v2 v3 → idle v1 v3.
Proof. intros (P1 & R1 & S1) (P2 & R2 & S2). split_and!; [by etrans | congruence..]. Qed.

Lemma wp_o_ctx_err ctx v (Q : error → OW → Prop) :
  (∀ e v', idle v v' → (ctx = Background → e = None) → Q e v') → wp (o_ctx_err env ctx) Q v.
Proof. intros HQ. apply HQ; [|by intros ->]. split_and!; [apply progress_tick | done..]. Qed.

Lemma wp_log_line l v (Q : unit → OW → Prop) :
  handled_line l = None → (∀ v', idle v v' → Q tt v') → wp (emit l) Q v.
Proof.
  intros Hl HQ. apply wp_modify, HQ. split_and!; [apply progress_emit | done |].
  unfold receipts. destruct (ow_publisher w); [|done]. simpl. rewrite omap_app. simpl. by rewrite Hl, app_nil_r.
Qed.

(** Replacing the rows by ones with the same content. *)
Lemma progress_rows f v n :
  row_update f →
  (∀ r, r ∈ pg_outbox (o_repo v) → or_published (f r) = true →
     or_published r = true ∨ handled (scan_outbox r) v) →
  progress v (mkOutboxWorld n (with_outbox (map f (pg_outbox (o_repo v)))
    (pg_outbox_seq (o_repo v)) (o_repo v)) (o_published v) (o_log v)).
Proof.
  intros Hf Hpub. split; simpl; [by exists f | | | by exists []; rewrite app_nil_r | by exists []; rewrite app_nil_r].
  - intros Hd r Hr Hp. simpl in *. apply list_elem_of_fmap in Hr as (r0 & -> & Hr0).
    destruct (Hf r0) as [Hs _]. apply (handled_same (scan_outbox r0)); [apply Hs | by apply message_same |].
    destruct (Hpub r0 Hr0 Hp); [by apply Hd | done].
  - intros Hg. apply good_update_outbox; [|done]. intros r. apply Hf.
Qed.

(** The worker has the writer it needs. *)
Definition ready : Prop :=
  match ow_publisher w with kafkaOutboxPublisher _ writer => writer = true | _ => True end.

(** A run without faults, with a broker that accepts everything. *)
Definition calm (ctx : Ctx) : Prop :=
  ctx = Background ∧ ready ∧ (∀ n, oe_fault env n = NoFault) ∧ ∀ n m, oe_write env n m = None.

Lemma wp_Publish event v (Q : error → OW → Prop) :
  (∀ e v', progress v v' → o_repo v' = o_repo v →
    match e with
    | None => receipts v' = (receipts v ++ [receipt event])%list
    | Some _ => ∀ ctx, ¬ calm ctx
    end → Q e v') →
  wp (Publish env w event) Q v.
Proof.
  intros HQ. unfold Publish, receipts, receipt, calm, ready in *. destruct (ow_publisher w) as [|topic writer] eqn:Ew.
  - apply wp_bind, wp_modify, wp_ret, HQ; [apply progress_emit | done |]. simpl. by rewrite omap_app.
  - unfold kafkaOutboxPublisher_Publish. destruct writer; simpl.
    2:{ apply wp_ret, HQ; [done..|]. by intros ctx (_ & ? & _). }
    apply wp_bind. unfold o_tick. unfold wp at 1. simpl.
    destruct (oe_write env (o_step v) (event_message event)) as [err|] eqn:E.
    + apply wp_ret, HQ; [apply progress_tick | done |]. intros ctx (_ & _ & _ & Hw). by rewrite Hw in E.
    + apply wp_bind, wp_modify, wp_ret, HQ; [|done | simpl; by rewrite map_app].
      pose proof (progress_quiet v (S (o_step v)) [event_message event] []) as Hq. simpl.
      rewrite app_nil_r in Hq. apply Hq. by rewrite Ew.
Qed.

(** A statement on the store that only fails outside a calm run. *)
Lemma wp_o_call {A} ctx (fail : goerror → A) (op : CallInfo → Prog PgStore A) v
    (Q : A → OW → Prop) :
  (∀ ci a r', statement ci fail (op ci) (o_repo v) = (a, r') →
     ci_now ci = oe_now env (o_step v) → (calm ctx → clean ci) →
     Q a (mkOutboxWorld (S (o_step v)) r' (o_published v) (o_log v))) →
  wp (o_call env ctx (λ ci, statement ci fail (op ci))) Q v.
Proof.
  intros HQ. unfold o_call, bind, o_tick, wp. simpl.
  set (ci := mkCallInfo _ _ _). destruct (statement ci fail (op ci) (o_repo v)) as [a r'] eqn:E.
  apply (HQ ci); [exact E | done |]. intros (-> & _ & Hf & _). split; [done | apply Hf].
Qed.

Lemma statement_cases {A} ci (fail : goerror → A) (m : Prog PgStore A) s a s' :
  statement ci fail m s = (a, s') →
  m s = (a, s') ∨ (¬ clean ci ∧ (∃ e, a = fail e) ∧ (s' = s ∨ s' = (m s).2)).
Proof.
  unfold statement, ret, bind. destruct (ci_ctx ci) eqn:Ec.
  { intros [= <- <-]. right. split_and!; [by intros [? ?]; congruence | by eexists | by left]. }
  destruct (ci_fault ci) eqn:Ef; [by left | |].
  - intros [= <- <-]. right. split_and!; [by intros [? ?]; congruence | by eexists | by left].
  - destruct (m s) as [a0 s0]. intros [= <- <-]. right.
    split_and!; [by intros [? ?]; congruence | by eexists | by right].
Qed.

(** Every row left is published or as it was. *)
Definition spared v v' : Prop :=
  ∀ r, r ∈ pg_outbox (o_repo v') → or_published r = true ∨ r ∈ pg_outbox (o_repo v).

Lemma spared_trans v1 v2 v3 : spared v1 v2 → spared v2 v3 → spared v1 v3.
Proof. intros H12 H23 r Hr. destruct (H23 r Hr); [by left | by apply H12]. Qed.

Lemma spared_idle v v' : idle v v' → spared v v'.
Proof. intros (_ & E & _) r Hr. right. by rewrite <- E. Qed.

Lemma spared_repo v v' : o_repo v' = o_repo v → spared v v'.
Proof. intros E r Hr. right. by rewrite <- E. Qed.

(** What a job does to the world. *)
Definition advanced v v' : Prop := progress v v' ∧ spared v v'.

Lemma advanced_trans v1 v2 v3 : advanced v1 v2 → advanced v2 v3 → advanced v1 v3.
Proof. intros [P1 S1] [P2 S2]. split; [by etrans | by eapply spared_trans]. Qed.

Lemma advanced_idle v v' : idle v v' → advanced v v'.
Proof. intros Hi. split; [apply Hi | by apply spared_idle]. Qed.

(** Marking an event that was handed over. *)
Lemma wp_mark ctx event v (Q : error → OW → Prop) :
  known event v → handled event v →
  (∀ e v', advanced v v' → receipts v' = receipts v →
    (calm ctx → e = None ∧ marked (ob_ID event) v') → Q e v') →
  wp (o_call env ctx (λ ci, outbox_MarkPublished ci (ob_ID event))) Q v.
Proof.
  intros Hk Hd HQ. apply (wp_o_call ctx). intros ci a r' E _ Hcalm.
  set (rows := map (mark_row (ci_now ci) (ob_ID event)) (pg_outbox (o_repo v))).
  assert (r' = o_repo v ∨ r' = with_outbox rows (pg_outbox_seq (o_repo v)) (o_repo v)) as Hrep.
  { apply statement_cases in E as [E|(_ & _ & [->| ->])]; [|by left | by right].
    injection E as _ <-. by right. }
  assert (clean ci → a = None ∧ r' = with_outbox rows (pg_outbox_seq (o_repo v)) (o_repo v)) as Hcl.
  { intros Hc. apply statement_cases in E as [E|(? & _)]; [|done]. by injection E as <- <-. }
  apply HQ; [|done|].
  - destruct Hrep as [-> | ->]; [split; [apply progress_tick | by apply spared_repo]|]. split.
    + apply progress_rows.
      * intros r. unfold mark_row. by destruct (_ =? _).
      * intros r Hr. unfold mark_row. destruct (Z.eqb_spec (or_id r) (ob_ID event)) as [Heq|]; [|by left].
        intros _. right. apply (handled_same event); [done | by apply Hk | done].
    + intros r Hr. simpl in Hr. apply list_elem_of_fmap in Hr as (r0 & -> & Hr0).
      unfold mark_row. destruct (_ =? _); [by left | by right].
  - intros Hc. destruct (Hcl (Hcalm Hc)) as [-> ->]. split; [done|].
    intros r Hr Hid. simpl in Hr. unfold rows in Hr. apply list_elem_of_fmap in Hr as (r0 & -> & _).
    unfold mark_row in *. by destruct (Z.eqb_spec (or_id r0) (ob_ID event)).
Qed.

Lemma wp_processEvent ctx event v :
  known event v →
  wp (processEvent env w ctx event) (λ _ v', advanced v v' ∧
    (calm ctx → marked (ob_ID event) v' ∧ receipts v' = (receipts v ++ [receipt event])%list)) v.
Proof.
  intros Hk. unfold processEvent. apply wp_bind, wp_o_ctx_err. intros e v1 Hi1 Hbg.
  pose proof (advanced_idle _ _ Hi1) as Ha1. destruct Hi1 as (Hp1 & Hr1 & Hs1). destruct e as [e|].
  { apply wp_ret. split; [done|]. intros [Hc _]. by specialize (Hbg Hc). }
  apply wp_bind, wp_Publish. intros e v2 Hp2 Hr2 He.
  assert (advanced v v2) as Ha2 by (eapply advanced_trans; [exact Ha1 | by split; [|apply spared_repo]]).
  destruct e as [e|].
  { apply wp_ret. split; [done|]. intros Hc. by destruct (He ctx). }
  apply wp_bind, wp_mark.
  { apply (pr_known _ _ Hp2), (pr_known _ _ Hp1), Hk. }
  { apply handled_receipt. rewrite He. apply elem_of_app. right. by left. }
  intros e v3 Ha3 Hs3 Hc3. pose proof (advanced_trans _ _ _ Ha2 Ha3) as Ha.
  destruct e as [e|]; apply wp_ret; (split; [done|]); intros Hc; destruct (Hc3 Hc) as [? Hm]; [done|].
  split; [done|]. by rewrite Hs3, He, Hs1.
Qed.

Lemma wp_run_jobs ctx jobs : ∀ v,
  Forall (λ e, known e v) jobs →
  wp (run_jobs env w ctx jobs) (λ _ v', advanced v v' ∧
    (calm ctx → Forall (λ e, marked (ob_ID e) v') jobs ∧
       receipts v' = (receipts v ++ map receipt jobs)%list)) v.
Proof.
  induction jobs as [|job jobs IH]; intros v Hk; simpl.
  { apply wp_ret. split; [apply advanced_idle, idle_refl|]. by rewrite app_nil_r. }
  apply Forall_cons in Hk as [Hj Hjs]. apply wp_bind.
  wp_use (wp_processEvent ctx job v Hj). intros r v1 [Ha1 Hc1].
  apply wp_bind. wp_use (IH v1); [eapply Forall_impl; [exact Hjs|]; intros e; apply pr_known, Ha1|].
  intros rs v2 [Ha2 Hc2]. apply wp_ret. split; [by eapply advanced_trans|]. intros Hc.
  destruct (Hc1 Hc) as [Hm1 Hs1], (Hc2 Hc) as [Hm2 Hs2]. split.
  - constructor; [|done]. by apply (pr_marked _ _ (proj1 Ha2)).
  - by rewrite Hs2, Hs1, <- (assoc_L (++)).
Qed.

(** What a fetch returns is known; nothing else changes in a calm run. *)
Lemma wp_fetch ctx v (Q : result goerror (list OutboxEvent) → OW → Prop) :
  0 ≤ ow_batchSize w → pg_good (o_repo v) →
  (∀ a v', progress v v' → receipts v' = receipts v →
    (∀ es, a = Ok es → Forall (λ e, known e v') es) →
    (calm ctx →
       let rows := claimed_rows (oe_now env (o_step v)) (ow_batchSize w) (pg_outbox (o_repo v)) in
       a = Ok (map scan_outbox rows) ∧
       ∀ r, r ∈ pg_outbox (o_repo v') → r ∈ pg_outbox (o_repo v) ∨ or_id r ∈ map or_id rows) → Q a v') →
  wp (o_call env ctx (λ ci, outbox_FetchUnpublished ci (ow_batchSize w))) Q v.
Proof.
  intros Hsize Hg HQ. apply (wp_o_call ctx). intros ci a r' E Hnow Hcalm.
  rewrite (proj2 (Z.ltb_ge _ _) Hsize) in E.
  set (rows := claimed_rows (ci_now ci) (ow_batchSize w) (pg_outbox (o_repo v))) in *.
  set (until := ci_now ci + outboxClaimLease) in *.
  set (r1 := with_outbox (map (lease until (map or_id rows)) (pg_outbox (o_repo v)))
    (pg_outbox_seq (o_repo v)) (o_repo v)).
  assert (∀ r, same_event r (lease until (map or_id rows) r) ∧
    or_published (lease until (map or_id rows) r) = or_published r) as Hlease
    by (intros r; unfold lease; by case_bool_decide).
  assert (∀ es, a = Ok es → es = map scan_outbox rows ∧ r' = r1) as Hes.
  { intros es ->. apply statement_cases in E as [E|(_ & [e ?] & _)]; [|done]. by injection E as <- <-. }
  apply HQ; [|done| |].
  - assert (r' = o_repo v ∨ r' = r1) as [-> | ->].
    { apply statement_cases in E as [E|(_ & _ & [->| ->])]; [|by left | by right].
      injection E as _ <-. by right. }
    + apply progress_tick.
    + apply progress_rows; [|intros r _ Hp; left]; [intros r|]; destruct (Hlease r) as [? Ep];
        [by split; [|rewrite Ep] | by rewrite Ep in Hp].
  - intros es Ha. destruct (Hes es Ha) as [-> ->]. apply Forall_fmap, Forall_forall.
    intros r0 Hr0 r Hr Hid. simpl in Hr. apply list_elem_of_fmap in Hr as (r2 & -> & Hr2).
    destruct (Hlease r2) as [Hs2 _]. rewrite (message_same r2) by done.
    assert (r2 = r0) as ->; [|done]. apply (good_same_id (o_repo v)); [done | done | by eapply claimed_in |].
    simpl in Hid. by destruct Hs2 as (<- & _).
  - intros Hc. specialize (Hcalm Hc). cbv zeta. rewrite <- Hnow. fold rows.
    apply statement_cases in E as [E|(? & _)]; [|done]. injection E as <- <-. split; [done|].
    intros r Hr. simpl in Hr. apply list_elem_of_fmap in Hr as (r2 & -> & Hr2).
    unfold lease. case_bool_decide; [by right | by left].
Qed.

Lemma wp_submit_events ctx events : ∀ pool v (Q : list OutboxEvent * list outboxProcessResult → OW → Prop),
  (∀ jobs res v', idle v v' → jobs ⊆ events →
    (calm ctx → p_closed pool = false → (p_slots pool + length events ≤ slot_cap pool)%nat →
       jobs = events ∧ res = []) →
    Q (jobs, res) v') →
  wp (submit_events env ctx pool events) Q v.
Proof.
  induction events as [|ev events IH]; intros pool v Q HQ; simpl.
  { apply wp_ret, HQ; [apply idle_refl | done | done]. }
  apply wp_bind, wp_o_ctx_err. intros e v1 Hi1 Hbg. destruct e as [e|].
  { apply wp_ret, HQ; [done | apply list_subseteq_nil |]. intros [Hc _]. by specialize (Hbg Hc). }
  unfold Submit. destruct (p_closed pool) eqn:Ecl.
  - apply wp_bind, IH. intros jobs res v2 Hi2 Hsub _. apply wp_ret, HQ.
    + by eapply idle_trans.
    + by apply list_subseteq_cons.
    + intros _ ?. congruence.
  - destruct (Nat.ltb_spec (p_slots pool) (slot_cap pool)) as [Hlt|Hge];
      apply wp_bind, IH; intros jobs res v2 Hi2 Hsub Hall;
      (apply wp_ret, HQ; [by eapply idle_trans | |]).
    + by apply list_subseteq_skip.
    + intros Hc _ Hlen. unfold slot_cap in *. simpl in *.
      by destruct (Hall Hc) as [-> ->]; [done | lia |].
    + by apply list_subseteq_cons.
    + intros Hc _ Hlen. simpl in Hlen. lia.
Qed.

Lemma wp_processEvents ctx events v :
  Forall (λ e, known e v) events →
  wp (processEvents env w schedule ctx events) (λ _ v', advanced v v' ∧
    (calm ctx → Forall (λ e, marked (ob_ID e) v') events ∧
       ∃ rs, receipts v' = (receipts v ++ rs)%list ∧ rs ≡ₚ map receipt events)) v.
Proof.
  intros Hk. unfold processEvents. apply wp_bind, wp_submit_events.
  intros jobs res v1 Hi1 Hsub Hall. simpl. apply wp_bind.
  assert (Forall (λ e, known e v1) (schedule OutboxEvent jobs)) as Hk1.
  { rewrite schedule_perm. rewrite Forall_forall in Hk |- *. intros e He.
    apply (pr_known _ _ (proj1 Hi1)), Hk, Hsub, He. }
  wp_use (wp_run_jobs ctx (schedule OutboxEvent jobs) v1 Hk1).
  intros rs v2 [Ha2 Hc2]. apply wp_ret. split; [by eapply advanced_trans; [apply advanced_idle|]|].
  intros Hc. destruct (Hall Hc eq_refl) as [-> _].
  { unfold slot_cap. simpl. rewrite length_replicate. lia. }
  destruct (Hc2 Hc) as [Hm Hs2], Hi1 as (_ & _ & Hs1). split; [by rewrite schedule_perm in Hm|].
  eexists. split; [by rewrite Hs2, Hs1|]. by rewrite schedule_perm.
Qed.

Lemma wp_log_results results v : wp (log_results results) (λ _ v', idle v v') v.
Proof.
  revert v. induction results as [|res results IH]; intros v; simpl; [apply wp_ret, idle_refl|].
  apply wp_bind. unfold logProcessResult.
  destruct (res_err res); (apply wp_log_line; [done|]); intros v1 H1; wp_use (IH v1); intros u v2 H2;
    by eapply idle_trans.
Qed.

(** What a calm batch does with the rows it claims. *)
Definition batch_done (rows : list outbox_row) v v' : Prop :=
  Forall (λ r, marked (or_id r) v') rows ∧
  (∃ rs, receipts v' = (receipts v ++ rs)%list ∧ rs ≡ₚ map (receipt ∘ scan_outbox) rows) ∧
  spared v v'.

Lemma wp_processBatch ctx v :
  0 ≤ ow_batchSize w → pg_good (o_repo v) →
  wp (processBatch env w schedule ctx) (λ _ v', progress v v' ∧
    (calm ctx → batch_done (claimed_rows (oe_now env (S (o_step v))) (ow_batchSize w)
                              (pg_outbox (o_repo v))) v v')) v.
Proof.
  intros Hsize Hg. unfold processBatch. apply wp_bind.
  assert (o_ctx_err env ctx v = (ctx_Err ctx (oe_now env (o_step v)),
    mkOutboxWorld (S (o_step v)) (o_repo v) (o_published v) (o_log v))) as E by done.
  unfold wp at 1. rewrite E. clear E. set (v1 := mkOutboxWorld _ _ _ _).
  assert (progress v v1) as Hp1 by apply progress_tick.
  destruct (ctx_Err ctx _) eqn:Ectx.
  { apply wp_ret. split; [done|]. by intros (-> & _). }
  apply wp_bind, wp_fetch; [done..|]. intros a v2 Hp2 Hs2 Hk Hc2. cbv zeta in Hc2.
  change (o_step v1) with (S (o_step v)) in Hc2. change (o_repo v1) with (o_repo v) in Hc2.
  change (receipts v1) with (receipts v) in Hs2.
  set (rows := claimed_rows _ _ _) in *.
  destruct a as [[|e es]|e].
  - apply wp_ret. split; [by etrans|]. intros Hc. destruct (Hc2 Hc) as [Er Hrows].
    assert (rows = []) as Enil by (destruct rows; [done|discriminate Er]). rewrite Enil in *.
    split_and!; [done | exists []; by rewrite app_nil_r, Hs2 |]. intros r Hr. right.
    by destruct (Hrows r Hr) as [?|?%elem_of_nil].
  - apply wp_bind. wp_use (wp_processEvents ctx (e :: es) v2 (Hk _ eq_refl)). intros rs v3 [Ha3 Hc3].
    wp_use (wp_log_results rs v3). intros u4 v4 Hi4.
    split; [etrans; [exact Hp1|etrans; [exact Hp2|etrans; [apply Ha3 | apply Hi4]]]|]. intros Hc.
    destruct (Hc2 Hc) as [Er Hrows], (Hc3 Hc) as [Hm (ms & Hs3 & Hms)].
    assert (e :: es = map scan_outbox rows) as Ees by congruence. rewrite Ees in Hm, Hms.
    apply Forall_fmap in Hm. destruct Hi4 as (_ & E4 & Hs4).
    assert (Forall (λ r, marked (or_id r) v4) rows) as Hm4.
    { eapply Forall_impl; [exact Hm|]. intros r Hr r'. rewrite E4. apply Hr. }
    split_and!; [exact Hm4 | |].
    + exists ms. rewrite map_map in Hms. by rewrite Hs4, Hs3, Hs2.
    + intros r Hr. rewrite E4 in Hr. destruct (proj2 Ha3 r Hr) as [?|Hr2]; [by left|].
      destruct (Hrows r Hr2) as [?|(r0 & Hid & Hr0)%list_elem_of_fmap]; [by right|]. left.
      rewrite Forall_forall in Hm. by apply (Hm r0 Hr0 r).
  - apply wp_log_line; [done|]. intros v3 (Hp3 & _).
    split; [by etrans; [|etrans]|]. intros Hc. by destruct (Hc2 Hc).
Qed.

Lemma wp_run_ticks ctx n : ∀ v,
  0 ≤ ow_batchSize w → pg_good (o_repo v) →
  wp (run_ticks env w schedule ctx n) (λ _ v', progress v v') v.
Proof.
  induction n as [|n IH]; intros v Hsize Hg; simpl; [by apply wp_ret|].
  apply wp_bind, wp_o_ctx_err. intros e v1 (Hp1 & Hr1 & _) _. destruct e as [e|].
  { apply wp_bind, wp_log_line; [done|]. intros v2 [Hp2 _]. apply wp_ret. by etrans. }
  apply wp_bind. wp_use (wp_processBatch ctx v1 Hsize); [by rewrite Hr1|]. intros _ v2 [Hp2 _].
  wp_use (IH v2 Hsize); [by apply (pr_good _ _ Hp2); rewrite Hr1|].
  intros b v3 Hp3. by etrans; [|etrans].
Qed.

Lemma wp_close v : wp (match Close env w with Some err => emit (LogClose err) | None => ret tt end)
  (λ _ v', progress v v') v.
Proof. destruct (Close env w); [apply wp_log_line; [done|]; by intros v' [? _] | by apply wp_ret]. Qed.

Lemma wp_Run ctx n v :
  0 ≤ ow_batchSize w → pg_good (o_repo v) →
  wp (Run env w schedule ctx n) (λ _ v', progress v v') v.
Proof.
  intros Hsize Hg. unfold Run. apply wp_bind. wp_use (wp_processBatch ctx v Hsize Hg). intros _ v1 [Hp1 _].
  apply wp_bind. wp_use (wp_run_ticks ctx n v1 Hsize); [by apply (pr_good _ _ Hp1)|].
  intros b v2 Hp2. assert (progress v v2) by by etrans.
  destruct b; [|by apply wp_ret]. wp_use (wp_close v2). intros u v3 Hp3. by etrans.
Qed.

(** ** Draining the table *)

Definition unpublished v : list outbox_row :=
  filter (λ r, or_published r = false) (pg_outbox (o_repo v)).

(** No unpublished row is leased any more. *)
Definition leases_over v : Prop :=
  ∀ r t n, r ∈ unpublished v → or_published_at r = Some t → t ≤ oe_now env n.

Lemma leases_over_at v T :
  Forall (λ r, from_option (λ t, t <=? T) true (or_published_at r) = true) (pg_outbox (o_repo v)) →
  (∀ n, T ≤ oe_now env n) → leases_over v.
Proof.
  intros Hall HT r t n [_ Hr]%list_elem_of_filter Ht. rewrite Forall_forall in Hall. specialize (Hall r Hr).
  rewrite Ht in Hall. apply Z.leb_le in Hall. etrans; [exact Hall | apply HT].
Qed.

Lemma unpublished_claimable n v :
  leases_over v →
  filter (λ r, claimable (oe_now env n) r = true) (pg_outbox (o_repo v)) = unpublished v.
Proof.
  intros Hl. unfold unpublished. apply list_filter_in. intros r Hr. unfold claimable.
  destruct (or_published r) eqn:Ep; simpl; [done|].
  destruct (or_published_at r) as [t|] eqn:Et; [|done]. rewrite Z.leb_le. split; [done|]. intros _.
  apply (Hl r t n); [|done]. by apply list_elem_of_filter.
Qed.

Lemma unpublished_spared v v' r : spared v v' → r ∈ unpublished v' → r ∈ unpublished v.
Proof.
  intros Hs [Hp Hr]%list_elem_of_filter. apply list_elem_of_filter. split; [done|].
  destruct (Hs r Hr); [congruence | done].
Qed.

(** A calm batch leaves a full load less. *)
Lemma batch_drains n v v' :
  pg_good (o_repo v) → progress v v' → leases_over v →
  batch_done (claimed_rows (oe_now env n) (ow_batchSize w) (pg_outbox (o_repo v))) v v' →
  leases_over v' ∧ (length (unpublished v') ≤ length (unpublished v) - Z.to_nat (ow_batchSize w))%nat.
Proof.
  intros Hg Hp Hl (Hm & _ & Hs). split.
  { intros r t k Hr. apply Hl. by apply (unpublished_spared v v'). }
  set (rows := claimed_rows _ _ _) in *.
  destruct (claimed_spec (oe_now env n) (ow_batchSize w) (pg_outbox (o_repo v))) as [rest Hperm]. fold rows in Hperm.
  assert (length rows = Nat.min (Z.to_nat (ow_batchSize w)) (length (unpublished v))) as Hlen
    by (unfold rows; by rewrite claimed_length, unpublished_claimable).
  rewrite unpublished_claimable in Hperm by done.
  assert (NoDup (rows ++ rest)) as [Hnd _]%NoDup_app
    by (rewrite Hperm; by apply NoDup_filter, good_rows_NoDup).
  assert (NoDup (rows ++ unpublished v')) as Hnd'.
  { apply NoDup_app. split_and!; [done | | by apply NoDup_filter, good_rows_NoDup, (pr_good _ _ Hp)].
    intros r Hr [Hu Hin]%list_elem_of_filter. rewrite Forall_forall in Hm.
    specialize (Hm r Hr r Hin eq_refl). congruence. }
  assert ((rows ++ unpublished v')%list ⊆+ unpublished v) as Hsub%submseteq_length.
  { apply NoDup_submseteq; [done|]. intros r [Hr|Hr]%elem_of_app; [|by apply (unpublished_spared v v')].
    rewrite <- Hperm. apply elem_of_app. by left. }
  rewrite length_app in Hsub. lia.
Qed.

Lemma wp_batch_drains ctx v :
  calm ctx → 0 ≤ ow_batchSize w → pg_good (o_repo v) → leases_over v →
  wp (processBatch env w schedule ctx) (λ _ v', progress v v' ∧ leases_over v' ∧
    (length (unpublished v') ≤ length (unpublished v) - Z.to_nat (ow_batchSize w))%nat) v.
Proof.
  intros Hc Hsize Hg Hl. wp_use (wp_processBatch ctx v Hsize Hg). intros _ v' [Hp Hb].
  split; [done|]. by eapply batch_drains, Hb.
Qed.

Lemma wp_ticks_drain ctx n : calm ctx → 0 ≤ ow_batchSize w → ∀ v,
  pg_good (o_repo v) → leases_over v →
  wp (run_ticks env w schedule ctx n) (λ b v', b = false ∧ progress v v' ∧
    (length (unpublished v') ≤ length (unpublished v) - n * Z.to_nat (ow_batchSize w))%nat) v.
Proof.
  intros Hc Hsize. induction n as [|n IH]; intros v Hg Hl; simpl.
  { apply wp_ret. split_and!; [done..|lia]. }
  apply wp_bind, wp_o_ctx_err. intros e v1 (Hp1 & Hr1 & _) Hbg. rewrite Hbg by apply Hc.
  assert (unpublished v1 = unpublished v) as E1 by (unfold unpublished; by rewrite Hr1).
  assert (leases_over v1) as Hl1 by (intros r t k; rewrite E1; apply Hl).
  apply wp_bind. wp_use (wp_batch_drains ctx v1 Hc Hsize); [by rewrite Hr1 | done |].
  intros _ v2 (Hp2 & Hl2 & Hd2). rewrite E1 in Hd2.
  wp_use (IH v2); [by apply (pr_good _ _ Hp2); rewrite Hr1 | done |].
  intros b v3 (-> & Hp3 & Hd3). split_and!; [done | by etrans; [|etrans] | lia].
Qed.

(** As many batches as there are full loads publish every row. *)
Lemma wp_Run_drains ctx n v :
  calm ctx → 0 ≤ ow_batchSize w → pg_good (o_repo v) → leases_over v →
  (length (unpublished v) ≤ S n * Z.to_nat (ow_batchSize w))%nat →
  wp (Run env w schedule ctx n) (λ _ v', progress v v' ∧ unpublished v' = []) v.
Proof.
  intros Hc Hsize Hg Hl Hn. unfold Run. apply wp_bind. wp_use (wp_batch_drains ctx v Hc Hsize Hg Hl).
  intros _ v1 (Hp1 & Hl1 & Hd1). apply wp_bind.
  wp_use (wp_ticks_drain ctx n Hc Hsize v1); [by apply (pr_good _ _ Hp1) | done |].
  intros b v2 (-> & Hp2 & Hd2). apply wp_ret. split; [by etrans|]. apply length_zero_iff_nil. lia.
Qed.

(** Every row of a store whose rows are all published was handed over. *)
Lemma all_handled v v' r :
  progress v v' → delivered v → unpublished v' = [] → r ∈ pg_outbox (o_repo v) → handled (scan_outbox r) v'.
Proof.
  intros Hp Hd Hu Hr. destruct (pr_rows _ _ Hp) as (f & Hf & E). destruct (Hf r) as [Hs _].
  assert (f r ∈ pg_outbox (o_repo v')) as Hfr by (rewrite E; by apply list_elem_of_fmap_2).
  apply (handled_same (scan_outbox (f r))); [symmetry; apply Hs | by symmetry; apply message_same |].
  apply (pr_delivered _ _ Hp Hd); [done|]. destruct (or_published (f r)) eqn:Ep; [done|].
  assert (f r ∈ unpublished v') as Hin by by apply list_elem_of_filter. rewrite Hu in Hin. by apply elem_of_nil in Hin.
Qed.

(** ** Properties *)

(** C26 No event is marked published before it was handed over: however often
    the worker runs, in whatever order the jobs of a batch run, and whatever
    the database, the broker and the context do, every row with published =
    TRUE has had its message accepted by the broker, if the worker publishes to
    Kafka, so an event can be delivered twice but is never lost; a worker
    without brokers has logged the event, and publishes nothing. *)
Theorem outbox_never_lost ctx n v :
  0 ≤ ow_batchSize w → pg_good (o_repo v) → delivered v →
  wp (Run env w schedule ctx n) (λ _ v',
    (∀ r, r ∈ pg_outbox (o_repo v') → or_published r = true →
       match ow_publisher w with
       | kafkaOutboxPublisher _ _ => event_message (scan_outbox r) ∈ o_published v'
       | logOutboxPublisher => LogHandled (or_id r) (or_event_type r) ∈ o_log v'
       end) ∧
    ∃ ms, o_published v' = (o_published v ++ ms)%list ∧ (ow_publisher w = logOutboxPublisher → ms = [])) v.
Proof.
  intros Hsize Hg Hd. wp_use (wp_Run ctx n v Hsize Hg). intros u v' Hp.
  split; [by apply (pr_delivered _ _ Hp) | apply (pr_published _ _ Hp)].
Qed.

(** C27 In a run without faults one batch takes the oldest claimable events, as
    many as the batch size allows, and hands over and marks each of them
    exactly once: a Kafka worker gets one message of each accepted, a worker
    without brokers logs each once; all other rows stay as they are or were
    published. *)
Theorem outbox_batch_complete ctx v :
  calm ctx → 0 ≤ ow_batchSize w → pg_good (o_repo v) →
  wp (processBatch env w schedule ctx) (λ _ v',
    let now := oe_now env (S (o_step v)) in
    let rows := claimed_rows now (ow_batchSize w) (pg_outbox (o_repo v)) in
    (∃ rest, rows ++ rest ≡ₚ filter (λ r, claimable now r = true) (pg_outbox (o_repo v)) ∧
       (Z.of_nat (length rows) < ow_batchSize w → rest = [])) ∧
    Forall (λ r, marked (or_id r) v') rows ∧
    (∃ rs, receipts v' = (receipts v ++ rs)%list ∧ rs ≡ₚ map (receipt ∘ scan_outbox) rows) ∧
    spared v v') v.
Proof.
  intros Hc Hsize Hg. wp_use (wp_processBatch ctx v); [done..|].
  intros _ v' [_ Hb]. specialize (Hb Hc). cbv zeta in *. split; [|exact Hb].
  destruct (claimed_spec (oe_now env (S (o_step v))) (ow_batchSize w) (pg_outbox (o_repo v))) as [rest Hr].
  exists rest. split; [done|]. rewrite claimed_length. apply Permutation_length in Hr.
  rewrite length_app, claimed_length in Hr. intros Hlt. apply length_zero_iff_nil. lia.
Qed.
End delivery.

(** A worker with a broker, and one event to deliver. *)
Definition worker0 : OutboxWorker := NewOutboxWorker (mkOutboxWorkerConfig ["broker:9092"] "payflow" 0 0 0).
Definition calm_env : OutboxEnv := mkOutboxEnv Z.of_nat (λ _, NoFault) (λ _ _, None) None.
Definition pending_world : OutboxWorld PgStore := mkOutboxWorld 0 (outbox_of a_row) [] [].

Lemma outbox_never_lost_witness :
  wp (Run calm_env worker0 (λ _ l, l) Background 3) (λ _ v',
    (∀ r, r ∈ pg_outbox (o_repo v') → or_published r = true → event_message (scan_outbox r) ∈ o_published v') ∧
    ∃ ms, o_published v' = (o_published pending_world ++ ms)%list ∧
      (ow_publisher worker0 = logOutboxPublisher → ms = [])) pending_world.
Proof.
  apply (outbox_never_lost calm_env worker0 (λ _ l, l) (λ _ l, Permutation_refl l));
    [by vm_compute | by apply outbox_of_good |].
  intros r. by intros ->%list_elem_of_singleton.
Defined.

Lemma outbox_batch_complete_witness :
  wp (processBatch calm_env worker0 (λ _ l, l) Background) (λ _ v',
    let rows := claimed_rows 1 100 [a_row] in
    (∃ rest, rows ++ rest ≡ₚ filter (λ r, claimable 1 r = true) [a_row] ∧
       (Z.of_nat (length rows) < 100 → rest = [])) ∧
    Forall (λ r, marked (or_id r) v') rows ∧
    (∃ rs, receipts worker0 v' = ([] ++ rs)%list ∧ rs ≡ₚ map (receipt worker0 ∘ scan_outbox) rows) ∧
    spared pending_world v') pending_world.
Proof.
  apply (outbox_batch_complete calm_env worker0 (λ _ l, l) (λ _ l, Permutation_refl l) Background pending_world);
    [done | by vm_compute | by apply outbox_of_good].
Defined.

(** A run in full: the row is claimed, its message accepted and the row marked;
    a worker without brokers marks the row although nothing was published. *)
Example kafka_run :
  let v := (Run calm_env worker0 (λ _ l, l) Background 1 pending_world).2 in
  (map or_published (pg_outbox (o_repo v)), length (o_published v), o_log v)
  = ([true], 1%nat, [LogPublished (or_id a_row) (or_event_type a_row)]).
Proof. vm_compute. reflexivity. Qed.

Example log_run :
  let v := (Run calm_env (NewOutboxWorker (mkOutboxWorkerConfig [] "" 0 0 0)) (λ _ l, l) Background 1 pending_world).2 in
  (map or_published (pg_outbox (o_repo v)), o_published v, o_log v)
  = ([true], [], [LogHandled (or_id a_row) (or_event_type a_row); LogPublished (or_id a_row) (or_event_type a_row)]).
Proof. vm_compute. reflexivity. Qed.
