(* ===== verification/Delivery.v ===== *)
(** * Delivery: the payment service and the outbox worker on one store

    Requests in flight and the jobs of the worker act on the same tables, one
    piece at a time and in any order.  The payments keep their guarantees, the
    worker never marks what it did not hand over, and with a Kafka publisher
    every payment that was completed or refunded reaches the broker. *)

From stdpp Require Import base tactics list gmap strings sorting pretty.
From S2P Require Import Prelude GoLib Domain Repository Postgres Resilience Bank Payment Accounting PaymentLogic PaymentSpecs PaymentOutcome PaymentTheorems Lifecycle Announce PaymentWitnesses Interleaving InterleavingSafety Respect WorkerPool OutboxWorker OutboxTheorems.

Open Scope string_scope.
Open Scope Z_scope.

(** ** What the service does to the table of the outbox *)

(** Rows are only appended: unpublished, without a lease, with ids from the
    sequence. *)
Record appends (s s' : PgStore) : Prop := {
  ap_rows : ∃ rows, pg_outbox s' = (pg_outbox s ++ rows)%list ∧
    Forall (λ r, or_published r = false ∧ or_published_at r = None ∧ pg_outbox_seq s ≤ or_id r) rows;
  ap_seq : pg_outbox_seq s ≤ pg_outbox_seq s'
}.

Lemma appends_same s s' :
  pg_outbox s' = pg_outbox s → pg_outbox_seq s ≤ pg_outbox_seq s' → appends s s'.
Proof. intros E ?. split; [|done]. exists []. by rewrite E, app_nil_r. Qed.

#[export] Instance appends_preorder : PreOrder appends.
Proof.
  split; [intros s; by apply appends_same|].
  intros s1 s2 s3 [(k1 & E1 & H1) Q1] [(k2 & E2 & H2) Q2]. split; [|lia].
  exists (k1 ++ k2)%list. rewrite E2, E1, (assoc_L (++)). split; [done|].
  apply Forall_app. split; [done|]. eapply Forall_impl; [exact H2|]. simpl. intros r (?&?&?). split_and!; [done..|lia].
Qed.

Lemma within_statement {A} ci (fail : goerror → A) (m : Prog PgStore A) :
  within appends m → within appends (statement ci fail m).
Proof.
  intros Hm s. unfold statement, ret, bind. specialize (Hm s).
  destruct (ci_ctx ci); [done|]. destruct (ci_fault ci); [done | done |]. by destruct (m s).
Qed.

Section respects.
Context `{MapRange} (scan_null : error).
#[local] Instance events_of : EventRepository PgStore := pg_event_repo scan_null.


(** One statement: every branch leaves the table or appends to it. *)
Ltac one_statement :=
  apply within_statement; intros ?s; unfold bind, get, modify, ret, id; repeat case_match;
  simpl; first [done | apply appends_same; simpl; [done | lia]].

Lemma UpdateBalance_appends ci id d : within appends (pg_UpdateBalance ci id d).
Proof.
  intros s. unfold pg_UpdateBalance, bind at 1.
  assert (within appends (statement ci Err (sql_update_balance (ci_now ci) id d))) as Hu.
  { unfold sql_update_balance. one_statement. }
  specialize (Hu s). destruct (statement _ _ _ s) as [[rows|e] s1]; [|done].
  destruct (rows =? 0); [|done]. etrans; [exact Hu|].
  assert (within appends (pg_merchant_GetByID ci id)) as Hg by one_statement.
  specialize (Hg s1). unfold bind. by destruct (pg_merchant_GetByID ci id s1) as [[m|e] s2].
Qed.

Lemma ListByMerchant_appends ci mid p : within appends (pg_ListByMerchant ci mid p).
Proof.
  intros s. unfold pg_ListByMerchant, bind at 1.
  match goal with |- context [statement ci ?f ?m s] =>
    assert (within appends (statement ci f m)) as Hc by one_statement end.
  specialize (Hc s). destruct (statement _ _ _ s) as [[n|e] s1]; [|exact Hc].
  etrans; [exact Hc|]. revert s1 Hc. intros s1 _. revert s1. one_statement.
Qed.

Lemma outbox_Create_appends ci e : within appends (pg_outbox_Create ci e).
Proof.
  apply within_statement. intros s. split; simpl; [|lia]. eexists. split; [done|].
  apply Forall_singleton. simpl. split_and!; [done..|lia].
Qed.

#[export] Instance pg_appends : Respects PgStore appends.
Proof.
  split; [apply _ | intros..].
  - one_statement.
  - apply UpdateBalance_appends.
  - one_statement.
  - one_statement.
  - one_statement.
  - one_statement.
  - apply ListByMerchant_appends.
  - one_statement.
  - one_statement.
  - apply outbox_Create_appends.
  - one_statement.
  - simpl. unfold pg_Commit, commit, bind, modify, ret.
    assert (appends r0 (rolled_back r0 r)) by (apply appends_same; simpl; [done | lia]).
    destruct (ci_ctx ci); [done|]. by destruct (ci_fault ci).
  - apply appends_same; simpl; [done | lia].
Qed.
End respects.

(** ** What the worker does to the store *)

(** The ledger and the sequence of the outbox stay. *)
Definition kept (s s' : PgStore) : Prop := pg_view s' = pg_view s ∧ pg_outbox_seq s' = pg_outbox_seq s.

#[export] Instance kept_preorder : PreOrder kept.
Proof. split; [by intros s|]. intros s1 s2 s3 [V1 Q1] [V2 Q2]. split; congruence. Qed.

Lemma kept_rows f s :
  (∀ r, same_event r (f r) ∧ or_created_at (f r) = or_created_at r) →
  kept s (with_outbox (map f (pg_outbox s)) (pg_outbox_seq s) s).
Proof.
  intros Hf. split; [|done]. unfold pg_view. simpl. f_equal. rewrite map_map. apply map_ext.
  intros r. destruct (Hf r) as [(_ & E1 & E2) E3]. unfold norm_outbox, scan_outbox. simpl.
  by rewrite E1, E2, E3.
Qed.

Lemma kept_statement {A} ci (fail : goerror → A) (m : Prog PgStore A) :
  within kept m → within kept (statement ci fail m).
Proof.
  intros Hm s. unfold statement, ret, bind. specialize (Hm s).
  destruct (ci_ctx ci); [done|]. destruct (ci_fault ci); [done | done |]. by destruct (m s).
Qed.

Lemma Fetch_kept ci n : within kept (pg_FetchUnpublished ci n).
Proof.
  apply kept_statement. intros s. destruct (n <? 0); [done|]. apply kept_rows.
  intros r. unfold lease. by case_bool_decide.
Qed.

Lemma Mark_kept ci i : within kept (pg_MarkPublished ci i).
Proof.
  apply kept_statement. intros s. apply kept_rows.
  intros r. unfold mark_row. by destruct (_ =? _).
Qed.

(** Claimed events have ids that the sequence has passed. *)
Lemma Fetch_ids ci n s es :
  pg_good s → (pg_FetchUnpublished ci n s).1 = Ok es → Forall (λ e, ob_ID e < pg_outbox_seq s) es.
Proof.
  intros Hg E. destruct (pg_FetchUnpublished ci n s) as [a s'] eqn:Ef. simpl in E. subst a.
  apply statement_cases in Ef as [Ef|(_ & [e ?] & _)]; [|done].
  destruct (n <? 0); [done|]. injection Ef as <- _. apply Forall_fmap, Forall_forall. intros r Hr.
  unfold claimed_rows in Hr. apply elem_of_take in Hr as (i & Hi & _). apply list_elem_of_lookup_2 in Hi.
  rewrite (merge_sort_Permutation outbox_order), list_elem_of_filter in Hi. destruct Hi as [_ Hi].
  pose proof (good_outbox_seq _ Hg) as Hseq. rewrite Forall_fmap, Forall_forall in Hseq. by apply Hseq.
Qed.

(** ** Jobs *)

(** What a worker does next with an event it claimed. *)
Inductive Job := JobPublish (event : OutboxEvent) | JobMark (event : OutboxEvent).

Section jobs.
Variable oenv : OutboxEnv.
Variable worker : OutboxWorker.
Abbreviation OW := (OutboxWorld PgStore).
Implicit Types v : OW.
Context `{MapRange}.

(* go: internal/service/outbox_worker.go 111-123 *)
Definition claim (ctx : Ctx) : Prog OW (list Job) :=
  check! o_ctx_err oenv ctx or _err => ret [];
  let! r := o_call oenv ctx (λ ci, outbox_FetchUnpublished ci (ow_batchSize worker)) in
  match r with
  | Err err => let! _ := emit (LogClaim err) in ret []
  | Ok events => ret (map JobPublish events)
  end.

(** The lines about the results, which [processBatch] writes at the end of a
    batch, are left out here. *)
(* go: internal/service/outbox_worker.go OutboxWorker.processEvent *)
Definition run_job (ctx : Ctx) (j : Job) : Prog OW (option Job) :=
  match j with
  | JobPublish event =>
    check! o_ctx_err oenv ctx or _err => ret None;
    check! Publish oenv worker event or _err => ret None;
    ret (Some (JobMark event))
  | JobMark event =>
    let! _ := o_call oenv ctx (λ ci, outbox_MarkPublished ci (ob_ID event)) in ret None
  end.

(** The two pieces of an event, one after the other, are [processEvent]. *)
Lemma run_job_eq ctx event v :
  (processEvent oenv worker ctx event v).2 =
  ((let! j := run_job ctx (JobPublish event) in
    match j with Some j => run_job ctx j | None => ret None end) v).2.
Proof.
  unfold processEvent, run_job, bind.
  destruct (o_ctx_err oenv ctx v) as [[e|] v1]; [done|].
  destruct (Publish oenv worker event v1) as [[e|] v2]; [done|]. cbn [ret].
  by destruct (o_call oenv ctx _ v2) as [[e|] v3].
Qed.

(** A worker that holds an event: the row keeps its content, and no new row can
    take its id. *)
Definition holds (e : OutboxEvent) v : Prop := known e v ∧ ob_ID e < pg_outbox_seq (o_repo v).

Definition job_ok v (j : Job) : Prop :=
  match j with
  | JobPublish e => holds e v
  | JobMark e => holds e v ∧ handled worker e v
  end.

(** One piece of the worker. *)
Record worker_step v v' : Prop := {
  wk_progress : progress worker v v';
  wk_kept : kept (o_repo v) (o_repo v')
}.

#[export] Instance worker_step_preorder : PreOrder worker_step.
Proof.
  split; [by intros v; split|]. intros v1 v2 v3 [P1 K1] [P2 K2]. split; by etrans.
Qed.

Lemma holds_step e v v' : worker_step v v' → holds e v → holds e v'.
Proof. intros [Hp [_ Hq]] [Hk Hi]. split; [by apply (pr_known _ _ _ Hp) | by rewrite Hq]. Qed.

Lemma job_ok_step v v' j : worker_step v v' → job_ok v j → job_ok v' j.
Proof.
  intros Hs. destruct j as [e|e]; simpl; [by apply holds_step|].
  intros [Hh Hd]. split; [by eapply holds_step|]. by eapply handled_mono, Hd; destruct Hs.
Qed.

Lemma wp_kept_call {A} ctx (op : CallInfo → Prog PgStore A) v :
  (∀ ci, within kept (op ci)) → kept (o_repo v) (o_repo (o_call oenv ctx op v).2).
Proof.
  intros Hop. unfold o_call, bind, o_tick. simpl. set (ci := mkCallInfo _ _ _).
  specialize (Hop ci (o_repo v)). by destruct (op ci (o_repo v)).
Qed.

Lemma wp_claim ctx v :
  0 ≤ ow_batchSize worker → pg_good (o_repo v) →
  wp (claim ctx) (λ js v', worker_step v v' ∧ Forall (job_ok v') js) v.
Proof.
  intros Hsize Hg. unfold claim. apply wp_bind, (wp_o_ctx_err oenv worker). intros e v1 (Hp1 & Hr1 & _) _.
  assert (worker_step v v1) as H1 by (split; [done | by rewrite Hr1]).
  destruct e as [e|]; [by apply wp_ret|]. apply wp_bind.
  set (op := λ ci, outbox_FetchUnpublished ci (ow_batchSize worker)).
  pose proof (wp_kept_call ctx op v1 (λ ci, Fetch_kept ci _)) as Hkept.
  assert (∀ es, (o_call oenv ctx op v1).1 = Ok es → Forall (λ e, ob_ID e < pg_outbox_seq (o_repo v1)) es) as Hids.
  { intros es. unfold o_call, bind, o_tick. simpl. set (ci := mkCallInfo _ _ _). intros E.
    apply (Fetch_ids ci (ow_batchSize worker)); [by rewrite Hr1|]. unfold op in E. simpl in E.
    by destruct (pg_FetchUnpublished ci (ow_batchSize worker) (o_repo v1)). }
  assert (wp (o_call oenv ctx op) (λ a v', progress worker v1 v' ∧ ∀ es, a = Ok es → Forall (λ e, known e v') es) v1) as Hf.
  { apply (wp_fetch oenv worker ctx); [done | by rewrite Hr1 |]. intros a v' Hp _ Hk _. by split. }
  unfold wp in Hf |- *. destruct (o_call oenv ctx op v1) as [a v2]. cbn [fst snd] in *. destruct Hf as [Hp2 Hk].
  assert (worker_step v v2) as H2 by (etrans; [exact H1|by split]).
  destruct a as [es|e].
  2:{ apply wp_bind, (wp_log_line worker); [done|]. intros v3 (Hp3 & Hr3 & _). apply wp_ret.
      split; [|done]. etrans; [exact H2 | split; [done | by rewrite Hr3]]. }
  split; [done|]. apply Forall_fmap.
  specialize (Hk es eq_refl). specialize (Hids es eq_refl). rewrite Forall_forall in *.
  intros e He. split; [by apply Hk|]. destruct Hkept as [_ ->]. by apply Hids.
Qed.

Lemma wp_run_job ctx j v :
  job_ok v j → wp (run_job ctx j) (λ o v', worker_step v v' ∧ ∀ j', o = Some j' → job_ok v' j') v.
Proof.
  destruct j as [e|e]; intros Hj; simpl.
  - apply wp_bind, (wp_o_ctx_err oenv worker). intros err v1 (Hp1 & Hr1 & _) _.
    assert (worker_step v v1) as H1 by (split; [done | by rewrite Hr1]).
    destruct err as [err|]; [by apply wp_ret|]. apply wp_bind, wp_Publish. intros err v2 Hp2 Hr2 He.
    assert (worker_step v v2) as H2 by (etrans; [exact H1|split; [done | by rewrite Hr2]]).
    destruct err as [err|]; [by apply wp_ret|]. apply wp_ret. split; [done|]. intros ? [= <-].
    split; [by eapply holds_step|]. apply handled_receipt. rewrite He. apply elem_of_app. right. by left.
  - destruct Hj as [[Hk Hi] Hd]. apply wp_bind.
    pose proof (wp_kept_call ctx (λ ci, outbox_MarkPublished ci (ob_ID e)) v (λ ci, Mark_kept ci _)) as Hkept.
    assert (wp (o_call oenv ctx (λ ci, outbox_MarkPublished ci (ob_ID e))) (λ _ v', progress worker v v') v) as Hm.
    { apply (wp_mark oenv worker); [done..|]. intros a v' [Hp _] _ _. exact Hp. }
    unfold wp in Hm |- *. destruct (o_call oenv ctx _ v) as [a v1]. cbn [ret fst snd] in *. by split.
Qed.
End jobs.

(** ** The system *)

(** The world of the service with the requests in flight, and the worker's
    step counter, jobs, accepted messages and log. *)
Record System := mkSystem {
  sy_world : World PgStore;
  sy_tasks : list Task;
  sy_step : nat;
  sy_jobs : list Job;
  sy_published : list Message;
  sy_log : list OutboxLog
}.

(** The worker's side of it. *)
Definition outbox_side (y : System) : OutboxWorld PgStore :=
  mkOutboxWorld (sy_step y) (w_repo (sy_world y)) (sy_published y) (sy_log y).

Definition with_side (v : OutboxWorld PgStore) (js : list Job) (y : System) : System :=
  mkSystem (set_repo (o_repo v) (sy_world y)) (sy_tasks y) (o_step v) js (o_published v) (o_log v).

Section system.
Context `{MapRange} (scan_null : error).
#[local] Instance system_events : EventRepository PgStore := pg_event_repo scan_null.
Variable env : Env.
Variable s : PaymentService PgStore.
Hypothesis db : s_db s = true.
Hypothesis s_ok : service_ok s.
Hypothesis unique : ids_unique env.
Variable oenv : OutboxEnv.
Variable worker : OutboxWorker.
Hypothesis size_ok : 0 ≤ ow_batchSize worker.

(** A request arrives or does a piece; the worker, or the worker of another
    instance, claims a batch, does a piece of a job, or gives a job up. *)
Inductive sstep : System → System → Prop :=
| sstep_request w ts w' ts' n js ms ls :
    cstep env s (w, ts) (w', ts') → sstep (mkSystem w ts n js ms ls) (mkSystem w' ts' n js ms ls)
| sstep_claim ctx y :
    let r := claim oenv worker ctx (outbox_side y) in
    sstep y (with_side r.2 (sy_jobs y ++ r.1)%list y)
| sstep_job ctx y l j k :
    sy_jobs y = (l ++ j :: k)%list →
    let r := run_job oenv worker ctx j (outbox_side y) in
    sstep y (with_side r.2 (l ++ option_list r.1 ++ k)%list y)
| sstep_drop y l j k :
    sy_jobs y = (l ++ j :: k)%list → sstep y (with_side (outbox_side y) (l ++ k)%list y).

(** The invariant: that of the requests, that of the worker, and that nothing
    is marked that was not handed over. *)
Record sound (y : System) : Prop := {
  so_served : served env (sy_world y, sy_tasks y);
  so_jobs : Forall (job_ok worker (outbox_side y)) (sy_jobs y);
  so_delivered : delivered worker (outbox_side y)
}.

(** What a step preserves of the state before it. *)
Record safe_move (y y' : System) : Prop := {
  sm_ledger : safe_step (ledger (sy_world y)) (ledger (sy_world y'));
  sm_published : sy_published y `prefix_of` sy_published y';
  sm_silent : ow_publisher worker = logOutboxPublisher → sy_published y' = sy_published y
}.

#[export] Instance safe_move_preorder : PreOrder safe_move.
Proof. split; [by intros y|]. intros y1 y2 y3 [L1 P1 S1] [L2 P2 S2]. split; [by etrans.. | intros E; by rewrite S2, S1]. Qed.

(** *** Requests *)

Lemma step_appends w ts w' ts' :
  served env (w, ts) → cstep env s (w, ts) (w', ts') → appends (w_repo w) (w_repo w').
Proof.
  intros [_ _ Ho _ _] Hst. inversion Hst as [|w0 l t k]; subst; [done|].
  apply (in_run_task appends env s s_ok t). apply Forall_app in Ho as [_ Ho].
  apply Forall_cons in Ho as [Ho _]. destruct t; try done. apply Ho.
Qed.

Lemma delivered_appends n n' r r' ms ls :
  appends r r' → delivered worker (mkOutboxWorld n r ms ls) → delivered worker (mkOutboxWorld n' r' ms ls).
Proof.
  intros [(rows & E & Hrows) _] Hd x Hx Hp. simpl in Hx. rewrite E in Hx.
  apply elem_of_app in Hx as [Hx|Hx]; [by apply (Hd x)|].
  rewrite Forall_forall in Hrows. destruct (Hrows x Hx) as (? & _). congruence.
Qed.

Lemma holds_appends e n n' r r' ms ls :
  appends r r' → holds e (mkOutboxWorld n r ms ls) → holds e (mkOutboxWorld n' r' ms ls).
Proof.
  intros [(rows & E & Hrows) Hq] [Hk Hi]. simpl in Hi. split; [|simpl; lia].
  intros x Hx Hid. simpl in Hx. rewrite E in Hx. apply elem_of_app in Hx as [Hx|Hx]; [by apply Hk|].
  rewrite Forall_forall in Hrows. destruct (Hrows x Hx) as (_ & _ & ?). lia.
Qed.

Lemma sound_request w ts w' ts' n js ms ls :
  sound (mkSystem w ts n js ms ls) → cstep env s (w, ts) (w', ts') →
  sound (mkSystem w' ts' n js ms ls) ∧ safe_step (ledger w) (ledger w').
Proof.
  intros [Hs Hj Hd] Hst. pose proof (step_appends _ _ _ _ Hs Hst) as Ha.
  destruct (served_step env s db s_ok unique _ _ Hs Hst) as [Hs' Hss]. split; [|exact Hss].
  split; simpl; [exact Hs' | | by eapply delivered_appends].
  eapply Forall_impl; [exact Hj|]. intros [e|e]; simpl; [by apply holds_appends|].
  intros [? ?]. split; [by eapply holds_appends | done].
Qed.

(** *** The worker *)

Lemma served_kept w ts r :
  kept (w_repo w) r → pg_good r → served env (w, ts) → served env (set_repo r w, ts).
Proof.
  intros [Hv _] Hg [[_ Hok] Hf Ho Hp Hr]. cbn [fst snd] in *.
  assert (ledger (set_repo r w) = ledger w) as HL by exact Hv.
  split; cbn [fst snd]; [|intros n Hn; cbn [w_step set_repo] in Hn; rewrite HL; by apply Hf |
    by rewrite HL | done | done].
  split; [exact Hg | by rewrite HL].
Qed.

Lemma sound_worker y v js :
  sound y → worker_step worker (outbox_side y) v → Forall (job_ok worker v) js →
  sound (with_side v js y) ∧ safe_move y (with_side v js y).
Proof.
  intros [Hs Hj Hd] [Hp Hk] Hjs.
  assert (pg_good (w_repo (sy_world y))) as Hg by apply (sv_inv _ _ Hs).
  assert (outbox_side (with_side v js y) = v) as Ev by by destruct v.
  split.
  - split; rewrite ?Ev; [|done|].
    + apply served_kept; [exact Hk | by apply (pr_good _ _ _ Hp) | done].
    + by apply (pr_delivered _ _ _ Hp).
  - split.
    + assert (ledger (sy_world (with_side v js y)) = ledger (sy_world y)) as -> by apply Hk. done.
    + destruct (pr_published _ _ _ Hp) as (ms & E & _). exists ms. exact E.
    + intros Hl. destruct (pr_published _ _ _ Hp) as (ms & E & Hms). simpl in *. by rewrite E, (Hms Hl), app_nil_r.
Qed.

Lemma sound_step y y' : sound y → sstep y y' → sound y' ∧ safe_move y y'.
Proof.
  intros Hs Hst. pose proof Hs as [Hsv Hj _].
  assert (pg_good (w_repo (sy_world y))) as Hg by apply (sv_inv _ _ Hsv).
  destruct Hst as [w ts w' ts' n js ms ls Hc|ctx y|ctx y l j k Ej|y l j k Ej].
  - destruct (sound_request _ _ _ _ _ _ _ _ Hs Hc) as [? ?]. split; [done|]. by split.
  - pose proof (wp_claim oenv worker ctx (outbox_side y) size_ok Hg) as Hw. unfold wp in Hw.
    destruct (claim oenv worker ctx (outbox_side y)) as [js v]. destruct Hw as [Hw Hjs].
    apply sound_worker; [done..|]. simpl. apply Forall_app. split; [|done].
    eapply Forall_impl; [exact Hj|]. intros j. by apply job_ok_step.
  - rewrite Ej in Hj. apply Forall_app in Hj as [Hl [Hj Hk]%Forall_cons].
    pose proof (wp_run_job oenv worker ctx j (outbox_side y) Hj) as Hw. unfold wp in Hw.
    destruct (run_job oenv worker ctx j (outbox_side y)) as [o v]. destruct Hw as [Hw Ho].
    apply sound_worker; [done..|]. simpl. rewrite !Forall_app. split_and!.
    + eapply Forall_impl; [exact Hl|]. intros ?. by apply job_ok_step.
    + destruct o; simpl; [|done]. apply Forall_singleton. by apply Ho.
    + eapply Forall_impl; [exact Hk|]. intros ?. by apply job_ok_step.
  - apply sound_worker; [done..|]. rewrite Ej in Hj.
    apply Forall_app in Hj as [Hl [_ Hk]%Forall_cons]. apply Forall_app. by split.
Qed.

Lemma sound_steps y y' : rtc sstep y y' → sound y → sound y' ∧ safe_move y y'.
Proof.
  induction 1 as [y|y y1 y2 Hst _ IH]; intros Hs; [by split|].
  destruct (sound_step y y1 Hs Hst) as [H1 M1]. destruct (IH H1) as [H2 M2].
  split; [done | by etrans].
Qed.

(** A server that starts on a store: no requests, no jobs; [ms] is what the
    broker has accepted before, [ls] what was logged. *)
Definition started (w : World PgStore) (ms : list Message) (ls : list OutboxLog) : System :=
  mkSystem w [] 0 [] ms ls.

Lemma sound_started w ms ls :
  Inv w → fresh_ids env w → delivered worker (outbox_side (started w ms ls)) → sound (started w ms ls).
Proof.
  intros HI Hf Hd. split; [|constructor | exact Hd].
  split; simpl; [done..| | |]; constructor.
Qed.

(** C2 The payment service and the outbox worker are safe together: on one
    PostgreSQL store, whatever way the pieces of any number of requests and of
    the workers' jobs interleave, under any faults of the store, the broker and
    the bank, any cancellations, and wherever a worker stops, as long as no two
    refunds of one transaction overlap: money is conserved, no idempotency key
    is used twice, the store stays well formed, transactions follow the state
    machine, every payment that was created, completed or refunded has its
    entry in the outbox, and no entry is marked published before it was handed
    over: with a Kafka publisher the broker has accepted its message, without
    brokers, where nothing is published, a line was logged. *)
Theorem system_safe w ms ls y :
  Inv w → fresh_ids env w → keys_unique (ledger w) → delivered worker (outbox_side (started w ms ls)) →
  rtc sstep (started w ms ls) y →
  (∀ mid, surplus (ledger (sy_world y)) mid = surplus (ledger w) mid) ∧
  keys_unique (ledger (sy_world y)) ∧ ledger_ok (ledger (sy_world y)) ∧
  advances (ledger w) (ledger (sy_world y)) ∧ announces (ledger w) (ledger (sy_world y)) ∧
  (∀ r, r ∈ pg_outbox (w_repo (sy_world y)) → or_published r = true →
     match ow_publisher worker with
     | kafkaOutboxPublisher _ _ => event_message (scan_outbox r) ∈ sy_published y
     | logOutboxPublisher => LogHandled (or_id r) (or_event_type r) ∈ sy_log y
     end) ∧
  ms `prefix_of` sy_published y ∧ (ow_publisher worker = logOutboxPublisher → sy_published y = ms).
Proof.
  intros HI Hf Hk Hd Hrun.
  destruct (sound_steps _ _ Hrun (sound_started w ms ls HI Hf Hd)) as [[Hs _ Hd'] [[Hm Hku Ha Han] Hp Hsil]].
  split_and!; [exact Hm | by apply Hku | apply (sv_inv _ _ Hs) | exact Ha | exact Han | exact Hd' | exact Hp | exact Hsil].
Qed.

(** *** Delivery *)

Variable schedule : ∀ A : Type, list A → list A.
Hypothesis schedule_perm : ∀ A (l : list A), schedule A l ≡ₚ l.

(** The faults have ceased. *)
Variable later : OutboxEnv.

(** A message of type [ty] about the transaction [id]. *)
Definition announces_txn (ty id : string) (m : Message) : Prop :=
  msg_Headers m = [("event_type", ty)] ∧ msg_Value m !! "transaction_id" = Some (JStr id).

Lemma announced_row ty id (st : PgStore) :
  announced ty id (pg_view st) → ∃ r, r ∈ pg_outbox st ∧ announces_txn ty id (event_message (scan_outbox r)).
Proof.
  intros (p & t & Hin & Hp). simpl in Hin. apply list_elem_of_fmap in Hin as (r & E & Hr).
  unfold norm_outbox, scan_outbox in E. simpl in E. injection E as -> -> ->. by exists r.
Qed.

(** C3 Every settled payment reaches the broker, if the worker publishes to
    Kafka: take any state that requests and workers can reach under any faults,
    with a table of any size.  When faults have ceased, the broker accepts what
    it gets and the leases of crashed workers have run out, a worker that runs
    as many batches as it takes to claim the rows that are left unpublished has
    handed the broker a message about every transaction that was created,
    completed or refunded since the start. *)
Theorem payments_delivered w ms ls y ctx topic n :
  Inv w → fresh_ids env w → delivered worker (outbox_side (started w ms ls)) → rtc sstep (started w ms ls) y →
  ow_publisher worker = kafkaOutboxPublisher topic true → calm later worker ctx →
  leases_over later (outbox_side y) →
  (length (unpublished (outbox_side y)) ≤ S n * Z.to_nat (ow_batchSize worker))%nat →
  wp (Run later worker schedule ctx n) (λ _ v', ∀ id t,
    l_txns (ledger (sy_world y)) !! id = Some t →
    (l_txns (ledger w) !! id = None →
       ∃ m, m ∈ o_published v' ∧ announces_txn "transaction.created" id m) ∧
    ∀ ty, announced_as (tx_Status t) = Some ty →
      (∀ t0, l_txns (ledger w) !! id = Some t0 → tx_Status t0 ≠ tx_Status t) →
      ∃ m, m ∈ o_published v' ∧ announces_txn ty id m) (outbox_side y).
Proof.
  intros HI Hf Hd Hrun Hkafka Hc Hlease Hn.
  destruct (sound_steps _ _ Hrun (sound_started w ms ls HI Hf Hd)) as [[Hs _ Hd'] [[_ _ _ Han] _ _]].
  assert (pg_good (w_repo (sy_world y))) as Hg by apply (sv_inv _ _ Hs).
  wp_use (wp_Run_drains later worker schedule schedule_perm ctx n (outbox_side y)); [done..|].
  intros u v' [Hp Hu] id t Ht.
  assert (∀ ty, announced ty id (ledger (sy_world y)) →
    ∃ m, m ∈ o_published v' ∧ announces_txn ty id m) as Hmsg.
  { intros ty (r & Hr & Hm)%announced_row. eexists. split; [|exact Hm].
    pose proof (all_handled worker _ _ r Hp Hd' Hu Hr) as Hh. unfold handled in Hh. by rewrite Hkafka in Hh. }
  split.
  - intros Hnone. apply Hmsg. apply (an_created _ _ Han id Hnone). by eexists.
  - intros ty Hty Hold. apply Hmsg. destruct (an_status _ _ Han id t ty Ht Hty) as [(t0 & H0 & E)|?]; [|done].
    by destruct (Hold t0 H0).
Qed.
End system.

(** ** A run *)

#[local] Existing Instance sorted_range.
#[local] Instance plain_events_delivery : EventRepository PgStore := pg_event_repo None.

(** The broker refuses every message but the first. *)
Definition flaky : OutboxEnv :=
  mkOutboxEnv Z.of_nat (λ _, NoFault) (λ n _, if decide (n = 5)%nat then None else Some (Opaque "no broker")) None.
Definition kafka_worker : OutboxWorker :=
  NewOutboxWorker (mkOutboxWorkerConfig ["broker:9092"] "payflow" 0 1 0).
Definition much_later : OutboxEnv :=
  mkOutboxEnv (λ n, Minute + Z.of_nat n) (λ _, NoFault) (λ _ _, None) None.

(** A payment is served; a worker with batches of one row claims its two
    entries, delivers the first, fails on the second, and stops before it marks
    anything. *)
Definition paid0 : World PgStore * list Task :=
  fold_left (λ c i, run_at env0 service0 i c) [0; 0; 0; 0; 0]%nat (world0, [TaskCheck Background input0]).
Definition claim_done (y : System) : System :=
  let r := claim flaky kafka_worker Background (outbox_side y) in with_side r.2 (sy_jobs y ++ r.1)%list y.
Definition claimed0 : System := claim_done (claim_done (mkSystem paid0.1 paid0.2 0 [] [] [])).
Definition job_done (i : nat) (y : System) : System :=
  match sy_jobs y !! i with
  | None => y
  | Some j => let r := run_job flaky kafka_worker Background j (outbox_side y) in
              with_side r.2 (take i (sy_jobs y) ++ option_list r.1 ++ drop (S i) (sy_jobs y))%list y
  end.
Definition job_dropped (y : System) : System := with_side (outbox_side y) (tail (sy_jobs y)) y.
Definition crashed0 : System := job_dropped (job_done 1 (job_done 0 claimed0)).

Example crashed0_state :
  (length (sy_tasks crashed0), length (sy_jobs crashed0), length (sy_published crashed0),
   map or_published (pg_outbox (w_repo (sy_world crashed0)))) = (0, 0, 1, [false; false])%nat.
Proof. vm_compute. reflexivity. Qed.

Lemma job_done_steps i y : rtc (sstep None env0 service0 flaky kafka_worker) y (job_done i y).
Proof.
  unfold job_done. destruct (sy_jobs y !! i) as [j|] eqn:E; [|done].
  apply rtc_once. apply (sstep_job None env0 service0 flaky kafka_worker Background y). symmetry. by apply take_drop_middle.
Qed.

Lemma job_dropped_steps y : rtc (sstep None env0 service0 flaky kafka_worker) y (job_dropped y).
Proof.
  unfold job_dropped. destruct (sy_jobs y) as [|j js] eqn:E.
  - destruct y as [w ts n js ms ls]. simpl in E. subst js. by destruct w.
  - apply rtc_once. by apply (sstep_drop None env0 service0 flaky kafka_worker y [] j js).
Qed.

Lemma crashed0_reached :
  rtc (sstep None env0 service0 flaky kafka_worker) (started world0 [] []) crashed0.
Proof.
  assert (∀ c c', rtc (cstep env0 service0) c c' →
    rtc (sstep None env0 service0 flaky kafka_worker) (mkSystem c.1 c.2 0 [] [] []) (mkSystem c'.1 c'.2 0 [] [] [])) as Hc.
  { induction 1 as [c|[w ts] [w1 ts1] c' Hs _ IH]; [done|]. eapply rtc_l; [|exact IH].
    by apply sstep_request. }
  etrans; [apply (Hc (world0, []) paid0)|].
  { eapply rtc_l; [apply (cstep_arrive env0 service0 _ _ (ReqCreate Background input0)); [by vm_compute|done]|].
    unfold paid0. cbn [fold_left]. do 5 (etrans; [|apply run_at_csteps]). done. }
  do 2 (etrans; [apply rtc_once, (sstep_claim None env0 service0 flaky kafka_worker Background)|]).
  etrans; [apply (job_done_steps 0)|]. etrans; [apply (job_done_steps 1)|].
  apply job_dropped_steps.
Qed.

Lemma delivered0 : delivered kafka_worker (outbox_side (started world0 [] [])).
Proof. intros r Hr. by apply elem_of_nil in Hr. Qed.

Lemma system_safe_witness :
  (∀ mid, surplus (ledger (sy_world crashed0)) mid = surplus (ledger world0) mid) ∧
  keys_unique (ledger (sy_world crashed0)) ∧ ledger_ok (ledger (sy_world crashed0)) ∧
  advances (ledger world0) (ledger (sy_world crashed0)) ∧
  announces (ledger world0) (ledger (sy_world crashed0)) ∧
  (∀ r, r ∈ pg_outbox (w_repo (sy_world crashed0)) → or_published r = true →
     event_message (scan_outbox r) ∈ sy_published crashed0) ∧
  [] `prefix_of` sy_published crashed0 ∧
  (ow_publisher kafka_worker = logOutboxPublisher → sy_published crashed0 = []).
Proof.
  apply (system_safe None env0 service0 eq_refl (service0_ok true) ids_unique0 flaky kafka_worker
    ltac:(by vm_compute) world0 [] [] crashed0 Inv0 fresh_ids0 keys_unique0 delivered0 crashed0_reached).
Defined.

Lemma crashed0_leases : leases_over much_later (outbox_side crashed0).
Proof.
  apply (leases_over_at _ _ Minute); [apply (bool_decide_unpack _); by vm_compute|]. intros n. simpl. lia.
Qed.

Lemma crashed0_unpublished :
  (length (unpublished (outbox_side crashed0)) ≤ 2 * Z.to_nat (ow_batchSize kafka_worker))%nat.
Proof. apply Nat.leb_le. vm_compute. reflexivity. Qed.

Lemma kafka_calm : calm much_later kafka_worker Background.
Proof. by split_and!. Qed.

Lemma payments_delivered_witness :
  wp (Run much_later kafka_worker (λ _ l, l) Background 1) (λ _ v', ∀ id t,
    l_txns (ledger (sy_world crashed0)) !! id = Some t →
    (l_txns (ledger world0) !! id = None →
       ∃ m, m ∈ o_published v' ∧ announces_txn "transaction.created" id m) ∧
    ∀ ty, announced_as (tx_Status t) = Some ty →
      (∀ t0, l_txns (ledger world0) !! id = Some t0 → tx_Status t0 ≠ tx_Status t) →
      ∃ m, m ∈ o_published v' ∧ announces_txn ty id m) (outbox_side crashed0).
Proof.
  exact (payments_delivered None env0 service0 eq_refl (service0_ok true) ids_unique0 flaky kafka_worker
    ltac:(by vm_compute) (λ _ l, l) (λ _ l, Permutation_refl l) much_later world0 [] [] crashed0 Background
    "payflow" 1 Inv0 fresh_ids0 delivered0 crashed0_reached eq_refl kafka_calm crashed0_leases crashed0_unpublished).
Defined.
