(* ===== verification/RateLimit.v ===== *)
(** * RateLimit: the token buckets of internal/middleware and internal/concurrency

    [RateLimiter.Allow] of middleware.go, one bucket per client, and the
    [TokenBucket] of patterns.go, in binary64 arithmetic as the code computes
    them; the interface [RequestLimiter] that the rate-limiting middleware
    uses. *)

From stdpp Require Import base tactics list gmap strings.
From S2P Require Import Prelude GoLib Float64 Repository.

Open Scope Z_scope.

(* go: internal/middleware/middleware.go 202-205 *)
Record bucket := mkBucket { b_tokens : float64; b_lastCheck : Z }.

(** The body both implementations share: refill for the time since the last
    check, cap at the burst, take a token if there is one. *)
(* go: internal/middleware/middleware.go 231-235 *)
Definition refill (rate burst : float64) (now : Z) (b : bucket) : float64 :=
  let elapsed := Seconds (time_Sub now (b_lastCheck b)) in
  let tokens := fadd (b_tokens b) (fmul elapsed rate) in
  if burst <? tokens then burst else tokens.

(* go: internal/middleware/middleware.go 236-243 *)
Definition take_token (rate burst : float64) (now : Z) (b : bucket) : bool * bucket :=
  let tokens := refill rate burst now b in
  if tokens <? one then (false, mkBucket tokens now)
  else (true, mkBucket (fsub tokens one) now).

(** ** RateLimiter *)

(* go: internal/middleware/middleware.go 194-200 *)
Record RateLimiter := mkRateLimiter {
  rl_buckets : gmap string bucket;
  rl_rate : Z;
  rl_burst : Z;
  rl_interval : Z
}.

(* go: internal/middleware/middleware.go NewRateLimiter *)
Definition NewRateLimiter (rps burst : Z) : RateLimiter := mkRateLimiter ∅ rps burst Second.

(** The bucket of a client, made full at its first request. *)
Definition client_bucket (now : Z) (key : string) (rl : RateLimiter) : bucket :=
  match rl_buckets rl !! key with
  | Some b => b
  | None => mkBucket (of_int (rl_burst rl)) now
  end.

(* go: internal/middleware/middleware.go RateLimiter.Allow *)
Definition RateLimiter_Allow (now : Z) (key : string) : Prog RateLimiter (bool * error) := λ rl,
  let b := client_bucket now key rl in
  let (allowed, b') := take_token (of_int (rl_rate rl)) (of_int (rl_burst rl)) now b in
  ((allowed, None),
   mkRateLimiter (<[key := b']> (rl_buckets rl)) (rl_rate rl) (rl_burst rl) (rl_interval rl)).

(** The interface of the middleware. *)
(* go: internal/middleware/middleware.go 207-209 *)
Class RequestLimiter (L : Type) := { Allow : CallInfo → string → Prog L (bool * error) }.

#[export] Instance RateLimiter_limiter : RequestLimiter RateLimiter :=
  {| Allow ci key := RateLimiter_Allow (ci_now ci) key |}.

(** ** TokenBucket *)

(* go: internal/concurrency/patterns.go 197-203 *)
Record TokenBucket := mkTokenBucket {
  tb_tokens : float64;
  tb_maxTokens : float64;
  tb_rate : float64;
  tb_lastCheck : Z
}.

(* go: internal/concurrency/patterns.go NewTokenBucket *)
Definition NewTokenBucket (rate burst : float64) (now : Z) : TokenBucket :=
  mkTokenBucket burst burst rate now.

(* go: internal/concurrency/patterns.go TokenBucket.Allow *)
Definition TokenBucket_Allow (now : Z) : Prog TokenBucket bool := λ tb,
  let (allowed, b) := take_token (tb_rate tb) (tb_maxTokens tb) now
                        (mkBucket (tb_tokens tb) (tb_lastCheck tb)) in
  (allowed, mkTokenBucket (b_tokens b) (tb_maxTokens tb) (tb_rate tb) (b_lastCheck b)).

(** Requests of several clients, one after the other (the mutex). *)
Fixpoint allow_all (calls : list (Z * string)) : Prog RateLimiter (list bool) :=
  match calls with
  | [] => ret []
  | (now, key) :: calls =>
    let! r := RateLimiter_Allow now key in
    let! rs := allow_all calls in
    ret (r.1 :: rs)
  end.

(** ** Runs of a bucket *)

Definition allowed (rs : list bool) : Z := Z.of_nat (sum_list_with Nat.b2n rs).

Lemma allowed_cons r rs : allowed (r :: rs) = Z.b2z r + allowed rs.
Proof. unfold allowed. destruct r; simpl; lia. Qed.

(** The time of the last check of a run. *)
Fixpoint last_time (last : Z) (ts : list Z) : Z :=
  match ts with [] => last | t :: ts => last_time t ts end.

(** The times do not decrease: Go's clock readings are monotonic. *)
Fixpoint later (last : Z) (ts : list Z) : Prop :=
  match ts with [] => True | t :: ts => last ≤ t ∧ later t ts end.

Record bucket_ok (burst : Z) (b : bucket) : Prop := {
  ok_rep : rep (b_tokens b);
  ok_range : 0 ≤ b_tokens b ≤ burst * one
}.

Section run.
Variable check : Z → bucket → bool * bucket.

(** The checks of one client at the times [ts]. *)
Fixpoint check_run (ts : list Z) : Prog bucket (list bool) :=
  match ts with
  | [] => ret []
  | t :: ts => let! r := check t in let! rs := check_run ts in ret (r :: rs)
  end.

Lemma check_run_cons t ts b :
  check_run (t :: ts) b
  = ((check t b).1 :: (check_run ts (check t b).2).1, (check_run ts (check t b).2).2).
Proof. simpl. unfold bind, ret. destruct (check t b) as [r b']. simpl. by destruct (check_run ts b'). Qed.

(** Each check pays for what it lets pass with the tokens of the bucket, what
    the time [clock] has brought since the last check, and an error. *)
Variables burst c K error : Z.
Variable clock : Z → Z.
Variable timely : Z → Prop.
Definition pays (t : Z) (b : bucket) : Prop :=
  let r := check t b in
  bucket_ok burst r.2 ∧ b_lastCheck r.2 = t ∧
  c * (b_tokens r.2 + Z.b2z r.1 * one) ≤ c * b_tokens b + K * (clock t - clock (b_lastCheck b)) + error.
Hypothesis check_pays : ∀ t b,
  bucket_ok burst b → timely (b_lastCheck b) → timely t → b_lastCheck b ≤ t → pays t b.
Hypothesis c_pos : 0 ≤ c.

(** So over a run the refills telescope. *)
Lemma check_run_bound ts : ∀ b,
  bucket_ok burst b → timely (b_lastCheck b) → Forall timely ts → later (b_lastCheck b) ts →
  c * (allowed (check_run ts b).1 * one) ≤
    c * b_tokens b + K * (clock (last_time (b_lastCheck b) ts) - clock (b_lastCheck b))
    + Z.of_nat (length ts) * error.
Proof.
  induction ts as [|t ts IH]; intros b Hb Hlast Htimely Hts.
  { destruct Hb as [_ Hb]. change (allowed (check_run [] b).1) with 0. simpl. nia. }
  apply Forall_cons in Htimely as [Ht Htimely]. destruct Hts as [Hle Hts].
  rewrite check_run_cons. simpl fst. rewrite allowed_cons.
  destruct (check_pays t b Hb Hlast Ht Hle) as (Hb' & El & Hup).
  specialize (IH _ Hb'). rewrite El in IH. specialize (IH Ht Htimely Hts).
  simpl last_time. simpl length. set (p := Z.b2z _) in *. clearbody p.
  set (A := allowed _) in *. clearbody A. lia.
Qed.
End run.

(** ** One bucket *)

Section bucket.
Variables rate burst : Z.
Hypothesis rate_ok : 0 ≤ rate ≤ 2 ^ 53.
Hypothesis burst_ok : 0 ≤ burst ≤ 2 ^ 53.
Implicit Types b : bucket.

Abbreviation step now b := (take_token (of_int rate) (of_int burst) now b).

Lemma full_bucket_ok now : bucket_ok burst (mkBucket (of_int burst) now).
Proof. split; simpl; rewrite of_int_exact by lia; [apply rep_int; lia | pose proof one_pos; nia]. Qed.

(** What is added since the last check. *)
Definition gain (d : Z) : float64 := fmul (Seconds d) (of_int rate).

Lemma time_Sub_nonneg now last : last ≤ now → 0 ≤ time_Sub now last ≤ max_int64 ∧ time_Sub now last ≤ now - last.
Proof. unfold time_Sub. int64. Qed.

Lemma gain_zero : gain 0 = 0.
Proof.
  unfold gain. rewrite Seconds_zero. unfold fmul. rewrite Z.mul_0_l. apply round_zero, one_pos.
Qed.

Lemma gain_spec d :
  0 ≤ d ≤ max_int64 →
  0 ≤ gain d ∧
  (2 ^ 50 - 1) * (rate * (d * one)) ≤ 2 ^ 50 * (Second * gain d) ≤ (2 ^ 50 + 1) * (rate * (d * one)).
Proof.
  intros Hd. split.
  - unfold gain, fmul. pose proof (Seconds_nonneg d Hd). pose proof one_pos.
    rewrite of_int_exact by lia. apply round_nonneg; nia.
  - destruct (decide (d = 0)) as [->|]; [rewrite gain_zero; lia|].
    unfold gain. rewrite of_int_exact by lia. apply gain_bounds; lia.
Qed.

Lemma refill_eq now b :
  refill (of_int rate) (of_int burst) now b
  = Z.min (burst * one) (fadd (b_tokens b) (gain (time_Sub now (b_lastCheck b)))).
Proof.
  unfold refill, gain. rewrite (of_int_exact burst) by lia.
  destruct (Z.ltb_spec (burst * one) (fadd (b_tokens b) (fmul (Seconds (time_Sub now (b_lastCheck b))) (of_int rate)))); lia.
Qed.

(** Refilling never takes tokens away, and adds what the elapsed time allows. *)
Lemma refill_bounds now b :
  bucket_ok burst b → b_lastCheck b ≤ now →
  let t := refill (of_int rate) (of_int burst) now b in
  rep t ∧ b_tokens b ≤ t ≤ burst * one ∧
  2 ^ 50 * Second * t ≤ 2 ^ 50 * Second * b_tokens b
    + (2 ^ 50 + 1) * (rate * ((now - b_lastCheck b) * one)) + Second * (burst * one).
Proof.
  intros [Hr Ht] Hnow. cbv zeta. rewrite refill_eq.
  destruct (time_Sub_nonneg now (b_lastCheck b) Hnow) as [Hd Hle].
  destruct (gain_spec _ Hd) as [Hg [_ Hgb]].
  set (d := time_Sub _ _) in *. clearbody d. set (g := gain d) in *. clearbody g.
  pose proof (fadd_error (b_tokens b) g ltac:(lia) Hg) as He.
  pose proof (fadd_ge (b_tokens b) g Hr ltac:(lia) Hg) as Hge. pose proof one_large as Hone.
  split_and!; [| lia | lia |].
  - destruct (Z.min_spec (burst * one) (fadd (b_tokens b) g)) as [[_ ->]|[_ ->]];
      [apply rep_int; lia | by apply round_rep].
  - assert (rate * (d * one) ≤ rate * ((now - b_lastCheck b) * one)) as Hmono.
    { apply Z.mul_le_mono_nonneg_l; [lia|]. apply Z.mul_le_mono_nonneg_r; lia. }
    set (X := rate * ((now - b_lastCheck b) * one)) in *. clearbody X.
    assert (burst = 0 ∨ one ≤ burst * one) as HB by nia.
    set (B := burst * one) in *.
    assert (2 ^ 50 * Z.min B (fadd (b_tokens b) g) ≤ 2 ^ 50 * (b_tokens b + g) + B) as Hmin.
    { destruct HB as [HB|HB]; [|clearbody B; change (2 ^ 200) with (2 ^ 53 * 2 ^ 147) in Hone; lia].
      assert (B = 0) by (unfold B; by rewrite HB). lia. }
    unfold Second in *. lia.
Qed.

Lemma refill_full now b :
  bucket_ok burst b → b_lastCheck b ≤ now → one ≤ b_tokens b + gain (time_Sub now (b_lastCheck b)) →
  0 < burst → one ≤ refill (of_int rate) (of_int burst) now b.
Proof.
  intros [Hr Ht] Hnow Hone Hb. rewrite refill_eq. pose proof one_pos.
  destruct (time_Sub_nonneg now (b_lastCheck b) Hnow) as [Hd _]. destruct (gain_spec _ Hd) as [Hg _].
  pose proof (fadd_one_le (b_tokens b) _ ltac:(lia) Hg Hone). nia.
Qed.

(** A check takes exactly one token, or none is there. *)
Lemma step_spec now b :
  bucket_ok burst b → b_lastCheck b ≤ now →
  let t := refill (of_int rate) (of_int burst) now b in
  bucket_ok burst (step now b).2 ∧ b_lastCheck (step now b).2 = now ∧
  b_tokens (step now b).2 + Z.b2z (step now b).1 * one = t ∧
  ((step now b).1 = true ↔ one ≤ t).
Proof.
  intros Hb Hnow. destruct (refill_bounds now b Hb Hnow) as (Hrep & Ht & _).
  cbv zeta in *. unfold take_token. destruct Hb as [_ Hb0].
  set (t := refill _ _ _ _) in *. pose proof one_pos.
  destruct (Z.ltb_spec t one) as [Hlt|Hge]; simpl.
  - split_and!; [split; simpl; [done | lia] | done | lia |]. split; [done | lia].
  - destruct (fsub_one t Hrep) as [Heq Hrep']; [nia|]. rewrite Heq.
    split_and!; [split; simpl; [done | lia] | done | lia |]. done.
Qed.

(** The checks of one client at the times [ts]. *)
Definition bucket_run : list Z → Prog bucket (list bool) := check_run (take_token (of_int rate) (of_int burst)).

Lemma bucket_run_cons t ts b :
  bucket_run (t :: ts) b
  = ((step t b).1 :: (bucket_run ts (step t b).2).1, (bucket_run ts (step t b).2).2).
Proof. apply check_run_cons. Qed.

(** The potential of the bucket pays for the requests that pass. *)
Lemma bucket_run_bound ts b :
  bucket_ok burst b → later (b_lastCheck b) ts →
  2 ^ 50 * Second * (allowed (bucket_run ts b).1 * one) ≤
    2 ^ 50 * Second * b_tokens b
    + (2 ^ 50 + 1) * (rate * ((last_time (b_lastCheck b) ts - b_lastCheck b) * one))
    + Z.of_nat (length ts) * (Second * (burst * one)).
Proof.
  intros Hb Hts.
  pose proof (check_run_bound (take_token (of_int rate) (of_int burst)) burst (2 ^ 50 * Second)
    ((2 ^ 50 + 1) * (rate * one)) (Second * (burst * one)) (λ t, t) (λ _, True)) as H.
  cbv beta in H. fold bucket_run in H. etrans; [apply H|]; [ | by unfold Second | done | done | by apply Forall_true | done |].
  - intros t b' Hb' _ _ Ht. destruct (step_spec t b' Hb' Ht) as (Hok & Hlast & Heq & _).
    destruct (refill_bounds t b' Hb' Ht) as (_ & _ & Hup). cbv zeta in *.
    split_and!; [done..|]. rewrite Heq. nia.
  - nia.
Qed.
End bucket.

(** ** The limiter: one independent bucket per client *)

(** The times of the requests of a client, and the answers to them. *)
Definition times (key : string) (calls : list (Z * string)) : list Z :=
  (filter (λ c, c.2 = key) calls).*1.
Definition answers (key : string) (calls : list (Z * string)) (rs : list bool) : list bool :=
  (filter (λ p, p.1.2 = key) (zip calls rs)).*2.

Definition start_bucket (key : string) (ts : list Z) (rl : RateLimiter) : bucket :=
  client_bucket (default 0 (head ts)) key rl.

Lemma client_bucket_insert now key b bs r u i :
  client_bucket now key (mkRateLimiter (<[key := b]> bs) r u i) = b.
Proof. unfold client_bucket. simpl. by rewrite lookup_insert_eq. Qed.

Lemma allow_all_cons now key calls rl :
  allow_all ((now, key) :: calls) rl
  = ((RateLimiter_Allow now key rl).1.1 :: (allow_all calls (RateLimiter_Allow now key rl).2).1,
     (allow_all calls (RateLimiter_Allow now key rl).2).2).
Proof.
  simpl. unfold bind, ret. destruct (RateLimiter_Allow now key rl) as [r rl']. simpl.
  by destruct (allow_all calls rl').
Qed.

Lemma RateLimiter_Allow_eq now key rl :
  let s := take_token (of_int (rl_rate rl)) (of_int (rl_burst rl)) now (client_bucket now key rl) in
  RateLimiter_Allow now key rl
  = ((s.1, None), mkRateLimiter (<[key := s.2]> (rl_buckets rl)) (rl_rate rl) (rl_burst rl) (rl_interval rl)).
Proof. cbv zeta. unfold RateLimiter_Allow. by destruct (take_token _ _ _ _). Qed.

(** What the requests of one client get depends on that client alone. *)
Lemma allow_all_client key calls : ∀ rl,
  answers key calls (allow_all calls rl).1
  = (bucket_run (rl_rate rl) (rl_burst rl) (times key calls) (start_bucket key (times key calls) rl)).1.
Proof.
  induction calls as [|[now key'] calls IH]; intros rl; [done|].
  rewrite allow_all_cons, RateLimiter_Allow_eq. unfold answers, times. simpl zip.
  rewrite !filter_cons. simpl. destruct (decide (key' = key)) as [->|Hne]; simpl.
  - unfold answers, times in IH. rewrite IH. unfold start_bucket. rewrite client_bucket_insert.
    unfold bind, ret. simpl. destruct (take_token _ _ _ _) as [r b']. simpl.
    by destruct (bucket_run _ _ _ _).
  - unfold answers, times in IH. rewrite IH. unfold start_bucket, client_bucket. simpl.
    by rewrite lookup_insert_ne.
Qed.

(** Every bucket is well-formed and was last checked in the past. *)
Record limiter_ok (now : Z) (rl : RateLimiter) : Prop := {
  ok_rate : 0 ≤ rl_rate rl ≤ 2 ^ 53;
  ok_burst : 0 ≤ rl_burst rl ≤ 2 ^ 53;
  ok_bucket key b : rl_buckets rl !! key = Some b → bucket_ok (rl_burst rl) b ∧ b_lastCheck b ≤ now
}.

Lemma client_bucket_ok now last key rl :
  limiter_ok last rl → last ≤ now →
  bucket_ok (rl_burst rl) (client_bucket now key rl) ∧ b_lastCheck (client_bucket now key rl) ≤ now.
Proof.
  intros [_ Hb Hk] Hnow. unfold client_bucket. destruct (rl_buckets rl !! key) as [b|] eqn:E.
  - destruct (Hk _ _ E). split; [done | lia].
  - split; [by apply full_bucket_ok | done].
Qed.

Lemma RateLimiter_Allow_ok now last key rl :
  limiter_ok last rl → last ≤ now → limiter_ok now (RateLimiter_Allow now key rl).2.
Proof.
  intros Hok Hnow. destruct (client_bucket_ok now last key rl Hok Hnow) as [Hb Hl].
  rewrite RateLimiter_Allow_eq. destruct Hok as [Hr Hbu Hk]. split; simpl; [done..|].
  intros key' b. rewrite lookup_insert_Some. intros [[-> <-]|[_ E]].
  - destruct (step_spec (rl_rate rl) (rl_burst rl) Hr Hbu now _ Hb Hl) as (? & -> & _). done.
  - destruct (Hk _ _ E). split; [done | lia].
Qed.

Lemma allow_all_ok calls : ∀ last rl,
  limiter_ok last rl → later last (map fst calls) →
  let rl' := (allow_all calls rl).2 in
  limiter_ok (last_time last (map fst calls)) rl' ∧ rl_rate rl' = rl_rate rl ∧ rl_burst rl' = rl_burst rl.
Proof.
  induction calls as [|[now key] calls IH]; intros last rl Hok Hl; [done|].
  destruct Hl as [Hnow Hl]. rewrite allow_all_cons. cbv zeta. simpl snd.
  destruct (IH now _ (RateLimiter_Allow_ok now last key rl Hok Hnow) Hl) as (Ho & Hr & Hb).
  by rewrite Hr, Hb, RateLimiter_Allow_eq in *.
Qed.

Lemma new_limiter_ok now rps burst :
  0 ≤ rps ≤ 2 ^ 53 → 0 ≤ burst ≤ 2 ^ 53 → limiter_ok now (NewRateLimiter rps burst).
Proof. intros. split; [done..|]. intros key b. simpl. by rewrite lookup_empty. Qed.

Lemma later_times key last calls : later last (map fst calls) → later last (times key calls).
Proof.
  assert (∀ ts a b, a ≤ b → later b ts → later a ts) as Hmono.
  { intros [|t ts] a b Hab; [done|]. simpl. intros [? ?]. split; [lia | done]. }
  revert last. induction calls as [|[t k] calls IH]; intros last; [done|]. simpl. intros [Ht Hl].
  unfold times. rewrite filter_cons. simpl. destruct (decide (k = key)); simpl.
  - split; [done | by apply IH].
  - apply IH. by eapply Hmono.
Qed.

Lemma later_app last a b : later last (a ++ b)%list → later last a ∧ later (last_time last a) b.
Proof.
  revert last. induction a as [|t a IH]; intros last; [done|]. simpl. intros [Ht Hl].
  by destruct (IH _ Hl) as [Ha Hb].
Qed.

Lemma last_time_ge ts : ∀ last, later last ts → last ≤ last_time last ts.
Proof. induction ts as [|t ts IH]; intros last; simpl; [lia|]. intros [? H%IH]. lia. Qed.

(** A window that starts with a check at [t]. *)
Lemma window_bound rate burst t ts b :
  0 ≤ rate ≤ 2 ^ 53 → 0 ≤ burst ≤ 2 ^ 53 →
  bucket_ok burst b → b_lastCheck b ≤ t → later t ts →
  2 ^ 50 * Second * allowed (bucket_run rate burst (t :: ts) b).1 ≤
    2 ^ 50 * Second * burst + (2 ^ 50 + 1) * (rate * (last_time t ts - t))
    + Z.of_nat (length ts) * (Second * burst).
Proof.
  intros Hr Hbu Hb Ht Hts.
  destruct (step_spec rate burst Hr Hbu t b Hb Ht) as (Hb' & Hlast & Heq & _).
  destruct (refill_bounds rate burst Hr Hbu t b Hb Ht) as (_ & Hup & _). cbv zeta in *.
  rewrite bucket_run_cons. simpl fst. rewrite allowed_cons.
  pose proof (bucket_run_bound rate burst Hr Hbu ts _ Hb') as Hrun. rewrite Hlast in Hrun.
  specialize (Hrun Hts). pose proof one_pos as Hone.
  set (A := allowed _) in *. clearbody A. set (a := Z.b2z _) in *. clearbody a.
  set (R := rate * (last_time t ts - t)). assert (rate * ((last_time t ts - t) * one) = R * one) as HR by (unfold R; lia).
  rewrite HR in Hrun. clearbody R. set (n := Z.of_nat (length ts)) in *. clearbody n.
  assert ((2 ^ 50 * Second * (a + A)) * one ≤
    (2 ^ 50 * Second * burst + (2 ^ 50 + 1) * R + n * (Second * burst)) * one); [|nia].
  unfold Second in *. lia.
Qed.

(** A bucket with [n] tokens lets the next [n] checks pass. *)
Lemma bucket_run_full rate burst n : 0 ≤ rate ≤ 2 ^ 53 → 0 ≤ burst ≤ 2 ^ 53 → ∀ ts b,
  bucket_ok burst b → later (b_lastCheck b) ts → Z.of_nat n * one ≤ b_tokens b →
  Forall (λ r, r = true) (take n (bucket_run rate burst ts b).1).
Proof.
  intros Hr Hbu. induction n as [|n IH]; intros ts b Hb Hl Hn; [constructor|].
  destruct ts as [|t ts]; [constructor|]. destruct Hl as [Ht Hl].
  destruct (step_spec rate burst Hr Hbu t b Hb Ht) as (Hb' & Hlast & Heq & Hpass).
  destruct (refill_bounds rate burst Hr Hbu t b Hb Ht) as (_ & Hup & _). cbv zeta in *.
  pose proof one_pos. assert ((take_token (of_int rate) (of_int burst) t b).1 = true) as Htrue.
  { apply Hpass. nia. }
  rewrite bucket_run_cons. simpl. constructor; [done|].
  rewrite Htrue in Heq. simpl in Heq. apply IH; [done | by rewrite Hlast | nia].
Qed.

(** ** Properties *)

(** C37 The limiter keeps its rate.  In any window of any history, whatever the
    other clients do, the requests of a client that pass are at most the burst
    plus the rate times the length of the window, up to a rounding error of
    less than one part in 2^50 of the burst per request and of the refill; the
    times are in nanoseconds and do not decrease. *)
Theorem limiter_window rps burst pre window key t ts :
  0 ≤ rps ≤ 2 ^ 53 → 0 ≤ burst ≤ 2 ^ 53 → later 0 (map fst (pre ++ window)) →
  times key window = t :: ts →
  let rs := (allow_all window (allow_all pre (NewRateLimiter rps burst)).2).1 in
  2 ^ 50 * Second * allowed (answers key window rs) ≤
    2 ^ 50 * Second * burst + (2 ^ 50 + 1) * (rps * (last_time t ts - t))
    + Z.of_nat (length ts) * (Second * burst).
Proof.
  intros Hr Hbu Hl Hts. cbv zeta. rewrite map_app in Hl. apply later_app in Hl as [Hpre Hwin].
  pose proof (allow_all_ok pre 0 _ (new_limiter_ok 0 rps burst Hr Hbu) Hpre) as (Hok & Er & Eb).
  simpl in Er, Eb. rewrite allow_all_client, Er, Eb, Hts.
  apply (later_times key) in Hwin. rewrite Hts in Hwin. destruct Hwin as [Ht Hl].
  destruct (client_bucket_ok t _ key _ Hok Ht) as [Hb Hlast]. rewrite Eb in Hb.
  unfold start_bucket. simpl. by apply window_bound.
Qed.

(** The limiter serves: the first [burst] requests of a client pass at any
    rate, whatever the other clients do; and a client that waited for the time
    one token takes (to one part in 2^50) passes whatever it did before. *)
Theorem limiter_serves rps burst calls key :
  0 ≤ rps ≤ 2 ^ 53 → 0 < burst ≤ 2 ^ 53 → later 0 (map fst calls) →
  let r := allow_all calls (NewRateLimiter rps burst) in
  Forall (λ ok, ok = true) (take (Z.to_nat burst) (answers key calls r.1)) ∧
  (∀ now, let b := client_bucket now key r.2 in
    last_time 0 (map fst calls) ≤ now → now - b_lastCheck b ≤ max_int64 →
    2 ^ 50 * Second ≤ (2 ^ 50 - 1) * (rps * (now - b_lastCheck b)) →
    (RateLimiter_Allow now key r.2).1 = (true, None)).
Proof.
  intros Hr Hbu Hl. cbv zeta. pose proof one_pos. split.
  - rewrite allow_all_client. simpl rl_rate. simpl rl_burst.
    assert (∀ ts, start_bucket key ts (NewRateLimiter rps burst) = mkBucket (of_int burst) (default 0 (head ts))) as ->.
    { intros ts. unfold start_bucket, client_bucket. simpl. by rewrite lookup_empty. }
    apply bucket_run_full; [done | lia | by apply full_bucket_ok; lia | |].
    + apply (later_times key) in Hl. simpl. destruct (times key calls); [done|]. by destruct Hl.
    + simpl. rewrite of_int_exact by lia. lia.
  - intros now Hnow Hmax Hwait. assert (0 ≤ burst ≤ 2 ^ 53) as Hbu' by lia.
    pose proof (allow_all_ok calls 0 _ (new_limiter_ok 0 rps burst Hr Hbu') Hl) as (Hok & Er & Eb).
    simpl in Er, Eb. destruct (client_bucket_ok now _ key _ Hok Hnow) as [Hb Hlast]. rewrite Eb in Hb.
    set (rl := (allow_all calls _).2) in *. clearbody rl. rewrite RateLimiter_Allow_eq. simpl. f_equal. rewrite Er, Eb.
    set (b := client_bucket _ _ _) in *. clearbody b.
    apply (step_spec rps burst Hr Hbu' now b Hb Hlast), refill_full; [done..| | lia].
    destruct Hb as [_ Hb].
    assert (time_Sub now (b_lastCheck b) = now - b_lastCheck b) as -> by (unfold time_Sub; int64).
    destruct (gain_spec rps burst Hr Hbu' (now - b_lastCheck b)) as [_ [Hg _]]; [lia|].
    assert ((2 ^ 50 * Second) * one ≤ (2 ^ 50 * Second) * gain rps (now - b_lastCheck b)); [nia|].
    unfold Second in *. nia.
Qed.

(** Two clients of a limiter with one token and one token per second. *)
Definition two_clients : list (Z * string) :=
  [(0, "a"); (0, "b"); (0, "a"); (1000000000, "a")]%string.

Lemma limiter_window_witness :
  let rs := (allow_all two_clients (NewRateLimiter 1 1)).1 in
  rs = [true; true; false; true] ∧
  2 ^ 50 * Second * allowed (answers "a" two_clients rs) ≤
    2 ^ 50 * Second * 1 + (2 ^ 50 + 1) * (1 * (last_time 0 [0; 1000000000] - 0)) + 2 * (Second * 1).
Proof.
  split; [vm_compute; reflexivity|].
  apply (limiter_window 1 1 [] two_clients "a" 0 [0; 1000000000]);
    [lia | lia | repeat split; vm_compute; discriminate | reflexivity].
Defined.

Definition one_client : list (Z * string) := [(0, "a"); (0, "a")]%string.

Lemma limiter_serves_witness :
  let r := allow_all one_client (NewRateLimiter 1 1) in
  Forall (λ ok, ok = true) (take 1 (answers "a" one_client r.1)) ∧
  (RateLimiter_Allow 2000000000 "a" r.2).1 = (true, None).
Proof.
  destruct (limiter_serves 1 1 one_client "a") as [H1 H2];
    [lia | lia | repeat split; vm_compute; discriminate |].
  split; [exact H1 | apply H2; vm_compute; discriminate].
Defined.
