(* ===== verification/Redis.v ===== *)
(** * Redis: the key space the middleware relies on

    Redis itself is not part of the repository.  The commands its scripts and
    pipelines use are the methods of the class [Redis]; their documented effect
    on the hash a key holds and on its time to live are the laws of
    [RedisLaws], against which the idempotency store and the rate limiter are
    verified.  [KeySpace] is an implementation that satisfies the laws. *)

From stdpp Require Import base tactics list gmap strings.
From S2P Require Import Prelude GoLib Repository.

Open Scope Z_scope.

Abbreviation hash := (gmap string string).

(** Commands run at a time [now], in nanoseconds. *)
Class Redis (R : Type) := {
  HMGET : Z → string → list string → R → list (option string);
  HSET : Z → string → list (string * string) → R → R;
  EXPIRE : Z → string → Z → R → R;
  DEL : Z → string → R → R;
  (** The hash of a key and the time it expires, as seen at a time. *)
  entry : R → Z → string → option (hash * option Z)
}.

Definition fields (e : option (hash * option Z)) : hash := match e with Some (h, _) => h | None => ∅ end.

(** An entry seen at a later time, if nothing is done to the key. *)
Definition expire_at (now : Z) (e : option (hash * option Z)) : option (hash * option Z) :=
  match e with
  | Some (h, Some t) => if t <=? now then None else e
  | _ => e
  end.

Fixpoint hset_all (kvs : list (string * string)) (h : hash) : hash :=
  match kvs with [] => h | (k, v) :: kvs => hset_all kvs (<[k := v]> h) end.

(** HSET keeps the time to live, EXPIRE sets it on a key that exists, a key is
    gone when its time has come, and no command touches another key. *)
Class RedisLaws (R : Type) `{Redis R} := {
  entry_later r now now' k : now ≤ now' → entry r now' k = expire_at now' (entry r now k);
  HMGET_spec r now k fs : HMGET now k fs r = map (λ f, fields (entry r now k) !! f) fs;
  HSET_same r now k kvs :
    entry (HSET now k kvs r) now k
    = Some (hset_all kvs (fields (entry r now k)), match entry r now k with Some (_, t) => t | None => None end);
  EXPIRE_same r now k ttl : 0 < ttl →
    entry (EXPIRE now k ttl r) now k
    = match entry r now k with Some (h, _) => Some (h, Some (now + ttl)) | None => None end;
  DEL_same r now k : entry (DEL now k r) now k = None;
  HSET_other r now k kvs k' : k ≠ k' → entry (HSET now k kvs r) now k' = entry r now k';
  EXPIRE_other r now k ttl k' : k ≠ k' → entry (EXPIRE now k ttl r) now k' = entry r now k';
  DEL_other r now k k' : k ≠ k' → entry (DEL now k r) now k' = entry r now k'
}.

(** One round trip to the server: a script or a transaction runs atomically,
    and the connection can fail before or after it. *)
Definition round_trip {R A} (ci : CallInfo) (m : Prog R A) : Prog R (result goerror A) :=
  match ci_ctx ci with
  | Some err => ret (Err err)
  | None =>
    match ci_fault ci with
    | NoFault => let! a := m in ret (Ok a)
    | FailBefore err => ret (Err err)
    | FailAfter err => let! _ := m in ret (Err err)
    end
  end.

Lemma round_trip_cases {R A} ci (m : Prog R A) r a r' :
  round_trip ci m r = (a, r') →
  (a = Ok (m r).1 ∧ r' = (m r).2 ∧ clean ci) ∨ (is_Err a ∧ (r' = r ∨ r' = (m r).2) ∧ ¬ clean ci).
Proof.
  unfold round_trip, ret, bind, clean. destruct (ci_ctx ci), (ci_fault ci), (m r) as [x y];
    intros [= <- <-]; simpl; first [by left | right; split_and!; [done | by auto | by intros [? ?]]].
Qed.

Lemma round_trip_clean {R A} ci (m : Prog R A) r :
  clean ci → round_trip ci m r = (Ok (m r).1, (m r).2).
Proof. intros [Hc Hf]. unfold round_trip, bind, ret. rewrite Hc, Hf. by destruct (m r). Qed.

(** A server state with a connection to Redis: its key space, and the clock,
    context and fault of the next round trip. *)
Class RedisClient (S R : Type) := {
  rc_get : S → R;
  rc_set : R → S → S;
  rc_info : Ctx → Prog S CallInfo
}.

Class RedisClientLaws (S R : Type) `{RedisClient S R} := {
  rc_get_set r s : rc_get (rc_set r s) = r;
  rc_get_info ctx s : rc_get (rc_info ctx s).2 = rc_get s
}.

Definition on_redis {S R A} `{RedisClient S R} (ctx : Ctx) (op : CallInfo → Prog R A) : Prog S A :=
  let! ci := rc_info ctx in
  λ s, let (a, r) := op ci (rc_get s) in (a, rc_set r s).

Lemma on_redis_eq {S R A} `{RedisClient S R} `{!RedisClientLaws S R} ctx (op : CallInfo → Prog R A) s :
  on_redis ctx op s
  = let x := rc_info ctx s in let y := op x.1 (rc_get s) in (y.1, rc_set y.2 x.2).
Proof.
  unfold on_redis, bind. pose proof (rc_get_info ctx s) as Hg.
  destruct (rc_info ctx s) as [ci s']. simpl in *. rewrite Hg. by destruct (op ci (rc_get s)).
Qed.

(** ** A key space *)

Abbreviation KeySpace := (gmap string (hash * option Z)).

Definition ks_entry (r : KeySpace) (now : Z) (k : string) : option (hash * option Z) := expire_at now (r !! k).

#[export] Instance KeySpace_redis : Redis KeySpace := {|
  HMGET now k fs r := map (λ f, fields (ks_entry r now k) !! f) fs;
  HSET now k kvs r :=
    <[k := (hset_all kvs (fields (ks_entry r now k)),
            match ks_entry r now k with Some (_, t) => t | None => None end)]> r;
  EXPIRE now k ttl r :=
    match ks_entry r now k with Some (h, _) => <[k := (h, Some (now + ttl))]> r | None => r end;
  DEL now k r := delete k r;
  entry := ks_entry
|}.

Lemma expire_at_later now now' e : now ≤ now' → expire_at now' e = expire_at now' (expire_at now e).
Proof.
  intros Hle. destruct e as [[h [t|]]|]; simpl; try done.
  destruct (Z.leb_spec t now), (Z.leb_spec t now'); simpl; try lia; try done;
    destruct (Z.leb_spec t now'); done || lia.
Qed.

#[export] Instance KeySpace_laws : RedisLaws KeySpace.
Proof.
  split; unfold entry, HMGET, HSET, EXPIRE, DEL, KeySpace_redis, ks_entry.
  - intros. by apply expire_at_later.
  - done.
  - intros r now k kvs. rewrite lookup_insert_eq. destruct (r !! k) as [[h [t|]]|]; simpl; try done.
    destruct (Z.leb_spec t now) as [|Hlt]; simpl; [done|]. by destruct (Z.leb_spec t now); [lia|].
  - intros r now k ttl Hpos.
    destruct (expire_at now (r !! k)) as [[h t]|] eqn:E; [|by rewrite E].
    rewrite lookup_insert_eq. simpl. by destruct (Z.leb_spec (now + ttl) now); [lia|].
  - intros. by rewrite lookup_delete_eq.
  - intros. by rewrite lookup_insert_ne.
  - intros r now k ttl k' Hne. destruct (expire_at now (r !! k)) as [[h t]|]; [|done].
    by rewrite lookup_insert_ne.
  - intros. by rewrite lookup_delete_ne.
Qed.
