(* ===== verification/Http.v ===== *)
(** * Http: the fragment of net/http the server uses

    Requests, header maps, the sequence of calls a handler makes on its
    [http.ResponseWriter] and the response a client gets from them, handlers
    with panics, and the wrappers of the middleware that observe the calls. *)

From stdpp Require Import base tactics list gmap strings pretty.
From Stdlib Require Import Ascii.
From S2P Require Import Prelude GoLib Domain.

Open Scope string_scope.
Open Scope Z_scope.

(** ** Header maps *)

Definition lower_ascii (c : ascii) : ascii :=
  let n := nat_of_ascii c in
  if ((65 <=? n) && (n <=? 90))%nat then ascii_of_nat (n + 32) else c.
Definition upper_ascii (c : ascii) : ascii :=
  let n := nat_of_ascii c in
  if ((97 <=? n) && (n <=? 122))%nat then ascii_of_nat (n - 32) else c.

(** [textproto.CanonicalMIMEHeaderKey], on names without illegal bytes. *)
Fixpoint canonical_from (up : bool) (l : list ascii) : list ascii :=
  match l with
  | [] => []
  | c :: l => (if up then upper_ascii c else lower_ascii c) :: canonical_from (bool_decide (c = "-"%char)) l
  end.
Definition CanonicalHeaderKey (s : string) : string := of_ascii (canonical_from true (to_ascii s)).

(** The first value of each header, by canonical name. *)
Abbreviation Header := (gmap string string).
Definition header_Get (k : string) (h : Header) : string := default "" (h !! CanonicalHeaderKey k).
Definition header_Set (k v : string) (h : Header) : Header := <[CanonicalHeaderKey k := v]> h.

Example canonical_ok :
  map CanonicalHeaderKey ["X-Request-ID"; "content-TYPE"; "Idempotency-Key"]
  = ["X-Request-Id"; "Content-Type"; "Idempotency-Key"].
Proof. reflexivity. Qed.

(** ** Requests *)

(** The two values the middleware puts in the request context are fields. *)
Record HTTPRequest := mkHTTPRequest {
  rq_Method : string;
  rq_Path : string;
  rq_Query : gmap string string;
  rq_Header : Header;
  rq_RemoteAddr : string;
  rq_Body : string;
  rq_Context : Ctx;
  rq_RequestID : option string;
  rq_Merchant : option Merchant
}.

Definition set_rq_Header (h : Header) (r : HTTPRequest) : HTTPRequest :=
  mkHTTPRequest (rq_Method r) (rq_Path r) (rq_Query r) h (rq_RemoteAddr r) (rq_Body r) (rq_Context r)
    (rq_RequestID r) (rq_Merchant r).
Definition set_rq_RequestID (id : string) (r : HTTPRequest) : HTTPRequest :=
  mkHTTPRequest (rq_Method r) (rq_Path r) (rq_Query r) (rq_Header r) (rq_RemoteAddr r) (rq_Body r)
    (rq_Context r) (Some id) (rq_Merchant r).
Definition set_rq_Merchant (m : Merchant) (r : HTTPRequest) : HTTPRequest :=
  mkHTTPRequest (rq_Method r) (rq_Path r) (rq_Query r) (rq_Header r) (rq_RemoteAddr r) (rq_Body r)
    (rq_Context r) (rq_RequestID r) (Some m).

(** ** Response writers *)

(** [w.Header().Set(k, v)], [w.WriteHeader(code)] and [w.Write(b)]. *)
Inductive WriterCall :=
| CallSet (k v : string)
| CallWriteHeader (code : Z)
| CallWrite (b : string).

(** The server's side: the first [WriteHeader] or [Write] sends the status and
    the headers set so far; later ones do not change them. *)
Record Response := mkResponse {
  rs_header : Header;
  rs_sent : option (Z * Header);
  rs_body : string
}.

Definition new_response : Response := mkResponse ∅ None "".

Definition send_header (code : Z) (r : Response) : Response :=
  match rs_sent r with
  | Some _ => r
  | None => mkResponse (rs_header r) (Some (code, rs_header r)) (rs_body r)
  end.

Definition writer_call (r : Response) (c : WriterCall) : Response :=
  match c with
  | CallSet k v => mkResponse (header_Set k v (rs_header r)) (rs_sent r) (rs_body r)
  | CallWriteHeader code => send_header code r
  | CallWrite b => let r := send_header 200 r in mkResponse (rs_header r) (rs_sent r) (rs_body r +:+ b)
  end.

(** What the client gets when the handler has returned. *)
Definition respond (calls : list WriterCall) : Response :=
  send_header 200 (fold_left writer_call calls new_response).
Definition status_of (calls : list WriterCall) : Z :=
  match rs_sent (respond calls) with Some (code, _) => code | None => 200 end.
Definition headers_of (calls : list WriterCall) : Header :=
  match rs_sent (respond calls) with Some (_, h) => h | None => ∅ end.
Definition body_of (calls : list WriterCall) : string := rs_body (respond calls).

(** ** Handlers *)

(** The calls made on the response writer, and the state of the server. *)
Record HTTP (S : Type) := mkHTTP { h_calls : list WriterCall; h_state : S }.
Arguments mkHTTP {S}.
Arguments h_calls {S}.
Arguments h_state {S}.

(** A handler returns or panics. *)
Inductive outcome := Returned | Panicked (err : string).

Abbreviation Handler S := (HTTPRequest → Prog (HTTP S) outcome).

Section handlers.
Context {S : Type}.

Definition writer (c : WriterCall) : Prog (HTTP S) unit :=
  modify (λ h, mkHTTP (h_calls h ++ [c])%list (h_state h)).

Definition state {A} (m : Prog S A) : Prog (HTTP S) A :=
  λ h, let (a, s) := m (h_state h) in (a, mkHTTP (h_calls h) s).

(** [next.ServeHTTP(w, r)], then [k]; a panic of [next] skips [k]. *)
Definition serve (m : Prog (HTTP S) outcome) (k : Prog (HTTP S) outcome) : Prog (HTTP S) outcome :=
  let! o := m in match o with Panicked e => ret (Panicked e) | Returned => k end.

(** [next.ServeHTTP(wrapped, r)]: the calls [next] makes reach the wrapper
    [wrap] before the writer below; [k] gets the wrapper afterwards. *)
Definition serve_wrapped {X} (wrap : X → WriterCall → X) (x0 : X) (m : Prog (HTTP S) outcome)
    (k : X → Prog (HTTP S) outcome) : Prog (HTTP S) outcome := λ h,
  let (o, h') := m h in
  match o with
  | Panicked e => (Panicked e, h')
  | Returned => k (fold_left wrap (drop (length (h_calls h)) (h_calls h')) x0) h'
  end.
End handlers.

(** A handler never takes back a call. *)
Definition extends {S} (m : Prog (HTTP S) outcome) : Prop := ∀ h, h_calls h `prefix_of` h_calls (m h).2.

(** ** The responses of common sequences *)

Lemma fold_writer_sent cs r : is_Some (rs_sent r) → rs_sent (fold_left writer_call cs r) = rs_sent r.
Proof.
  revert r. induction cs as [|c cs IH]; intros r Hs; simpl; [done|].
  assert (rs_sent (writer_call r c) = rs_sent r) as Heq.
  { destruct Hs as [[]  Hs]. destruct c; simpl; unfold send_header; by rewrite Hs. }
  rewrite IH by (by rewrite Heq). done.
Qed.

(** Once a status is written it is the status of the response. *)
Lemma status_of_prefix cs cs' :
  is_Some (rs_sent (fold_left writer_call cs new_response)) → status_of (cs ++ cs')%list = status_of cs.
Proof.
  intros Hs. unfold status_of, respond. rewrite fold_left_app.
  assert (∀ r, is_Some (rs_sent r) → send_header 200 r = r) as Hsend.
  { intros r [x Hx]. unfold send_header. by rewrite Hx. }
  rewrite !Hsend; [by rewrite fold_writer_sent | done | by rewrite fold_writer_sent].
Qed.
