(* ===== verification/Metrics.v ===== *)
(** * Metrics: the Prometheus metrics of internal/metrics/metrics.go

    The counter of requests by method, path and status, the durations observed
    by method and path, and the gauge of active requests.  [WithLabelValues]
    panics on a label that is not valid UTF-8, before anything is counted.  The
    buckets into which the client library sorts the durations are left out. *)

From stdpp Require Import base tactics list gmap strings pretty.
From S2P Require Import Prelude GoLib Float64 Domain Http.

Open Scope string_scope.
Open Scope Z_scope.

(* go: internal/metrics/metrics.go 11-27 *)
Record Registry := mkRegistry {
  httpRequestsTotal : gmap (string * string * string) Z;
  httpDurationSeconds : gmap (string * string) (list float64);
  activeRequests : Z
}.

Definition new_registry : Registry := mkRegistry ∅ ∅ 0.

(** The value of a counter. *)
Definition requests_total (g : Registry) (labels : string * string * string) : Z :=
  default 0 (httpRequestsTotal g !! labels).

(** The three functions of the package, on a state with a registry. *)
Class Metrics (S : Type) := {
  RecordRequest (method path : string) (statusCode duration : Z) : Prog S outcome;
  IncrementActive : Prog S unit;
  DecrementActive : Prog S unit
}.

Definition count_request (method path : string) (statusCode duration : Z) (g : Registry) : Registry :=
  let total := (method, path, pretty statusCode) in
  mkRegistry
    (<[total := requests_total g total + 1]> (httpRequestsTotal g))
    (<[(method, path) := default [] (httpDurationSeconds g !! (method, path)) ++ [Seconds duration]]>
       (httpDurationSeconds g))%list
    (activeRequests g).

Definition add_active (n : Z) (g : Registry) : Registry :=
  mkRegistry (httpRequestsTotal g) (httpDurationSeconds g) (activeRequests g + n).

(** The labels of a request; its status is a number. *)
Definition labels_valid (method path : string) : bool := ValidString method && ValidString path.

(* go: internal/metrics/metrics.go 29-35 *)
#[export] Instance registry_metrics : Metrics Registry := {|
  RecordRequest method path statusCode duration :=
    if labels_valid method path
    then let! _ := modify (count_request method path statusCode duration) in ret Returned
    else ret (Panicked "label value is not valid UTF-8");
  IncrementActive := modify (add_active 1);
  DecrementActive := modify (add_active (-1))
|}.

(** A request is counted once, under its own labels. *)
Lemma count_request_total method path code d g labels :
  requests_total (count_request method path code d g) labels
  = requests_total g labels + (if bool_decide (labels = (method, path, pretty code)) then 1 else 0).
Proof.
  unfold requests_total, count_request. simpl. case_bool_decide as E.
  - subst. by rewrite lookup_insert_eq.
  - rewrite lookup_insert_ne by done. lia.
Qed.

Lemma active_again g : add_active (-1) (add_active 1 g) = g.
Proof. destruct g. unfold add_active. simpl. f_equal. lia. Qed.

(** Counting while a request is active, and ending it, only counts. *)
Lemma count_active method path code d g :
  add_active (-1) (count_request method path code d (add_active 1 g)) = count_request method path code d g.
Proof. destruct g. unfold add_active, count_request. simpl. f_equal. lia. Qed.
