(* ===== verification/Middleware.v ===== *)
(** * Middleware: the HTTP middleware of internal/middleware/middleware.go

    Each middleware is a function from handlers to handlers over a server state
    [S]; what the Go constructor receives (the merchant repository, the
    limiter, the logger, the routing context of chi) is an argument. *)

From stdpp Require Import base tactics list gmap strings pretty.
From Stdlib Require Import Ascii.
From S2P Require Import Prelude GoLib Float64 Domain Repository Http RateLimit Metrics.

Open Scope string_scope.
Open Scope Z_scope.

(** [w.WriteHeader(http.StatusX)] *)
Definition StatusOK : Z := 200.
Definition StatusCreated : Z := 201.
Definition StatusNoContent : Z := 204.
Definition StatusBadRequest : Z := 400.
Definition StatusUnauthorized : Z := 401.
Definition StatusPaymentRequired : Z := 402.
Definition StatusForbidden : Z := 403.
Definition StatusNotFound : Z := 404.
Definition StatusConflict : Z := 409.
Definition StatusTooManyRequests : Z := 429.
Definition StatusInternalServerError : Z := 500.
Definition StatusServiceUnavailable : Z := 503.
Definition StatusGatewayTimeout : Z := 504.

Definition dquote : string := String (ascii_of_nat 34) "".
Definition quoted (s : string) : string := dquote +:+ s +:+ dquote.

(** The literal that [writeError] prints. *)
(* go: internal/middleware/middleware.go 326 *)
Definition error_body (code message : string) : string :=
  "{" +:+ quoted "success" +:+ ":false," +:+ quoted "error" +:+ ":{" +:+
  quoted "code" +:+ ":" +:+ quoted code +:+ "," +:+ quoted "message" +:+ ":" +:+ quoted message +:+ "}}".

(* go: internal/middleware/middleware.go 34-38 *)
Record responseWriter := mkResponseWriter { rw_statusCode : Z; rw_written : Z }.

(* go: internal/middleware/middleware.go newResponseWriter *)
Definition newResponseWriter : responseWriter := mkResponseWriter StatusOK 0.

(** [WriteHeader] and [Write] of the wrapper. *)
(* go: internal/middleware/middleware.go 44-53 *)
Definition responseWriter_call (rw : responseWriter) (c : WriterCall) : responseWriter :=
  match c with
  | CallSet _ _ => rw
  | CallWriteHeader code => mkResponseWriter code (rw_written rw)
  | CallWrite b => mkResponseWriter (rw_statusCode rw) (rw_written rw + Z.of_nat (String.length b))
  end.

(* go: internal/middleware/middleware.go GetRequestID *)
Definition GetRequestID (r : HTTPRequest) : string :=
  match rq_RequestID r with Some id => id | None => "unknown" end.

(* go: internal/middleware/middleware.go GetMerchant *)
Definition GetMerchant (r : HTTPRequest) : option Merchant := rq_Merchant r.

(** ** The client of a request *)

Fixpoint last_index (c : ascii) (l : list ascii) : option nat :=
  match l with
  | [] => None
  | c' :: l => match last_index c l with
               | Some i => Some (S i)
               | None => if bool_decide (c' = c) then Some O else None
               end
  end.
Fixpoint index (c : ascii) (l : list ascii) : option nat :=
  match l with
  | [] => None
  | c' :: l => if bool_decide (c' = c) then Some O else S <$> index c l
  end.

(** The host that [net.SplitHostPort] returns; [None] for an error. *)
Definition SplitHost (hostport : string) : option string :=
  let l := to_ascii hostport in
  match last_index ":" l with
  | None => None
  | Some i =>
    let rest (host : list ascii) (j k : nat) :=
      match index "[" (drop j l), index "]" (drop k l) with
      | None, None => Some (of_ascii host)
      | _, _ => None
      end in
    match l with
    | "["%char :: _ =>
      match index "]" l with
      | None => None
      | Some e => if (S e =? i)%nat then rest (take (e - 1) (drop 1 l)) 1%nat (S e) else None
      end
    | _ =>
      let host := take i l in
      match index ":" host with
      | Some _ => None
      | None => rest host O O
      end
    end
  end.

Example SplitHost_ok :
  map SplitHost ["10.0.0.1:80"; "[::1]:80"; "::1:80"; "host"; "[::1]"; ":80"]
  = [Some "10.0.0.1"; Some "::1"; None; None; None; Some ""].
Proof. reflexivity. Qed.

(* go: internal/middleware/middleware.go clientIDFromRequest *)
Definition clientIDFromRequest (r : HTTPRequest) : string :=
  let forwarded := TrimSpace (header_Get "X-Forwarded-For" (rq_Header r)) in
  let ip := TrimSpace (of_ascii (cut_at "," (to_ascii forwarded)).1) in
  if negb (bool_decide (forwarded = "")) && negb (bool_decide (ip = "")) then ip
  else
    let addr := TrimSpace (rq_RemoteAddr r) in
    let fallback := if bool_decide (addr = "") then "unknown" else addr in
    match SplitHost addr with
    | Some host => if bool_decide (host = "") then fallback else host
    | None => fallback
    end.

(** ** Log entries *)

Inductive LogLevel := LevelInfo | LevelWarn | LevelError.

Record LogEntry := mkLogEntry {
  log_level : LogLevel;
  log_method : string;
  log_path : string;
  log_status : Z;
  log_duration_ms : Z;
  log_bytes : Z;
  log_request_id : string;
  log_ip : string
}.

(** ** Spans *)

(** [http.StatusText], on the codes from 500, for which [Tracing] asks. *)
Definition StatusText (code : Z) : string :=
  default "" (list_to_map (M := gmap Z string)
    [(500, "Internal Server Error"); (501, "Not Implemented"); (502, "Bad Gateway");
     (503, "Service Unavailable"); (504, "Gateway Timeout"); (505, "HTTP Version Not Supported");
     (506, "Variant Also Negotiates"); (507, "Insufficient Storage"); (508, "Loop Detected");
     (510, "Not Extended"); (511, "Network Authentication Required")] !! code).

Inductive Attribute := AttrString (v : string) | AttrInt (v : Z).

(** A span of kind server, as it is when it ends: the tracer it comes from,
    the trace context of the caller, its name, its attributes and, for an
    error, the description. *)
Record Span := mkSpan {
  sp_tracer : string;
  sp_parent : string;
  sp_name : string;
  sp_attributes : list (string * Attribute);
  sp_error : option string
}.

Definition SetName (name : string) (sp : Span) : Span :=
  mkSpan (sp_tracer sp) (sp_parent sp) name (sp_attributes sp) (sp_error sp).
(** The keys the program sets are distinct. *)
Definition SetAttributes (kvs : list (string * Attribute)) (sp : Span) : Span :=
  mkSpan (sp_tracer sp) (sp_parent sp) (sp_name sp) (sp_attributes sp ++ kvs)%list (sp_error sp).
Definition SetError (description : string) (sp : Span) : Span :=
  mkSpan (sp_tracer sp) (sp_parent sp) (sp_name sp) (sp_attributes sp) (Some description).

(** The span of a request that was answered. *)
(* go: internal/middleware/middleware.go 92-104 *)
Definition finish_span (r : HTTPRequest) (routePattern : string) (statusCode : Z) (sp : Span) : Span :=
  let sp := if bool_decide (routePattern = "") then sp
            else SetAttributes [("http.route", AttrString routePattern)]
                   (SetName (rq_Method r +:+ " " +:+ routePattern) sp) in
  let sp := SetAttributes [("http.method", AttrString (rq_Method r)); ("http.target", AttrString (rq_Path r));
                           ("http.status_code", AttrInt statusCode);
                           ("request.id", AttrString (GetRequestID r))] sp in
  if StatusInternalServerError <=? statusCode then SetError (StatusText statusCode) sp else sp.

Section middleware.
Context {S : Type}.
(** [time.Now()] *)
Variable Now : Prog S Z.
Implicit Types next : Handler S.

(* go: internal/middleware/middleware.go writeError *)
Definition writeError (status : Z) (code message : string) : Prog (HTTP S) outcome :=
  let! _ := writer (CallSet "Content-Type" "application/json") in
  let! _ := writer (CallWriteHeader status) in
  let! _ := writer (CallWrite (error_body code message)) in
  ret Returned.

(* go: internal/middleware/middleware.go RequestID *)
Definition RequestID next : Handler S := λ r,
  let! requestID := (let h := header_Get "X-Request-ID" (rq_Header r) in
                     if bool_decide (h = "")
                     then let! n := state Now in ret ("req_" +:+ pretty n)
                     else ret h) in
  let! _ := writer (CallSet "X-Request-ID" requestID) in
  next (set_rq_RequestID requestID r).

(** [Extract] is the propagator on the headers, [RoutePattern] what chi has
    recorded in the context of the request when [next] has returned, and
    [End] what ends a span.  A panic of [next] skips it. *)
(* go: internal/middleware/middleware.go Tracing *)
Definition Tracing (Extract : Header → string) (RoutePattern : HTTPRequest → HTTP S → string)
    (End : Span → Prog S unit) (serviceName : string) next : Handler S := λ r,
  let parent := Extract (rq_Header r) in
  let spanName := rq_Method r +:+ " " +:+ rq_Path r in
  let span := mkSpan (serviceName +:+ "/http") parent spanName [] None in
  serve_wrapped responseWriter_call newResponseWriter (next r) (λ wrapped,
    let! routePattern := get (RoutePattern r) in
    let! _ := state (End (finish_span r routePattern (rw_statusCode wrapped) span)) in
    ret Returned).

(* go: internal/middleware/middleware.go Logging *)
Definition Logging (log : LogEntry → Prog S unit) next : Handler S := λ r,
  let! start := state Now in
  serve_wrapped responseWriter_call newResponseWriter (next r) (λ wrapped,
    let! t := state Now in
    let duration := time_Sub t start in
    let level := if 500 <=? rw_statusCode wrapped then LevelError
                 else if 400 <=? rw_statusCode wrapped then LevelWarn else LevelInfo in
    let! _ := state (log (mkLogEntry level (rq_Method r) (rq_Path r) (rw_statusCode wrapped)
                            (Z.quot duration Millisecond) (rw_written wrapped) (GetRequestID r) (rq_RemoteAddr r))) in
    ret Returned).

(** The deferred decrement also runs when [next] or [RecordRequest] panics. *)
(* go: internal/middleware/middleware.go MetricsMiddleware *)
Definition MetricsMiddleware `{Metrics S} next : Handler S := λ r,
  let! _ := state IncrementActive in
  let! start := state Now in
  let! o := serve_wrapped responseWriter_call newResponseWriter (next r) (λ wrapped,
    let! t := state Now in
    state (RecordRequest (rq_Method r) (rq_Path r) (rw_statusCode wrapped) (time_Sub t start))) in
  let! _ := state DecrementActive in
  ret o.

(* go: internal/middleware/middleware.go APIKeyAuth *)
Definition APIKeyAuth (GetByAPIKey : Ctx → string → Prog S (result goerror Merchant)) next : Handler S := λ r,
  let authHeader := header_Get "Authorization" (rq_Header r) in
  if bool_decide (authHeader = "")
  then writeError StatusUnauthorized "UNAUTHORIZED" "missing Authorization header"
  else
    match SplitN2 authHeader " " with
    | [scheme; key] =>
      if bool_decide (scheme = "Bearer") then
        let! m := state (GetByAPIKey (rq_Context r) key) in
        match m with
        | Err _ => writeError StatusUnauthorized "UNAUTHORIZED" "invalid API key"
        | Ok merchant =>
          if negb (IsActive merchant)
          then writeError StatusForbidden "FORBIDDEN" "merchant account is not active"
          else next (set_rq_Merchant merchant r)
        end
      else writeError StatusUnauthorized "UNAUTHORIZED" "format: Bearer <api_key>"
    | _ => writeError StatusUnauthorized "UNAUTHORIZED" "format: Bearer <api_key>"
    end.

(** [limiter == nil] is [None]. *)
(* go: internal/middleware/middleware.go RateLimit *)
Definition RateLimit (limiter : option (Ctx → string → Prog S (bool * error))) next : Handler S := λ r,
  match limiter with
  | None => next r
  | Some Allow =>
    let! a := state (Allow (rq_Context r) (clientIDFromRequest r)) in
    let (allowed, err) := a in
    if bool_decide (err ≠ None) || allowed then next r
    else
      let! _ := writer (CallSet "Retry-After" "1") in
      writeError StatusTooManyRequests "RATE_LIMITED" "too many requests"
  end.

(* go: internal/middleware/middleware.go Recovery *)
Definition Recovery next : Handler S := λ r,
  let! o := next r in
  match o with
  | Returned => ret Returned
  | Panicked _ => writeError StatusInternalServerError "INTERNAL_ERROR" "an unexpected error occurred"
  end.

(* go: internal/middleware/middleware.go CORS *)
Definition CORS next : Handler S := λ r,
  let! _ := writer (CallSet "Access-Control-Allow-Origin" "*") in
  let! _ := writer (CallSet "Access-Control-Allow-Methods" "GET, POST, PUT, DELETE, OPTIONS") in
  let! _ := writer (CallSet "Access-Control-Allow-Headers"
    "Content-Type, Authorization, X-Request-ID, X-Idempotency-Key, Idempotency-Key") in
  let! _ := writer (CallSet "Access-Control-Max-Age" "86400") in
  if bool_decide (rq_Method r = "OPTIONS")
  then let! _ := writer (CallWriteHeader StatusNoContent) in ret Returned
  else next r.
End middleware.


Definition request_to (addr : string) (h : Header) : HTTPRequest :=
  mkHTTPRequest "GET" "/" ∅ h addr "" Background None None.

Example clientID_ok :
  [clientIDFromRequest (request_to "10.0.0.1:80" ∅);
   clientIDFromRequest (request_to "10.0.0.1:80" (header_Set "X-Forwarded-For" " 1.2.3.4 , 5.6.7.8" ∅));
   clientIDFromRequest (request_to "10.0.0.1:80" (header_Set "X-Forwarded-For" ",5.6.7.8" ∅));
   clientIDFromRequest (request_to "" ∅)]
  = ["10.0.0.1"; "1.2.3.4"; "10.0.0.1"; "unknown"].
Proof. vm_compute. reflexivity. Qed.
