(* ===== verification/Telemetry.v ===== *)
(** * Telemetry: the set-up of tracing in internal/telemetry/tracing.go

    [SetupTracing] over the two global variables of OpenTelemetry.  The
    constructor of the OTLP exporter and the shutdown of a provider belong to
    its SDK and are parameters. *)

From stdpp Require Import base tactics list strings.
From Stdlib Require Import Ascii.
From Stdlib Require String.
From S2P Require Import Prelude GoLib.

Open Scope string_scope.
Open Scope Z_scope.

(* go: internal/telemetry/tracing.go 15-20 *)
Record TraceConfig := mkTraceConfig {
  tc_Enabled : bool;
  tc_ServiceName : string;
  tc_OTLPEndpoint : string;
  tc_OTLPInsecure : bool
}.

(** [strings.Contains(s, substr)] *)
Definition Contains (s substr : string) : bool := bool_decide (is_Some (String.index 0 substr s)).

(** The options of package otlptracehttp. *)
Inductive ExporterOption :=
| WithEndpointURL (url : string)
| WithEndpoint (hostport : string)
| WithInsecure.

#[export] Instance ExporterOption_eq_dec : EqDecision ExporterOption.
Proof. solve_decision. Defined.

(** A provider that samples every span, with the attribute service.name of
    its resource and, when there is one, its batching exporter. *)
Record TracerProvider (E : Type) := mkTracerProvider { tp_service : string; tp_exporter : option E }.
Arguments mkTracerProvider {E}.
Arguments tp_service {E}.
Arguments tp_exporter {E}.

(** The globals of package otel: [None] is the provider that records nothing;
    whether the propagator is the one of W3C trace contexts. *)
Record Otel (E : Type) := mkOtel { ot_provider : option (TracerProvider E); ot_TraceContext : bool }.
Arguments mkOtel {E}.
Arguments ot_provider {E}.
Arguments ot_TraceContext {E}.

Definition otel_initial {E} : Otel E := mkOtel None false.

Section telemetry.
Context {E : Type}.
Variable otlptracehttp_New : Ctx → list ExporterOption → result goerror E.
Variable provider_Shutdown : TracerProvider E → Ctx → error.

(* go: internal/telemetry/tracing.go 27-30 *)
Definition service_name (cfg : TraceConfig) : string :=
  let serviceName := TrimSpace (tc_ServiceName cfg) in
  if bool_decide (serviceName = "") then "payflow" else serviceName.

(* go: internal/telemetry/tracing.go 39-51 *)
Definition exporter_options (cfg : TraceConfig) : list ExporterOption :=
  let endpoint := TrimSpace (tc_OTLPEndpoint cfg) in
  ((if Contains endpoint "://" then [WithEndpointURL endpoint] else [WithEndpoint endpoint]) ++
   (if tc_OTLPInsecure cfg then [WithInsecure] else []))%list.

(** The result is the function that shuts tracing down, or an error. *)
(* go: internal/telemetry/tracing.go SetupTracing *)
Definition SetupTracing (ctx : Ctx) (cfg : TraceConfig) : Prog (Otel E) (result goerror (Ctx → error)) :=
  if negb (tc_Enabled cfg) then ret (Ok (λ _, None))
  else
    let install (exporter : option E) :=
      let provider := mkTracerProvider (service_name cfg) exporter in
      let! _ := modify (λ o, mkOtel (Some provider) (ot_TraceContext o)) in
      let! _ := modify (λ o, mkOtel (ot_provider o) true) in
      ret (Ok (provider_Shutdown provider)) in
    if bool_decide (TrimSpace (tc_OTLPEndpoint cfg) = "") then install None
    else match otlptracehttp_New ctx (exporter_options cfg) with
         | Err err => ret (Err err)
         | Ok exporter => install (Some exporter)
         end.

(** ** What the set-up does *)

Lemma SetupTracing_disabled ctx cfg o :
  tc_Enabled cfg = false → SetupTracing ctx cfg o = (Ok (λ _, None), o).
Proof. intros Hd. unfold SetupTracing. by rewrite Hd. Qed.

(** An error leaves the globals alone; otherwise they hold a provider with a
    name, and what is returned shuts that provider down. *)
Lemma wp_SetupTracing ctx cfg o :
  wp (SetupTracing ctx cfg) (λ r o', match r with
    | Err err => o' = o ∧ tc_Enabled cfg = true ∧ otlptracehttp_New ctx (exporter_options cfg) = Err err
    | Ok stop =>
        if tc_Enabled cfg then
          ∃ p, ot_provider o' = Some p ∧ ot_TraceContext o' = true ∧ stop = provider_Shutdown p ∧
            tp_service p = service_name cfg ∧ tp_service p ≠ "" ∧
            match tp_exporter p with
            | None => TrimSpace (tc_OTLPEndpoint cfg) = ""
            | Some e => otlptracehttp_New ctx (exporter_options cfg) = Ok e
            end
        else o' = o ∧ ∀ c, stop c = None
    end) o.
Proof.
  assert (service_name cfg ≠ "") as Hname by (unfold service_name; by case_bool_decide).
  unfold SetupTracing. destruct (tc_Enabled cfg) eqn:He; cbn [negb]; [|by apply wp_ret].
  case_bool_decide as Hep.
  - do 2 apply wp_bind, wp_modify. apply wp_ret. by eexists.
  - destruct (otlptracehttp_New _ _) as [e|err] eqn:En; [|by apply wp_ret].
    do 2 apply wp_bind, wp_modify. apply wp_ret. by eexists.
Qed.
End telemetry.

Example exporter_options_ok :
  map exporter_options
    [mkTraceConfig true "payflow" "jaeger:4318" true; mkTraceConfig true "" " http://jaeger:4318 " false]
  = [[WithEndpoint "jaeger:4318"; WithInsecure]; [WithEndpointURL "http://jaeger:4318"]].
Proof. vm_compute. reflexivity. Qed.
