(* ===== verification/Idempotency.v ===== *)
(** * Idempotency: the idempotency store and middleware of internal/middleware

    The Lua script idempotency_check.lua, the [IdempotencyStore] of
    idempotency_store.go and the [Idempotency] middleware, over the commands of
    [Redis]. *)

From stdpp Require Import base tactics list gmap strings pretty.
From S2P Require Import Prelude GoLib Domain Repository Redis Http RateLimit Middleware.

Open Scope string_scope.
Open Scope Z_scope.

(* go: internal/middleware/idempotency_store.go 14 *)
Definition idempotencyInProgressTTL : Z := 60 * Second.
(* go: internal/middleware/idempotency_store.go 15 *)
Definition idempotencyCompletedTTL : Z := 24 * Hour.

(** A [string] type with three constants; the script can return others. *)
(* go: internal/middleware/idempotency_store.go 21-27 *)
Abbreviation IdempotencyDecision := string (only parsing).
Definition IdempotencyProceed : IdempotencyDecision := "PROCEED".
Definition IdempotencyInProgress : IdempotencyDecision := "IN_PROGRESS".
Definition IdempotencyCompleted : IdempotencyDecision := "COMPLETED".

(* go: internal/middleware/idempotency_store.go 29-33 *)
Record IdempotencyResult := mkIdempotencyResult {
  ir_Decision : IdempotencyDecision;
  ir_StatusCode : Z;
  ir_Body : string
}.

(* go: internal/middleware/idempotency_store.go idempotencyRedisKey *)
Definition idempotencyRedisKey (merchantID key : string) : string :=
  "idempotency:{" +:+ merchantID +:+ "}:" +:+ key.

Section store.
Context {R : Type} `{!Redis R}.

(** idempotency_check.lua *)
Definition idempotency_check (now : Z) (key : string) : Prog R (list string) := λ r,
  let existing := HMGET now key ["state"; "status_code"; "response_body"] r in
  let get i := match existing !! i with Some (Some v) => Some v | _ => None end in
  let proceed :=
    (["PROCEED"], EXPIRE now key (60 * Second) (HSET now key [("state", "in_progress")] r)) in
  match get 0%nat with
  | None => proceed
  | Some state =>
    if bool_decide (state = "completed")
    then (["COMPLETED"; default "" (get 1%nat); default "" (get 2%nat)], r)
    else if bool_decide (state = "in_progress") then (["IN_PROGRESS"], r)
    else proceed
  end.

(** [client = false] is a nil store or a nil client. *)
(* go: internal/middleware/idempotency_store.go 35-38 *)
Record IdempotencyStore := mkIdempotencyStore { is_client : bool }.

(* go: internal/middleware/idempotency_store.go 48 *)
Definition disabled (s : IdempotencyStore) (merchantID key : string) : bool :=
  negb (is_client s) || bool_decide (merchantID = "") || bool_decide (key = "").

(* go: internal/middleware/idempotency_store.go 56-75 *)
Definition parse_check (values : list string) : IdempotencyResult :=
  match values with
  | [] => mkIdempotencyResult IdempotencyProceed 0 ""
  | decision :: rest =>
    if negb (bool_decide (decision = IdempotencyCompleted)) then mkIdempotencyResult decision 0 ""
    else
      let status := match rest with v :: _ => default 0 (Atoi v) | [] => 0 end in
      let body := match rest with _ :: b :: _ => b | _ => "" end in
      mkIdempotencyResult decision status body
  end.

(* go: internal/middleware/idempotency_store.go IdempotencyStore.Check *)
Definition store_Check (ci : CallInfo) (s : IdempotencyStore) (merchantID key : string)
  : Prog R (result goerror IdempotencyResult) :=
  if disabled s merchantID key then ret (Ok (mkIdempotencyResult IdempotencyProceed 0 ""))
  else
    try! values := round_trip ci (idempotency_check (ci_now ci) (idempotencyRedisKey merchantID key))
      or err => ret (Err err);
    ret (Ok (parse_check values)).

(* go: internal/middleware/idempotency_store.go 84-88 *)
Definition completed_fields (statusCode : Z) (body : string) : list (string * string) :=
  [("state", "completed"); ("status_code", pretty statusCode); ("response_body", body)].

(* go: internal/middleware/idempotency_store.go IdempotencyStore.StoreCompleted *)
Definition StoreCompleted (ci : CallInfo) (s : IdempotencyStore) (merchantID key : string)
    (statusCode : Z) (body : string) : Prog R error :=
  if disabled s merchantID key then ret None
  else
    let k := idempotencyRedisKey merchantID key in
    try! _ := round_trip ci (modify (λ r,
      EXPIRE (ci_now ci) k idempotencyCompletedTTL
        (HSET (ci_now ci) k (completed_fields statusCode body) r)))
      or err => ret (Some err);
    ret None.

(* go: internal/middleware/idempotency_store.go IdempotencyStore.Release *)
Definition Release (ci : CallInfo) (s : IdempotencyStore) (merchantID key : string) : Prog R error :=
  if disabled s merchantID key then ret None
  else
    try! _ := round_trip ci (modify (DEL (ci_now ci) (idempotencyRedisKey merchantID key)))
      or err => ret (Some err);
    ret None.
End store.

(* go: internal/middleware/idempotency_middleware.go 8-12 *)
Record idempotencyResponseWriter := mkIdempotencyWriter { iw_statusCode : Z; iw_buf : string }.

(* go: internal/middleware/idempotency_middleware.go newIdempotencyResponseWriter *)
Definition newIdempotencyResponseWriter : idempotencyResponseWriter := mkIdempotencyWriter StatusOK "".

(** [WriteHeader] and [Write] of the wrapper. *)
(* go: internal/middleware/idempotency_middleware.go 21-29 *)
Definition idempotencyResponseWriter_call (w : idempotencyResponseWriter) (c : WriterCall) :=
  match c with
  | CallSet _ _ => w
  | CallWriteHeader code => mkIdempotencyWriter code (iw_buf w)
  | CallWrite b => mkIdempotencyWriter (iw_statusCode w) (iw_buf w +:+ b)
  end.

(** The operations of a store that works on a component of the server state. *)
Record StoreOps (S : Type) := mkStoreOps {
  so_Check : Ctx → string → string → Prog S (result goerror IdempotencyResult);
  so_StoreCompleted : Ctx → string → string → Z → string → Prog S error;
  so_Release : Ctx → string → string → Prog S error
}.
Arguments so_Check {S}.
Arguments so_StoreCompleted {S}.
Arguments so_Release {S}.
Arguments mkStoreOps {S}.

Section middleware.
Context {S : Type}.
Variable store : StoreOps S.
Implicit Types next : Handler S.

(** The answer for a key whose request was completed. *)
(* go: internal/middleware/idempotency_middleware.go 59-68 *)
Definition replay (result : IdempotencyResult) : Prog (HTTP S) outcome :=
  let! _ := writer (CallSet "Content-Type" "application/json") in
  let! _ := writer (CallWriteHeader
              (if ir_StatusCode result =? 0 then StatusOK else ir_StatusCode result)) in
  let! _ := (if (0 <? String.length (ir_Body result))%nat then writer (CallWrite (ir_Body result)) else ret tt) in
  ret Returned.

(** The run that holds the key, and what is stored when it returns; nothing is
    stored or released when it panics. *)
(* go: internal/middleware/idempotency_middleware.go 74-85 *)
Definition run_and_store next (r : HTTPRequest) (merchantID key : string) : Prog (HTTP S) outcome :=
  serve_wrapped idempotencyResponseWriter_call newIdempotencyResponseWriter (next r) (λ wrapped,
    if (200 <=? iw_statusCode wrapped) && (iw_statusCode wrapped <? 300) then
      let! err := state (so_StoreCompleted store (rq_Context r) merchantID key
                           (iw_statusCode wrapped) (iw_buf wrapped)) in
      match err with
      | Some _ => let! _ := state (so_Release store (rq_Context r) merchantID key) in ret Returned
      | None => ret Returned
      end
    else
      let! _ := state (so_Release store (rq_Context r) merchantID key) in
      ret Returned).

(* go: internal/middleware/idempotency_middleware.go Idempotency *)
Definition Idempotency next : Handler S := λ r,
  let key := header_Get "Idempotency-Key" (rq_Header r) in
  let key := if bool_decide (key = "") then header_Get "X-Idempotency-Key" (rq_Header r) else key in
  if bool_decide (key = "") then next r
  else
    let r := if bool_decide (header_Get "X-Idempotency-Key" (rq_Header r) = "")
             then set_rq_Header (header_Set "X-Idempotency-Key" key (rq_Header r)) r else r in
    match GetMerchant r with
    | None => next r
    | Some merchant =>
      let! result := state (so_Check store (rq_Context r) (m_ID merchant) key) in
      match result with
      | Err _ => next r
      | Ok result =>
        if bool_decide (ir_Decision result = IdempotencyCompleted) then replay result
        else if bool_decide (ir_Decision result = IdempotencyInProgress)
        then writeError StatusConflict "IDEMPOTENCY_IN_PROGRESS"
               "request with this idempotency key is already in progress"
        else run_and_store next r (m_ID merchant) key
      end
    end.
End middleware.

(** The store of a server with a connection to Redis. *)
Definition store_ops {S R} `{Redis R, RedisClient S R} (s : IdempotencyStore) : StoreOps S := {|
  so_Check ctx mid key := on_redis ctx (λ ci, store_Check ci s mid key);
  so_StoreCompleted ctx mid key code body := on_redis ctx (λ ci, StoreCompleted ci s mid key code body);
  so_Release ctx mid key := on_redis ctx (λ ci, Release ci s mid key)
|}.

(** ** The store *)

Section store_laws.
Context {R : Type} `{!Redis R, !RedisLaws R}.
Implicit Types r : R.

(** The entry of a key with a stored response, or held by a running request. *)
Definition stored (code : Z) (body : string) (h : hash) : Prop :=
  h !! "state" = Some "completed" ∧ h !! "status_code" = Some (pretty code) ∧ h !! "response_body" = Some body.
Definition held (h : hash) : Prop := h !! "state" = Some "in_progress".

Lemma enabled s mid key : is_client s = true → mid ≠ "" → key ≠ "" → disabled s mid key = false.
Proof. intros Hs Hm Hk. unfold disabled. rewrite Hs, !bool_decide_false by done. done. Qed.

(** HSET and EXPIRE in one transaction. *)
Lemma set_entry now k kvs ttl r :
  0 < ttl →
  entry (EXPIRE now k ttl (HSET now k kvs r)) now k
  = Some (hset_all kvs (fields (entry r now k)), Some (now + ttl)).
Proof. intros Ht. by rewrite EXPIRE_same, HSET_same. Qed.

Lemma set_entry_other now k kvs ttl r k' :
  k ≠ k' → entry (EXPIRE now k ttl (HSET now k kvs r)) now k' = entry r now k'.
Proof. intros Hk. by rewrite EXPIRE_other, HSET_other. Qed.

Lemma hset_stored code body h : stored code body (hset_all (completed_fields code body) h).
Proof.
  unfold completed_fields, hset_all, stored.
  split_and!; by rewrite ?lookup_insert_eq, ?lookup_insert_ne, ?lookup_insert_eq by done.
Qed.

(** What the script finds. *)
Lemma check_eq now k r :
  idempotency_check now k r
  = let st := fields (entry r now k) !! "state" in
    if bool_decide (st = Some "completed") then
      (["COMPLETED"; default "" (fields (entry r now k) !! "status_code");
        default "" (fields (entry r now k) !! "response_body")], r)
    else if bool_decide (st = Some "in_progress") then (["IN_PROGRESS"], r)
    else (["PROCEED"], EXPIRE now k (60 * Second) (HSET now k [("state", "in_progress")] r)).
Proof.
  unfold idempotency_check. rewrite HMGET_spec. simpl.
  destruct (fields (entry r now k) !! "state") as [st|]; [|done].
  repeat case_bool_decide; try congruence.
  by destruct (_ !! "status_code"), (_ !! "response_body").
Qed.

Lemma StoreCompleted_clean ci s mid key code body r :
  clean ci → is_client s = true → mid ≠ "" → key ≠ "" →
  let k := idempotencyRedisKey mid key in
  StoreCompleted ci s mid key code body r
  = (None, EXPIRE (ci_now ci) k idempotencyCompletedTTL (HSET (ci_now ci) k (completed_fields code body) r)).
Proof.
  intros Hc Hs Hm Hk. cbv zeta. unfold StoreCompleted. rewrite enabled by done.
  unfold bind. by rewrite round_trip_clean.
Qed.

Lemma Release_clean ci s mid key r :
  clean ci → is_client s = true → mid ≠ "" → key ≠ "" →
  Release ci s mid key r = (None, DEL (ci_now ci) (idempotencyRedisKey mid key) r).
Proof.
  intros Hc Hs Hm Hk. unfold Release. rewrite enabled by done. unfold bind. by rewrite round_trip_clean.
Qed.

Lemma Check_stored ci s mid key code body h t r :
  clean ci → is_client s = true → mid ≠ "" → key ≠ "" → 200 ≤ code < 300 →
  entry r (ci_now ci) (idempotencyRedisKey mid key) = Some (h, t) → stored code body h →
  store_Check ci s mid key r = (Ok (mkIdempotencyResult IdempotencyCompleted code body), r).
Proof.
  intros Hc Hs Hm Hk Hcode He (H1 & H2 & H3). unfold store_Check. rewrite enabled by done.
  unfold bind. rewrite round_trip_clean, check_eq, He by done. simpl. rewrite H1, H2, H3. simpl.
  unfold parse_check, ret. simpl. rewrite ParseInt_pretty; [done | int64].
Qed.
End store_laws.

(** ** The middleware *)

Section middleware_laws.
Context {S R : Type} `{!Redis R, !RedisLaws R, !RedisClient S R, !RedisClientLaws S R}.
Variable s : IdempotencyStore.
Hypothesis connected : is_client s = true.
Implicit Types next : Handler S.

(** The key a request asks for, and the request the handler sees. *)
Definition request_key (r : HTTPRequest) : string :=
  let key := header_Get "Idempotency-Key" (rq_Header r) in
  if bool_decide (key = "") then header_Get "X-Idempotency-Key" (rq_Header r) else key.

Definition keyed (r : HTTPRequest) : HTTPRequest :=
  if bool_decide (header_Get "X-Idempotency-Key" (rq_Header r) = "")
  then set_rq_Header (header_Set "X-Idempotency-Key" (request_key r) (rq_Header r)) r else r.

Lemma keyed_eq r : rq_Merchant (keyed r) = rq_Merchant r ∧ rq_Context (keyed r) = rq_Context r.
Proof. unfold keyed. by case_bool_decide. Qed.

(** The calls of a replayed response. *)
Definition replay_calls (code : Z) (body : string) : list WriterCall :=
  CallSet "Content-Type" "application/json" :: CallWriteHeader code ::
  (if (0 <? String.length body)%nat then [CallWrite body] else []).

Lemma replay_eq code body h :
  200 ≤ code < 300 →
  replay (S := S) (mkIdempotencyResult IdempotencyCompleted code body) h
  = (Returned, mkHTTP (h_calls h ++ replay_calls code body)%list (h_state h)).
Proof.
  intros Hc. unfold replay, replay_calls, bind, writer, modify, ret. simpl.
  destruct (Z.eqb_spec code 0); [lia|]. destruct (_ <? _)%nat; simpl; by rewrite <- !(assoc_L (++)).
Qed.

(** A request whose key has a stored response. *)
Lemma Idempotency_stored next r m calls st code body hsh t :
  rq_Merchant r = Some m → m_ID m ≠ "" → request_key r ≠ "" → 200 ≤ code < 300 →
  let x := rc_info (rq_Context r) st in
  clean x.1 →
  entry (rc_get st) (ci_now x.1) (idempotencyRedisKey (m_ID m) (request_key r)) = Some (hsh, t) →
  stored code body hsh →
  Idempotency (store_ops s) next r (mkHTTP calls st)
  = (Returned, mkHTTP (calls ++ replay_calls code body)%list (rc_set (rc_get st) x.2)).
Proof.
  intros Hm Hid Hkey Hcode. cbv zeta. intros Hclean He Hst. unfold Idempotency.
  fold (request_key r). rewrite (bool_decide_eq_false_2 (request_key r = "")) by done.
  fold (keyed r). destruct (keyed_eq r) as [Ekm Ekc]. unfold GetMerchant. rewrite Ekm, Hm, Ekc.
  unfold bind at 1. unfold state at 1. simpl h_state. simpl so_Check. rewrite on_redis_eq. cbv zeta.
  rewrite (Check_stored _ s _ _ code body hsh t) by done. simpl.
  by rewrite replay_eq.
Qed.

(** A handler that returned a success, and whose response could be stored,
    leaves it in Redis for 24 hours. *)
Lemma run_stored next r mid key calls st h' :
  mid ≠ "" → key ≠ "" →
  let h := mkHTTP calls st in
  let x := rc_info (rq_Context r) (h_state (next r h).2) in
  let w := fold_left idempotencyResponseWriter_call (drop (length calls) (h_calls (next r h).2))
             newIdempotencyResponseWriter in
  run_and_store (store_ops s) next r mid key h = (Returned, h') →
  200 ≤ iw_statusCode w < 300 → clean x.1 →
  ∃ hsh, entry (rc_get (h_state h')) (ci_now x.1) (idempotencyRedisKey mid key)
         = Some (hsh, Some (ci_now x.1 + idempotencyCompletedTTL)) ∧
       stored (iw_statusCode w) (iw_buf w) hsh.
Proof.
  intros Hm Hk. cbv zeta. unfold run_and_store, serve_wrapped.
  destruct (next r (mkHTTP calls st)) as [o h1]. simpl. destruct o as [|e]; [|done].
  set (w := fold_left _ _ _). intros Hrun Hc Hclean.
  destruct (Z.leb_spec 200 (iw_statusCode w)) as [_|?]; [|lia].
  destruct (Z.ltb_spec (iw_statusCode w) 300) as [_|?]; [|lia]. simpl in Hrun.
  unfold bind at 1, state in Hrun. rewrite on_redis_eq in Hrun. cbv zeta in Hrun.
  rewrite StoreCompleted_clean in Hrun by done. simpl in Hrun. unfold ret in Hrun.
  injection Hrun as <-. simpl. rewrite rc_get_set. eexists. split.
  - by apply set_entry.
  - apply hset_stored.
Qed.

(** C35 A retry gets the answer of the original.  When a handler has returned a
    2xx response under an idempotency key and Redis took it, then for 24 hours
    any request of the same merchant with the same key is answered with the
    same status and body, the handler is not run again, and nothing but the
    clock of the server changes, as long as no command touches the key. *)
Theorem Idempotency_replays next next' r r' m m' calls calls' st st' h' :
  rq_Merchant r' = Some m' → m_ID m' = m_ID m → m_ID m ≠ "" →
  request_key r' = request_key r → request_key r ≠ "" →
  let k := idempotencyRedisKey (m_ID m) (request_key r) in
  let h := mkHTTP calls st in
  let x := rc_info (rq_Context r) (h_state (next r h).2) in
  let x' := rc_info (rq_Context r') st' in
  let w := fold_left idempotencyResponseWriter_call (drop (length calls) (h_calls (next r h).2))
             newIdempotencyResponseWriter in
  run_and_store (store_ops s) next r (m_ID m) (request_key r) h = (Returned, h') →
  200 ≤ iw_statusCode w < 300 → clean x.1 → clean x'.1 →
  ci_now x.1 ≤ ci_now x'.1 < ci_now x.1 + idempotencyCompletedTTL →
  entry (rc_get st') (ci_now x'.1) k = entry (rc_get (h_state h')) (ci_now x'.1) k →
  Idempotency (store_ops s) next' r' (mkHTTP calls' st')
  = (Returned, mkHTTP (calls' ++ replay_calls (iw_statusCode w) (iw_buf w))%list (rc_set (rc_get st') x'.2)).
Proof.
  intros Hm Hid Hne Hkey Hkne. cbv zeta. intros Hrun Hcode Hc Hc' Hnow Hsame.
  destruct (run_stored next r (m_ID m) (request_key r) calls st h' Hne Hkne Hrun Hcode Hc) as (hsh & He & Hst).
  eapply Idempotency_stored; [done | by rewrite Hid | by rewrite Hkey | done | done | | done].
  rewrite Hid, Hkey, Hsame, (entry_later _ (ci_now (rc_info (rq_Context r) (h_state (next r (mkHTTP calls st)).2)).1)) by lia.
  rewrite He. simpl. destruct (Z.leb_spec (ci_now (rc_info (rq_Context r) (h_state (next r (mkHTTP calls st)).2)).1 + idempotencyCompletedTTL)
    (ci_now (rc_info (rq_Context r') st').1)); [lia | done].
Qed.
End middleware_laws.

(** ** Concurrent requests with one key *)

Section exclusion.
Context {R : Type} `{!Redis R, !RedisLaws R}.
Variables (s : IdempotencyStore) (mid key : string).
Hypothesis connected : is_client s = true.
Hypothesis mid_ne : mid ≠ "".
Hypothesis key_ne : key ≠ "".
Abbreviation k := (idempotencyRedisKey mid key).

(** The key space, the time, and the starts of the handlers that run under the
    key. *)
Record Runs := mkRuns { rs_redis : R; rs_now : Z; rs_running : list Z }.

(** What a request sees of it: the key space, the time, and the faults of its
    next commands; it succeeds on an empty list. *)
Record Timed := mkTimed { td_redis : R; td_now : Z; td_faults : list Fault }.

#[local] Instance timed_client : RedisClient Timed R := {|
  rc_get := td_redis;
  rc_set r st := mkTimed r (td_now st) (td_faults st);
  rc_info ctx st := (mkCallInfo (td_now st) (ctx_Err ctx (td_now st)) (default NoFault (head (td_faults st))),
                     mkTimed (td_redis st) (td_now st) (tail (td_faults st)))
|}.

#[local] Instance timed_client_laws : RedisClientLaws Timed R.
Proof. by split. Qed.

(** The middleware up to the point where it runs the handler, and what it does
    when a handler has made the calls [cs] and returned or panicked. *)
Definition starts : Handler Timed := λ _, ret (Panicked "starts").
Definition done_with (o : outcome) (cs : list WriterCall) : Handler Timed :=
  λ _ h, (o, mkHTTP (h_calls h ++ cs)%list (h_state h)).

(** A request of the merchant under the key. *)
Definition asks (req : HTTPRequest) : Prop :=
  ∃ m, rq_Merchant req = Some m ∧ m_ID m = mid ∧ request_key req = key.

(** Requests go through the middleware to the point where their handler runs,
    if it does; handlers return or panic, and the middleware stores the response
    or releases the key, or fails to.  Redis answers the checks; handlers end
    before the 60 seconds of the key are over; other clients use other keys. *)
Inductive run_step : Runs → Runs → Prop :=
| run_tick r now now' running :
    now ≤ now' → Forall (λ t, now' < t + idempotencyInProgressTTL) running →
    run_step (mkRuns r now running) (mkRuns r now' running)
| run_check r now running req o h' :
    asks req → ctx_Err (rq_Context req) now = None →
    Idempotency (store_ops s) starts req (mkHTTP [] (mkTimed r now [])) = (o, h') →
    run_step (mkRuns r now running)
      (mkRuns (td_redis (h_state h')) now
         (match o with Panicked _ => now :: running | Returned => running end))
| run_end r now running t running' req o cs faults o' h' :
    running ≡ₚ t :: running' →
    run_and_store (store_ops s) (done_with o cs) req mid key (mkHTTP [] (mkTimed r now faults)) = (o', h') →
    run_step (mkRuns r now running) (mkRuns (td_redis (h_state h')) now running')
| run_other r now running r' :
    entry r' now k = entry r now k →
    run_step (mkRuns r now running) (mkRuns r' now running).

Definition at_time (now : Z) : CallInfo := mkCallInfo now None NoFault.

(** What the middleware does after the check, whatever the handler. *)
Lemma Idempotency_check next req r now :
  asks req → ctx_Err (rq_Context req) now = None →
  Idempotency (store_ops s) next req (mkHTTP [] (mkTimed r now []))
  = let (result, r') := store_Check (at_time now) s mid key r in
    let h := mkHTTP [] (mkTimed r' now []) in
    match result with
    | Err _ => next (keyed req) h
    | Ok result =>
      if bool_decide (ir_Decision result = IdempotencyCompleted) then replay result h
      else if bool_decide (ir_Decision result = IdempotencyInProgress)
      then writeError StatusConflict "IDEMPOTENCY_IN_PROGRESS"
             "request with this idempotency key is already in progress" h
      else run_and_store (store_ops s) next (keyed req) mid key h
    end.
Proof.
  intros (m & Hm & Hid & Hk) Hctx. unfold Idempotency. fold (request_key req).
  rewrite (bool_decide_eq_false_2 (request_key req = "")) by (by rewrite Hk).
  fold (keyed req). destruct (keyed_eq req) as [Ekm Ekc]. unfold GetMerchant.
  rewrite Ekm, Hm, Ekc, Hid, Hk. unfold bind at 1. unfold state at 1. simpl h_state. simpl so_Check.
  rewrite on_redis_eq. simpl. rewrite Hctx. fold (at_time now).
  destruct (store_Check (at_time now) s mid key r) as [[res|e] r']; simpl; [|done]. by repeat case_bool_decide.
Qed.

Lemma Check_answers r now : ∃ res r', store_Check (at_time now) s mid key r = (Ok res, r').
Proof.
  unfold store_Check. rewrite enabled by done. unfold bind. rewrite round_trip_clean by done.
  destruct (idempotency_check _ _ r) as [v r']. by do 2 eexists.
Qed.

(** A request is its two pieces, one after the other. *)
Lemma Idempotency_pieces next req r now :
  asks req → ctx_Err (rq_Context req) now = None →
  Idempotency (store_ops s) next req (mkHTTP [] (mkTimed r now []))
  = match Idempotency (store_ops s) starts req (mkHTTP [] (mkTimed r now [])) with
    | (Returned, h) => (Returned, h)
    | (Panicked _, h) => run_and_store (store_ops s) next (keyed req) mid key h
    end.
Proof.
  intros Ha Hc. rewrite !Idempotency_check by done.
  destruct (Check_answers r now) as (res & r' & ->). case_bool_decide.
  - unfold replay, bind, writer, modify, ret. by destruct (0 <? _)%nat.
  - by case_bool_decide.
Qed.

(** At most one handler runs, and the key is then held for it. *)
Definition runs_ok (x : Runs) : Prop :=
  match rs_running x with
  | [] => True
  | [t] => ∃ h, entry (rs_redis x) (rs_now x) k = Some (h, Some (t + idempotencyInProgressTTL)) ∧ held h
  | _ => False
  end.

Lemma Check_held now r h t :
  entry r now k = Some (h, t) → held h →
  store_Check (at_time now) s mid key r = (Ok (mkIdempotencyResult IdempotencyInProgress 0 ""), r).
Proof.
  intros He Hh. unfold store_Check. rewrite enabled by done. unfold bind.
  rewrite round_trip_clean by done. rewrite check_eq. simpl ci_now. rewrite He. simpl. by rewrite Hh.
Qed.

Lemma Check_proceeds now r res r' :
  store_Check (at_time now) s mid key r = (Ok res, r') →
  ir_Decision res = IdempotencyCompleted ∨ ir_Decision res = IdempotencyInProgress ∨
  ∃ h, entry r' now k = Some (h, Some (now + idempotencyInProgressTTL)) ∧ held h.
Proof.
  unfold store_Check. rewrite enabled by done. unfold bind. rewrite round_trip_clean by done.
  rewrite check_eq. simpl ci_now. cbv zeta. repeat case_bool_decide; simpl; unfold ret; intros [= <- <-].
  - by left.
  - by right; left.
  - right; right. eexists. split; [by apply set_entry|]. unfold held. simpl. by rewrite lookup_insert_eq.
Qed.

(** The check of a held key answers; one that starts the handler holds it. *)
Lemma starts_held req r now h t o h' :
  asks req → ctx_Err (rq_Context req) now = None → entry r now k = Some (h, t) → held h →
  Idempotency (store_ops s) starts req (mkHTTP [] (mkTimed r now [])) = (o, h') →
  o = Returned ∧ td_redis (h_state h') = r.
Proof.
  intros Ha Hc He Hh. rewrite Idempotency_check, (Check_held _ _ _ _ He Hh) by done. by intros [= <- <-].
Qed.

Lemma starts_holds req r now e h' :
  asks req → ctx_Err (rq_Context req) now = None →
  Idempotency (store_ops s) starts req (mkHTTP [] (mkTimed r now [])) = (Panicked e, h') →
  ∃ h, entry (td_redis (h_state h')) now k = Some (h, Some (now + idempotencyInProgressTTL)) ∧ held h.
Proof.
  intros Ha Hc. rewrite Idempotency_check by done. destruct (Check_answers r now) as (res & r' & E).
  rewrite E. destruct (Check_proceeds _ _ _ _ E) as [Hd|[Hd|Hh]].
  - rewrite bool_decide_true by done. unfold replay, bind, writer, modify, ret. by destruct (0 <? _)%nat.
  - rewrite Hd. simpl. by intros [= ?].
  - case_bool_decide; [unfold replay, bind, writer, modify, ret; by destruct (0 <? _)%nat|].
    case_bool_decide; [by intros [= ?]|]. by intros [= _ <-].
Qed.

Lemma run_step_ok x y : run_step x y → runs_ok x → runs_ok y.
Proof.
  destruct 1 as [r now now' running Hle Hend|r now running req o h' Ha Hc Hi|
    r now running t running' req o cs faults o' h' Hp _|r now running r' He]; unfold runs_ok; simpl.
  - destruct running as [|t [|]]; [done| |done]. intros (h & He & Hh). exists h.
    rewrite (entry_later _ now) by done. rewrite He. simpl. apply Forall_inv in Hend.
    by destruct (Z.leb_spec (t + idempotencyInProgressTTL) now'); [lia|].
  - destruct running as [|t [|]]; [| |done].
    + intros _. destruct o as [|e]; [done|]. by eapply starts_holds.
    + intros (h & He & Hh). destruct (starts_held _ _ _ _ _ _ _ Ha Hc He Hh Hi) as [-> ->]. by exists h.
  - destruct running as [|t' [|]]; [by apply Permutation_nil_cons in Hp| |done].
    apply Permutation_singleton_l in Hp. injection Hp as <- <-. done.
  - destruct running as [|t [|]]; [done| |done]. by rewrite He.
Qed.

(** C36 Requests with the same key do not run concurrently, as long as Redis
    answers when the middleware checks the key and every handler ends within
    the 60 seconds for which the key is held: from any state of Redis, however
    the requests of a merchant with one key interleave, whether their handlers
    return or panic, and whether Redis takes the response or the release of
    the key or fails, the middleware runs at most one handler at a time.
    (When the check fails the middleware runs the handler all the same, and
    after the 60 seconds the key is free.) *)
Theorem Idempotency_excludes r now x :
  rtc run_step (mkRuns r now []) x → (length (rs_running x) ≤ 1)%nat.
Proof.
  intros Hx. assert (runs_ok x) as Hok.
  { assert (runs_ok (mkRuns r now [])) as H0 by done. revert H0.
    induction Hx as [|a b c Hab _ IH]; [done|]. intros Ha. by apply IH, (run_step_ok a b). }
  unfold runs_ok in Hok. destruct (rs_running x) as [|t [|]]; simpl; [lia | lia | done].
Qed.
End exclusion.

(** ** Witnesses *)

(** A key space with a clock that counts round trips. *)
#[export] Instance pair_client : RedisClient (KeySpace * Z) KeySpace := {|
  rc_get := fst;
  rc_set r st := (r, st.2);
  rc_info ctx st := (mkCallInfo st.2 (ctx_Err ctx st.2) NoFault, (st.1, st.2 + 1))
|}.

#[export] Instance pair_client_laws : RedisClientLaws (KeySpace * Z) KeySpace.
Proof. by split. Qed.

Definition store0 : IdempotencyStore := mkIdempotencyStore true.
Definition merchant0 : Merchant := mkMerchant "m1" "Shop" "key" 0 "USD" "ACTIVE" 0 0.
Definition post0 : HTTPRequest :=
  mkHTTPRequest "POST" "/api/v1/transactions" ∅ (header_Set "Idempotency-Key" "order-7" ∅) "10.0.0.1:80" ""
    Background None (Some merchant0).

(** A handler that answers, and one that must not run. *)
Definition created : Handler (KeySpace * Z) := λ _,
  let! _ := writer (CallWriteHeader 201) in let! _ := writer (CallWrite "tx_1") in ret Returned.
Definition crashes : Handler (KeySpace * Z) := λ _, ret (Panicked "ran again").

Definition after_created : HTTP (KeySpace * Z) :=
  (run_and_store (store_ops store0) created post0 "m1" "order-7" (mkHTTP [] (∅, 5))).2.

Lemma Idempotency_replays_witness :
  Idempotency (store_ops store0) crashes post0 (mkHTTP [] (h_state after_created))
  = (Returned, mkHTTP (replay_calls 201 "tx_1") ((h_state after_created).1, 7)).
Proof.
  exact (Idempotency_replays store0 eq_refl created crashes post0 post0 merchant0 merchant0 [] [] (∅, 5)
    (h_state after_created) after_created eq_refl eq_refl ltac:(discriminate) eq_refl ltac:(discriminate)
    eq_refl ltac:(vm_compute; split; discriminate || reflexivity) ltac:(by split) ltac:(by split)
    ltac:(vm_compute; split; discriminate || reflexivity) eq_refl).
Defined.

#[local] Existing Instance timed_client.

(** Two requests go through the middleware; the first one runs, the second one
    is refused. *)
Definition after_start : HTTP (Timed (R := KeySpace)) :=
  (Idempotency (store_ops store0) starts post0 (mkHTTP [] (mkTimed (∅ : KeySpace) 1 []))).2.
Definition after_refusal : HTTP (Timed (R := KeySpace)) :=
  (Idempotency (store_ops store0) starts post0 (mkHTTP [] (mkTimed (td_redis (h_state after_start)) 2 []))).2.
Definition two_checks : Runs (R := KeySpace) := mkRuns (td_redis (h_state after_refusal)) 2 [1].

Example two_checks_run :
  Idempotency (store_ops store0) starts post0 (mkHTTP [] (mkTimed (∅ : KeySpace) 1 []))
    = (Panicked "starts", after_start) ∧
  Idempotency (store_ops store0) starts post0 (mkHTTP [] (mkTimed (td_redis (h_state after_start)) 2 []))
    = (Returned, after_refusal) ∧
  status_of (h_calls after_refusal) = StatusConflict.
Proof.
  assert (∀ {A B} (x : A * B) a, x.1 = a → x = (a, x.2)) as Hpair by (by intros A B [x y] a <-).
  split_and!; [apply Hpair | apply Hpair |]; vm_compute; reflexivity.
Qed.

Lemma Idempotency_excludes_witness : (length (rs_running two_checks) ≤ 1)%nat.
Proof.
  assert (asks "m1" "order-7" post0) as Ha by (exists merchant0; by split_and!).
  destruct two_checks_run as (E1 & E2 & _).
  apply (Idempotency_excludes store0 "m1" "order-7" eq_refl ltac:(discriminate) ltac:(discriminate) (∅ : KeySpace) 1).
  eapply rtc_l; [exact (run_check store0 "m1" "order-7" ∅ 1 [] post0 _ _ Ha eq_refl E1)|].
  eapply rtc_l; [apply (run_tick _ _ _ _ 1 2); [lia | by repeat constructor]|].
  eapply rtc_l; [exact (run_check store0 "m1" "order-7" _ 2 [1] post0 _ _ Ha eq_refl E2) | apply rtc_refl].
Defined.

(** Without Redis the middleware lets requests through: the handler runs
    although the key is held. *)
Example excludes_needs_redis :
  (Idempotency (store_ops store0) starts post0
     (mkHTTP [] (mkTimed (td_redis (h_state after_start)) 2 [FailBefore (Opaque "connection refused")]))).1
  = Panicked "starts".
Proof. vm_compute. reflexivity. Qed.
