(* ===== verification/RedisLimiter.v ===== *)
(** * RedisLimiter: the rate limiter of internal/middleware/redis_rate_limiter.go

    The Lua script rate_limit.lua over the commands of [Redis], and the limiter
    that runs it.  The conversions between numbers and the strings that Redis
    stores are parameters. *)

From stdpp Require Import base tactics list gmap strings.
From S2P Require Import Prelude GoLib Float64 Repository RateLimit Redis.

Open Scope string_scope.
Open Scope Z_scope.

(* go: internal/middleware/redis_rate_limiter.go rateLimitRedisKey *)
Definition rateLimitRedisKey (clientID : string) : string := "rate_limit:{" +:+ clientID +:+ "}".

(** A nil receiver or a nil client is [rr_client = false]. *)
(* go: internal/middleware/redis_rate_limiter.go 14-19 *)
Record RedisRateLimiter := mkRedisRateLimiter { rr_client : bool; rr_rate : float64; rr_burst : float64 }.

(* go: internal/middleware/redis_rate_limiter.go NewRedisRateLimiter *)
Definition NewRedisRateLimiter (client : bool) (rate burst : float64) : RedisRateLimiter :=
  mkRedisRateLimiter client rate burst.

Section limiter.
Context {R : Type} `{!Redis R}.

(** How a number becomes an argument, and [tonumber]. *)
Variable tostring : float64 → string.
Variable tonumber : string → option float64.

(** [TIME]: seconds and microseconds. *)
Definition redis_time (now : Z) : float64 :=
  fadd (of_int (now / Second)) (fdiv (of_int ((now mod Second) / 1000)) (of_int 1000000)).

(** The refill of rate_limit.lua *)
Definition script_tokens (rate burst : float64) (now : float64) (b : option (float64 * float64)) : float64 :=
  match b with
  | None => burst
  | Some (tokens, last) =>
    let elapsed := fsub now last in
    if 0 <? elapsed then
      let tokens := fadd tokens (fmul elapsed rate) in
      if burst <? tokens then burst else tokens
    else tokens
  end.

(** rate_limit.lua *)
Definition rate_limit (t : Z) (key : string) (rate burst : float64) : Prog R Z := λ r,
  let now := redis_time t in
  let num i := match HMGET t key ["tokens"; "last"] r !! i with
               | Some (Some v) => tonumber v
               | _ => None
               end in
  let bucket := match num 0%nat, num 1%nat with
                | Some tokens, Some last => Some (tokens, last)
                | _, _ => None
                end in
  let tokens := script_tokens rate burst now bucket in
  let allowed := one <=? tokens in
  let tokens := if allowed then fsub tokens one else tokens in
  (if allowed then 1 else 0,
   EXPIRE t key (60 * Second) (HSET t key [("tokens", tostring tokens); ("last", tostring now)] r)).

(** An error of Redis lets the request pass. *)
(* go: internal/middleware/redis_rate_limiter.go RedisRateLimiter.Allow *)
Definition RedisRateLimiter_Allow (rl : RedisRateLimiter) (ci : CallInfo) (key : string) : Prog R (bool * error) :=
  if negb (rr_client rl) then ret (true, None)
  else
    try! res := round_trip ci (rate_limit (ci_now ci) (rateLimitRedisKey key) (rr_rate rl) (rr_burst rl))
      or _ => ret (true, None);
    ret (res =? 1, None).

(** The limiter never fails, and only a script that ran can deny a request. *)
Lemma RedisRateLimiter_fails_open rl ci key r a r' :
  RedisRateLimiter_Allow rl ci key r = (a, r') →
  a.2 = None ∧ (a.1 = false → rr_client rl = true ∧ clean ci ∧
    (rate_limit (ci_now ci) (rateLimitRedisKey key) (rr_rate rl) (rr_burst rl) r).1 = 0).
Proof.
  unfold RedisRateLimiter_Allow. destruct (rr_client rl) eqn:E; simpl; [|by intros [= <- <-]].
  unfold bind. destruct (round_trip _ _ r) as [x r1] eqn:Er.
  apply round_trip_cases in Er as [(-> & _ & Hc)|(Hx & _ & _)].
  - unfold ret. intros [= <- <-]. split; [done|]. simpl. intros Hf. split_and!; [done..|].
    unfold rate_limit in *. simpl in *. by destruct (one <=? _).
  - destruct x; [done|]. by intros [= <- <-].
Qed.
End limiter.
