(* ===== verification/RedisClock.v ===== *)
(** * RedisClock: the clock of rate_limit.lua as a float

    [TIME] gives seconds and microseconds, which the script adds up as a
    double: monotone, and within ten microseconds of the clock. *)

From stdpp Require Import base tactics list gmap strings.
From S2P Require Import Prelude GoLib Float64 Repository RateLimit Redis RedisLimiter.

Open Scope Z_scope.

Definition micros (us : Z) : float64 := fdiv (of_int us) (of_int 1000000).

Lemma micros_eq us : 0 ≤ us ≤ 1000000 → micros us = round (us * one * one) (1000000 * one).
Proof. intros Hu. unfold micros, fdiv. by rewrite !of_int_exact by lia. Qed.

Lemma micros_mono us us' : 0 ≤ us ≤ us' → us' ≤ 1000000 → micros us ≤ micros us'.
Proof.
  intros Hu Hu'. rewrite !micros_eq by lia. pose proof one_pos. apply round_mono; [lia | nia |].
  apply Z.mul_le_mono_nonneg_r; [lia|]. apply Z.mul_le_mono_nonneg_r; lia.
Qed.

Lemma micros_full : micros 1000000 = one.
Proof. vm_compute. reflexivity. Qed.

Lemma micros_bounds us : 0 ≤ us ≤ 1000000 → 0 ≤ micros us ≤ one.
Proof.
  intros Hu. rewrite <- micros_full. split; [|apply micros_mono; lia].
  rewrite micros_eq by lia. pose proof one_pos. apply round_nonneg; nia.
Qed.

Lemma micros_error us :
  0 ≤ us ≤ 1000000 → - (1000000 * one) ≤ 2 ^ 52 * (1000000 * micros us - us * one) ≤ 1000000 * one.
Proof.
  intros Hu. rewrite micros_eq by lia. pose proof one_large as Hone. pose proof one_pos as Hp.
  pose proof (round_error (us * one * one) (1000000 * one) ltac:(lia) ltac:(nia)) as He.
  set (z := round _ _) in *. clearbody z.
  assert (- (us * one + 2 ^ 52 * 1000000) ≤ 2 ^ 53 * (1000000 * z - us * one) ≤ us * one + 2 ^ 52 * 1000000) as H.
  { replace (z * (1000000 * one) - us * one * one) with ((1000000 * z - us * one) * one) in He by lia. nia. }
  clear He. change (2 ^ 200) with (2 ^ 80 * 2 ^ 120) in Hone.
  assert (us * one ≤ 1000000 * one) by nia. lia.
Qed.

(** [TIME] splits the clock into seconds and microseconds. *)
Lemma redis_time_eq t : redis_time t = fadd (of_int (t / Second)) (micros (t mod Second / 1000)).
Proof. done. Qed.

Lemma clock_parts t :
  0 ≤ t ≤ max_int64 → 0 ≤ t / Second < 2 ^ 34 ∧ 0 ≤ t mod Second / 1000 < 1000000 ∧
  1000 * (t mod Second / 1000) ≤ t - Second * (t / Second) < 1000 * (t mod Second / 1000) + 1000.
Proof.
  intros Ht. unfold max_int64, Second in *. 
  pose proof (Z.div_mod t 1000000000 ltac:(lia)). pose proof (Z.mod_pos_bound t 1000000000 ltac:(lia)).
  pose proof (Z.div_mod (t mod 1000000000) 1000 ltac:(lia)). pose proof (Z.mod_pos_bound (t mod 1000000000) 1000 ltac:(lia)).
  lia.
Qed.

(** The clock as a float is off by less than ten microseconds. *)
Lemma redis_time_error t :
  0 ≤ t ≤ max_int64 → (t - 10000) * one ≤ Second * redis_time t ≤ (t + 10000) * one.
Proof.
  intros Ht. rewrite redis_time_eq. destruct (clock_parts t Ht) as (Hs & Hu & Hr).
  set (S := t / Second) in *. set (us := t mod Second / 1000) in *. clearbody S us.
  rewrite of_int_exact by lia. pose proof (micros_error us ltac:(lia)) as Hm.
  pose proof (micros_bounds us ltac:(lia)) as Hm'. pose proof one_large as Hone.
  unfold fadd. pose proof (round_error (S * one + micros us) 1 ltac:(lia) ltac:(nia)) as He.
  set (z := round _ _) in *. clearbody z. set (m := micros us) in *. clearbody m.
  rewrite !Z.mul_1_r in He. unfold Second in *.
  assert (0 ≤ S * one ≤ 2 ^ 34 * one) as HS by nia.
  assert ((1000000000 * S + 1000 * us) * one ≤ t * one ≤ (1000000000 * S + 1000 * us + 1000) * one) as HT by nia.
  change (2 ^ 200) with (2 ^ 80 * 2 ^ 120) in Hone.
  rewrite !Z.mul_add_distr_r, <- !Z.mul_assoc in HT.
  set (A := S * one) in *. set (U := us * one) in *. set (T := t * one) in *.
  rewrite Z.mul_sub_distr_r, Z.mul_add_distr_r. fold T. clearbody A U T.
  generalize dependent one. intros one. intros. lia.
Qed.

Lemma redis_time_mono t t' : 0 ≤ t ≤ t' → t' ≤ max_int64 → redis_time t ≤ redis_time t'.
Proof.
  intros Ht Ht'. rewrite !redis_time_eq.
  destruct (clock_parts t ltac:(lia)) as (Hs & Hu & Hr), (clock_parts t' ltac:(lia)) as (Hs' & Hu' & Hr').
  set (S := t / Second) in *. set (us := t mod Second / 1000) in *.
  set (S' := t' / Second) in *. set (us' := t' mod Second / 1000) in *.
  assert (S < S' ∨ (S = S' ∧ us ≤ us')) as Hord by (clearbody S us S' us'; unfold Second in *; lia).
  rewrite !of_int_exact by lia. pose proof (micros_bounds us ltac:(lia)). pose proof (micros_bounds us' ltac:(lia)).
  pose proof one_pos. unfold fadd. apply round_mono; [lia | nia |].
  destruct Hord as [Hlt|[-> Hle]]; [nia|]. pose proof (micros_mono us us'). lia.
Qed.

Lemma redis_time_rep t : 0 ≤ t ≤ max_int64 → rep (redis_time t) ∧ 0 ≤ redis_time t.
Proof.
  intros Ht. rewrite redis_time_eq. split; [by apply round_rep|].
  destruct (clock_parts t Ht) as (Hs & Hu & _). rewrite of_int_exact by lia.
  pose proof (micros_bounds (t mod Second / 1000) ltac:(lia)). pose proof one_pos.
  apply round_nonneg; nia.
Qed.

(** ** The refill of the script *)

Section script.
Variables rate burst : Z.
Hypothesis rate_ok : 0 ≤ rate ≤ 2 ^ 53.
Hypothesis burst_ok : 0 ≤ burst ≤ 2 ^ 53.
Implicit Types b : bucket.

(** A check of the script on a bucket that never expires. *)
Definition script_refill (now : Z) b : float64 :=
  script_tokens (of_int rate) (of_int burst) (redis_time now)
    (Some (b_tokens b, redis_time (b_lastCheck b))).

Definition script_check (now : Z) b : bool * bucket :=
  let tokens := script_refill now b in
  if one <=? tokens then (true, mkBucket (fsub tokens one) now) else (false, mkBucket tokens now).

(** What the time between two checks adds. *)
Definition script_gain (d : Z) : float64 := fmul (round d 1) (of_int rate).

Lemma script_gain_bounds d :
  0 ≤ d → 0 ≤ script_gain d ∧
  (2 ^ 50 - 1) * (rate * d) - 2 ^ 110 ≤ 2 ^ 50 * script_gain d ≤ (2 ^ 50 + 1) * (rate * d) + 2 ^ 110.
Proof.
  intros Hd. unfold script_gain. rewrite of_int_exact by lia. pose proof one_pos.
  pose proof (round_error d 1 ltac:(lia) Hd) as He. pose proof (round_nonneg d 1 ltac:(lia) Hd) as Hr.
  rewrite !Z.mul_1_r in He. set (e := round d 1) in *. clearbody e.
  pose proof (fmul_error e rate Hr ltac:(lia)) as Hm. split.
  { unfold fmul. apply round_nonneg; [done|]. nia. }
  set (g := fmul _ _) in *. clearbody g.
  assert (rate * - (d + 2 ^ 52) ≤ rate * (2 ^ 53 * (e - d)) ≤ rate * (d + 2 ^ 52)) as He' by nia.
  assert (0 ≤ rate * d) by nia.
  replace (rate * (2 ^ 53 * (e - d))) with (2 ^ 53 * (e * rate) - 2 ^ 53 * (rate * d)) in He' by lia.
  set (X := rate * d) in *. set (Y := e * rate) in *.
  replace (rate * (d + 2 ^ 52)) with (X + rate * 2 ^ 52) in He' by (unfold X; lia).
  replace (rate * - (d + 2 ^ 52)) with (- (X + rate * 2 ^ 52)) in He' by (unfold X; lia).
  clearbody X Y. lia.
Qed.

Lemma script_refill_eq now b :
  bucket_ok burst b → 0 ≤ b_lastCheck b ≤ now → now ≤ max_int64 →
  script_refill now b
  = Z.min (burst * one) (fadd (b_tokens b) (script_gain (redis_time now - redis_time (b_lastCheck b)))).
Proof.
  intros [Hrep Hb] Hlast Hnow. unfold script_refill, script_tokens, script_gain, fsub.
  pose proof (redis_time_mono (b_lastCheck b) now Hlast Hnow) as Hm.
  set (d := redis_time now - redis_time (b_lastCheck b)).
  pose proof (round_nonneg d 1 ltac:(lia) ltac:(lia)) as Hr. rewrite (of_int_exact burst) by lia.
  destruct (Z.ltb_spec 0 (round d 1)) as [Hpos|Hz].
  - destruct (Z.ltb_spec (burst * one) (fadd (b_tokens b) (fmul (round d 1) (of_int rate)))); lia.
  - assert (round d 1 = 0) as -> by lia. unfold fmul. rewrite Z.mul_0_l, round_zero, fadd_zero; [lia | done | apply one_pos].
Qed.

Lemma script_refill_bounds now b :
  bucket_ok burst b → 0 ≤ b_lastCheck b ≤ now → now ≤ max_int64 →
  let t := script_refill now b in
  rep t ∧ b_tokens b ≤ t ≤ burst * one ∧
  2 ^ 50 * t ≤ 2 ^ 50 * b_tokens b
    + (2 ^ 50 + 1) * rate * (redis_time now - redis_time (b_lastCheck b)) + burst * one.
Proof.
  intros Hb Hlast Hnow. cbv zeta. rewrite script_refill_eq by done. destruct Hb as [Hrep Hb].
  pose proof (redis_time_mono (b_lastCheck b) now Hlast Hnow) as Hm.
  set (d := redis_time now - redis_time (b_lastCheck b)) in *.
  destruct (script_gain_bounds d ltac:(lia)) as [Hg [_ Hup]].
  set (g := script_gain d) in *. clearbody g.
  pose proof (fadd_error (b_tokens b) g ltac:(lia) Hg) as He.
  pose proof (fadd_ge (b_tokens b) g Hrep ltac:(lia) Hg) as Hge. pose proof one_large as Hone.
  split_and!; [| lia | lia |].
  - destruct (Z.min_spec (burst * one) (fadd (b_tokens b) g)) as [[_ ->]|[_ ->]];
      [apply rep_int; lia | by apply round_rep].
  - assert (burst = 0 ∨ one ≤ burst * one) as HB by nia.
    replace ((2 ^ 50 + 1) * rate * d) with ((2 ^ 50 + 1) * (rate * d)) by lia.
    assert (0 ≤ rate * d) by nia. set (X := rate * d) in *. clearbody X.
    set (B := burst * one) in *. destruct HB as [HB|HB].
    + assert (B = 0) by (unfold B; by rewrite HB). lia.
    + clearbody B. change (2 ^ 200) with (2 ^ 120 * 2 ^ 80) in Hone. lia.
Qed.

(** A minute refills a bucket that holds at most 59 seconds of tokens. *)
Lemma script_refill_minute now b :
  bucket_ok burst b → 0 ≤ b_lastCheck b → b_lastCheck b + 60 * Second ≤ now → now ≤ max_int64 →
  burst ≤ 59 * rate → script_refill now b = of_int burst.
Proof.
  intros Hb Hl Hmin Hnow Hrate. rewrite script_refill_eq, of_int_exact by (done || unfold Second in *; lia).
  destruct Hb as [Hrep Hb]. apply Z.min_l.
  pose proof (redis_time_error now ltac:(unfold Second in *; lia)) as H1.
  pose proof (redis_time_error (b_lastCheck b) ltac:(unfold Second in *; lia)) as H2.
  set (d := redis_time now - redis_time (b_lastCheck b)) in *. pose proof one_large as Hone. pose proof one_pos.
  assert ((60 * Second - 20000) * one ≤ Second * d) as Hd by (unfold d, Second in *; nia).
  assert (0 ≤ d) as Hd0 by (unfold Second in *; nia).
  destruct (script_gain_bounds d Hd0) as [Hg [Hlow _]]. set (g := script_gain d) in *. clearbody g d.
  assert (0 ≤ b_tokens b) as Ht by lia. revert Ht. generalize (b_tokens b). intros t Ht.
  assert (burst * one ≤ t + g) as Hsum.
  { destruct (decide (rate = 0)) as [->|Hr0]; [nia|].
    assert (rate * ((60 * Second - 20000) * one) ≤ rate * (Second * d)) as Hrd by nia.
    assert (burst * one ≤ 59 * (rate * one)) as Hbr by nia.
    assert (one ≤ rate * one) as Hro by nia.
    replace (rate * ((60 * Second - 20000) * one)) with ((60 * Second - 20000) * (rate * one)) in Hrd by lia.
    replace (rate * (Second * d)) with (Second * (rate * d)) in Hrd by lia.
    set (X := rate * d) in *. set (Y := rate * one) in *. set (B := burst * one) in *. clearbody X Y B.
    change (2 ^ 200) with (2 ^ 120 * 2 ^ 80) in Hone. unfold Second in *. lia. }
  unfold fadd. rewrite <- (round_id (burst * one)) by (apply rep_int; lia). apply round_mono; [lia | nia | done].
Qed.

(** A check takes exactly one token, or none is there. *)
Lemma script_check_spec now b :
  bucket_ok burst b → 0 ≤ b_lastCheck b ≤ now → now ≤ max_int64 →
  bucket_ok burst (script_check now b).2 ∧ b_lastCheck (script_check now b).2 = now ∧
  b_tokens (script_check now b).2 + Z.b2z (script_check now b).1 * one = script_refill now b.
Proof.
  intros Hb Hlast Hnow. destruct (script_refill_bounds now b Hb Hlast Hnow) as (Hrep & Ht & _).
  cbv zeta in *. unfold script_check. destruct Hb as [_ Hb0].
  set (t := script_refill now b) in *. pose proof one_pos.
  destruct (Z.leb_spec one t) as [Hge|Hlt]; simpl.
  - destruct (fsub_one t Hrep) as [Heq Hrep']; [nia|]. rewrite Heq.
    split_and!; [split; simpl; [done | lia] | done | lia].
  - split_and!; [split; simpl; [done | lia] | done | lia].
Qed.

(** The requests that pass in a run of checks. *)
Lemma script_run_bound t ts b :
  bucket_ok burst b → 0 ≤ b_lastCheck b ≤ t → later t ts → Forall (λ t, t ≤ max_int64) (t :: ts) →
  2 ^ 50 * Second * allowed (check_run script_check (t :: ts) b).1 ≤
    2 ^ 50 * Second * burst + (2 ^ 50 + 1) * (rate * (last_time t ts - t + 20000))
    + Z.of_nat (length ts) * (Second * burst).
Proof.
  intros Hb Hlast Hl Hmax. apply Forall_cons in Hmax as [Ht Hmax]. pose proof one_pos as Hone.
  destruct (script_check_spec t b Hb Hlast Ht) as (Hb' & El & Heq).
  destruct (script_refill_bounds t b Hb Hlast Ht) as (_ & Hcap & _). cbv zeta in *.
  rewrite check_run_cons. simpl fst. rewrite allowed_cons.
  set (timely t := 0 ≤ t ≤ max_int64).
  assert (0 ≤ t) as Ht0 by lia.
  assert (Forall timely ts) as Hts.
  { clear -Ht0 Hl Hmax. revert t Ht0 Hl. induction Hmax as [|u us Hu _ IH]; intros t Ht0; [by constructor|].
    intros [Htu Hl]. constructor; [split; lia|]. apply (IH u); [lia | done]. }
  pose proof (check_run_bound script_check burst (2 ^ 50) ((2 ^ 50 + 1) * rate) (burst * one) redis_time timely) as Hrun.
  specialize (Hrun ltac:(intros t' b' Hb1 [? _] [_ ?] ?;
    destruct (script_check_spec t' b' Hb1 ltac:(lia) ltac:(lia)) as (? & ? & E);
    destruct (script_refill_bounds t' b' Hb1 ltac:(lia) ltac:(lia)) as (_ & _ & ?);
    unfold pays; cbv zeta; rewrite E; done) ltac:(done) ts _ Hb').
  rewrite El in Hrun. specialize (Hrun ltac:(done) Hts Hl).
  assert (timely (last_time t ts)) as [Hl0 Hlm].
  { clear -Ht0 Ht Hts. revert t Ht0 Ht. induction Hts as [|u us [Hu Hu'] _ IH]; intros t Ht0 Ht; [done|]. by apply IH. }
  pose proof (redis_time_error t ltac:(lia)) as H1. pose proof (redis_time_error (last_time t ts) ltac:(lia)) as H2.
  set (D := redis_time (last_time t ts) - redis_time t) in *.
  assert (Second * D ≤ (last_time t ts - t + 20000) * one) as HD by (unfold D, Second in *; nia). clearbody D.
  set (T := last_time t ts - t + 20000) in *. clearbody T.
  set (A := allowed _) in *. clearbody A. set (a := Z.b2z _) in *. clearbody a.
  set (n := Z.of_nat (length ts)) in *. clearbody n.
  assert (rate * (Second * D) ≤ rate * T * one) as HR by nia.
  assert ((2 ^ 50 * Second * (a + A)) * one ≤
    (2 ^ 50 * Second * burst + (2 ^ 50 + 1) * (rate * T) + n * (Second * burst)) * one); [|nia].
  set (r := b_tokens (script_check t b).2) in *. clearbody r.
  replace (rate * (Second * D)) with (Second * (rate * D)) in HR by lia.
  replace ((2 ^ 50 + 1) * rate * D) with ((2 ^ 50 + 1) * (rate * D)) in Hrun by lia.
  set (P := rate * D) in *. clearbody P. set (Q := rate * T) in *. clearbody Q.
  set (N := n * (burst * one)) in *. replace (n * (Second * burst)) with (Second * n * burst) by lia.
  assert (N = n * burst * one) as HN by (unfold N; lia). clearbody N. unfold Second in *.
  nia.
Qed.
End script.
