(* ===== verification/RedisBuckets.v ===== *)
(** * RedisBuckets: what the limiter in Redis guarantees

    The hash that rate_limit.lua keeps for a client is a token bucket.  It
    expires a minute after its last check; for a burst of at most 59 seconds
    of tokens that changes no answer, and the limiter keeps its rate. *)

From stdpp Require Import base tactics list gmap strings.
From Stdlib Require Import Ascii.
From S2P Require Import Prelude GoLib Float64 Repository RateLimit Redis RedisLimiter RedisClock.

Open Scope string_scope.
Open Scope Z_scope.

Section buckets.
Context {R : Type} `{!Redis R, !RedisLaws R}.
Variable tostring : float64 → string.
Variable tonumber : string → option float64.

(** Redis writes the numbers of a script with 17 significant digits, which
    identify a double. *)
Hypothesis tonumber_tostring : ∀ x, rep x → 0 ≤ x → tonumber (tostring x) = Some x.

Variables rate burst : Z.
Hypothesis rate_ok : 0 ≤ rate ≤ 2 ^ 53.
Hypothesis burst_ok : 0 ≤ burst ≤ 2 ^ 53.
Hypothesis burst_minute : burst ≤ 59 * rate.

Abbreviation limiter := (NewRedisRateLimiter true (of_int rate) (of_int burst)).

(** Checks of several clients, each one round trip that does not fail. *)
Fixpoint redis_all (calls : list (Z * string)) : Prog R (list bool) :=
  match calls with
  | [] => ret []
  | (now, key) :: calls =>
    let! r := RedisRateLimiter_Allow tostring tonumber limiter (mkCallInfo now None NoFault) key in
    let! rs := redis_all calls in
    ret (r.1 :: rs)
  end.

(** The bucket of a client: none yet, or [b], in a hash that lives for a minute
    after the last check. *)
Record bucket_at (r : R) (now : Z) (key : string) (b : bucket) : Prop := {
  ba_ok : bucket_ok burst b;
  ba_last : 0 ≤ b_lastCheck b ≤ now;
  ba_entry : now < b_lastCheck b + 60 * Second → ∃ h,
    entry r now (rateLimitRedisKey key) = Some (h, Some (b_lastCheck b + 60 * Second)) ∧
    h !! "tokens" = Some (tostring (b_tokens b)) ∧
    h !! "last" = Some (tostring (redis_time (b_lastCheck b)));
  ba_expired : b_lastCheck b + 60 * Second ≤ now → entry r now (rateLimitRedisKey key) = None
}.

Definition bucket_of (r : R) (now : Z) (key : string) (o : option bucket) : Prop :=
  match o with Some b => bucket_at r now key b | None => entry r now (rateLimitRedisKey key) = None end.

(** The bucket a check starts from. *)
Definition start_from (now : Z) (o : option bucket) : bucket := default (mkBucket (of_int burst) now) o.

Lemma append_char_inj c k : ∀ k', k +:+ String c "" = k' +:+ String c "" → k = k'.
Proof.
  induction k as [|a k IH]; intros [|a' k'] E; simpl in E; [done| | |].
  - injection E as _ E. by destruct k'.
  - injection E as _ E. by destruct k.
  - injection E as -> E. f_equal. by apply IH.
Qed.

Lemma key_inj k k' : rateLimitRedisKey k = rateLimitRedisKey k' → k = k'.
Proof.
  unfold rateLimitRedisKey. intros E. apply (inj (String.append "rate_limit:{")) in E.
  by apply append_char_inj in E.
Qed.

(** A bucket stays as time goes by. *)
Lemma bucket_of_later r now now' key o : now ≤ now' → bucket_of r now key o → bucket_of r now' key o.
Proof.
  intros Hle. destruct o as [b|]; simpl; [|by intros H; rewrite (entry_later _ now), H].
  intros [Hok Hl He Hx].
  assert (b_lastCheck b + 60 * Second ≤ now' → entry r now' (rateLimitRedisKey key) = None) as Hx'.
  { intros Hn. rewrite (entry_later _ now) by done. destruct (Z.le_gt_cases (b_lastCheck b + 60 * Second) now) as [Hn'|Hn'].
    - by rewrite Hx.
    - destruct (He Hn') as (h & -> & _). simpl. by destruct (Z.leb_spec (b_lastCheck b + 60 * Second) now'); [|lia]. }
  split; [done | lia | | exact Hx'].
  intros Hn. destruct (He ltac:(lia)) as (h & E & Ht & Hla). exists h. split; [|done].
  rewrite (entry_later _ now), E by done. simpl. by destruct (Z.leb_spec (b_lastCheck b + 60 * Second) now'); [lia|].
Qed.

(** The refill of the script from what the store has. *)
Lemma start_tokens r now key o :
  0 ≤ now ≤ max_int64 → bucket_of r now key o →
  let e := fields (entry r now (rateLimitRedisKey key)) in
  script_tokens (of_int rate) (of_int burst) (redis_time now)
    (match (match e !! "tokens" with Some v => tonumber v | None => None end),
           (match e !! "last" with Some v => tonumber v | None => None end) with
     | Some tokens, Some last => Some (tokens, last)
     | _, _ => None
     end) = script_refill rate burst now (start_from now o).
Proof.
  intros Hnow Ho. cbv zeta.
  assert (script_refill rate burst now (mkBucket (of_int burst) now) = of_int burst) as Hfull.
  { unfold script_refill, script_tokens. simpl. unfold fsub. rewrite Z.sub_diag, round_zero by done. done. }
  destruct o as [b|]; simpl in Ho |- *; [|rewrite Ho; cbn [fields]; by rewrite !lookup_empty, Hfull].
  destruct Ho as [[Hrep Hrange] Hl He Hx].
  destruct (Z.le_gt_cases (b_lastCheck b + 60 * Second) now) as [Hn|Hn].
  - rewrite Hx by done. cbn [fields]. rewrite !lookup_empty. symmetry.
    apply script_refill_minute; [done..| by split | lia | lia | lia | done].
  - destruct (He Hn) as (h & -> & Et & El). cbn [fields]. rewrite Et, El.
    destruct (redis_time_rep (b_lastCheck b)) as [? ?]; [lia|].
    rewrite (tonumber_tostring (b_tokens b)) by (done || lia).
    by rewrite tonumber_tostring.
Qed.

(** The script, with the effect of its commands. *)
Lemma rate_limit_eq t k r :
  rate_limit tostring tonumber t k (of_int rate) (of_int burst) r =
  let e := fields (entry r t k) in
  let tokens := script_tokens (of_int rate) (of_int burst) (redis_time t)
    (match (match e !! "tokens" with Some v => tonumber v | None => None end),
           (match e !! "last" with Some v => tonumber v | None => None end) with
     | Some tokens, Some last => Some (tokens, last)
     | _, _ => None
     end) in
  let left := if one <=? tokens then fsub tokens one else tokens in
  (if one <=? tokens then 1 else 0,
   EXPIRE t k (60 * Second) (HSET t k [("tokens", tostring left); ("last", tostring (redis_time t))] r)).
Proof.
  unfold rate_limit. cbv zeta. rewrite HMGET_spec. cbn [map lookup list_lookup].
  by destruct (fields (entry r t k) !! "tokens"), (fields (entry r t k) !! "last").
Qed.

(** One check of a client. *)
Lemma Allow_bucket r now key o :
  0 ≤ now ≤ max_int64 → bucket_of r now key o →
  let c := script_check rate burst now (start_from now o) in
  ∃ r', RedisRateLimiter_Allow tostring tonumber limiter (mkCallInfo now None NoFault) key r = ((c.1, None), r') ∧
    bucket_of r' now key (Some c.2) ∧
    ∀ key', key' ≠ key → entry r' now (rateLimitRedisKey key') = entry r now (rateLimitRedisKey key').
Proof.
  intros Hnow Ho. cbv zeta.
  assert (bucket_ok burst (start_from now o) ∧ 0 ≤ b_lastCheck (start_from now o) ≤ now) as [Hs Hls].
  { destruct o as [b|]; simpl; [by destruct Ho|]. split; [by apply full_bucket_ok | lia]. }
  destruct (script_check_spec rate burst rate_ok burst_ok now _ Hs Hls ltac:(lia)) as (Hok & Hlast & _).
  pose proof (start_tokens r now key o Hnow Ho) as Ht. cbv zeta in Ht.
  unfold RedisRateLimiter_Allow. cbn [rr_client NewRedisRateLimiter negb rr_rate rr_burst ci_now].
  unfold bind. rewrite round_trip_clean by done. rewrite rate_limit_eq. cbv zeta. rewrite Ht. cbn [fst snd].
  unfold script_check in *. set (tokens := script_refill rate burst now (start_from now o)) in *.
  set (left := if one <=? tokens then fsub tokens one else tokens).
  assert (bucket_ok burst (mkBucket left now) ∧
    (if one <=? tokens then (true, mkBucket (fsub tokens one) now) else (false, mkBucket tokens now))
    = (one <=? tokens, mkBucket left now)) as [Hok' E].
  { unfold left. by destruct (one <=? tokens). }
  rewrite E. eexists. split; [by destruct (one <=? tokens)|]. cbn [snd].
  set (k := rateLimitRedisKey key). set (kvs := [("tokens", tostring left); ("last", tostring (redis_time now))]).
  assert (entry (EXPIRE now k (60 * Second) (HSET now k kvs r)) now k =
    Some (hset_all kvs (fields (entry r now k)), Some (now + 60 * Second))) as Hent
    by by rewrite EXPIRE_same, HSET_same.
  split.
  - split; cbn [b_lastCheck b_tokens]; [exact Hok' | lia | | unfold Second; lia]. intros _. eexists.
    split; [exact Hent|]. unfold kvs. cbn [hset_all].
    split; [by rewrite lookup_insert_ne, lookup_insert_eq | by rewrite lookup_insert_eq].
  - intros key' Hne. assert (k ≠ rateLimitRedisKey key') by (intros ?%key_inj; congruence).
    by rewrite EXPIRE_other, HSET_other.
Qed.

(** *** Histories *)

Lemma redis_all_cons now key calls r x r' :
  RedisRateLimiter_Allow tostring tonumber limiter (mkCallInfo now None NoFault) key r = (x, r') →
  redis_all ((now, key) :: calls) r = (x.1 :: (redis_all calls r').1, (redis_all calls r').2).
Proof. intros E. simpl. unfold bind, ret. rewrite E. by destruct (redis_all calls r'). Qed.

(** One check, with the buckets of all clients. *)
Lemma Allow_buckets r now key B :
  0 ≤ now ≤ max_int64 → (∀ k, bucket_of r now k (B k)) →
  let c := script_check rate burst now (start_from now (B key)) in
  ∃ r', RedisRateLimiter_Allow tostring tonumber limiter (mkCallInfo now None NoFault) key r = ((c.1, None), r') ∧
    ∀ k, bucket_of r' now k (if decide (k = key) then Some c.2 else B k).
Proof.
  intros Hnow HB. destruct (Allow_bucket r now key (B key) Hnow (HB key)) as (r' & E & Hb & Hoth).
  exists r'. split; [exact E|]. intros k. destruct (decide (k = key)) as [->|Hne]; [exact Hb|].
  specialize (HB k). specialize (Hoth k Hne). destruct (B k) as [b|]; simpl in *; [|by rewrite Hoth].
  destruct HB as [? ? He Hx]. split; [done..| |]; by rewrite Hoth.
Qed.

(** What a client gets is what its own bucket gives, which never expires. *)
Lemma redis_all_client key calls : ∀ r now B,
  0 ≤ now → later now (map fst calls) → Forall (λ t, t ≤ max_int64) (map fst calls) →
  (∀ k, bucket_of r now k (B k)) →
  answers key calls (redis_all calls r).1 =
    (check_run (script_check rate burst) (times key calls)
       (start_from (default 0 (head (times key calls))) (B key))).1 ∧
  ∃ B', ∀ k, bucket_of (redis_all calls r).2 (last_time now (map fst calls)) k (B' k).
Proof.
  induction calls as [|[t key'] calls IH]; intros r now B Hnow Hl Hmax HB; [split; [done | by exists B]|].
  destruct Hl as [Ht Hl]. apply Forall_cons in Hmax as [Hm Hmax]. simpl in Ht, Hm.
  destruct (Allow_buckets r t key' B ltac:(lia)) as (r' & E & HB').
  { intros k. by eapply bucket_of_later. }
  rewrite (redis_all_cons _ _ _ _ _ _ E).
  destruct (IH r' t _ ltac:(lia) Hl Hmax HB') as [IHa IHb]. split; [|exact IHb]. clear IHb.
  unfold answers, times in *. simpl zip. rewrite !filter_cons. simpl.
  destruct (decide (key' = key)) as [->|Hne]; simpl.
  - etrans; [exact (f_equal (cons _) IHa)|]. rewrite decide_True by done. cbn [start_from].
    unfold bind, ret. destruct (script_check rate burst t (start_from t (B key))) as [a b]. simpl.
    by destruct (check_run (script_check rate burst) _ b).
  - etrans; [exact IHa|]. by rewrite decide_False by done.
Qed.

(** C38 The limiter in Redis is a token bucket per client that never expires, and
    keeps its rate, provided that the burst is at most 59 times the rate, so that
    it is earned in less than a minute, that every round trip to Redis succeeds,
    and that the clock does not run backwards.  From a key space without buckets, whatever other clients
    do, the answers to a client are those of its own bucket under the float
    arithmetic of the script, although its hash expires after a minute; and in
    any window of the history the requests of a client that pass are at most
    the burst plus the rate times the length of the window and twenty
    microseconds, up to a rounding error of less than one part in 2^50 of the
    burst per request and of the refill. *)
Theorem redis_limiter_window pre window key t ts r :
  (∀ k, entry r 0 (rateLimitRedisKey k) = None) →
  later 0 (map fst (pre ++ window)) → Forall (λ t, t ≤ max_int64) (map fst (pre ++ window)) →
  times key window = t :: ts →
  answers key (pre ++ window) (redis_all (pre ++ window) r).1 =
    (check_run (script_check rate burst) (times key (pre ++ window))
       (mkBucket (of_int burst) (default 0 (head (times key (pre ++ window)))))).1 ∧
  2 ^ 50 * Second * allowed (answers key window (redis_all window (redis_all pre r).2).1) ≤
    2 ^ 50 * Second * burst + (2 ^ 50 + 1) * (rate * (last_time t ts - t + 20000))
    + Z.of_nat (length ts) * (Second * burst).
Proof.
  intros Hempty Hl Hmax Hts.
  assert (∀ k, bucket_of r 0 k ((λ _, None) k : option bucket)) as HB by exact Hempty.
  split; [by apply (redis_all_client key (pre ++ window) r 0 (λ _, None))|].
  rewrite map_app in Hl, Hmax. apply Forall_app in Hmax as [Hmax1 Hmax2].
  apply later_app in Hl as [Hpre Hwin].
  destruct (redis_all_client key pre r 0 _ ltac:(done) Hpre Hmax1 HB) as [_ [B HBw]].
  pose proof (last_time_ge (map fst pre) 0 Hpre) as Hlast. set (t0 := last_time 0 (map fst pre)) in *.
  destruct (redis_all_client key window _ t0 B Hlast Hwin Hmax2 HBw) as [-> _].
  rewrite Hts. simpl head. simpl default.
  apply (later_times key) in Hwin. rewrite Hts in Hwin. destruct Hwin as [Ht Hl].
  assert (Forall (λ u, u ≤ max_int64) (t :: ts)) as Hm.
  { rewrite <- Hts. apply Forall_fmap, Forall_forall. intros c Hc%list_elem_of_filter.
    rewrite Forall_fmap, Forall_forall in Hmax2. apply Hmax2, Hc. }
  apply Forall_cons in Hm as Hm'. destruct Hm' as [Htm _].
  assert (bucket_of (redis_all pre r).2 t key (B key)) as Hb by by eapply bucket_of_later.
  clear HBw. generalize dependent (B key). intros o Hb.
  apply script_run_bound; [done..| | | exact Hl | exact Hm].
  - destruct o; simpl; [by destruct Hb | by apply full_bucket_ok].
  - destruct o; simpl; [by destruct Hb | lia].
Qed.
End buckets.

(** ** A history *)

(** Doubles as binary digits, the lowest first. *)
Fixpoint digits (p : positive) : string :=
  match p with xH => "1" | xO p => String "0" (digits p) | xI p => String "1" (digits p) end.
Fixpoint undigits (s : string) : option positive :=
  match s with
  | String c "" => Some xH
  | String c s => (if bool_decide (c = "0"%char) then xO else xI) <$> undigits s
  | "" => None
  end.
Definition show_float (x : float64) : string := match x with Zpos p => digits p | _ => "" end.
Definition read_float (s : string) : option float64 :=
  if bool_decide (s = "") then Some 0 else Zpos <$> undigits s.

Lemma undigits_digits p : undigits (digits p) = Some p ∧ digits p ≠ "".
Proof.
  induction p as [p [IH Hn]|p [IH Hn]|]; simpl; [| |done];
    (split; [|done]); rewrite IH; by destruct (digits p).
Qed.

Lemma read_show x : rep x → 0 ≤ x → read_float (show_float x) = Some x.
Proof.
  intros _ Hx. destruct x as [|p|p]; [done| |lia]. unfold read_float. simpl.
  destruct (undigits_digits p) as [-> Hn]. by rewrite bool_decide_false.
Qed.

(** One token and one token per second; the last call comes after the hash of
    the client has expired. *)
Definition redis_calls : list (Z * string) :=
  [(0, "a"); (0, "b"); (0, "a"); (1000000000, "a"); (90000000000, "a"); (90000000000, "a")].

Lemma redis_limiter_window_witness :
  let run := redis_all show_float read_float 1 1 in
  2 ^ 50 * Second * allowed (answers "a" (drop 2 redis_calls)
      (run (drop 2 redis_calls) (run (take 2 redis_calls) (∅ : KeySpace)).2).1) ≤
    2 ^ 50 * Second * 1 + (2 ^ 50 + 1) * (1 * (90000000000 - 0 + 20000)) + 3 * (Second * 1).
Proof.
  apply (redis_limiter_window show_float read_float read_show 1 1 ltac:(lia) ltac:(lia) ltac:(lia)
    (take 2 redis_calls) (drop 2 redis_calls) "a" 0 [1000000000; 90000000000; 90000000000] (∅ : KeySpace));
    [done | repeat split; vm_compute; discriminate | | reflexivity].
  apply (bool_decide_unpack _). vm_compute. exact I.
Defined.

(** Without the condition on the burst, the expiry of the hash gives a client
    tokens that the elapsed time has not earned, unlike the limiter in memory. *)
Example expiry_refills :
  let calls := [(0, "a"); (60 * Second, "a")] in
  ((redis_all show_float read_float 0 1 calls (∅ : KeySpace)).1, (allow_all calls (NewRateLimiter 0 1)).1)
  = ([true; true], [true; false]).
Proof. vm_compute. reflexivity. Qed.
