(* ===== verification/Handler.v ===== *)
(** * Handler: the HTTP handlers of internal/handler/handlers.go

    The mapping of errors to responses, the transaction and merchant handlers
    and the health handler.  The JSON encoder and decoder of encoding/json are
    parameters: a response is the encoding of an [APIResponse] value, a request
    body decodes to a value or fails. *)

From stdpp Require Import base tactics list gmap strings pretty.
From Stdlib Require Import Ascii.
From S2P Require Import Prelude GoLib Domain Repository Resilience Bank Payment Http RateLimit Middleware.

Open Scope string_scope.
Open Scope Z_scope.

(** ** Responses *)

(* go: internal/handler/handlers.go 26-29 *)
Record APIError := mkAPIError { ae_Code : string; ae_Message : string }.

(* go: internal/handler/handlers.go 31-35 *)
Record APIMeta := mkAPIMeta { am_Total : Z; am_Limit : Z; am_Offset : Z }.

(** The values the handlers put in the data field; [DataNull] is a nil pointer. *)
Inductive APIData :=
| DataNull
| DataTransaction (t : Transaction)
| DataTransactions (ts : list Transaction)
| DataEvents (es : list TransactionEvent)
| DataBalance (merchant_id name : string) (balance_cents : Z) (currency : string).

(* go: internal/handler/handlers.go 19-24 *)
Record APIResponse := mkAPIResponse {
  ar_Success : bool;
  ar_Data : option APIData;
  ar_Error : option APIError;
  ar_Meta : option APIMeta
}.

(** The body of a request to create a transaction. *)
(* go: internal/handler/handlers.go 112-116 *)
Record CreateBody := mkCreateBody { cb_AmountCents : Z; cb_Currency : string; cb_Description : string }.

(** The body of the health check. *)
Record HealthBody := mkHealthBody { hb_status : string; hb_version : string; hb_database : string }.

(** encoding/json; a number outside int64 does not decode. *)
Class JSON := {
  Encode : APIResponse → string;
  EncodeHealth : HealthBody → string;
  EncodeReady : string;
  DecodeCreate : string → option CreateBody;
  DecodeReason : string → string;
  DecodeCreate_int64 b c : DecodeCreate b = Some c → in_int64 (cb_AmountCents c)
}.

(** ** strconv.Atoi, whose error the handlers drop *)

(** The loop of [ParseUint]: a syntax error gives 0, an overflow the largest
    number, whichever comes first. *)
Fixpoint parse_uint (n : Z) (l : list ascii) : option Z :=
  match l with
  | [] => Some n
  | c :: l =>
    match digit_value c with
    | None => None
    | Some d => if 2 ^ 64 - 1 <? 10 * n + d then Some (2 ^ 64 - 1) else parse_uint (10 * n + d) l
    end
  end.

(** The value [Atoi] returns beside the error. *)
Definition Atoi_value (s : string) : Z :=
  let signed := split_sign (to_ascii s) in
  match signed.2 with
  | [] => 0
  | l => match parse_uint 0 l with
         | None => 0
         | Some n => Z.max min_int64 (Z.min max_int64 (if signed.1 then - n else n))
         end
  end.

Example Atoi_value_ok :
  map Atoi_value ["7"; "-3"; ""; "x"; "2x"; "99999999999999999999"; "-99999999999999999999x"]
  = [7; -3; 0; 0; 0; max_int64; min_int64].
Proof. vm_compute. reflexivity. Qed.

Section handlers.
Context `{!JSON} {R : Type} `{!MerchantRepository R, !TransactionRepository R,
  !EventRepository R, !OutboxRepository R, !Database R}.
Variable env : Env.
Variable svc : PaymentService R.

(** The handlers work on the world of the service. *)
Abbreviation W := (World R).
Abbreviation HW := (HTTP W).

(* go: internal/handler/handlers.go writeJSON *)
Definition writeJSON (status : Z) (data : APIData) : Prog HW outcome :=
  let! _ := writer (CallSet "Content-Type" "application/json") in
  let! _ := writer (CallWriteHeader status) in
  let! _ := writer (CallWrite (Encode (mkAPIResponse true (Some data) None None))) in
  ret Returned.

(* go: internal/handler/handlers.go writeJSONWithMeta *)
Definition writeJSONWithMeta (status : Z) (data : APIData) (meta : APIMeta) : Prog HW outcome :=
  let! _ := writer (CallSet "Content-Type" "application/json") in
  let! _ := writer (CallWriteHeader status) in
  let! _ := writer (CallWrite (Encode (mkAPIResponse true (Some data) None (Some meta)))) in
  ret Returned.

(* go: internal/handler/handlers.go writeError *)
Definition handler_writeError (status : Z) (code message : string) : Prog HW outcome :=
  let! _ := writer (CallSet "Content-Type" "application/json") in
  let! _ := writer (CallWriteHeader status) in
  let! _ := writer (CallWrite (Encode (mkAPIResponse false None (Some (mkAPIError code message)) None))) in
  ret Returned.

(** The cases of the switch: the sentinels, the status and the code. *)
(* go: internal/handler/handlers.go 60-84 *)
Definition error_cases : list (list goerror * Z * string) :=
  [([ErrMerchantNotFound], StatusNotFound, "MERCHANT_NOT_FOUND");
   ([ErrTransactionNotFound], StatusNotFound, "TRANSACTION_NOT_FOUND");
   ([ErrMerchantInactive], StatusForbidden, "MERCHANT_INACTIVE");
   ([ErrInvalidAmount], StatusBadRequest, "INVALID_AMOUNT");
   ([ErrInvalidCurrency], StatusBadRequest, "INVALID_CURRENCY");
   ([ErrAmountExceedsLimit], StatusBadRequest, "AMOUNT_EXCEEDS_LIMIT");
   ([ErrCannotRefund], StatusConflict, "CANNOT_REFUND");
   ([ErrInsufficientFunds], StatusConflict, "INSUFFICIENT_FUNDS");
   ([ErrBankTimeout], StatusGatewayTimeout, "BANK_TIMEOUT");
   ([ErrBankUnavailable; ErrCircuitOpen], StatusServiceUnavailable, "BANK_UNAVAILABLE");
   ([ErrBankRejected], StatusPaymentRequired, "BANK_REJECTED")].

Fixpoint first_case (cases : list (list goerror * Z * string)) (err : goerror) : option (Z * string) :=
  match cases with
  | [] => None
  | (targets, status, code) :: rest =>
    if existsb (is_target err) targets then Some (status, code) else first_case rest err
  end.

(** The status, code and message of an error. *)
Definition domain_error (err : goerror) : Z * string * string :=
  match first_case error_cases err with
  | Some (status, code) => (status, code, Error err)
  | None => (StatusInternalServerError, "INTERNAL_ERROR", "an unexpected error occurred")
  end.

(* go: internal/handler/handlers.go mapDomainError *)
Definition mapDomainError (err : goerror) : Prog HW outcome :=
  let '(status, code, message) := domain_error err in handler_writeError status code message.

(* go: internal/handler/handlers.go merchantFromContext *)
Definition merchantFromContext (r : HTTPRequest) : option Merchant := rq_Merchant r.

Definition unauthorized : Prog HW outcome :=
  handler_writeError StatusUnauthorized "UNAUTHORIZED" "authentication required".

(** The result is whether the handler goes on. *)
(* go: internal/handler/handlers.go ensureMerchantID *)
Definition ensureMerchantID (merchant : Merchant) (id : string) : Prog HW bool :=
  if bool_decide (m_ID merchant ≠ id)
  then let! _ := handler_writeError StatusForbidden "FORBIDDEN" "merchant access denied" in ret false
  else ret true.

(* go: internal/handler/handlers.go TransactionHandler.Create *)
Definition TransactionHandler_Create : Handler W := λ r,
  match DecodeCreate (rq_Body r) with
  | None => handler_writeError StatusBadRequest "INVALID_JSON" "could not parse request body"
  | Some req =>
    if cb_AmountCents req <=? 0
    then handler_writeError StatusBadRequest "VALIDATION_ERROR" "amount_cents must be positive"
    else
      match merchantFromContext r with
      | None => unauthorized
      | Some merchant =>
        let currency := if bool_decide (cb_Currency req = "") then m_Currency merchant else cb_Currency req in
        let! a := state (CreateTransaction env svc (rq_Context r)
          (mkCreateTransactionInput (m_ID merchant) (cb_AmountCents req) currency
             (header_Get "X-Idempotency-Key" (rq_Header r)) (cb_Description req))) in
        match a with
        | (_, Some err) => mapDomainError err
        | (Some tx, None) => writeJSON StatusCreated (DataTransaction tx)
        | (None, None) => writeJSON StatusCreated DataNull
        end
      end
  end.

(* go: internal/handler/handlers.go TransactionHandler.GetByID *)
Definition TransactionHandler_GetByID (txID : string) : Handler W := λ r,
  match merchantFromContext r with
  | None => unauthorized
  | Some merchant =>
    let! a := state (GetTransaction env (rq_Context r) (m_ID merchant) txID) in
    match a with
    | Err err => mapDomainError err
    | Ok tx => writeJSON StatusOK (DataTransaction tx)
    end
  end.

(* go: internal/handler/handlers.go TransactionHandler.Refund *)
Definition TransactionHandler_Refund (txID : string) : Handler W := λ r,
  let reason := DecodeReason (rq_Body r) in
  match merchantFromContext r with
  | None => unauthorized
  | Some merchant =>
    let! a := state (RefundTransaction env svc (rq_Context r) (m_ID merchant) txID reason) in
    match a with
    | (_, Some err) => mapDomainError err
    | (Some tx, None) => writeJSON StatusOK (DataTransaction tx)
    | (None, None) => writeJSON StatusOK DataNull
    end
  end.

(* go: internal/handler/handlers.go TransactionHandler.GetEvents *)
Definition TransactionHandler_GetEvents (txID : string) : Handler W := λ r,
  match merchantFromContext r with
  | None => unauthorized
  | Some merchant =>
    let! a := state (GetTransactionHistory env (rq_Context r) (m_ID merchant) txID) in
    match a with
    | Err err => mapDomainError err
    | Ok events => writeJSON StatusOK (DataEvents events)
    end
  end.

(* go: internal/handler/handlers.go TransactionHandler.ListByMerchant *)
Definition TransactionHandler_ListByMerchant (merchantID : string) : Handler W := λ r,
  let limit := Atoi_value (default "" (rq_Query r !! "limit")) in
  let offset := Atoi_value (default "" (rq_Query r !! "offset")) in
  let params := NewListParams limit offset in
  match merchantFromContext r with
  | None => unauthorized
  | Some merchant =>
    let! owner := ensureMerchantID merchant merchantID in
    if negb owner then ret Returned
    else
      let! a := state (ListTransactions env (rq_Context r) merchantID params) in
      match a with
      | Err err => mapDomainError err
      | Ok (txns, total) =>
        writeJSONWithMeta StatusOK (DataTransactions txns) (mkAPIMeta total (Limit params) (Offset params))
      end
  end.

(* go: internal/handler/handlers.go MerchantHandler.GetBalance *)
Definition MerchantHandler_GetBalance (merchantID : string) : Handler W := λ r,
  match merchantFromContext r with
  | None => unauthorized
  | Some merchantAuth =>
    let! owner := ensureMerchantID merchantAuth merchantID in
    if negb owner then ret Returned
    else
      let! a := state (GetMerchantBalance env (rq_Context r) merchantID) in
      match a with
      | Err err => mapDomainError err
      | Ok merchant =>
        writeJSON StatusOK (DataBalance (m_ID merchant) (m_Name merchant) (m_BalanceCents merchant) (m_Currency merchant))
      end
  end.

(** [h.db.HealthCheck], for a handler that has a database; uptime is left out. *)
(* go: internal/handler/handlers.go HealthHandler.Check *)
Definition HealthHandler_Check (HealthCheck : option (Ctx → Prog W error)) (version : string) : Handler W := λ r,
  let! err := match HealthCheck with Some check => state (check (rq_Context r)) | None => ret None end in
  let dbStatus := match err with Some e => "unhealthy: " +:+ Error e | None => "healthy" end in
  let httpStatus := match err with Some _ => StatusServiceUnavailable | None => StatusOK end in
  let status := if httpStatus =? StatusOK then "healthy" else "degraded" in
  let! _ := writer (CallSet "Content-Type" "application/json") in
  let! _ := writer (CallWriteHeader httpStatus) in
  let! _ := writer (CallWrite (EncodeHealth (mkHealthBody status version dbStatus))) in
  ret Returned.

(* go: internal/handler/handlers.go HealthHandler.Ready *)
Definition HealthHandler_Ready : Handler W := λ _,
  let! _ := writer (CallSet "Content-Type" "application/json") in
  let! _ := writer (CallWriteHeader StatusOK) in
  let! _ := writer (CallWrite EncodeReady) in
  ret Returned.
End handlers.
