(* ===== verification/HandlerTheorems.v ===== *)
(** * HandlerTheorems: what a client of the API can conclude from a response

    The response of the transaction handlers as a function of the outcome of
    the service, and the theorems of the payment service read through it. *)

From stdpp Require Import base tactics list gmap strings pretty.
From S2P Require Import Prelude GoLib Domain Repository Postgres Resilience Bank Payment Accounting PaymentLogic PaymentSpecs PaymentOutcome PaymentTheorems PaymentWitnesses Http RateLimit Middleware Handler.

Open Scope string_scope.
Open Scope Z_scope.

Section answers.
Context `{js : JSON}.

(** The calls of a JSON response. *)
Definition answer (status : Z) (resp : APIResponse) : list WriterCall :=
  [CallSet "Content-Type" "application/json"; CallWriteHeader status; CallWrite (Encode resp)].

Definition error_answer (err : goerror) : list WriterCall :=
  let '(status, code, message) := domain_error err in
  answer status (mkAPIResponse false None (Some (mkAPIError code message)) None).

Definition data_answer (status : Z) (data : APIData) : list WriterCall :=
  answer status (mkAPIResponse true (Some data) None None).

Definition error_status (err : goerror) : Z := (domain_error err).1.1.

(** The client sees the status and the body of the answer. *)
Lemma status_answer status resp : status_of (answer status resp) = status.
Proof. done. Qed.

Lemma body_answer status resp : body_of (answer status resp) = Encode resp.
Proof. unfold body_of, respond, answer. simpl. done. Qed.

Lemma status_error_answer err : status_of (error_answer err) = error_status err.
Proof. unfold error_answer, error_status. by destruct (domain_error err) as [[? ?] ?]. Qed.

(** Every error has an error status. *)
Lemma first_case_status cases err st code :
  Forall (λ c, 400 ≤ c.1.2 ≤ 599) cases → first_case cases err = Some (st, code) → 400 ≤ st ≤ 599.
Proof.
  induction cases as [|[[targets st'] code'] cases IH]; [done|]. simpl.
  intros [Hc Hcs]%Forall_cons. destruct (existsb _ _); [by intros [= <- <-] | by apply IH].
Qed.

Lemma error_status_range err : 400 ≤ error_status err ≤ 599.
Proof.
  unfold error_status, domain_error. destruct (first_case error_cases err) as [[st code]|] eqn:E; simpl.
  - eapply first_case_status; [|exact E]. unfold error_cases. repeat constructor; simpl; by vm_compute.
  - unfold StatusInternalServerError. lia.
Qed.
End answers.

Section handlers.
Context `{js : JSON} {R : Type} `{!MerchantRepository R, !TransactionRepository R,
  !EventRepository R, !OutboxRepository R, !Database R, !RepositoryLaws R, !DatabaseLaws R}.
Variable env : Env.
Variable svc : PaymentService R.
Abbreviation W := (World R).

(** The request that the body and the headers of a POST make. *)
Definition create_input (r : HTTPRequest) (m : Merchant) (req : CreateBody) : CreateTransactionInput :=
  mkCreateTransactionInput (m_ID m) (cb_AmountCents req)
    (if bool_decide (cb_Currency req = "") then m_Currency m else cb_Currency req)
    (header_Get "X-Idempotency-Key" (rq_Header r)) (cb_Description req).

Lemma run_state_then {A} (m : Prog W A) (k : A → Prog (HTTP W) Http.outcome) (Q : Http.outcome → HTTP W → Prop) x :
  wp m (λ a w', wp (k a) Q (mkHTTP (h_calls x) w')) (h_state x) →
  wp (let! a := state m in k a) Q x.
Proof. unfold wp, bind, state. destruct (m (h_state x)). done. Qed.

Lemma run_error err (x : HTTP W) :
  mapDomainError err x = (Returned, mkHTTP (h_calls x ++ error_answer err)%list (h_state x)).
Proof.
  unfold mapDomainError, error_answer. destruct (domain_error err) as [[st code] msg].
  unfold handler_writeError, bind, writer, modify, ret. simpl. by rewrite <- !(assoc_L (++)).
Qed.

Lemma run_json status data (x : HTTP W) :
  writeJSON status data x = (Returned, mkHTTP (h_calls x ++ data_answer status data)%list (h_state x)).
Proof. unfold writeJSON, bind, writer, modify, ret. simpl. by rewrite <- !(assoc_L (++)). Qed.

(** The answer to the result of [CreateTransaction]. *)
Definition create_answer (a : option Transaction * error) : list WriterCall :=
  match a with
  | (_, Some err) => error_answer err
  | (Some tx, None) => data_answer StatusCreated (DataTransaction tx)
  | (None, None) => data_answer StatusCreated DataNull
  end.

Lemma wp_Create r m req (Q : Http.outcome → HTTP W → Prop) x :
  rq_Merchant r = Some m → DecodeCreate (rq_Body r) = Some req → 0 < cb_AmountCents req →
  wp (CreateTransaction env svc (rq_Context r) (create_input r m req))
    (λ a w', Q Returned (mkHTTP (h_calls x ++ create_answer a)%list w')) (h_state x) →
  wp (TransactionHandler_Create env svc r) Q x.
Proof.
  intros Hm Hreq Hpos HQ. unfold TransactionHandler_Create. rewrite Hreq.
  destruct (Z.leb_spec (cb_AmountCents req) 0); [lia|]. unfold merchantFromContext. rewrite Hm.
  apply run_state_then. wp_use HQ. intros [[t|] [e|]] w' Ha; unfold wp.
  1,3: rewrite run_error. 3,4: rewrite run_json. all: exact Ha.
Qed.

(** C34 A client can trust the status of a payment.  Whatever fails, the handler
    answers 201 or an error status.  On 201 the body is a transaction that was
    either stored under the same idempotency key before, with no effect now,
    or that the bank approved and that was completed and credited by this very
    request. *)
Theorem Create_answer r m req x :
  service_ok svc → Inv (h_state x) → fresh_ids env (h_state x) →
  rq_Merchant r = Some m → DecodeCreate (rq_Body r) = Some req → 0 < cb_AmountCents req →
  wp (TransactionHandler_Create env svc r) (λ o x', o = Returned ∧ ∃ cs,
    h_calls x' = (h_calls x ++ cs)%list ∧ (status_of cs = 201 ∨ 400 ≤ status_of cs ≤ 599) ∧
    (status_of cs = 201 → ∃ t,
       body_of cs = Encode (mkAPIResponse true (Some (DataTransaction t)) None None) ∧
       succeeded svc (create_input r m req) (h_state x) (h_state x') t)) x.
Proof.
  intros Hs HI Hfr Hm Hreq Hpos. apply (wp_Create r m req); [done..|].
  wp_use (wp_CreateTransaction env svc (rq_Context r) (create_input r m req) (h_state x) Hs HI Hfr);
    [by apply (DecodeCreate_int64 (rq_Body r))|].
  intros a w' Hpost. split; [done|]. eexists. split; [done|].
  destruct a as [t [e|]].
  - replace (create_answer (t, Some e)) with (error_answer e) by (by destruct t). rewrite status_error_answer. pose proof (error_status_range e). split; [by right | lia].
  - destruct (created_success env svc _ _ _ _ _ Hfr Hpost eq_refl) as (t' & Ht & Hsucc).
    simpl in Ht. subst t. split; [by left|]. intros _. exists t'. split; [apply body_answer | done].
Qed.

(** The status of the first failing check. *)
Definition refusal_status (e : goerror) : Z :=
  if bool_decide (e = ErrMerchantNotFound) then 404
  else if bool_decide (e = ErrMerchantInactive) then 403 else 400.

Lemma refusal_answer input om e :
  refusal svc input om = Some e → error_status e = refusal_status e.
Proof.
  unfold refusal. repeat case_match; intros [= <-]; by vm_compute.
Qed.

(** Refused payments.  In a run without faults a request that fails a check
    is answered with the status of the first failing check: 404 for an unknown
    merchant, 403 for an inactive one, 400 for the amount, the limit and the
    currency; and a request that reuses an idempotency key for something else
    is answered 500, for the handler does not know its error.  Neither has an
    effect. *)
Theorem Create_refusals r m req x :
  service_ok svc → Inv (h_state x) → fresh_ids env (h_state x) → clean_run env (rq_Context r) →
  rq_Merchant r = Some m → DecodeCreate (rq_Body r) = Some req → 0 < cb_AmountCents req →
  let input := create_input r m req in
  let L := ledger (h_state x) in
  wp (TransactionHandler_Create env svc r) (λ _ x', ∃ cs, h_calls x' = (h_calls x ++ cs)%list ∧
    (∀ e, key_unused (in_IdempotencyKey input) L →
       refusal svc input (l_merchants L !! m_ID m) = Some e →
       status_of cs = refusal_status e ∧ untouched (h_state x) (h_state x')) ∧
    (in_IdempotencyKey input ≠ "" →
       (∀ id t, l_txns L !! id = Some t → tx_IdempotencyKey t = in_IdempotencyKey input →
          matchesIdempotentRequest (Some t) input = false) →
       ¬ key_unused (in_IdempotencyKey input) L →
       status_of cs = 500 ∧ untouched (h_state x) (h_state x'))) x.
Proof.
  intros Hs HI Hfr Hcl Hm Hreq Hpos. cbv zeta. set (input := create_input r m req).
  apply (wp_Create r m req); [done..|].
  wp_use (wp_CreateTransaction env svc (rq_Context r) input (h_state x) Hs HI Hfr);
    [by apply (DecodeCreate_int64 (rq_Body r))|].
  intros a w' Hpost. apply created_id in Hpost as (o & q & k & _ & [Hch Hk] & Hc); [|done].
  eexists. split; [done|]. cbn [h_state]. unfold untouched.
  assert (∀ t, in_IdempotencyKey input ≠ "" → tx_IdempotencyKey t = in_IdempotencyKey input →
    stored t (ledger (h_state x)) → ¬ key_unused (in_IdempotencyKey input) (ledger (h_state x))) as Hused.
  { intros t Hne Hkey Hst [?|Hun]; [done|]. by apply (Hun _ _ Hst). }
  destruct Hc as [e' q Hun Href|e' q Hc|t q Hne Hkey Hst Hmatch|t q Hne Hkey Hst Hmatch|e' id t evs obs q Hc _
    |id t m' k ra L' Hun Hm' Href Hpay]; try done.
  - split; [|done]. intros e _ He. change (m_ID m) with (in_MerchantID input) in He.
    rewrite He in Href. injection Href as <-. cbn [create_answer].
    rewrite status_error_answer. split; [by eapply refusal_answer|]. split; [done|].
    by rewrite Hch, app_nil_r.
  - split; [intros e Hun; by destruct (Hused t)|]. intros _ Hno _.
    assert (matchesIdempotentRequest (Some t) input = matchesIdempotentRequest (Some (norm_txn t)) input) as Heq by done.
    rewrite Heq, (Hno _ _ Hst) in Hmatch; done.
  - split; [intros e Hun; by destruct (Hused t)|]. intros _ _ _. cbn [create_answer].
    rewrite status_error_answer. split; [by vm_compute|]. split; [done|]. by rewrite Hch, app_nil_r.
  - split; [|done]. intros e _ He. change (m_ID m) with (in_MerchantID input) in He. congruence.
Qed.
End handlers.

(** ** Witnesses *)

#[local] Existing Instance sorted_range.
#[local] Instance plain_events_here : EventRepository PgStore := pg_event_repo None.

(** A small codec: error responses carry their code, the others a mark; two
    bodies decode. *)
Definition json0 : JSON.
Proof.
  refine {|
    Encode a := match ar_Error a with Some e => ae_Code e | None => "ok" end;
    EncodeHealth b := hb_status b;
    EncodeReady := "ready";
    DecodeCreate b := if bool_decide (b = "create") then Some (mkCreateBody 250 "" "order")
                      else if bool_decide (b = "euro") then Some (mkCreateBody 250 "EUR" "order") else None;
    DecodeReason b := b
  |}.
  intros b c. repeat case_bool_decide; [| |done]; intros [= <-]; by vm_compute.
Defined.

#[local] Existing Instance json0.

Definition post (body : string) : HTTPRequest :=
  mkHTTPRequest "POST" "/api/v1/transactions" ∅ (header_Set "X-Idempotency-Key" "key-1" ∅) "10.0.0.1:80"
    body Background None (Some maple).

Lemma Create_answer_witness :
  wp (TransactionHandler_Create env0 service0 (post "create")) (λ o x', o = Returned ∧ ∃ cs,
    h_calls x' = ([] ++ cs)%list ∧ (status_of cs = 201 ∨ 400 ≤ status_of cs ≤ 599) ∧
    (status_of cs = 201 → ∃ t,
       body_of cs = Encode (mkAPIResponse true (Some (DataTransaction t)) None None) ∧
       succeeded service0 (create_input (post "create") maple (mkCreateBody 250 "" "order")) world0 (h_state x') t))
    (mkHTTP [] world0).
Proof.
  apply (Create_answer env0 service0 (post "create") maple (mkCreateBody 250 "" "order") (mkHTTP [] world0));
    [apply service0_ok | apply Inv0 | apply fresh_ids0 | done | done | by vm_compute].
Defined.

Lemma Create_refusals_witness :
  (TransactionHandler_Create env0 service0 (post "euro") (mkHTTP [] world0)).2.(h_calls)
    = error_answer ErrInvalidCurrency ∧
  wp (TransactionHandler_Create env0 service0 (post "euro")) (λ _ x', ∃ cs, h_calls x' = ([] ++ cs)%list ∧
    (key_unused "key-1" (ledger world0) → status_of cs = 400 ∧ untouched world0 (h_state x')))
    (mkHTTP [] world0).
Proof.
  split; [vm_compute; reflexivity|].
  eapply wp_mono; [apply (Create_refusals env0 service0 (post "euro") maple (mkCreateBody 250 "EUR" "order") (mkHTTP [] world0));
    [apply service0_ok | apply Inv0 | apply fresh_ids0 | apply clean0 | done | done | by vm_compute] |].
  intros o x' (cs & Hcs & Href & _). exists cs. split; [exact Hcs|]. intros Hk.
  apply (Href ErrInvalidCurrency Hk). vm_compute. reflexivity.
Defined.
