(* ===== verification/Server.v ===== *)
(** * Server: the HTTP server that cmd/server/main.go puts together

    The router with its middleware around the handlers, over the state of the
    whole process.  The routing table of chi, the handler of promhttp and
    chi's answer to an unknown path are parameters, and so are the propagator of
    trace contexts and the route pattern chi records. *)

From stdpp Require Import base tactics list gmap strings pretty.
From Stdlib Require Import Ascii.
From S2P Require Import Prelude GoLib Float64 Domain Repository Resilience Bank Payment Accounting PaymentLogic PaymentSpecs PaymentOutcome PaymentTheorems Lifecycle Http RateLimit Redis Metrics Middleware Idempotency RedisLimiter Handler.

Open Scope string_scope.
Open Scope Z_scope.

(** The routes of main.go, with the id in the path; [RouteUnknown] is any other
    path below /api/v1, to which the middleware of that router applies. *)
(* go: cmd/server/main.go 170-190 *)
Inductive Route :=
| RouteHealth
| RouteReady
| RouteMetrics
| RouteCreate
| RouteGet (id : string)
| RouteRefund (id : string)
| RouteEvents (id : string)
| RouteBalance (id : string)
| RouteList (id : string)
| RouteUnknown.

(** The state of the process. *)
Record Server (R K : Type) := mkServer {
  sv_world : World R;
  sv_limiter : RateLimiter;
  sv_redis : K;
  sv_log : list LogEntry;
  sv_metrics : Registry;
  sv_spans : list Span
}.
Arguments mkServer {R K}.
Arguments sv_world {R K}.
Arguments sv_limiter {R K}.
Arguments sv_redis {R K}.
Arguments sv_log {R K}.
Arguments sv_metrics {R K}.
Arguments sv_spans {R K}.

Section setters.
Context {R K : Type}.
Implicit Types s : Server R K.
Definition set_world (w : World R) s :=
  mkServer w (sv_limiter s) (sv_redis s) (sv_log s) (sv_metrics s) (sv_spans s).
Definition set_limiter (l : RateLimiter) s :=
  mkServer (sv_world s) l (sv_redis s) (sv_log s) (sv_metrics s) (sv_spans s).
Definition set_redis (r : K) s :=
  mkServer (sv_world s) (sv_limiter s) r (sv_log s) (sv_metrics s) (sv_spans s).
Definition add_log (e : LogEntry) s :=
  mkServer (sv_world s) (sv_limiter s) (sv_redis s) (sv_log s ++ [e])%list (sv_metrics s) (sv_spans s).
Definition set_metrics (g : Registry) s :=
  mkServer (sv_world s) (sv_limiter s) (sv_redis s) (sv_log s) g (sv_spans s).
Definition add_span (sp : Span) s :=
  mkServer (sv_world s) (sv_limiter s) (sv_redis s) (sv_log s) (sv_metrics s) (sv_spans s ++ [sp])%list.
End setters.

(** The registry of the process. *)
Definition on_registry {R K A} (m : Prog Registry A) : Prog (Server R K) A :=
  λ s, let (a, g) := m (sv_metrics s) in (a, set_metrics g s).

#[export] Instance server_metrics {R K} : Metrics (Server R K) := {|
  RecordRequest method path statusCode duration := on_registry (RecordRequest method path statusCode duration);
  IncrementActive := on_registry IncrementActive;
  DecrementActive := on_registry DecrementActive
|}.

(** What [main] decides from the configuration: whether there is a Redis
    client, the parameters of the Redis limiter, whether spans are recorded and
    the name of the service in them. *)
Record ServerConfig := mkServerConfig {
  sc_redis : bool;
  sc_rps : Z;
  sc_burst : Z;
  sc_version : string;
  sc_tracing : bool;
  sc_service : string
}.

Section server.
Context `{js : JSON} {R K : Type} `{!MerchantRepository R, !TransactionRepository R,
  !EventRepository R, !OutboxRepository R, !Database R, !Redis K}.
Variable env : Env.
Variable svc : PaymentService R.
Variable cfg : ServerConfig.
Abbreviation Srv := (Server R K).

Variable route : string → string → option Route.
Variables (not_found : list WriterCall) (scrape : Srv → list WriterCall).
Variables (extract : Header → string) (route_pattern : HTTPRequest → HTTP Srv → string).
Variables (tostring : float64 → string) (tonumber : string → option float64).

(** ** Operations of the state *)

Definition on_world_state {A} (m : Prog (World R) A) : Prog Srv A :=
  λ s, let (a, w) := m (sv_world s) in (a, set_world w s).

Definition on_world (h : Handler (World R)) : Handler Srv := λ r x,
  let (o, x') := h r (mkHTTP (h_calls x) (sv_world (h_state x))) in
  (o, mkHTTP (h_calls x') (set_world (h_state x') (h_state x))).

Definition server_Now : Prog Srv Z := on_world_state (now env).

(** The clock, the context and the fault of a call to Redis. *)
Definition server_info (ctx : Ctx) : Prog Srv CallInfo :=
  on_world_state (let! n := fresh_step in ret (call_info env ctx n)).

#[local] Instance server_client : RedisClient Srv K :=
  {| rc_get := sv_redis; rc_set := set_redis; rc_info := server_info |}.

Definition server_GetByAPIKey (ctx : Ctx) (key : string) : Prog Srv (result goerror Merchant) :=
  on_world_state (repo env ctx (λ ci, merchants_GetByAPIKey ci key)).

(* go: cmd/server/main.go 152-155 *)
Definition server_limiter : Ctx → string → Prog Srv (bool * error) := λ ctx key,
  if sc_redis cfg then
    on_redis ctx (λ ci, RedisRateLimiter_Allow tostring tonumber
      (NewRedisRateLimiter true (of_int (sc_rps cfg)) (of_int (sc_burst cfg))) ci key)
  else
    let! ci := server_info ctx in
    λ s, let (a, l) := Allow ci key (sv_limiter s) in (a, set_limiter l s).

(* go: cmd/server/main.go 156 *)
Definition server_store : StoreOps Srv := store_ops (mkIdempotencyStore (sc_redis cfg)).

(** [db.HealthCheck]: a ping within two seconds. *)
(* go: internal/repository/postgres/db.go DB.HealthCheck *)
Definition DB_HealthCheck (ctx : Ctx) : Prog (World R) error :=
  let! t := now env in
  let ctx := WithTimeout ctx t (2 * Second) in
  let! n := fresh_step in
  let ci := call_info env ctx n in
  ret (match ci_ctx ci, ci_fault ci with
       | Some err, _ | None, FailBefore err | None, FailAfter err => Some err
       | None, NoFault => None
       end).

Definition writes (cs : list WriterCall) : Prog (HTTP Srv) outcome := λ h,
  (Returned, mkHTTP (h_calls h ++ cs)%list (h_state h)).

(** ** The router *)

(** The routes below /api/v1. *)
(* go: cmd/server/main.go 179-189 *)
Definition api_handler (rt : Route) : Handler Srv :=
  match rt with
  | RouteCreate => Idempotency server_store (on_world (TransactionHandler_Create env svc))
  | RouteGet id => on_world (TransactionHandler_GetByID env id)
  | RouteRefund id => on_world (TransactionHandler_Refund env svc id)
  | RouteEvents id => on_world (TransactionHandler_GetEvents env id)
  | RouteBalance id => on_world (MerchantHandler_GetBalance env id)
  | RouteList id => on_world (TransactionHandler_ListByMerchant env id)
  | _ => λ _, writes not_found
  end.

(* go: cmd/server/main.go 170-190 *)
Definition router : Handler Srv := λ r,
  match route (rq_Method r) (rq_Path r) with
  | None => writes not_found
  | Some RouteHealth => on_world (HealthHandler_Check (Some DB_HealthCheck) (sc_version cfg)) r
  | Some RouteReady => on_world HealthHandler_Ready r
  | Some RouteMetrics => λ h, writes (scrape (h_state h)) h
  | Some rt => APIKeyAuth server_GetByAPIKey (api_handler rt) r
  end.

(** [span.End], for the provider that is installed. *)
Definition end_span (sp : Span) : Prog Srv unit := if sc_tracing cfg then modify (add_span sp) else ret tt.

(* go: cmd/server/main.go 158-168 *)
Definition root_handler : Handler Srv :=
  Recovery (RequestID server_Now (Tracing extract route_pattern end_span (sc_service cfg)
    (Logging server_Now (λ e, modify (add_log e)) (MetricsMiddleware server_Now
      (CORS (RateLimit (Some server_limiter) router)))))).

(** One request: the calls on its response writer, and the new state. *)
Definition serve_request (r : HTTPRequest) : Prog Srv (outcome * list WriterCall) := λ s,
  let (o, h) := root_handler r (mkHTTP [] s) in ((o, h_calls h), h_state h).

Fixpoint serve_requests (rs : list HTTPRequest) : Prog Srv (list (list WriterCall)) :=
  match rs with
  | [] => ret []
  | r :: rs => let! x := serve_request r in let! xs := serve_requests rs in ret (x.2 :: xs)
  end.

(** Every request is answered. *)
Lemma serve_length rs : ∀ s xs s', serve_requests rs s = (xs, s') → length xs = length rs.
Proof.
  induction rs as [|r rs IH]; intros s xs s'; simpl; [by intros [= <- <-]|].
  unfold bind. destruct (serve_request r s) as [x s1]. destruct (serve_requests rs s1) as [ys s2] eqn:E.
  intros [= <- <-]. simpl. by rewrite (IH _ _ _ E).
Qed.
End server.
