(* ===== verification/ServerTheorems.v ===== *)
(** * ServerTheorems: what the HTTP server does to the payment service

    Serving a request is one request of the service, the one the HTTP request
    asks for, so the guarantees of the service hold for the whole server. *)

From stdpp Require Import base tactics list gmap strings pretty.
From Stdlib Require Import Ascii.
From S2P Require Import Prelude GoLib Float64 Domain Repository Resilience Bank Payment Accounting PaymentLogic PaymentSpecs PaymentOutcome PaymentTheorems Lifecycle Http RateLimit Redis Metrics Middleware Idempotency RedisLimiter Handler Server.

Open Scope string_scope.
Open Scope Z_scope.

(** ** What a request does to the payment service *)

(** Programs that only write to the response. *)
Definition keeps {S} (m : Prog (HTTP S) outcome) : Prop := ∀ h, h_state (m h).2 = h_state h.

Lemma state_then {S A} (m : Prog S A) (k : A → Prog (HTTP S) outcome) h :
  (∀ a, keeps (k a)) → h_state ((let! a := state m in k a) h).2 = (m (h_state h)).2.
Proof. intros Hk. unfold bind, state. destruct (m (h_state h)) as [a s]. simpl. by rewrite Hk. Qed.

Lemma wp_serve_wrapped {S X} wrap (x0 : X) (m : Prog (HTTP S) outcome) k Q h :
  wp m (λ o h', match o with Panicked _ => Q o h' | Returned => ∀ x, wp (k x) Q h' end) h →
  wp (serve_wrapped wrap x0 m k) Q h.
Proof. unfold wp, serve_wrapped. destruct (m h) as [[|e] h']; [intros Hk; apply Hk | done]. Qed.

Section refinement.
Context `{js : JSON} {R K : Type} `{!MerchantRepository R, !TransactionRepository R,
  !EventRepository R, !OutboxRepository R, !Database R,
  !RepositoryLaws R, !DatabaseLaws R, !AuthLaws R, !Redis K}.
Variable env : Env.
Variable svc : PaymentService R.
Variable cfg : ServerConfig.
Abbreviation Srv := (Server R K).
Abbreviation W := (World R).
Variable route : string → string → option Route.
Variables (not_found : list WriterCall) (scrape : Srv → list WriterCall).
Variables (extract : Header → string) (route_pattern : HTTPRequest → HTTP Srv → string).
Variables (tostring : float64 → string) (tonumber : string → option float64).
Implicit Types (w : W) (h : HTTP Srv).

(** Only the clock and the store's own bookkeeping moved. *)
Definition idle w w' : Prop := Inv w → Inv w' ∧ frame w w' ∧ ledger w' = ledger w.

#[export] Instance idle_preorder : PreOrder idle.
Proof.
  split; [by intros w|]. intros w1 w2 w3 H12 H23 HI.
  destruct (H12 HI) as (HI2 & F12 & L12). destruct (H23 HI2) as (HI3 & F23 & L23).
  split_and!; [done | by etrans | congruence].
Qed.

(** At most the request [q] to the service. *)
Definition acted (q : option Request) w w' : Prop :=
  idle w w' ∨ ∃ req w1, q = Some req ∧ idle w w1 ∧ idle (run_request env svc req w1).2 w'.

Lemma acted_idle q w1 w2 w3 w4 : idle w1 w2 → acted q w2 w3 → idle w3 w4 → acted q w1 w4.
Proof.
  intros H12 [H23|(req & w' & Hq & H & H')] H34; [left; by do 2 (etrans; [done|])|].
  right. exists req, w'. split_and!; [done | by etrans | by etrans].
Qed.

Lemma acted_request req w w' : idle (run_request env svc req w).2 w' → acted (Some req) w w'.
Proof. intros H. right. by exists req, w. Qed.

(** *** The request that an HTTP request asks for *)

(** The key under which the service stores a payment. *)
Definition service_key (r : HTTPRequest) : string :=
  let key := header_Get "X-Idempotency-Key" (rq_Header r) in
  if bool_decide (key = "") then header_Get "Idempotency-Key" (rq_Header r) else key.

Definition asked_create (r : HTTPRequest) (m : Merchant) (key : string) : option Request :=
  match DecodeCreate (rq_Body r) with
  | Some b =>
    if cb_AmountCents b <=? 0 then None
    else Some (ReqCreate (rq_Context r) (mkCreateTransactionInput (m_ID m) (cb_AmountCents b)
      (if bool_decide (cb_Currency b = "") then m_Currency m else cb_Currency b) key (cb_Description b)))
  | None => None
  end.

Definition asked_route (rt : Route) (r : HTTPRequest) (m : Merchant) : option Request :=
  let ctx := rq_Context r in
  match rt with
  | RouteHealth | RouteReady | RouteMetrics | RouteUnknown => None
  | RouteCreate => asked_create r m (service_key r)
  | RouteGet id => Some (ReqGet ctx (m_ID m) id)
  | RouteRefund id => Some (ReqRefund ctx (m_ID m) id (DecodeReason (rq_Body r)))
  | RouteEvents id => Some (ReqHistory ctx (m_ID m) id)
  | RouteBalance id => if bool_decide (m_ID m = id) then Some (ReqBalance ctx id) else None
  | RouteList id => if bool_decide (m_ID m = id) then
      Some (ReqList ctx id (NewListParams (Atoi_value (default "" (rq_Query r !! "limit")))
                                          (Atoi_value (default "" (rq_Query r !! "offset"))))) else None
  end.

(** What the method, path, headers and body of [r] ask for on behalf of [m]. *)
Definition asked (r : HTTPRequest) (m : Merchant) : option Request :=
  match route (rq_Method r) (rq_Path r) with Some rt => asked_route rt r m | None => None end.

Lemma NewListParams_ok limit offset : 0 < Limit (NewListParams limit offset) ≤ 100 ∧ 0 ≤ Offset (NewListParams limit offset).
Proof.
  unfold NewListParams. simpl.
  destruct (Z.leb_spec limit 0), (Z.ltb_spec 100 limit), (Z.ltb_spec offset 0); simpl; lia.
Qed.

Lemma asked_ok r m req : asked r m = Some req → requester req = m_ID m ∧ request_ok req.
Proof.
  unfold asked. destruct (route _ _) as [rt|]; [|done]. destruct rt; simpl; try (by intros [= <-]); try done.
  - unfold asked_create. destruct (DecodeCreate (rq_Body r)) as [b|] eqn:E; [|done].
    destruct (_ <=? _); intros [= <-]. split; [done|]. by apply (DecodeCreate_int64 (rq_Body r)).
  - case_bool_decide; [|done]. by intros [= <-].
  - case_bool_decide; [|done]. intros [= <-]. split; [done|]. set (l := Atoi_value _). set (o := Atoi_value (default "" (_ !! "offset"))).
    pose proof (NewListParams_ok l o). unfold request_ok. lia.
Qed.

(** *** Handlers *)

Lemma keeps_error status code msg : keeps (handler_writeError (R := R) status code msg).
Proof. done. Qed.
Lemma keeps_domain err : keeps (mapDomainError (R := R) err).
Proof. intros h. unfold mapDomainError. by destruct (domain_error err) as [[? ?] ?]. Qed.
Lemma keeps_json status data : keeps (writeJSON (R := R) status data).
Proof. done. Qed.
Lemma keeps_meta status data meta : keeps (writeJSONWithMeta (R := R) status data meta).
Proof. done. Qed.

#[local] Hint Resolve keeps_error keeps_domain keeps_json keeps_meta : core.

Lemma acted_keeps q (m : Prog (HTTP W) outcome) (x : HTTP W) :
  keeps m → acted q (h_state x) (h_state (m x).2).
Proof. intros Hm. left. by rewrite Hm. Qed.

(** A handler that runs one request and then writes. *)
Lemma acted_then {A} req (m : Prog W A) (k : A → Prog (HTTP W) outcome) x :
  (∀ w, (run_request env svc req w).2 = (m w).2) → (∀ a, keeps (k a)) →
  acted (Some req) (h_state x) (h_state ((let! a := state m in k a) x).2).
Proof. intros Hm Hk. apply acted_request. by rewrite state_then, Hm by done. Qed.

(** [run_request] drops the answer. *)
Lemma run_dropped {A} (m : Prog W A) w : ((let! _ := m in ret tt) w).2 = (m w).2.
Proof. unfold bind, ret. by destruct (m w). Qed.

Lemma Create_acted r m x :
  rq_Merchant r = Some m →
  acted (asked_create r m (header_Get "X-Idempotency-Key" (rq_Header r)))
    (h_state x) (h_state (TransactionHandler_Create env svc r x).2).
Proof.
  intros Hm. unfold TransactionHandler_Create, asked_create.
  destruct (DecodeCreate (rq_Body r)) as [req|]; [|by apply acted_keeps].
  destruct (cb_AmountCents req <=? 0); [by apply acted_keeps|].
  unfold merchantFromContext. rewrite Hm.
  apply acted_then; [intros w; apply run_dropped | intros [[t|] [e|]]; auto].
Qed.

Lemma Get_acted r m id x :
  rq_Merchant r = Some m →
  acted (asked_route (RouteGet id) r m) (h_state x) (h_state (TransactionHandler_GetByID env id r x).2).
Proof.
  intros Hm. unfold TransactionHandler_GetByID, merchantFromContext. rewrite Hm.
  apply acted_then; [intros w; apply run_dropped | intros [t|e]; auto].
Qed.

Lemma Refund_acted r m id x :
  rq_Merchant r = Some m →
  acted (asked_route (RouteRefund id) r m) (h_state x) (h_state (TransactionHandler_Refund env svc id r x).2).
Proof.
  intros Hm. unfold TransactionHandler_Refund, merchantFromContext. rewrite Hm.
  apply acted_then; [intros w; apply run_dropped | intros [[t|] [e|]]; auto].
Qed.

Lemma Events_acted r m id x :
  rq_Merchant r = Some m →
  acted (asked_route (RouteEvents id) r m) (h_state x) (h_state (TransactionHandler_GetEvents env id r x).2).
Proof.
  intros Hm. unfold TransactionHandler_GetEvents, merchantFromContext. rewrite Hm.
  apply acted_then; [intros w; apply run_dropped | intros [t|e]; auto].
Qed.

(** The owner check of the two merchant routes. *)
Lemma acted_owner m id req (k : Prog (HTTP W) outcome) x :
  (m_ID m = id → acted (Some req) (h_state x) (h_state (k x).2)) →
  acted (if bool_decide (m_ID m = id) then Some req else None) (h_state x)
    (h_state ((let! owner := ensureMerchantID m id in if negb owner then ret Returned else k) x).2).
Proof.
  intros Hk. unfold ensureMerchantID. destruct (decide (m_ID m = id)) as [E|E].
  - rewrite !bool_decide_true by done. rewrite bool_decide_false by (by intros []). exact (Hk E).
  - rewrite bool_decide_false, bool_decide_true by done. by left.
Qed.

Lemma List_acted r m id x :
  rq_Merchant r = Some m →
  acted (asked_route (RouteList id) r m) (h_state x) (h_state (TransactionHandler_ListByMerchant env id r x).2).
Proof.
  intros Hm. unfold TransactionHandler_ListByMerchant, merchantFromContext. rewrite Hm.
  apply acted_owner. intros <-. apply acted_then; [intros w; apply run_dropped | intros [[l n]|e]; auto].
Qed.

Lemma Balance_acted r m id x :
  rq_Merchant r = Some m →
  acted (asked_route (RouteBalance id) r m) (h_state x) (h_state (MerchantHandler_GetBalance env id r x).2).
Proof.
  intros Hm. unfold MerchantHandler_GetBalance, merchantFromContext. rewrite Hm.
  apply acted_owner. intros <-. apply acted_then; [intros w; apply run_dropped | intros [t|e]; auto].
Qed.

(** *** Operations of the middleware *)

#[local] Instance client_here : RedisClient Srv K := server_client env.

Definition quiet {A} (m : Prog Srv A) : Prop := ∀ s, idle (sv_world s) (sv_world (m s).2).

Lemma quiet_bind {A B} (m : Prog Srv A) (k : A → Prog Srv B) :
  quiet m → (∀ a, quiet (k a)) → quiet (bind m k).
Proof.
  intros Hm Hk s. unfold bind. pose proof (Hm s) as H. destruct (m s) as [a s1]. simpl in H.
  etrans; [exact H | apply Hk].
Qed.

Lemma quiet_same {A} (m : Prog Srv A) : (∀ s, sv_world (m s).2 = sv_world s) → quiet m.
Proof. intros Hm s. by rewrite Hm. Qed.

Lemma idle_tick w : idle w (set_step (S (w_step w)) w).
Proof. intros HI. split; [done|]. split; [|done]. split_and!; simpl; try done. lia. Qed.

Lemma quiet_info ctx : quiet (server_info (K := K) env ctx).
Proof. intros s. apply idle_tick. Qed.

Lemma quiet_on_redis {A} ctx (op : CallInfo → Prog K A) : quiet (on_redis (S := Srv) ctx op).
Proof.
  apply quiet_bind; [apply quiet_info|]. intros ci. apply quiet_same. intros s. by destruct (op _ _).
Qed.

Lemma quiet_limiter ctx key : quiet (server_limiter env cfg tostring tonumber ctx key).
Proof.
  unfold server_limiter. destruct (sc_redis cfg); [apply quiet_on_redis|].
  apply quiet_bind; [apply quiet_info|]. intros ci. apply quiet_same. intros s. by destruct (Allow _ _ _).
Qed.

Lemma quiet_store ctx mid key code body :
  quiet (so_Check (server_store (R := R) env cfg) ctx mid key) ∧
  quiet (so_StoreCompleted (server_store (R := R) env cfg) ctx mid key code body) ∧
  quiet (so_Release (server_store (R := R) env cfg) ctx mid key).
Proof. split_and!; apply quiet_on_redis. Qed.

Lemma quiet_now : quiet (server_Now (K := K) env).
Proof. intros s. apply idle_tick. Qed.

(** What the lookup of a key tells. *)
Lemma GetByAPIKey_idle ctx key s :
  let x := server_GetByAPIKey (K := K) env ctx key s in
  idle (sv_world s) (sv_world x.2) ∧
  (Inv (sv_world s) → ∀ m, x.1 = Ok m →
     m_APIKey m = key ∧ l_merchants (ledger (sv_world s)) !! m_ID m = Some (norm_merchant m)).
Proof.
  cbv zeta. unfold server_GetByAPIKey, on_world_state.
  assert (Inv (sv_world s) → wp (repo env ctx (λ ci, merchants_GetByAPIKey ci key)) (λ a w',
    Inv w' ∧ frame (sv_world s) w' ∧ ledger w' = ledger (sv_world s) ∧
    ∀ m, a = Ok m → m_APIKey m = key ∧ l_merchants (ledger (sv_world s)) !! m_ID m = Some (norm_merchant m)) (sv_world s)) as Hwp.
  { intros [Hg Hok]. eapply wp_repo; [intros ci; by apply GetByAPIKey_law|].
    intros a w' Hf Hg' Ho.
    assert (ledger w' = ledger (sv_world s)) as HL by (by destruct Ho as [[-> _]|(_ & _ & [->|(? & -> & _)])]).
    split_and!; [split; [done | by rewrite HL] | done | done |].
    intros m ->. by destruct Ho as [[_ Ho]|(_ & [] & _)]. }
  unfold wp in Hwp. destruct (repo _ _ _ _) as [a w']. simpl. split.
  - intros HI. by destruct (Hwp HI) as (? & ? & ? & _).
  - intros HI. by destruct (Hwp HI) as (_ & _ & _ & ?).
Qed.

(** *** Triples about the world of the service *)

Abbreviation world h := (sv_world (h_state h)).

Lemma wp_state_quiet {A} (m : Prog Srv A) (Q : A → HTTP Srv → Prop) h :
  quiet m → (∀ a h', idle (world h) (world h') → Q a h') → wp (state m) Q h.
Proof.
  intros Hm HQ. unfold wp, state. pose proof (Hm (h_state h)) as Hq.
  destruct (m (h_state h)) as [a s]. by apply HQ.
Qed.

Lemma wp_writer c (Q : unit → HTTP Srv → Prop) h :
  (∀ h', world h' = world h → Q tt h') → wp (writer c) Q h.
Proof. intros HQ. by apply HQ. Qed.

Lemma wp_writeError status code msg (Q : outcome → HTTP Srv → Prop) h :
  (∀ h', world h' = world h → Q Returned h') → wp (writeError status code msg) Q h.
Proof. intros HQ. by apply HQ. Qed.

Lemma wp_on_world (hd : Handler W) r (P : W → W → Prop) h :
  (∀ x : HTTP W, P (h_state x) (h_state (hd r x).2)) →
  wp (on_world hd r) (λ _ h', P (world h) (world h')) h.
Proof.
  intros HP. unfold wp, on_world. pose proof (HP (mkHTTP (h_calls h) (sv_world (h_state h)))) as Hx.
  by destruct (hd r _) as [o x'].
Qed.

(** The request a handler under [Idempotency] sees. *)
Definition handed (r r' : HTTPRequest) : Prop :=
  rq_Merchant r' = rq_Merchant r ∧ rq_Context r' = rq_Context r ∧ rq_Body r' = rq_Body r ∧
  header_Get "X-Idempotency-Key" (rq_Header r') = service_key r.

Lemma handed_unkeyed r : request_key r = "" → handed r r.
Proof.
  intros Hk. unfold handed, service_key. unfold request_key in Hk. split_and!; [done..|].
  destruct (bool_decide (header_Get "Idempotency-Key" (rq_Header r) = "")) eqn:E1; [|by rewrite Hk in E1].
  rewrite Hk. simpl. by apply bool_decide_eq_true in E1.
Qed.

Lemma handed_keyed r : request_key r ≠ "" → handed r (keyed r).
Proof.
  intros Hk. destruct (keyed_eq r) as [Em Ec]. unfold handed. split_and!; [done | done | by unfold keyed; case_match |].
  unfold keyed, service_key, request_key in *. case_bool_decide as E; [|done]. simpl.
  unfold header_Get at 1, header_Set. rewrite lookup_insert_eq. simpl. case_bool_decide as E'; [|done].
  by rewrite E, E'.
Qed.

Lemma wp_Idempotency next r m q h :
  rq_Merchant r = Some m →
  (∀ r' h, handed r r' → wp (next r') (λ _ h', acted q (world h) (world h')) h) →
  wp (Idempotency (server_store env cfg) next r) (λ _ h', acted q (world h) (world h')) h.
Proof.
  intros Hm Hnext. unfold Idempotency. fold (request_key r). fold (keyed r).
  destruct (decide (request_key r = "")) as [Hk|Hk].
  { rewrite bool_decide_true by done. by apply Hnext, handed_unkeyed. }
  rewrite bool_decide_false by done. pose proof (handed_keyed r Hk) as Hkeyed.
  unfold GetMerchant. rewrite (proj1 Hkeyed), Hm.
  destruct (quiet_store (rq_Context (keyed r)) (m_ID m) (request_key r) 0 "") as (Hcheck & _ & Hrel).
  apply wp_bind, wp_state_quiet; [done|]. intros [res|e] h1 H1.
  - case_bool_decide as Hd1.
    { unfold replay. apply wp_bind, wp_writer. intros h2 E2. apply wp_bind, wp_writer. intros h3 E3.
      apply wp_bind. destruct (_ <? _)%nat; [apply wp_writer; intros h4 E4 | apply wp_ret]; apply wp_ret; left;
        by rewrite ?E4, ?E3, ?E2. }
    case_bool_decide as Hd2; [apply wp_writeError; intros h2 E2; left; by rewrite E2|].
    unfold run_and_store. apply wp_serve_wrapped.
    wp_use (Hnext (keyed r) h1); [done|]. intros o h2 H2.
    destruct o; [|by eapply acted_idle].
    intros x. destruct (_ && _).
    + apply wp_bind, wp_state_quiet; [apply quiet_store|]. intros [e|] h3 H3.
      * apply wp_bind, wp_state_quiet; [done|]. intros _ h4 H4. apply wp_ret.
        eapply acted_idle; [done | done | by etrans].
      * apply wp_ret. by eapply acted_idle.
    + apply wp_bind, wp_state_quiet; [done|]. intros _ h3 H3. apply wp_ret. by eapply acted_idle.
  - wp_use (Hnext (keyed r) h1); [done|]. intros o h2 H2.
    exact (acted_idle _ _ _ _ _ H1 H2 (reflexivity _)).
Qed.

Lemma wp_api_handler rt r m h :
  rq_Merchant r = Some m →
  wp (api_handler env svc cfg not_found rt r) (λ _ h', acted (asked_route rt r m) (world h) (world h')) h.
Proof.
  intros Hm. destruct rt; simpl; try (left; done).
  - apply (wp_Idempotency _ r m); [done|]. intros r' h' (Em & Ec & Eb & Ek).
    apply wp_on_world. intros x. assert (rq_Merchant r' = Some m) as Hm' by congruence.
    pose proof (Create_acted r' m x Hm') as Ha. unfold asked_create in *. by rewrite Eb, Ec, Ek in Ha.
  - apply wp_on_world. intros x. by apply Get_acted.
  - apply wp_on_world. intros x. by apply Refund_acted.
  - apply wp_on_world. intros x. by apply Events_acted.
  - apply wp_on_world. intros x. by apply Balance_acted.
  - apply wp_on_world. intros x. by apply List_acted.
Qed.

(** The key of a request that authenticates. *)
Definition bearer (r : HTTPRequest) : option string :=
  let authHeader := header_Get "Authorization" (rq_Header r) in
  if bool_decide (authHeader = "") then None
  else match SplitN2 authHeader " " with
       | [scheme; key] => if bool_decide (scheme = "Bearer") then Some key else None
       | _ => None
       end.

(** The merchant the request authenticates as. *)
Definition authentic (r : HTTPRequest) (L : Ledger) (m : Merchant) : Prop :=
  bearer r = Some (m_APIKey m) ∧ IsActive m = true ∧ l_merchants L !! m_ID m = Some (norm_merchant m).

Definition served (r : HTTPRequest) w w' : Prop :=
  idle w w' ∨ (Inv w → ∃ m, authentic r (ledger w) m ∧ acted (asked r m) w w').

Lemma served_idle r w1 w2 w3 w4 : idle w1 w2 → served r w2 w3 → idle w3 w4 → served r w1 w4.
Proof.
  intros H12 H23 H34. destruct H23 as [H23|H23]; [left; by do 2 (etrans; [done|])|].
  right. intros HI. destruct (H12 HI) as (HI2 & _ & HL). destruct (H23 HI2) as (m & Hm & Ha).
  exists m. rewrite HL in Hm. split; [done|]. by eapply acted_idle.
Qed.

Lemma wp_APIKeyAuth next r h :
  (∀ m h, wp (next (set_rq_Merchant m r)) (λ _ h', acted (asked r m) (world h) (world h')) h) →
  wp (APIKeyAuth (server_GetByAPIKey env) next r) (λ _ h', served r (world h) (world h')) h.
Proof.
  intros Hnext. unfold APIKeyAuth.
  assert (∀ st code msg h, wp (writeError st code msg) (λ _ h', served r (world h) (world h')) h) as Hdeny.
  { intros st code msg h0. apply wp_writeError. intros h' E. left. by rewrite E. }
  case_bool_decide as Hh; [apply Hdeny|].
  destruct (SplitN2 _ _) as [|scheme [|key [|]]] eqn:Esplit; [apply Hdeny..| |apply Hdeny].
  case_bool_decide as Hs; [|apply Hdeny].
  apply wp_bind. unfold wp at 1, state.
  pose proof (GetByAPIKey_idle (rq_Context r) key (h_state h)) as [Hidle Hfound]. cbv zeta in *.
  destruct (server_GetByAPIKey env (rq_Context r) key (h_state h)) as [a s]. simpl in Hidle, Hfound.
  set (h1 := mkHTTP (h_calls h) s). destruct a as [m|e].
  - destruct (IsActive m) eqn:Ea; simpl.
    + wp_use (Hnext m h1). intros o h2 Ha. right. intros HI.
      destruct (Hfound HI m eq_refl) as [Hkey Hm].
      exists m. split.
      * split_and!; [|done|done]. unfold bearer. by rewrite bool_decide_false, Esplit, bool_decide_true, Hkey.
      * exact (acted_idle _ _ _ _ _ Hidle Ha (reflexivity _)).
    + wp_use Hdeny. intros o h2 H2. exact (served_idle _ _ _ _ _ Hidle H2 (reflexivity _)).
  - wp_use Hdeny. intros o h2 H2. exact (served_idle _ _ _ _ _ Hidle H2 (reflexivity _)).
Qed.

(** *** The whole stack *)

Lemma idle_DB_HealthCheck ctx w : idle w (DB_HealthCheck env ctx w).2.
Proof.
  intros HI. unfold DB_HealthCheck, now, bind, fresh_step, ret. simpl. split; [done|]. split; [|done].
  split_and!; simpl; try done. lia.
Qed.

Lemma wp_router r h :
  wp (router env svc cfg route not_found scrape r) (λ _ h', served r (world h) (world h')) h.
Proof.
  unfold router. destruct (route _ _) as [rt|] eqn:Ert; [|by left].
  assert (∀ h, wp (APIKeyAuth (server_GetByAPIKey env) (api_handler env svc cfg not_found rt) r)
    (λ _ h', served r (world h) (world h')) h) as Hapi.
  { intros h0. apply wp_APIKeyAuth. intros m h1. unfold asked. rewrite Ert.
    exact (wp_api_handler rt (set_rq_Merchant m r) m h1 eq_refl). }
  destruct rt; try apply Hapi; try (by left).
  wp_use (wp_on_world (HealthHandler_Check (Some (DB_HealthCheck env)) (sc_version cfg)) r idle).
  - intros x. unfold HealthHandler_Check. rewrite state_then; [apply idle_DB_HealthCheck | done].
  - intros o h' Hi. by left.
Qed.

(** The middleware outside the router leaves the service alone. *)
Definition serves r (hd : Handler Srv) : Prop :=
  ∀ id h, wp (hd (set_rq_RequestID id r)) (λ _ h', served r (world h) (world h')) h.

Lemma serves_router r : serves r (router env svc cfg route not_found scrape).
Proof. intros id h. exact (wp_router (set_rq_RequestID id r) h). Qed.

Lemma serves_RateLimit r hd : serves r hd → serves r (RateLimit (Some (server_limiter env cfg tostring tonumber)) hd).
Proof.
  intros Hhd id h. unfold RateLimit. apply wp_bind, wp_state_quiet; [apply quiet_limiter|].
  intros [ok e] h1 H1. destruct (_ || ok).
  - wp_use (Hhd id h1). intros o h2 H2. exact (served_idle _ _ _ _ _ H1 H2 (reflexivity _)).
  - apply wp_bind, wp_writer. intros h2 E2. apply wp_writeError. intros h3 E3. left. by rewrite E3, E2.
Qed.

Lemma serves_CORS r hd : serves r hd → serves r (CORS hd).
Proof.
  intros Hhd id h. unfold CORS.
  apply wp_bind, wp_writer. intros h1 E1. apply wp_bind, wp_writer. intros h2 E2.
  apply wp_bind, wp_writer. intros h3 E3. apply wp_bind, wp_writer. intros h4 E4.
  assert (world h4 = world h) as E by congruence. case_bool_decide.
  - apply wp_bind, wp_writer. intros h5 E5. apply wp_ret. left. by rewrite E5, E.
  - rewrite <- E. apply Hhd.
Qed.

Lemma quiet_registry {A} (m : Prog Registry A) : quiet (on_registry m).
Proof. apply quiet_same. intros s. unfold on_registry. by destruct (m _). Qed.

Lemma serves_Metrics r hd : serves r hd → serves r (MetricsMiddleware (server_Now env) hd).
Proof.
  intros Hhd id h. unfold MetricsMiddleware.
  apply wp_bind, wp_state_quiet; [apply quiet_registry|]. intros _ h1 H1.
  apply wp_bind, wp_state_quiet; [apply quiet_now|]. intros t0 h2 H2. apply wp_bind.
  assert (∀ (o : outcome) h3, served r (world h2) (world h3) →
    wp (let! _ := state DecrementActive in ret o) (λ _ h', served r (world h) (world h')) h3) as Hend.
  { intros o h3 H3. apply wp_bind, wp_state_quiet; [apply quiet_registry|]. intros _ h4 H4. apply wp_ret.
    eapply served_idle; [etrans; [exact H1 | exact H2] | exact H3 | exact H4]. }
  apply wp_serve_wrapped. wp_use (Hhd id h2). intros o h3 H3. destruct o; [|by apply Hend].
  intros x. apply wp_bind, wp_state_quiet; [apply quiet_now|]. intros t h4 H4.
  apply wp_state_quiet; [apply quiet_registry|]. intros o' h5 H5. apply Hend.
  eapply served_idle; [reflexivity | exact H3 | etrans; [exact H4 | exact H5]].
Qed.

Lemma serves_Logging r hd : serves r hd → serves r (Logging (server_Now env) (λ e, modify (add_log e)) hd).
Proof.
  intros Hhd id h. unfold Logging. apply wp_bind, wp_state_quiet; [apply quiet_now|]. intros t0 h1 H1.
  apply wp_serve_wrapped. wp_use (Hhd id h1). intros o h2 H2.
  destruct o; [|exact (served_idle _ _ _ _ _ H1 H2 (reflexivity _))].
  intros x. apply wp_bind, wp_state_quiet; [apply quiet_now|]. intros t h3 H3.
  apply wp_bind, wp_state_quiet; [by apply quiet_same|]. intros _ h4 H4. apply wp_ret.
  eapply served_idle; [exact H1 | exact H2 | etrans; [exact H3 | exact H4]].
Qed.

Lemma serves_Tracing r hd :
  serves r hd → serves r (Tracing extract route_pattern (end_span cfg) (sc_service cfg) hd).
Proof.
  intros Hhd id h. unfold Tracing. apply wp_serve_wrapped. wp_use (Hhd id h). intros o h2 H2.
  destruct o; [|done]. intros x. apply wp_bind, wp_get, wp_bind, wp_state_quiet.
  { apply quiet_same. intros s. unfold end_span. by destruct (sc_tracing cfg). }
  intros _ h3 H3. apply wp_ret. exact (served_idle _ _ _ _ _ (reflexivity _) H2 H3).
Qed.

Lemma wp_RequestID r hd h : serves r hd →
  wp (RequestID (server_Now env) hd r) (λ _ h', served r (world h) (world h')) h.
Proof.
  intros Hhd. unfold RequestID. apply wp_bind.
  assert (∀ id h1, idle (world h) (world h1) →
    wp (let! _ := writer (CallSet "X-Request-ID" id) in hd (set_rq_RequestID id r))
      (λ _ h', served r (world h) (world h')) h1) as Hrest.
  { intros id h1 H1. apply wp_bind, wp_writer. intros h2 E2. wp_use (Hhd id h2). intros o h3 H3.
    rewrite E2 in H3. exact (served_idle _ _ _ _ _ H1 H3 (reflexivity _)). }
  case_bool_decide.
  - apply wp_bind, wp_state_quiet; [apply quiet_now|]. intros n h1 H1. by apply wp_ret, Hrest.
  - by apply wp_ret, Hrest.
Qed.

Abbreviation serve := (serve_request env svc cfg route not_found scrape extract route_pattern tostring tonumber).

Lemma wp_serve r s :
  wp (serve r) (λ x s', x.1 = Returned ∧ served r (sv_world s) (sv_world s')) s.
Proof.
  assert (wp (root_handler env svc cfg route not_found scrape extract route_pattern tostring tonumber r)
    (λ o h', o = Returned ∧ served r (sv_world s) (world h')) (mkHTTP [] s)) as Hroot.
  { unfold root_handler, Recovery. apply wp_bind.
    wp_use wp_RequestID.
    - apply serves_Tracing, serves_Logging, serves_Metrics, serves_CORS, serves_RateLimit, serves_router.
    - intros [|e] h' H'; [by apply wp_ret|]. apply wp_writeError. intros h2 E2. by rewrite E2. }
  unfold wp, serve_request in *. by destruct (root_handler _ _ _ _ _ _ _ _ _ _ r _).
Qed.

(** *** Sequences of requests *)

(** What the requests of a server preserve, apart from the merchants they
    authenticate as. *)
Lemma idle_preserved mid w w' : fresh_ids env w → Inv w → idle w w' → preserved env svc mid w w'.
Proof. intros Hfr HI Hi. destruct (Hi HI) as (HI' & Hf & HL). by apply preserved_idle. Qed.

Lemma preserved_trans mid w1 w2 w3 :
  preserved env svc mid w1 w2 → preserved env svc mid w2 w3 → preserved env svc mid w1 w3.
Proof.
  intros (HI2 & Hfr2 & [Hm2 Ht2] & Hmon2) (HI3 & Hfr3 & [Hm3 Ht3] & Hmon3).
  split; [done|]. split; [done|]. split.
  - split.
    + intros i Hi. by rewrite Hm3, Hm2.
    + intros id t Ht. by rewrite Ht3, Ht2.
  - intros Hdb. by rewrite Hmon3, Hmon2.
Qed.

Lemma acted_preserved r m w w' :
  service_ok svc → ids_unique env → Inv w → fresh_ids env w → acted (asked r m) w w' →
  preserved env svc (m_ID m) w w' ∧ advances (ledger w) (ledger w').
Proof.
  intros Hs Hu HI Hfr [Hi|(req & w1 & Hq & H1 & H2)].
  { split; [by apply idle_preserved|]. by destruct (Hi HI) as (_ & _ & ->). }
  apply asked_ok in Hq as [Hr Hok]. destruct (H1 HI) as (_ & _ & HL1).
  pose proof (idle_preserved (m_ID m) w w1 Hfr HI H1) as Hp1. pose proof Hp1 as (HI1 & Hfr1 & _ & _).
  pose proof (wp_request_advances env svc req w1 Hs Hok HI1 Hfr1) as Ha.
  pose proof (wp_run_request env svc req w1 Hs Hu Hok HI1 Hfr1) as Hp2. rewrite Hr in Hp2.
  unfold wp in Ha, Hp2. destruct (run_request env svc req w1) as [u w2]. simpl in H2.
  pose proof Hp2 as (HI2 & Hfr2 & _ & _). split.
  - eapply preserved_trans; [exact Hp1|]. eapply preserved_trans; [exact Hp2|]. by apply idle_preserved.
  - destruct (H2 HI2) as (_ & _ & ->). by rewrite <- HL1.
Qed.

(** The requests do not carry the key of a merchant. *)
Definition strangers (rs : list HTTPRequest) (mid : string) (L : Ledger) : Prop :=
  ∀ r m, r ∈ rs → l_merchants L !! mid = Some m → bearer r ≠ Some (m_APIKey m).

Lemma served_effect r w w' :
  service_ok svc → ids_unique env → Inv w → fresh_ids env w → served r w w' →
  Inv w' ∧ fresh_ids env w' ∧ (s_db svc = true → money_eq (ledger w') (ledger w)) ∧
  advances (ledger w) (ledger w') ∧
  ∀ mid, strangers [r] mid (ledger w) →
    l_merchants (ledger w') !! mid = l_merchants (ledger w) !! mid ∧
    ∀ id t, tx_MerchantID t = mid → l_txns (ledger w') !! id = Some t ↔ l_txns (ledger w) !! id = Some t.
Proof.
  intros Hs Hu HI Hfr [Hi|Ha].
  - destruct (idle_preserved "" w w' Hfr HI Hi) as (HI' & Hfr' & _ & Hmon).
    destruct (Hi HI) as (_ & _ & HL). split_and!; [done..| by rewrite HL |]. intros mid _. by rewrite HL.
  - destruct (Ha HI) as (m & (Hb & _ & Hm) & Hact).
    destruct (acted_preserved r m w w' Hs Hu HI Hfr Hact) as [(HI' & Hfr' & [Hmer Htx] & Hmon) Hadv].
    split_and!; [done..|]. intros mid Hstr.
    assert (mid ≠ m_ID m) as Hne.
    { intros ->. apply (Hstr r (norm_merchant m)); [apply list_elem_of_here | done | done]. }
    split; [by apply Hmer|]. intros id t Ht. apply Htx. congruence.
Qed.

Abbreviation serve_all := (serve_requests env svc cfg route not_found scrape extract route_pattern tostring tonumber).

Lemma wp_serve_all rs : ∀ s,
  service_ok svc → ids_unique env → Inv (sv_world s) → fresh_ids env (sv_world s) →
  wp (serve_all rs) (λ _ s', (Inv (sv_world s') ∧ fresh_ids env (sv_world s')) ∧
    (s_db svc = true → money_eq (ledger (sv_world s')) (ledger (sv_world s))) ∧
    advances (ledger (sv_world s)) (ledger (sv_world s')) ∧
    ∀ mid, strangers rs mid (ledger (sv_world s)) →
      l_merchants (ledger (sv_world s')) !! mid = l_merchants (ledger (sv_world s)) !! mid ∧
      ∀ id t, tx_MerchantID t = mid →
        l_txns (ledger (sv_world s')) !! id = Some t ↔ l_txns (ledger (sv_world s)) !! id = Some t) s.
Proof.
  induction rs as [|r rs IH]; intros s Hs Hu HI Hfr; simpl; [apply wp_ret; by split_and!|].
  apply wp_bind. wp_use (wp_serve r s). intros x s1 [_ H1].
  destruct (served_effect r _ _ Hs Hu HI Hfr H1) as (HI1 & Hfr1 & Hmon1 & Hadv1 & Hiso1).
  apply wp_bind. wp_use (IH s1 Hs Hu HI1 Hfr1). intros xs s2 ([HI2 Hfr2] & Hmon2 & Hadv2 & Hiso2).
  apply wp_ret. split_and!; [done | done | | by etrans |].
  - intros Hdb. by rewrite Hmon2, Hmon1.
  - intros mid Hstr. destruct (Hiso1 mid) as [Hm1 Ht1].
    { intros r' m ->%list_elem_of_singleton. apply Hstr, list_elem_of_here. }
    destruct (Hiso2 mid) as [Hm2 Ht2].
    { intros r' m Hr' Hm. apply Hstr; [by apply list_elem_of_further | by rewrite <- Hm1]. }
    split; [by rewrite Hm2, Hm1|]. intros id t Ht. by rewrite Ht2, Ht1.
Qed.

(** ** Properties *)

(** C4 The server refines the service.  Whatever the request, the configuration
    and the faults of the database and of Redis, serving it returns (a panic
    never escapes), and acts on the payment service as at most one request:
    the one that its method, path, headers and body ask for, on behalf of an
    active merchant whose API key it carries; everything else the middleware
    does leaves the ledger, the circuit breaker and the bank alone. *)
Theorem server_refines r s :
  wp (serve r) (λ x s', x.1 = Returned ∧
    let w := sv_world s in let w' := sv_world s' in
    (idle w w' ∨
     (Inv w → ∃ m, authentic r (ledger w) m ∧
        (idle w w' ∨ ∃ req w1, asked r m = Some req ∧ idle w w1 ∧ idle (run_request env svc req w1).2 w')))) s.
Proof. exact (wp_serve r s). Qed.

(** The server conserves money: over any sequence of HTTP requests, with
    whatever headers, bodies, faults and cancellations, the balance of every
    merchant minus the sum of its completed transactions stays what it was,
    the store stays well formed, no transaction disappears or leaves the state
    machine, and audit events and outbox entries are only appended. *)
Theorem server_conserves_money rs s :
  s_db svc = true → service_ok svc → ids_unique env → Inv (sv_world s) → fresh_ids env (sv_world s) →
  wp (serve_all rs) (λ _ s',
    ledger_ok (ledger (sv_world s')) ∧ advances (ledger (sv_world s)) (ledger (sv_world s')) ∧
    ∀ mid, surplus (ledger (sv_world s')) mid = surplus (ledger (sv_world s)) mid) s.
Proof.
  intros Hdb Hs Hu HI Hfr. wp_use (wp_serve_all rs s Hs Hu HI Hfr). intros _ s' ([[_ Hok] _] & Hmon & Hadv & _).
  split; [done|]. split; [done|]. exact (Hmon Hdb).
Qed.

(** C31 Only its API key opens an account: no sequence of HTTP requests that do
    not carry the key of a merchant changes its balance, its record or any of
    its transactions. *)
Theorem server_isolates rs mid s :
  service_ok svc → ids_unique env → Inv (sv_world s) → fresh_ids env (sv_world s) →
  strangers rs mid (ledger (sv_world s)) →
  wp (serve_all rs) (λ _ s',
    l_merchants (ledger (sv_world s')) !! mid = l_merchants (ledger (sv_world s)) !! mid ∧
    ∀ id t, tx_MerchantID t = mid →
      (l_txns (ledger (sv_world s')) !! id = Some t ↔ l_txns (ledger (sv_world s)) !! id = Some t)) s.
Proof.
  intros Hs Hu HI Hfr Hstr. wp_use (wp_serve_all rs s Hs Hu HI Hfr). intros _ s' (_ & _ & _ & Hiso).
  exact (Hiso mid Hstr).
Qed.

(** *** Idempotency keys *)

Definition posts (r : HTTPRequest) : Prop := route (rq_Method r) (rq_Path r) = Some RouteCreate.

Lemma idle_untouched w w' : Inv w → idle w w' → untouched w w'.
Proof. intros HI Hi. destruct (Hi HI) as (_ & (_ & Hc & _) & HL). by split. Qed.

(** A POST with a key has no effect, or spends the key. *)
Lemma served_spends r w w' :
  service_ok svc → ids_unique env → Inv w → fresh_ids env w → posts r → service_key r ≠ "" → served r w w' →
  untouched w w' ∨ ¬ key_used (service_key r) (ledger w) ∧ key_used (service_key r) (ledger w').
Proof.
  intros Hs Hu HI Hfr Hpost Hne [Hi|Ha]; [left; by apply idle_untouched|].
  destruct (Ha HI) as (m & _ & [Hi|(req & w1 & Hq & H1 & H2)]); [left; by apply idle_untouched|].
  destruct (asked_ok r m req Hq) as [_ Hok]. destruct (H1 HI) as (_ & _ & HL1).
  destruct (idle_preserved "" w w1 Hfr HI H1) as (HI1 & Hfr1 & _).
  pose proof (wp_run_request env svc req w1 Hs Hu Hok HI1 Hfr1) as Hp.
  unfold asked in Hq. rewrite Hpost in Hq. simpl in Hq. unfold asked_create in Hq.
  destruct (DecodeCreate _) as [b|]; [|done]. destruct (_ <=? _); [done|]. injection Hq as <-.
  set (input := mkCreateTransactionInput _ _ _ _ _) in *.
  pose proof (wp_Create_spent env svc (rq_Context r) input w1 Hs HI1 Hfr1 Hok Hne) as Hk.
  unfold wp, run_request, bind, ret in Hk, Hp, H2. simpl in H2.
  destruct (CreateTransaction env svc (rq_Context r) input w1) as [a w2]. simpl in H2.
  destruct Hp as (HI2 & _). destruct (idle_untouched w w1 HI H1) as [_ C1].
  destruct (idle_untouched w2 w' HI2 H2) as [L2 C2].
  destruct Hk as [[L C]|[Hn Hk]]; [left; split; congruence | right]. by rewrite <- HL1, L2.
Qed.

(** C5 A payment is made at most once per idempotency key.  Of any two POSTs to
    the server that carry the same key (in either header, with whatever other
    headers and bodies), and whatever requests come between them and whatever
    fails in the database, in Redis, at the bank or in either request, at most
    one has any effect: the other changes nothing in the store and charges the
    bank nothing. *)
Theorem server_pays_once r rs r' s :
  service_ok svc → ids_unique env → Inv (sv_world s) → fresh_ids env (sv_world s) →
  posts r → posts r' → service_key r ≠ "" → service_key r' = service_key r →
  wp (serve r) (λ _ s1, wp (serve_all rs) (λ _ s2, wp (serve r') (λ _ s3,
    untouched (sv_world s) (sv_world s1) ∨ untouched (sv_world s2) (sv_world s3)) s2) s1) s.
Proof.
  intros Hs Hu HI Hfr Hp Hp' Hne Hkey. wp_use (wp_serve r s). intros x s1 [_ H1].
  destruct (served_effect r _ _ Hs Hu HI Hfr H1) as (HI1 & Hfr1 & _).
  wp_use (wp_serve_all rs s1 Hs Hu HI1 Hfr1).
  intros xs s2 ([HI2 Hfr2] & _ & Hadv & _). wp_use (wp_serve r' s2). intros x' s3 [_ H3].
  destruct (served_spends r _ _ Hs Hu HI Hfr Hp Hne H1) as [?|[_ Hused]]; [by left|right].
  apply (advances_key_used _ _ _ Hadv) in Hused. rewrite <- Hkey in Hused, Hne.
  by destruct (served_spends r' _ _ Hs Hu HI2 Hfr2 Hp' Hne H3) as [?|[Hn _]].
Qed.
End refinement.
