(* ===== verification/ServerWitnesses.v ===== *)
(** * ServerWitnesses: the hypotheses of the server theorems can hold

    One concrete server: the service and the SQL store of PaymentWitnesses, a
    key space for Redis, a small JSON codec and a routing table. *)

From stdpp Require Import base tactics list gmap strings pretty.
From Stdlib Require String.
From S2P Require Import Prelude GoLib Float64 Domain Repository Postgres Resilience Bank Payment Accounting PaymentLogic PaymentSpecs PaymentOutcome PaymentTheorems Lifecycle PaymentWitnesses Http RateLimit Redis Metrics Middleware Idempotency RedisLimiter Handler HandlerTheorems Server ServerTheorems.

Open Scope string_scope.
Open Scope Z_scope.

#[local] Existing Instance sorted_range.
#[local] Instance plain_events_here : EventRepository PgStore := pg_event_repo None.

#[local] Existing Instance json0.

Definition route0 (method path : string) : option Route :=
  if bool_decide (path = "/health") then Some RouteHealth
  else if bool_decide (path = "/api/v1/transactions") then Some RouteCreate
  else if bool_decide (path = "/api/v1/transactions/old/refund") then Some (RouteRefund "old")
  else if bool_decide (path = "/api/v1/merchants/m_001/balance") then Some (RouteBalance "m_001")
  else if String.prefix "/api/v1/" path then Some RouteUnknown
  else None.

Definition cfg0 : ServerConfig := mkServerConfig true 10 20 "1.0.0" true "payflow".

Definition server0 : Server PgStore KeySpace := mkServer world0 (NewRateLimiter 10 20) ∅ [] new_registry [].

(** The trace context of a request, and the pattern of a route. *)
Definition extract0 (h : Header) : string := header_Get "traceparent" h.
Definition pattern0 (r : HTTPRequest) (_ : HTTP (Server PgStore KeySpace)) : string :=
  match route0 (rq_Method r) (rq_Path r) with Some (RouteRefund _) => "/api/v1/transactions/{id}/refund" | _ => "" end.

Definition serve0 :=
  serve_requests env0 service0 cfg0 route0 [CallWriteHeader 404] (λ _, [CallWrite "metrics"]) extract0 pattern0
    (λ x, pretty x) ParseInt.

Definition request0 (method path : string) (h : list (string * string)) (body : string) : HTTPRequest :=
  mkHTTPRequest method path ∅ (foldr (λ kv h, header_Set kv.1 kv.2 h) ∅ h) "10.0.0.1:80" body Background None None.

Definition auth0 : string * string := ("Authorization", "Bearer sk_live_maple_001").

(** A payment, its retry under the same key, a refund, a stranger, a probe, and
    unknown paths, of which those below /api/v1 ask for a key. *)
Definition http0 : list HTTPRequest :=
  [request0 "POST" "/api/v1/transactions" [auth0; ("Idempotency-Key", "k7")] "create";
   request0 "POST" "/api/v1/transactions" [auth0; ("Idempotency-Key", "k7")] "create";
   request0 "POST" "/api/v1/transactions/old/refund" [auth0] "duplicate";
   request0 "GET" "/api/v1/merchants/m_001/balance" [("Authorization", "Bearer wrong")] "";
   request0 "GET" "/health" [] "";
   request0 "GET" "/api/v1/nowhere" [] "";
   request0 "GET" "/api/v1/nowhere" [auth0] "";
   request0 "GET" "/nowhere" [] ""].

Example http0_statuses : map status_of (serve0 http0 server0).1 = [201; 201; 200; 401; 200; 401; 404; 404].
Proof. vm_compute. reflexivity. Qed.

Definition strangers0 : list HTTPRequest :=
  [request0 "GET" "/api/v1/merchants/m_001/balance" [("Authorization", "Bearer wrong")] "";
   request0 "POST" "/api/v1/transactions/old/refund" [] ""].

Lemma strangers0_ok : strangers strangers0 "m_001" (ledger world0).
Proof.
  intros r m Hr. unfold ledger. simpl. rewrite lookup_fmap, lookup_singleton_eq. intros [= <-].
  unfold strangers0 in Hr. rewrite !elem_of_cons, elem_of_nil in Hr.
  destruct Hr as [->|[->|[]]]; vm_compute; discriminate.
Qed.

Lemma server_conserves_money_witness :
  wp (serve0 http0) (λ _ s', ledger_ok (ledger (sv_world s')) ∧
    advances (ledger world0) (ledger (sv_world s')) ∧
    ∀ mid, surplus (ledger (sv_world s')) mid = surplus (ledger world0) mid) server0.
Proof.
  apply (server_conserves_money env0 service0 cfg0 route0 [CallWriteHeader 404] (λ _, [CallWrite "metrics"]) extract0 pattern0
    (λ x, pretty x) ParseInt http0 server0);
    [done | apply service0_ok | apply ids_unique0 | apply Inv0 | apply fresh_ids0].
Defined.

Lemma server_isolates_witness :
  wp (serve0 strangers0) (λ _ s',
    l_merchants (ledger (sv_world s')) !! "m_001" = l_merchants (ledger world0) !! "m_001" ∧
    ∀ id t, tx_MerchantID t = "m_001" →
      (l_txns (ledger (sv_world s')) !! id = Some t ↔ l_txns (ledger world0) !! id = Some t)) server0.
Proof.
  apply (server_isolates env0 service0 cfg0 route0 [CallWriteHeader 404] (λ _, [CallWrite "metrics"]) extract0 pattern0
    (λ x, pretty x) ParseInt strangers0 "m_001" server0);
    [apply service0_ok | apply ids_unique0 | apply Inv0 | apply fresh_ids0 | apply strangers0_ok].
Defined.

Definition refund_request0 : HTTPRequest :=
  request0 "POST" "/api/v1/transactions/old/refund" [auth0; ("X-Request-ID", "r-1")] "duplicate".

Lemma server_refines_witness :
  asked route0 refund_request0 maple = Some (ReqRefund Background "m_001" "old" "duplicate") ∧
  wp (serve_request env0 service0 cfg0 route0 [CallWriteHeader 404] (λ _, [CallWrite "metrics"]) extract0 pattern0
        (λ x, pretty x) ParseInt refund_request0)
    (λ x s', x.1 = Returned ∧
      let w := world0 in let w' := sv_world s' in
      (idle w w' ∨
       (Inv w → ∃ m, authentic refund_request0 (ledger w) m ∧
          (idle w w' ∨ ∃ req w1, asked route0 refund_request0 m = Some req ∧ idle w w1 ∧
             idle (run_request env0 service0 req w1).2 w')))) server0.
Proof.
  split; [reflexivity|].
  exact (server_refines env0 service0 cfg0 route0 [CallWriteHeader 404] (λ _, [CallWrite "metrics"]) extract0 pattern0
    (λ x, pretty x) ParseInt refund_request0 server0).
Defined.

(** A payment, and another with the same key in the other header. *)
Definition pay0 : HTTPRequest := request0 "POST" "/api/v1/transactions" [auth0; ("Idempotency-Key", "k7")] "create".
Definition pay_again0 : HTTPRequest :=
  request0 "POST" "/api/v1/transactions" [auth0; ("X-Idempotency-Key", "k7")] "create".

Lemma server_pays_once_witness :
  service_key pay0 = "k7" ∧
  wp (serve0 [pay0]) (λ _ s1, length (w_charges (sv_world s1)) = 1%nat) server0 ∧
  wp (serve_request env0 service0 cfg0 route0 [CallWriteHeader 404] (λ _, [CallWrite "metrics"]) extract0 pattern0
        (λ x, pretty x) ParseInt pay0) (λ _ s1, wp (serve0 strangers0) (λ _ s2,
    wp (serve_request env0 service0 cfg0 route0 [CallWriteHeader 404] (λ _, [CallWrite "metrics"]) extract0 pattern0
          (λ x, pretty x) ParseInt pay_again0) (λ _ s3,
      untouched world0 (sv_world s1) ∨ untouched (sv_world s2) (sv_world s3)) s2) s1) server0.
Proof.
  split; [reflexivity|]. split; [vm_compute; reflexivity|].
  apply (server_pays_once env0 service0 cfg0 route0 [CallWriteHeader 404] (λ _, [CallWrite "metrics"]) extract0 pattern0
    (λ x, pretty x) ParseInt pay0 strangers0 pay_again0 server0);
    [apply service0_ok | apply ids_unique0 | apply Inv0 | apply fresh_ids0 | reflexivity | reflexivity
    | discriminate | reflexivity].
Defined.
