(* ===== verification/Concurrency.v ===== *)
(** * Concurrency: the other patterns of internal/concurrency/patterns.go

    [ProcessConcurrently] as a step relation over its loop, its semaphore and
    its goroutines; [VerifyTransaction] over the arrival of the results of its
    checks; and [SafeMetrics]. *)

From stdpp Require Import base tactics list gmap strings relations.
From S2P Require Import Prelude GoLib Float64.

Open Scope string_scope.
Open Scope Z_scope.

(** ** ProcessConcurrently *)

(* go: internal/concurrency/patterns.go 160-164 *)
Record ProcessResult := mkProcessResult { pr_ID : string; pr_Output : string; pr_Error : error }.

#[export] Instance ProcessResult_eq_dec : EqDecision ProcessResult.
Proof. solve_decision. Defined.

Section process.
Variable ctx : Ctx.
Variable ids : list string.
Variable concurrency : nat.

(** The loop index, the goroutines that hold the semaphore, by index, and the
    array of results; its cells start with the zero value. *)
Record Processing := mkProcessing { pc_next : nat; pc_running : list nat; pc_results : list ProcessResult }.

Definition zero_result : ProcessResult := mkProcessResult "" "" None.

Definition start_processing : Processing := mkProcessing 0 [] (replicate (length ids) zero_result).

(** What a goroutine writes: the error of a context that was done, or the output. *)
Definition processed (id : string) (res : ProcessResult) : Prop :=
  res = mkProcessResult id ("processed_" +:+ id) None ∨
  ∃ t cause, ctx_done ctx = Some (t, cause) ∧ res = mkProcessResult id "" (Some cause).

(** The loop sends to the semaphore and starts a goroutine; a goroutine writes
    its cell and receives from the semaphore. *)
(* go: internal/concurrency/patterns.go ProcessConcurrently *)
Inductive process_step : Processing → Processing → Prop :=
| process_start i running results :
    (i < length ids)%nat → (length running < concurrency)%nat →
    process_step (mkProcessing i running results) (mkProcessing (S i) (i :: running) results)
| process_finish i l k results id res next :
    ids !! i = Some id → processed id res →
    process_step (mkProcessing next (l ++ i :: k) results)
      (mkProcessing next (l ++ k) (<[i := res]> results)).

(** [wg.Wait()] returns after the loop when every goroutine is done. *)
Definition process_returns (p : Processing) : Prop := pc_next p = length ids ∧ pc_running p = [].

(** The cells of the started and finished goroutines are written; the semaphore
    holds. *)
Record process_ok (p : Processing) : Prop := {
  pok_next : (pc_next p ≤ length ids)%nat;
  pok_length : length (pc_results p) = length ids;
  pok_running : NoDup (pc_running p) ∧ Forall (λ i, (i < pc_next p)%nat) (pc_running p);
  pok_sem : (length (pc_running p) ≤ concurrency)%nat;
  pok_done i id : ids !! i = Some id → (i < pc_next p)%nat → i ∉ pc_running p →
    ∃ res, pc_results p !! i = Some res ∧ processed id res
}.

Lemma process_start_ok : process_ok start_processing.
Proof.
  split; simpl; [lia | apply length_replicate | | lia | intros; lia].
  split; [apply NoDup_nil_2 | done].
Qed.

Lemma process_step_ok p p' : process_step p p' → process_ok p → process_ok p'.
Proof.
  destruct 1 as [i running results Hi Hc|i l k results id res next Hid Hres]; intros [Hn Hl [Hnd Hlt] Hs Hd];
    simpl in *; split; simpl.
  - lia.
  - done.
  - split.
    + constructor; [|done]. rewrite Forall_forall in Hlt. intros Hin%Hlt. lia.
    + constructor; [lia|]. eapply Forall_impl; [exact Hlt|]. simpl. lia.
  - lia.
  - intros j id Hj Hlt' [Hne Hnot]%not_elem_of_cons. apply Hd; [done | lia | done].
  - done.
  - by rewrite length_insert.
  - split.
    + rewrite NoDup_app, NoDup_cons in Hnd. rewrite NoDup_app. set_solver.
    + rewrite Forall_app, Forall_cons in Hlt. rewrite Forall_app. tauto.
  - rewrite length_app in *. simpl in Hs. lia.
  - intros j id' Hj Hlt' Hnot. destruct (decide (j = i)) as [->|Hne].
    + rewrite Hid in Hj. injection Hj as <-. exists res. split; [|done].
      apply list_lookup_insert_eq. rewrite Hl. by eapply lookup_lt_Some.
    + rewrite list_lookup_insert_ne by done. apply Hd; [done..|]. set_solver.
Qed.

(** Steps left: two for every index not started, one for every goroutine. *)
Definition process_weight (p : Processing) : nat :=
  2 * (length ids - pc_next p) + length (pc_running p).

Lemma process_step_weight p p' : process_step p p' → (process_weight p' < process_weight p)%nat.
Proof.
  unfold process_weight. destruct 1; simpl; rewrite ?length_app; simpl; lia.
Qed.

Lemma process_progress p :
  process_ok p → (0 < concurrency)%nat → ¬ process_returns p → ∃ p', process_step p p'.
Proof.
  intros [Hn Hl [Hnd Hlt] Hs Hd] Hc Hret. destruct p as [next running results]. simpl in *.
  destruct running as [|i running].
  - eexists. apply process_start; [|simpl; lia].
    destruct (decide (next = length ids)) as [->|]; [by destruct Hret | lia].
  - apply Forall_cons in Hlt as [Hi _].
    destruct (lookup_lt_is_Some_2 ids i) as [id Hid]; [lia|].
    eexists. apply (process_finish i [] running _ id (mkProcessResult id ("processed_" +:+ id) None)); [done|].
    by left.
Qed.

(** C40 [ProcessConcurrently] does all the work within its limit.  With a
    positive concurrency every execution is finite, never runs more goroutines
    than the limit, and ends only by returning one result per id, at the index
    of the id: its output, or the error of a cancelled context.  With a limit
    of zero the call blocks forever as soon as there is an id. *)
Theorem ProcessConcurrently_complete :
  (∀ p, rtc process_step start_processing p → (length (pc_running p) ≤ concurrency)%nat) ∧
  (∀ n p, nsteps process_step n start_processing p → (n ≤ 2 * length ids)%nat) ∧
  ((0 < concurrency)%nat → ∀ p, rtc process_step start_processing p → (∀ p', ¬ process_step p p') →
     process_returns p ∧ length (pc_results p) = length ids ∧
     ∀ i id, ids !! i = Some id → ∃ res, pc_results p !! i = Some res ∧ processed id res) ∧
  (concurrency = 0%nat → ids ≠ [] → ∀ p, rtc process_step start_processing p → ¬ process_returns p).
Proof.
  assert (∀ p, rtc process_step start_processing p → process_ok p) as Hok.
  { intros p Hp. pose proof process_start_ok as H0. revert H0.
    induction Hp as [|a b c Hab _ IH]; [done|]. intros Ha. by apply IH, (process_step_ok a). }
  split_and!.
  - intros p Hp. apply (pok_sem _ (Hok p Hp)).
  - assert (∀ n p p', nsteps process_step n p p' → (n + process_weight p' ≤ process_weight p)%nat) as Hw.
    { intros n p p'. induction 1 as [|n p p1 p' Hs _ IH]; [done|]. apply process_step_weight in Hs. lia. }
    intros n p Hn. apply Hw in Hn. unfold process_weight in Hn. simpl in Hn. lia.
  - intros Hc p Hp Hstuck. pose proof (Hok p Hp) as Hp'.
    assert (process_returns p) as Hr.
    { destruct (decide (pc_next p = length ids ∧ pc_running p = [])) as [|Hno]; [done|].
      destruct (process_progress p Hp' Hc) as [p' Hs]; [done|]. by destruct (Hstuck p'). }
    split_and!; [done | apply (pok_length _ Hp') |]. intros i id Hi. destruct Hr as [Hnext Hrun].
    apply (pok_done _ Hp'); [done | | by rewrite Hrun; apply not_elem_of_nil].
    rewrite Hnext. by eapply lookup_lt_Some.
  - intros H0 Hne p Hp [Hnext _].
    assert (p = start_processing) as ->.
    { apply rtc_inv in Hp as [<-|(q & Hs & _)]; [done|]. exfalso.
      remember start_processing as p0 eqn:E. unfold start_processing in E.
      destruct Hs as [? ? ? ? Hlt|? l ? ? ? ? ? ? ?]; injection E as ? ? ?; [lia | by destruct l]. }
    simpl in Hnext. by destruct ids.
Qed.
End process.

(** Two ids, one at a time: the first goroutine is done. *)
Definition one_done : Processing :=
  mkProcessing 1 [] [mkProcessResult "a" "processed_a" None; zero_result].

Lemma ProcessConcurrently_complete_witness :
  (length (pc_running one_done) ≤ 1)%nat ∧
  (∀ p, rtc (process_step Background ["a"; "b"] 1) (start_processing ["a"; "b"]) p →
     (∀ p', ¬ process_step Background ["a"; "b"] 1 p p') → process_returns ["a"; "b"] p).
Proof.
  destruct (ProcessConcurrently_complete Background ["a"; "b"] 1) as (H1 & _ & H3 & _). split.
  - apply H1. eapply rtc_l; [apply process_start; simpl; lia|].
    eapply rtc_l; [|apply rtc_refl].
    exact (process_finish Background ["a"; "b"] 1 0 [] [] (replicate 2 zero_result) "a"
      (mkProcessResult "a" "processed_a" None) 1 eq_refl (or_introl eq_refl)).
  - intros p Hp Hstuck. apply (H3 Nat.lt_0_1 p Hp Hstuck).
Defined.

(** ** VerifyTransaction *)

(* go: internal/concurrency/patterns.go 71-76 *)
Record VerificationResult := mkVerificationResult { vr_Check : string; vr_Passed : bool; vr_Error : error }.

(** The three checks, each with what it decides when its timer fires before the
    context ends; [%.2f] of the amount is a parameter. *)
Section verify.
Variable format_amount : float64 → string.

(* go: internal/concurrency/patterns.go checkFraud *)
Definition checkFraud (amount : float64) (cancelled : error) : error :=
  match cancelled with
  | Some err => Some err
  | None => if of_int 10000 <? amount then Some (Opaque ("high-risk amount: " +:+ format_amount amount)) else None
  end.

(* go: internal/concurrency/patterns.go checkSanctions *)
Definition checkSanctions (cancelled : error) : error := cancelled.

(* go: internal/concurrency/patterns.go checkBank *)
Definition checkBank (cancelled : error) : error := cancelled.

Definition check_error (name : string) (amount : float64) (cancelled : error) : error :=
  if bool_decide (name = "fraud") then checkFraud amount cancelled
  else if bool_decide (name = "sanctions") then checkSanctions cancelled
  else checkBank cancelled.

(* go: internal/concurrency/patterns.go 82-89 *)
Definition checks : list string := ["fraud"; "sanctions"; "bank"].

(** The results in the order they arrive on the channel.  [timeout] is the
    error of the context if the caller ended it or two seconds passed; the
    first failure that is received cancels the checks that are still running. *)
(* go: internal/concurrency/patterns.go 91-120 *)
Inductive arrives (amount : float64) (timeout : error) : list string → list VerificationResult → Prop :=
| arrives_done : arrives amount timeout [] []
| arrives_next l name k results cancelled :
    (cancelled = None ∨ cancelled = timeout ∨ cancelled = Some Canceled ∧ Exists (λ r, vr_Passed r = false) results) →
    let err := check_error name amount cancelled in
    arrives amount timeout (l ++ k) results →
    arrives amount timeout (l ++ name :: k) (results ++ [mkVerificationResult name (bool_decide (err = None)) err]).

(** The loop over the results. *)
(* go: internal/concurrency/patterns.go 122-127 *)
Fixpoint verdict (results : list VerificationResult) : error :=
  match results with
  | [] => None
  | r :: results =>
    if negb (vr_Passed r)
    then Some (Opaque ("verification failed: " +:+ vr_Check r +:+ ": " +:+
                 match vr_Error r with Some e => Error e | None => "<nil>" end))
    else verdict results
  end.

Lemma arrives_names amount timeout names results :
  arrives amount timeout names results → map vr_Check results ≡ₚ names.
Proof.
  induction 1 as [|l name k results cancelled Hc err _ IH]; [done|].
  rewrite map_app. simpl. rewrite IH. solve_Permutation.
Qed.

Lemma verdict_None results : verdict results = None ↔ Forall (λ r, vr_Passed r = true) results.
Proof.
  induction results as [|r results IH]; simpl; [done|]. rewrite Forall_cons, <- IH.
  destruct (vr_Passed r); simpl; naive_solver.
Qed.

Lemma arrives_pass amount names results :
  amount ≤ of_int 10000 → arrives amount None names results → Forall (λ r, vr_Passed r = true) results.
Proof.
  intros Ham. induction 1 as [|l name k results cancelled Hc err _ IH]; [done|].
  rewrite Forall_app, Forall_singleton. split; [done|]. simpl. apply bool_decide_eq_true.
  assert (cancelled = None) as ->.
  { destruct Hc as [|[|[_ Hex]]]; [done..|]. exfalso. apply Exists_exists in Hex as (r & Hr & Hf).
    rewrite Forall_forall in IH. apply IH in Hr. congruence. }
  subst err. unfold check_error, checkFraud, checkSanctions, checkBank.
  rewrite (proj2 (Z.ltb_ge _ _) Ham). destruct (bool_decide (name = "fraud")), (bool_decide (name = "sanctions")); reflexivity.
Qed.

Lemma arrives_fraud amount timeout names results :
  arrives amount timeout names results → "fraud" ∈ names → Forall (λ r, vr_Passed r = true) results →
  amount ≤ of_int 10000.
Proof.
  induction 1 as [|l name k results cancelled Hc err _ IH]; [by intros ?%elem_of_nil|].
  rewrite Forall_app, Forall_singleton. simpl. rewrite bool_decide_eq_true.
  intros Hin [Hrest He]. destruct (decide (name = "fraud")) as [->|Hne]; [|apply IH; [set_solver | done]].
  subst err. unfold check_error, checkFraud in He. rewrite bool_decide_true in He by reflexivity.
  destruct cancelled as [|]; [discriminate He|].
  destruct (Z.ltb_spec (of_int 10000) amount) as [|Hle]; [discriminate He | exact Hle].
Qed.

(** Every check reports, a verification that returns nil has passed an amount of
    at most 10000, and without cancellation every such amount passes. *)
Lemma VerifyTransaction_verdict amount timeout results :
  arrives amount timeout checks results →
  map vr_Check results ≡ₚ checks ∧
  (verdict results = None → amount ≤ of_int 10000) ∧
  (timeout = None → amount ≤ of_int 10000 → verdict results = None).
Proof.
  intros Ha. rewrite verdict_None. split_and!.
  - by eapply arrives_names.
  - apply (arrives_fraud _ _ _ _ Ha). unfold checks. set_solver.
  - intros -> Ham. by eapply arrives_pass.
Qed.
End verify.

(** ** SafeMetrics *)

(* go: internal/concurrency/patterns.go 233-236 *)
Record SafeMetrics := mkSafeMetrics { sm_counts : gmap string Z }.

(* go: internal/concurrency/patterns.go NewSafeMetrics *)
Definition NewSafeMetrics : SafeMetrics := mkSafeMetrics ∅.

(** A missing key reads as 0; the counter is an int64. *)
(* go: internal/concurrency/patterns.go SafeMetrics.Get *)
Definition SafeMetrics_Get (key : string) (m : SafeMetrics) : Z := default 0 (sm_counts m !! key).

(* go: internal/concurrency/patterns.go SafeMetrics.Increment *)
Definition SafeMetrics_Increment (key : string) : Prog SafeMetrics unit :=
  modify (λ m, mkSafeMetrics (<[key := add64 (SafeMetrics_Get key m) 1]> (sm_counts m))).

(* go: internal/concurrency/patterns.go SafeMetrics.Snapshot *)
Definition SafeMetrics_Snapshot (m : SafeMetrics) : gmap string Z :=
  map_fold (λ k v snap, <[k := v]> snap) ∅ (sm_counts m).

Fixpoint increments (keys : list string) : Prog SafeMetrics unit :=
  match keys with [] => ret tt | k :: keys => let! _ := SafeMetrics_Increment k in increments keys end.

(** A snapshot has the value of every counter. *)
Lemma Snapshot_eq m : SafeMetrics_Snapshot m = sm_counts m.
Proof.
  unfold SafeMetrics_Snapshot. apply (map_fold_weak_ind (λ snap m, snap = m)); [done|].
  by intros k v m' snap _ ->.
Qed.

(** In any order of increments each counter ends at the number of its own. *)
Lemma increments_count keys : ∀ m k,
  0 ≤ SafeMetrics_Get k m → SafeMetrics_Get k m + Z.of_nat (length keys) ≤ max_int64 →
  wp (increments keys) (λ _ m', SafeMetrics_Get k m'
    = SafeMetrics_Get k m + Z.of_nat (length (filter (λ k', k' = k) keys))) m.
Proof.
  induction keys as [|k' keys IH]; intros m k H0 Hmax; simpl.
  { apply wp_ret. lia. }
  apply wp_bind, wp_modify. rewrite filter_cons. simpl in Hmax.
  set (m1 := mkSafeMetrics _).
  assert (SafeMetrics_Get k m1 = SafeMetrics_Get k m + (if decide (k' = k) then 1 else 0)) as Hget.
  { unfold m1, SafeMetrics_Get at 1. simpl. destruct (decide (k' = k)) as [->|Hne].
    - rewrite lookup_insert_eq. simpl. apply add64_exact. lia.
    - rewrite lookup_insert_ne by done. unfold SafeMetrics_Get. lia. }
  assert (0 ≤ SafeMetrics_Get k m1 ∧ SafeMetrics_Get k m1 + Z.of_nat (length keys) ≤ max_int64) as [Hlo Hhi]
    by (rewrite Hget; destruct (decide (k' = k)); lia).
  wp_use (IH m1 k Hlo Hhi). intros u m2 Hm2. rewrite Hm2, Hget. destruct (decide (k' = k)); simpl; lia.
Qed.
