(* ===== verification/Observability.v ===== *)
(** * Observability: what the log, the metrics and the spans say of a request

    The answer a handler gives is one status followed by its body, so the
    wrappers of the middleware see what the client gets: each request leaves
    one log entry, one count and, when tracing is on, one span, and they agree
    with the response. *)

From stdpp Require Import base tactics list gmap strings pretty.
From S2P Require Import Prelude GoLib Float64 Domain Repository Resilience Bank Payment PaymentWitnesses Postgres Http RateLimit Redis Metrics Middleware Idempotency RedisLimiter Handler HandlerTheorems Server ServerTheorems ServerWitnesses.

Open Scope string_scope.
Open Scope Z_scope.

(** ** Answers *)

(** A header other than the one [RequestID] sets, and a part of the body. *)
Definition plain_set (c : WriterCall) : Prop :=
  match c with CallSet k _ => CanonicalHeaderKey k ≠ "X-Request-Id" | _ => False end.
Definition body_part (c : WriterCall) : Prop := match c with CallWrite _ => True | _ => False end.

(** Headers, one status (200 is implied), and then only the body. *)
Definition answers (code : Z) (cs : list WriterCall) : Prop :=
  ∃ sets body, Forall plain_set sets ∧ Forall body_part body ∧
    (cs = sets ++ CallWriteHeader code :: body ∨ code = 200 ∧ cs = sets ++ body)%list.

Lemma answers_set k v code cs :
  CanonicalHeaderKey k ≠ "X-Request-Id" → answers code cs → answers code (CallSet k v :: cs).
Proof.
  intros Hk (sets & body & Hs & Hb & Hcs). exists (CallSet k v :: sets), body.
  split_and!; [by constructor | done |]. destruct Hcs as [-> | [-> ->]]; [by left | by right].
Qed.

Lemma answers_status code body : Forall body_part body → answers code (CallWriteHeader code :: body).
Proof. intros Hb. exists [], body. split_and!; [done.. | by left]. Qed.

(** *** What the client gets *)

Lemma fold_sets (r : Response) sets :
  Forall plain_set sets →
  rs_sent (fold_left writer_call sets r) = rs_sent r ∧ rs_body (fold_left writer_call sets r) = rs_body r ∧
  rs_header (fold_left writer_call sets r) !! "X-Request-Id" = rs_header r !! "X-Request-Id".
Proof.
  intros Hs. revert r. induction Hs as [|c sets Hc _ IH]; intros r; simpl; [done|].
  destruct (IH (writer_call r c)) as (-> & -> & ->). destruct c as [k v| |]; [|done..]. simpl.
  split_and!; [done..|]. unfold header_Set. by rewrite lookup_insert_ne.
Qed.

Definition part_length (c : WriterCall) : Z := match c with CallWrite b => Z.of_nat (String.length b) | _ => 0 end.

Lemma length_app_string (a b : string) : String.length (a +:+ b) = (String.length a + String.length b)%nat.
Proof. induction a as [|c a IH]; simpl; [done|]. by rewrite IH. Qed.

Lemma fold_body (r : Response) body :
  Forall body_part body → is_Some (rs_sent r) →
  rs_sent (fold_left writer_call body r) = rs_sent r ∧
  Z.of_nat (String.length (rs_body (fold_left writer_call body r)))
  = Z.of_nat (String.length (rs_body r)) + foldr (λ c n, part_length c + n) 0 body.
Proof.
  intros Hb Hr. split; [by apply fold_writer_sent|].
  revert r Hr. induction Hb as [|c body Hc _ IH]; intros r [x Hr]; simpl; [lia|].
  destruct c as [|code|b]; [done..|]. simpl. unfold send_header. rewrite Hr, IH by (by eexists). simpl.
  rewrite length_app_string. lia.
Qed.

Lemma fold_wrapper rw cs :
  Forall (λ c, plain_set c ∨ body_part c) cs →
  fold_left responseWriter_call cs rw
  = mkResponseWriter (rw_statusCode rw) (rw_written rw + foldr (λ c n, part_length c + n) 0 cs).
Proof.
  intros Hc. revert rw. induction Hc as [|c cs Hc _ IH]; intros rw; simpl.
  - destruct rw; simpl. f_equal. lia.
  - rewrite IH. destruct c as [|code|b]; simpl; [f_equal; lia | by destruct Hc | f_equal; lia].
Qed.

Lemma sets_length sets : Forall plain_set sets → foldr (λ c n, part_length c + n) 0 sets = 0.
Proof. induction 1 as [|c sets Hc _ IH]; [done|]. simpl. rewrite IH. by destruct c. Qed.

(** The wrapper and the client see the same status and the same body, and the
    client sees the id of the request. *)
Lemma answers_seen code cs id :
  answers code cs →
  let all := CallSet "X-Request-ID" id :: cs in
  status_of all = code ∧ headers_of all !! "X-Request-Id" = Some id ∧
  fold_left responseWriter_call cs newResponseWriter
  = mkResponseWriter code (Z.of_nat (String.length (body_of all))).
Proof.
  intros (sets & body & Hs & Hb & Hcs). cbv zeta.
  set (r0 := mkResponse (header_Set "X-Request-ID" id ∅) None "").
  destruct (fold_sets r0 sets Hs) as (E1 & E2 & E3).
  assert (rs_header r0 !! "X-Request-Id" = Some id) as Hid by apply lookup_insert_eq.
  unfold status_of, headers_of, body_of, respond. simpl fold_left. fold r0.
  assert (∀ st, rs_sent (send_header st (fold_left writer_call sets r0))
                = Some (st, rs_header (fold_left writer_call sets r0))) as Hsend.
  { intros st. unfold send_header. by rewrite E1. }
  assert (∀ st, rs_body (send_header st (fold_left writer_call sets r0)) = "") as Hbody.
  { intros st. unfold send_header. by rewrite E1. }
  assert (∀ st r, is_Some (rs_sent r) → send_header st r = r) as Hkeep.
  { intros st r [x Hx]. unfold send_header. by rewrite Hx. }
  assert (Forall (λ c, plain_set c ∨ body_part c) sets) as Hs' by (eapply Forall_impl; [exact Hs|]; by left).
  assert (Forall (λ c, plain_set c ∨ body_part c) body) as Hb' by (eapply Forall_impl; [exact Hb|]; by right).
  assert (∀ st, let r := fold_left writer_call body (send_header st (fold_left writer_call sets r0)) in
    rs_sent (send_header 200 r) = Some (st, rs_header (fold_left writer_call sets r0)) ∧
    Z.of_nat (String.length (rs_body (send_header 200 r))) = foldr (λ c n, part_length c + n) 0 body) as Hend.
  { intros st. cbv zeta. destruct (fold_body (send_header st (fold_left writer_call sets r0)) body Hb) as [F1 F2];
      [by rewrite Hsend|].
    rewrite Hkeep by (rewrite F1, Hsend; by eexists). rewrite F1, F2, Hsend, Hbody. split; [done|]. simpl. lia. }
  destruct Hcs as [-> | [-> ->]]; rewrite !fold_left_app; simpl fold_left.
  - destruct (Hend code) as [H1 H2]. simpl in H1, H2. rewrite H1, H2. split_and!; [done | by rewrite E3 |].
    rewrite (fold_wrapper _ sets), sets_length by done. simpl. by rewrite fold_wrapper.
  - assert (fold_left writer_call body (fold_left writer_call sets r0)
      = fold_left writer_call body (send_header 200 (fold_left writer_call sets r0)) ∨ body = []) as Hor.
    { destruct body as [|c body]; [by right|left]. apply Forall_cons in Hb as [Hc _].
      destruct c as [| |b]; [done..|]. simpl. by rewrite (Hkeep 200 (send_header 200 _)) by (by rewrite Hsend). }
    destruct (Hend 200) as [H1 H2]. simpl in H1, H2.
    rewrite (fold_wrapper _ sets), sets_length, fold_wrapper by done. simpl.
    destruct Hor as [-> | ->].
    + rewrite H1, H2. split_and!; [done | by rewrite E3 | done].
    + simpl. rewrite Hsend, Hbody. split_and!; [done | by rewrite E3 | done].
Qed.

(** ** Handlers that answer *)

Section answered.
Context {S : Type} (same : S → S → Prop) `{!PreOrder same} (G : Prop).
Implicit Types (m : Prog (HTTP S) outcome) (h : HTTP S).

(** A handler returns, moves the state within [same], and adds to the response
    what, under [G], is an answer. *)
Definition answered m : Prop := ∀ h, wp m (λ o h',
  o = Returned ∧ same (h_state h) (h_state h') ∧
  ∃ cs, h_calls h' = (h_calls h ++ cs)%list ∧ (G → ∃ code, answers code cs)) h.

Lemma answered_calls m cs :
  (∀ h, m h = (Returned, mkHTTP (h_calls h ++ cs)%list (h_state h))) → (G → ∃ code, answers code cs) → answered m.
Proof. intros Hm Hcs h. unfold wp. rewrite Hm. split_and!; [done.. | by exists cs]. Qed.

Lemma answered_state {A} (m : Prog S A) (k : A → Prog (HTTP S) outcome) :
  (∀ s, same s (m s).2) → (∀ a, answered (k a)) → answered (let! a := state m in k a).
Proof.
  intros Hm Hk h. apply wp_bind. unfold wp at 1, state. specialize (Hm (h_state h)).
  destruct (m (h_state h)) as [a s]. wp_use (Hk a). intros o h' (Ho & Hs & Hcs). split_and!; [done | | done].
  by etrans.
Qed.

Lemma answered_set k v m :
  CanonicalHeaderKey k ≠ "X-Request-Id" → answered m → answered (let! _ := writer (CallSet k v) in m).
Proof.
  intros Hk Hm h. apply wp_bind, wp_modify. wp_use Hm. intros o h' (Ho & Hs & cs & Hcs & Hans).
  split_and!; [done..|]. exists (CallSet k v :: cs). split; [rewrite Hcs; simpl; by rewrite <- (assoc_L (++))|].
  intros HG. destruct (Hans HG) as [code Hc]. exists code. by apply answers_set.
Qed.

Lemma answered_error status code msg : answered (writeError status code msg).
Proof.
  apply answered_set; [done|]. apply (answered_calls _ [CallWriteHeader status; CallWrite (error_body code msg)]).
  - intros h. unfold bind, writer, modify, ret. simpl. by rewrite <- (assoc_L (++)).
  - intros _. exists status. apply answers_status. by repeat constructor.
Qed.

(** What runs after the handler that a wrapper observes. *)
Lemma answered_wrapped {X} wrap (x0 : X) m k :
  answered m →
  (∀ x h, wp (k x) (λ o h', o = Returned ∧ same (h_state h) (h_state h') ∧ h_calls h' = h_calls h) h) →
  answered (serve_wrapped wrap x0 m k).
Proof.
  intros Hm Hk h. apply wp_serve_wrapped. wp_use Hm. intros o h1 (-> & Hs & cs & Hcs & Hans) x.
  wp_use Hk. intros o h2 (Ho & Hs' & Hc'). split_and!; [done | by etrans | exists cs; by rewrite Hc'].
Qed.

(** Operations after the answer. *)
Lemma after_then {A} (m : Prog S A) (k : A → Prog (HTTP S) outcome) h :
  (∀ s, same s (m s).2) →
  (∀ a h, wp (k a) (λ o h', o = Returned ∧ same (h_state h) (h_state h') ∧ h_calls h' = h_calls h) h) →
  wp (let! a := state m in k a) (λ o h', o = Returned ∧ same (h_state h) (h_state h') ∧ h_calls h' = h_calls h) h.
Proof.
  intros Hm Hk. apply wp_bind. unfold wp at 1, state. specialize (Hm (h_state h)).
  destruct (m (h_state h)) as [a s]. wp_use (Hk a). intros o h' (Ho & Hs & Hc). split_and!; [done | by etrans | done].
Qed.

Lemma after_end h :
  wp (ret Returned) (λ o h', o = Returned ∧ same (h_state h) (h_state h') ∧ h_calls h' = h_calls h) h.
Proof. by apply wp_ret. Qed.

(** *** The middleware of a key *)

Lemma answered_Idempotency (store : StoreOps S) next r :
  (∀ ctx mid key s, same s (so_Check store ctx mid key s).2) →
  (∀ ctx mid key code body s, same s (so_StoreCompleted store ctx mid key code body s).2) →
  (∀ ctx mid key s, same s (so_Release store ctx mid key s).2) →
  (∀ r, answered (next r)) → answered (Idempotency store next r).
Proof.
  intros Hcheck Hstore Hrel Hnext. unfold Idempotency. fold (request_key r). fold (keyed r).
  destruct (bool_decide (request_key r = "")); [apply Hnext|]. destruct (GetMerchant (keyed r)) as [m|]; [|apply Hnext].
  apply answered_state; [apply Hcheck|]. intros [res|e]; [|apply Hnext].
  destruct (bool_decide (ir_Decision res = IdempotencyCompleted)).
  { apply answered_set; [done|]. set (st := if _ =? 0 then _ else _).
    apply (answered_calls _ (CallWriteHeader st ::
      (if (0 <? String.length (ir_Body res))%nat then [CallWrite (ir_Body res)] else []))).
    - intros h. unfold bind, writer, modify, ret. destruct (_ <? _)%nat; simpl; [|done].
      by rewrite <- (assoc_L (++)).
    - intros _. exists st. apply answers_status. destruct (_ <? _)%nat; by repeat constructor. }
  destruct (bool_decide _); [apply answered_error|]. apply answered_wrapped; [apply Hnext|]. intros x h.
  destruct (_ && _).
  - apply after_then; [apply Hstore|]. intros [e|] h'; [|apply after_end].
    apply after_then; [apply Hrel|]. intros _. apply after_end.
  - apply after_then; [apply Hrel|]. intros _. apply after_end.
Qed.

(** *** The middleware of the whole server *)

Lemma answered_APIKeyAuth GetByAPIKey next r :
  (∀ ctx key s, same s (GetByAPIKey ctx key s).2) →
  (∀ r, answered (next r)) → answered (APIKeyAuth GetByAPIKey next r).
Proof.
  intros Hget Hnext. unfold APIKeyAuth. case_bool_decide; [apply answered_error|].
  destruct (SplitN2 _ _) as [|scheme [|key [|]]]; [apply answered_error.. | | apply answered_error].
  case_bool_decide; [|apply answered_error].
  apply answered_state; [apply Hget|]. intros [m|e]; [|apply answered_error].
  destruct (negb _); [apply answered_error | apply Hnext].
Qed.

Lemma answered_RateLimit Allow next r :
  (∀ ctx key s, same s (Allow ctx key s).2) → answered (next r) → answered (RateLimit (Some Allow) next r).
Proof.
  intros Hallow Hnext. unfold RateLimit. apply answered_state; [apply Hallow|]. intros [ok e].
  destruct (_ || _); [done|]. apply answered_set; [done | apply answered_error].
Qed.

Lemma answered_CORS next r : answered (next r) → answered (CORS next r).
Proof.
  intros Hnext. unfold CORS. do 4 (apply answered_set; [done|]). case_bool_decide; [|done].
  apply (answered_calls _ [CallWriteHeader StatusNoContent]); [done|].
  intros _. exists StatusNoContent. apply answers_status. constructor.
Qed.
End answered.

(** ** The handlers of the API *)

Section handlers.
Context `{js : JSON} {R : Type} `{!MerchantRepository R, !TransactionRepository R,
  !EventRepository R, !OutboxRepository R, !Database R}.
Variable env : Env.
Variable svc : PaymentService R.
Abbreviation W := (World R).

(** The store may change as it likes. *)
Abbreviation replies := (answered (S := W) (λ _ _, True) True).

#[local] Instance any_preorder : PreOrder (λ _ _ : W, True).
Proof. by split. Qed.

(** Every answer of a handler is made of these three calls. *)
Lemma replies_three status body :
  replies (let! _ := writer (CallSet "Content-Type" "application/json") in
           let! _ := writer (CallWriteHeader status) in let! _ := writer (CallWrite body) in ret Returned).
Proof.
  apply answered_set; [done|]. apply (answered_calls _ _ _ [CallWriteHeader status; CallWrite body]).
  - intros h. unfold bind, writer, modify, ret. simpl. by rewrite <- (assoc_L (++)).
  - intros _. exists status. apply answers_status. by repeat constructor.
Qed.

Lemma replies_error err : replies (mapDomainError err).
Proof. unfold mapDomainError. destruct (domain_error err) as [[st code] msg]. apply replies_three. Qed.

Lemma replies_json status data : replies (writeJSON status data).
Proof. apply replies_three. Qed.

Lemma replies_refusal status code msg : replies (handler_writeError status code msg).
Proof. apply replies_three. Qed.

Lemma replies_meta status data meta : replies (writeJSONWithMeta status data meta).
Proof. apply replies_three. Qed.

#[local] Hint Resolve replies_error replies_json replies_refusal replies_meta : core.

Lemma replies_state {A} (m : Prog W A) (k : A → Prog (HTTP W) outcome) :
  (∀ a, replies (k a)) → replies (let! a := state m in k a).
Proof. by apply answered_state. Qed.

(** The owner check answers, or lets the handler go on. *)
Lemma replies_owner m id (k : Prog (HTTP W) outcome) :
  replies k → replies (let! owner := ensureMerchantID m id in if negb owner then ret Returned else k).
Proof.
  intros Hk. unfold ensureMerchantID. case_bool_decide; [|exact Hk].
  intros h. apply wp_bind, wp_bind. wp_use (replies_refusal StatusForbidden "FORBIDDEN" "merchant access denied").
  intros o h' H'. do 2 apply wp_ret. by destruct H' as (_ & H' & H'').
Qed.

Lemma replies_Create r : replies (TransactionHandler_Create env svc r).
Proof.
  unfold TransactionHandler_Create. destruct (DecodeCreate _) as [req|]; [|auto].
  destruct (_ <=? _); [auto|]. destruct (merchantFromContext r); [|apply replies_refusal].
  apply replies_state. intros [[t|] [e|]]; auto.
Qed.

Lemma replies_GetByID id r : replies (TransactionHandler_GetByID env id r).
Proof.
  unfold TransactionHandler_GetByID. destruct (merchantFromContext r); [|apply replies_refusal].
  apply replies_state. intros [t|e]; auto.
Qed.

Lemma replies_Refund id r : replies (TransactionHandler_Refund env svc id r).
Proof.
  unfold TransactionHandler_Refund. destruct (merchantFromContext r); [|apply replies_refusal].
  apply replies_state. intros [[t|] [e|]]; auto.
Qed.

Lemma replies_GetEvents id r : replies (TransactionHandler_GetEvents env id r).
Proof.
  unfold TransactionHandler_GetEvents. destruct (merchantFromContext r); [|apply replies_refusal].
  apply replies_state. intros [t|e]; auto.
Qed.

Lemma replies_List id r : replies (TransactionHandler_ListByMerchant env id r).
Proof.
  unfold TransactionHandler_ListByMerchant. destruct (merchantFromContext r); [|apply replies_refusal].
  apply replies_owner, replies_state. intros [[l n]|e]; auto.
Qed.

Lemma replies_GetBalance id r : replies (MerchantHandler_GetBalance env id r).
Proof.
  unfold MerchantHandler_GetBalance. destruct (merchantFromContext r); [|apply replies_refusal].
  apply replies_owner, replies_state. intros [m'|e]; auto.
Qed.

Lemma replies_Check check version r : replies (HealthHandler_Check (Some check) version r).
Proof. apply replies_state. intros err. apply replies_three. Qed.

Lemma replies_Ready r : replies (HealthHandler_Ready r).
Proof. apply replies_three. Qed.
End handlers.

(** ** The server *)

Section server.
Context `{js : JSON} {R K : Type} `{!MerchantRepository R, !TransactionRepository R,
  !EventRepository R, !OutboxRepository R, !Database R, !Redis K}.
Variable env : Env.
Variable svc : PaymentService R.
Variable cfg : ServerConfig.
Abbreviation Srv := (Server R K).
Variable route : string → string → option Route.
Variables (not_found : list WriterCall) (scrape : Srv → list WriterCall).
Variables (extract : Header → string) (route_pattern : HTTPRequest → HTTP Srv → string).
Variables (tostring : float64 → string) (tonumber : string → option float64).

(** What the middleware records. *)
Definition records (s : Srv) := (sv_log s, sv_metrics s, sv_spans s).
Definition same_records (s s' : Srv) : Prop := records s' = records s.

#[local] Instance same_records_preorder : PreOrder same_records.
Proof. split; [done|]. intros s1 s2 s3 H12 H23. by unfold same_records in *; rewrite H23. Qed.

(** chi and promhttp answer properly. *)
Definition parts_answer : Prop :=
  (∃ code, answers code not_found) ∧ ∀ s, ∃ code, answers code (scrape s).

Abbreviation answered_here := (answered same_records parts_answer).

Lemma world_same {A} (m : Prog (World R) A) s : same_records s (on_world_state m s).2.
Proof. unfold on_world_state. by destruct (m _). Qed.

Lemma redis_same {A} ctx (op : CallInfo → Prog K A) s :
  same_records s (on_redis (H := server_client env) ctx op s).2.
Proof.
  unfold on_redis, bind. simpl. by destruct (op _ _).
Qed.

Lemma limiter_same ctx key s : same_records s (server_limiter env cfg tostring tonumber ctx key s).2.
Proof.
  unfold server_limiter. destruct (sc_redis cfg); [apply redis_same|]. unfold bind. simpl.
  by repeat case_match.
Qed.

Lemma answered_world (hd : Handler (World R)) r :
  answered (λ _ _, True) True (hd r) → answered_here (on_world hd r).
Proof.
  intros Hhd h. unfold wp, on_world. specialize (Hhd (mkHTTP (h_calls h) (sv_world (h_state h)))). unfold wp in Hhd.
  destruct (hd r _) as [o x']. destruct Hhd as (-> & _ & cs & Hcs & Hans).
  split_and!; [done..|]. exists cs. split; [exact Hcs|]. intros _. by apply Hans.
Qed.

Lemma answered_not_found : answered_here (writes not_found).
Proof. apply (answered_calls _ _ _ not_found); [done | by intros [? _]]. Qed.

Lemma answered_api rt r : answered_here (api_handler env svc cfg not_found rt r).
Proof.
  destruct rt; simpl; try apply answered_not_found; try apply answered_world.
  - apply (answered_Idempotency same_records parts_answer); [intros; apply redis_same.. |]. intros r'.
    apply answered_world, replies_Create.
  - apply replies_GetByID.
  - apply replies_Refund.
  - apply replies_GetEvents.
  - apply replies_GetBalance.
  - apply replies_List.
Qed.

Lemma answered_router r : answered_here (router env svc cfg route not_found scrape r).
Proof.
  unfold router. destruct (route _ _) as [rt|]; [|apply answered_not_found].
  assert (answered_here (APIKeyAuth (server_GetByAPIKey env) (api_handler env svc cfg not_found rt) r)) as Hapi.
  { apply (answered_APIKeyAuth same_records parts_answer); [intros; apply world_same | intros r'; apply answered_api]. }
  destruct rt; try exact Hapi.
  - apply answered_world, replies_Check.
  - apply answered_world, replies_Ready.
  - intros h. split_and!; [done..|]. exists (scrape (h_state h)). split; [done|]. by intros [_ Hs].
Qed.

(** What the three observers leave of a request with the id [id], when the
    calls below them are [cs]. *)
Definition observed (r : HTTPRequest) (id : string) (pattern : string) (cs : list WriterCall) (s s' : Srv) : Prop :=
  let rw := fold_left responseWriter_call cs newResponseWriter in
  let r := set_rq_RequestID id r in
  let code := rw_statusCode rw in
  (∃ ms, sv_log s' = (sv_log s ++ [mkLogEntry
     (if (500 <=? code)%Z then LevelError else if (400 <=? code)%Z then LevelWarn else LevelInfo)
     (rq_Method r) (rq_Path r) code ms (rw_written rw) id (rq_RemoteAddr r)])%list) ∧
  (∃ d, sv_metrics s' = count_request (rq_Method r) (rq_Path r) code d (sv_metrics s)) ∧
  sv_spans s' = (sv_spans s ++ (if sc_tracing cfg then
    [finish_span r pattern code
       (mkSpan (sc_service cfg +:+ "/http") (extract (rq_Header r)) (rq_Method r +:+ " " +:+ rq_Path r) [] None)] else []))%list.

(** A path that cannot be a label: the answer is given, and then the metrics
    panic past the log and the span. *)
Definition unrecorded (s s' : Srv) : Prop :=
  sv_log s' = sv_log s ∧ sv_metrics s' = sv_metrics s ∧ sv_spans s' = sv_spans s.

(** The part of the stack below [RequestID]. *)
Definition below : Handler Srv :=
  Tracing extract route_pattern (end_span cfg) (sc_service cfg)
    (Logging (server_Now env) (λ e, modify (add_log e)) (MetricsMiddleware (server_Now env) (CORS (RateLimit
      (Some (server_limiter env cfg tostring tonumber)) (router env svc cfg route not_found scrape))))).

Lemma wp_below r id h :
  wp (below (set_rq_RequestID id r)) (λ o h', ∃ cs pattern,
    h_calls h' = (h_calls h ++ cs)%list ∧ (parts_answer → ∃ code, answers code cs) ∧
    if labels_valid (rq_Method r) (rq_Path r)
    then o = Returned ∧ observed r id pattern cs (h_state h) (h_state h')
    else o ≠ Returned ∧ unrecorded (h_state h) (h_state h')) h.
Proof.
  set (rid := set_rq_RequestID id r). unfold below, Tracing, Logging, MetricsMiddleware.
  set (inner := CORS _).
  assert (answered_here (inner rid)) as Hin.
  { apply (answered_CORS same_records parts_answer), (answered_RateLimit same_records parts_answer); [intros; apply limiter_same | apply answered_router]. }
  unfold wp, serve_wrapped, server_Now, on_registry, on_world_state, now, bind, state, modify, get, ret in *.
  simpl in *. match goal with |- context [inner rid ?x] => specialize (Hin x); unfold wp in Hin; destruct (inner rid x) as [o h1] end.
  destruct Hin as (-> & Hs & cs & Hcs & Hans). simpl in *.
  unfold same_records, records in Hs. simpl in Hs. injection Hs as El Em Es.
  rewrite Hcs, drop_app_length. simpl.
  set (rw := fold_left _ cs _). unfold on_registry, bind, modify, ret.
  destruct (labels_valid (rq_Method r) (rq_Path r)); simpl; [unfold end_span; destruct (sc_tracing cfg) eqn:Et; simpl; rewrite ?drop_app_length|].
  - exists cs. eexists. split_and!; [done | exact Hans | done |]. unfold observed. fold rw. rewrite Et. simpl.
    rewrite ?drop_app_length, El, Em, Es. fold rw. split_and!; [by eexists | eexists; apply count_active | done].
  - exists cs, "". split_and!; [done | exact Hans | done |]. unfold observed. fold rw. rewrite Et, app_nil_r. simpl.
    rewrite ?drop_app_length, El, Em, Es. fold rw. split_and!; [by eexists | eexists; apply count_active | done].
  - exists cs, "". split_and!; [done | exact Hans | done |]. unfold unrecorded. simpl. by rewrite El, Em, Es, active_again.
Qed.

Abbreviation serve := (serve_request env svc cfg route not_found scrape extract route_pattern tostring tonumber).

(** The id a request has, or gets. *)
Definition identifies (r : HTTPRequest) (id : string) : Prop :=
  let given := header_Get "X-Request-ID" (rq_Header r) in
  if bool_decide (given = "") then ∃ n : Z, id = "req_" +:+ pretty n else id = given.

(** What [Recovery] adds to a response. *)
Definition recovery_calls : list WriterCall :=
  [CallSet "Content-Type" "application/json"; CallWriteHeader StatusInternalServerError;
   CallWrite (error_body "INTERNAL_ERROR" "an unexpected error occurred")].

(** What a request left between [s] and the state of [h']. *)
Definition left (r : HTTPRequest) (s : Srv) (h' : HTTP Srv) : Prop :=
  ∃ id pattern cs, identifies r id ∧ (parts_answer → ∃ code, answers code cs) ∧
    if labels_valid (rq_Method r) (rq_Path r)
    then h_calls h' = CallSet "X-Request-ID" id :: cs ∧ observed r id pattern cs s (h_state h')
    else h_calls h' = (CallSet "X-Request-ID" id :: cs ++ recovery_calls)%list ∧ unrecorded s (h_state h').

Lemma wp_identified r id s s1 :
  same_records s s1 → identifies r id →
  wp (let! o := (let! _ := writer (CallSet "X-Request-ID" id) in below (set_rq_RequestID id r)) in
      match o with
      | Returned => ret Returned
      | Panicked _ => writeError StatusInternalServerError "INTERNAL_ERROR" "an unexpected error occurred"
      end)
    (λ o h', o = Returned ∧ left r s h') (mkHTTP [] s1).
Proof.
  intros Hs1 Hid. apply wp_bind, wp_bind, wp_modify. wp_use (wp_below r id).
  intros o h' (cs & pattern & Hcs & Hans & Hobs). unfold same_records, records in Hs1. injection Hs1 as E1 E2 E3.
  destruct (labels_valid (rq_Method r) (rq_Path r)) eqn:El.
  - destruct Hobs as [-> Hobs]. apply wp_ret. split; [done|]. exists id, pattern, cs. rewrite El.
    split_and!; [done | done | by rewrite Hcs |]. unfold observed in *. simpl in Hobs. by rewrite E1, E2, E3 in Hobs.
  - destruct Hobs as [Ho (U1 & U2 & U3)]. destruct o as [|e]; [done|].
    unfold writeError. do 3 apply wp_bind, wp_modify. apply wp_ret. split; [done|]. exists id, pattern, cs. rewrite El.
    simpl in U1, U2, U3. split_and!; [done | done | by rewrite Hcs; simpl; rewrite <- !(assoc_L (++)) |].
    split_and!; simpl; congruence.
Qed.

Lemma wp_serve_observed r s :
  wp (serve r) (λ x s', x.1 = Returned ∧ left r s (mkHTTP x.2 s')) s.
Proof.
  assert (wp (root_handler env svc cfg route not_found scrape extract route_pattern tostring tonumber r)
    (λ o h', o = Returned ∧ left r s h') (mkHTTP [] s)) as Hroot.
  { unfold root_handler, Recovery, RequestID. pose proof (λ id, wp_identified r id s) as Hid.
    apply wp_bind, wp_bind. unfold identifies in Hid. case_bool_decide.
    - apply wp_bind. unfold wp at 1, state. pose proof (world_same (now env) s) as Hw. simpl h_state.
      unfold server_Now. destruct (on_world_state (now env) s) as [n s1]. apply wp_ret.
      apply wp_unbind, Hid; [exact Hw | by exists n].
    - apply wp_ret, wp_unbind. by apply Hid. }
  unfold wp, serve_request in *. destruct (root_handler _ _ _ _ _ _ _ _ _ _ r _) as [o [calls s']]. exact Hroot.
Qed.

(** Without tracing there are no spans. *)
Lemma serve_untraced rs s :
  sc_tracing cfg = false → sv_spans s = [] →
  sv_spans (serve_requests env svc cfg route not_found scrape extract route_pattern tostring tonumber rs s).2 = [].
Proof.
  intros Ht. revert s. induction rs as [|r rs IH]; intros s Hs; simpl; [done|]. unfold bind.
  pose proof (wp_serve_observed r s) as Hr. unfold wp in Hr. destruct (serve r s) as [x s1].
  destruct Hr as (_ & id & pattern & cs & _ & _ & Hobs). simpl in Hobs.
  assert (sv_spans s1 = []) as Hs1.
  { destruct (labels_valid _ _); destruct Hobs as [_ Hobs]; [|destruct Hobs as (_ & _ & ?); congruence].
    unfold observed in Hobs. rewrite Ht, Hs in Hobs. by destruct Hobs as (_ & _ & ?). }
  specialize (IH s1 Hs1). by destruct (serve_requests _ _ _ _ _ _ _ _ _ _ rs s1).
Qed.

Lemma finish_span_attributes r pattern code sp :
  ("http.status_code", AttrInt code) ∈ sp_attributes (finish_span r pattern code sp) ∧
  ("request.id", AttrString (GetRequestID r)) ∈ sp_attributes (finish_span r pattern code sp) ∧
  (sp_error sp = None → sp_error (finish_span r pattern code sp) ≠ None ↔ 500 ≤ code).
Proof.
  unfold finish_span. set (sp' := if bool_decide (pattern = "") then _ else _).
  assert (sp_error sp' = sp_error sp) as He by (unfold sp'; by case_bool_decide).
  unfold StatusInternalServerError. destruct (Z.leb_spec 500 code); simpl.
  all: split_and!; [set_solver.. | intros Hn; rewrite ?He, ?Hn; split; [done || lia | done || lia]].
Qed.

(** C32 Every request whose path is valid UTF-8 is observed, once and truly.
    Whatever the request and the faults, serving it brings the gauge of active
    requests back to what it was, increments exactly the counter of its method,
    path and status, observes one duration, and appends exactly one log entry
    and, when tracing is on, one span; all of them carry the status the client
    receives, the log entry the length of the body it receives, the log entry
    and the span the id that the client finds in the X-Request-ID header, which
    is the client's own if it sent one; and log level and span report an error
    exactly when the status is 500 or more.  A request whose path is not valid
    UTF-8 makes the metrics panic after it was answered: it leaves no count, no
    duration, no log entry and no span, only the gauge returns, and the error
    that [Recovery] reports is written behind the answer.  (The handlers of this
    program do not panic; for one that does, see [panic_unobserved].) *)
Theorem request_observed r s :
  parts_answer →
  wp (serve r) (λ x s', let code := status_of x.2 in ∃ id, identifies r id ∧
    if labels_valid (rq_Method r) (rq_Path r) then ∃ level ms d spans,
      headers_of x.2 !! "X-Request-Id" = Some id ∧
      activeRequests (sv_metrics s') = activeRequests (sv_metrics s) ∧
      (∀ labels, requests_total (sv_metrics s') labels = requests_total (sv_metrics s) labels +
         (if bool_decide (labels = (rq_Method r, rq_Path r, pretty code)) then 1 else 0)) ∧
      httpDurationSeconds (sv_metrics s') !! (rq_Method r, rq_Path r)
      = Some (default [] (httpDurationSeconds (sv_metrics s) !! (rq_Method r, rq_Path r)) ++ [Seconds d])%list ∧
      sv_log s' = (sv_log s ++ [mkLogEntry level (rq_Method r) (rq_Path r) code ms
                     (Z.of_nat (String.length (body_of x.2))) id (rq_RemoteAddr r)])%list ∧
      (level = LevelError ↔ 500 ≤ code) ∧
      sv_spans s' = (sv_spans s ++ spans)%list ∧ length spans = (if sc_tracing cfg then 1 else 0)%nat ∧
      ∀ sp, sp ∈ spans → ("http.status_code", AttrInt code) ∈ sp_attributes sp ∧
        ("request.id", AttrString id) ∈ sp_attributes sp ∧ (sp_error sp ≠ None ↔ 500 ≤ code)
    else unrecorded s s' ∧
      ∃ answer answered, answers answered answer ∧
        x.2 = (CallSet "X-Request-ID" id :: answer ++ recovery_calls)%list) s.
Proof.
  intros Hparts. wp_use (wp_serve_observed r s).
  intros x s' (_ & id & pattern & cs & Hid & Hans & Hobs). simpl in Hobs. cbv zeta. exists id. split; [done|].
  destruct (Hans Hparts) as [code Hcode]. destruct (labels_valid (rq_Method r) (rq_Path r)).
  2:{ destruct Hobs as [Ecs Hu]. split; [exact Hu|]. by exists cs, code. }
  destruct Hobs as [Ecs Hobs]. destruct (answers_seen code cs id Hcode) as (E1 & E2 & E3).
  unfold observed in Hobs. cbv zeta in E1, E2, E3. rewrite E3 in Hobs. rewrite Ecs, E1, E2. simpl in Hobs.
  destruct Hobs as ([ms Hl] & [d Hm] & Hs). eexists. exists ms, d. eexists. rewrite Hm.
  split_and!; [done | done | apply count_request_total | apply lookup_insert_eq | exact Hl | | exact Hs
    | by destruct (sc_tracing cfg) |].
  - destruct (Z.leb_spec 500 code); [done|]. destruct (400 <=? code)%Z; split; first [done | lia].
  - intros sp Hsp. destruct (sc_tracing cfg); [|by apply not_elem_of_nil in Hsp].
    apply list_elem_of_singleton in Hsp as ->.
    destruct (finish_span_attributes (set_rq_RequestID id r) pattern code (mkSpan (sc_service cfg +:+ "/http")
      (extract (rq_Header r)) (rq_Method r +:+ " " +:+ rq_Path r) [] None)) as (H1 & H2 & H3).
    split_and!; [exact H1 | exact H2 | by apply H3].
Qed.
End server.

(** ** A server *)

#[local] Existing Instance sorted_range.
#[local] Instance plain_events_observed : EventRepository PgStore := pg_event_repo None.
#[local] Existing Instance json0.

Lemma request_observed_witness :
  parts_answer [CallWriteHeader 404] (λ _ : Server PgStore KeySpace, [CallWrite "metrics"]) ∧
  wp (serve_request env0 service0 cfg0 route0 [CallWriteHeader 404] (λ _, [CallWrite "metrics"]) extract0 pattern0
        (λ x, pretty x) ParseInt refund_request0) (λ x s', ∃ entry sp,
    sv_log s' = [entry] ∧ sv_spans s' = [sp] ∧ log_status entry = status_of x.2 ∧
    ("http.status_code", AttrInt (status_of x.2)) ∈ sp_attributes sp) server0.
Proof.
  assert (parts_answer [CallWriteHeader 404] (λ _ : Server PgStore KeySpace, [CallWrite "metrics"])) as Hp.
  { split.
    - exists 404. exists [], []. split; [constructor|]. split; [constructor | left; reflexivity].
    - intros s. exists 200. exists [], [CallWrite "metrics"]. split; [constructor|].
      split; [constructor; [exact I | constructor] | right; split; reflexivity]. }
  split; [exact Hp|].
  eapply wp_mono; [apply (request_observed env0 service0 cfg0 route0 [CallWriteHeader 404] (λ _, [CallWrite "metrics"])
    extract0 pattern0 (λ x, pretty x) ParseInt refund_request0 server0 Hp)|].
  cbv zeta. intros x s' (id & _ & Hobs). change (labels_valid _ _) with true in Hobs.
  destruct Hobs as (level & ms & d & spans & _ & _ & _ & _ & El & _ & Es & Hlen & Hall).
  destruct spans as [|sp [|]]; [discriminate Hlen | | discriminate Hlen].
  do 2 eexists. split; [exact El|]. split; [exact Es|]. split; [reflexivity|].
  exact (proj1 (Hall sp (list_elem_of_here _ _))).
Defined.

(** What the observers miss: a handler that panics is answered 500, but leaves
    no log entry, no count and no span. *)
Definition crashing : Handler (Server PgStore KeySpace) := λ _, ret (Panicked "nil map").

Example panic_unobserved :
  let h := Recovery (RequestID (server_Now env0) (Tracing extract0 pattern0 (end_span cfg0) "payflow"
    (Logging (server_Now env0) (λ e, modify (add_log e)) (MetricsMiddleware (server_Now env0) crashing)))) refund_request0 (mkHTTP [] server0) in
  (h.1, status_of (h_calls h.2), sv_metrics (h_state h.2), sv_log (h_state h.2), sv_spans (h_state h.2))
  = (Returned, 500, new_registry, [], []).
Proof. vm_compute. reflexivity. Qed.

(** GET /%ff: the answer 404 is sent, but not counted, logged or traced, and the
    client finds the report of the panic behind it. *)
Definition request_ff : HTTPRequest := request0 "GET" (bytes [47; 255]%nat) [] "".

Example path_unrecorded :
  let x := serve_request env0 service0 cfg0 route0
    [CallWriteHeader 404; CallWrite "404 page not found"] (λ _, [CallWrite "metrics"]) extract0 pattern0
    (λ x, pretty x) ParseInt request_ff server0 in
  (x.1.1, status_of x.1.2, body_of x.1.2, sv_log x.2, sv_spans x.2, sv_metrics x.2)
  = (Returned, 404, "404 page not found" +:+ error_body "INTERNAL_ERROR" "an unexpected error occurred",
     [], [], new_registry).
Proof. vm_compute. reflexivity. Qed.
