(* ===== verification/ServerLiveness.v ===== *)
(** * ServerLiveness: a payment goes through the whole server

    The middleware can answer a request instead of the handler in many ways.
    For a valid payment, in a run without faults, none of them stands in the
    way: the POST reaches the service through every layer, the bank is paid and
    the client is answered 201 with the completed transaction. *)

From stdpp Require Import base tactics list gmap strings pretty.
From Stdlib Require Import Ascii.
From S2P Require Import Prelude GoLib Float64 Domain Repository Postgres Resilience Bank Payment Accounting PaymentLogic PaymentSpecs PaymentOutcome PaymentTheorems PaymentWitnesses Http RateLimit Redis Metrics Middleware Idempotency RedisLimiter Handler HandlerTheorems Server ServerTheorems ServerWitnesses Observability.

Open Scope string_scope.
Open Scope Z_scope.

Section liveness.
Context `{js : JSON} {R K : Type} `{!MerchantRepository R, !TransactionRepository R,
  !EventRepository R, !OutboxRepository R, !Database R,
  !RepositoryLaws R, !DatabaseLaws R, !AuthLaws R, !Redis K, !RedisLaws K}.
Variable env : Env.
Variable svc : PaymentService R.
Variable cfg : ServerConfig.
Abbreviation Srv := (Server R K).
Abbreviation W := (World R).
Variable route : string → string → option Route.
Variables (not_found : list WriterCall) (scrape : Srv → list WriterCall).
Variables (extract : Header → string) (route_pattern : HTTPRequest → HTTP Srv → string).
Variables (tostring : float64 → string) (tonumber : string → option float64).
Implicit Types (s : Srv) (h : HTTP Srv).

#[local] Instance client_live : RedisClient Srv K := server_client env.

Abbreviation world h := (sv_world (h_state h)).

(** ** What the request finds *)

(** The clock does not go back. *)
Definition clock_forward : Prop := ∀ n n', (n ≤ n')%nat → env_now env n ≤ env_now env n'.

(** The service is where it was in [s0], though time has passed. *)
Definition rested (s0 s : Srv) : Prop :=
  Inv (sv_world s) ∧ frame (sv_world s0) (sv_world s) ∧ ledger (sv_world s) = ledger (sv_world s0).

(** And so are the limiter and Redis. *)
Definition calm (s0 s : Srv) : Prop :=
  rested s0 s ∧ sv_limiter s = sv_limiter s0 ∧ sv_redis s = sv_redis s0.

(** Redis has nothing under the idempotency key of the request, if it uses
    Redis and one. *)
Definition key_free (r : HTTPRequest) (mid : string) (s : Srv) : Prop :=
  sc_redis cfg = true → request_key r ≠ "" →
  entry (sv_redis s) (env_now env (w_step (sv_world s))) (idempotencyRedisKey mid (request_key r)) = None.

(** [r] asks for the payment [input] of the active merchant [m], of whom it
    carries the API key, and neither the limiter, the keys in use, the bank,
    the clock nor the balance stand in the way. *)
Record payable (r : HTTPRequest) (input : CreateTransactionInput) (m : Merchant) (s : Srv) : Prop := {
  pay_asked : asked route r m = Some (ReqCreate (rq_Context r) input);
  pay_method : rq_Method r ≠ "OPTIONS";
  pay_labels : labels_valid (rq_Method r) (rq_Path r) = true;
  pay_bearer : bearer r = Some (m_APIKey m);
  pay_merchant : l_merchants (ledger (sv_world s)) !! m_ID m = Some m;
  pay_alone id m' : l_merchants (ledger (sv_world s)) !! id = Some m' → m_APIKey m' = m_APIKey m → id = m_ID m;
  pay_checks : refusal svc input (Some m) = None;
  pay_balance : m_BalanceCents m + in_AmountCents input ≤ max_int64;
  pay_key : key_unused (in_IdempotencyKey input) (ledger (sv_world s));
  pay_key_free : key_free r (m_ID m) s;
  pay_limiter s' : calm s s' →
    let a := (server_limiter env cfg tostring tonumber (rq_Context r) (clientIDFromRequest r) s').1 in
    a.1 = true ∨ a.2 ≠ None;
  pay_live q : live env svc (rq_Context r) q (sv_world s)
}.

Section request.
Variables (r : HTTPRequest) (input : CreateTransactionInput) (m : Merchant) (s0 : Srv).
Hypothesis Hs : service_ok svc.
Hypothesis Hclock : clock_forward.
Hypothesis HI : Inv (sv_world s0).
Hypothesis Hfresh : fresh_ids env (sv_world s0).
Hypothesis Hclean : clean_run env (rq_Context r).
Hypothesis Hpay : payable r input m s0.

(** After the limiter. *)
Definition ready (s : Srv) : Prop := rested s0 s ∧ key_free r (m_ID m) s.

(** ** Operations that leave the request its way *)

(** Everything but the world and the records is left alone, and of the world
    everything but the clock. *)
Definition still {A} (op : Prog Srv A) : Prop := ∀ s,
  idle (sv_world s) (sv_world (op s).2) ∧ sv_limiter (op s).2 = sv_limiter s ∧ sv_redis (op s).2 = sv_redis s.

Lemma still_same {A} (op : Prog Srv A) :
  (∀ s, sv_world (op s).2 = sv_world s ∧ sv_limiter (op s).2 = sv_limiter s ∧ sv_redis (op s).2 = sv_redis s) → still op.
Proof. intros Hop s. destruct (Hop s) as (-> & -> & ->). done. Qed.

Lemma still_now : still (server_Now env).
Proof. intros s. split; [apply quiet_now | done]. Qed.

Lemma still_registry {A} (op : Prog Registry A) : still (on_registry op).
Proof. apply still_same. intros s. unfold on_registry. by destruct (op _). Qed.

Lemma rested_idle s s' : rested s0 s → idle (sv_world s) (sv_world s') → rested s0 s'.
Proof.
  intros (HI1 & F1 & L1) Hi. destruct (Hi HI1) as (HI2 & F2 & L2). split; [done|].
  split; [by etrans | congruence].
Qed.

Lemma calm_still {A} (op : Prog Srv A) s : still op → calm s0 s → calm s0 (op s).2.
Proof.
  intros Hop (Hr & Hl & Hk). destruct (Hop s) as (Hi & El & Ek).
  split; [by eapply rested_idle | split; congruence].
Qed.

(** A free key stays free while nobody uses it. *)
Lemma key_free_later mid s s' :
  key_free r mid s → sv_redis s' = sv_redis s → (w_step (sv_world s) ≤ w_step (sv_world s'))%nat → key_free r mid s'.
Proof.
  intros Hf Hr Hstep H1 H2. rewrite Hr.
  rewrite (entry_later _ (env_now env (w_step (sv_world s)))) by (by apply Hclock). by rewrite Hf.
Qed.

Lemma calm_ready s : calm s0 s → ready s.
Proof.
  intros (Hr & _ & Hk). split; [done|]. eapply key_free_later; [apply (pay_key_free _ _ _ _ Hpay) | done |].
  destruct Hr as (_ & (_ & _ & ?) & _). done.
Qed.

(** ** The answer *)

(** The payment was made since [s0], and the client is told, after some
    headers, what it is. *)
Definition paid (h : HTTP Srv) (o : outcome) (h' : HTTP Srv) : Prop :=
  o = Returned ∧ Inv (world h') ∧ ∃ t sets, Forall plain_set sets ∧
    h_calls h' = (h_calls h ++ sets ++ data_answer StatusCreated (DataTransaction t))%list ∧
    tx_Status t = TxStatusCompleted ∧ settled_payment svc input (sv_world s0) t (ledger (world h')).

(** [hd] pays for the request, whatever its id, from a state in [P]. *)
Definition pays (P : Srv → Prop) (hd : Handler Srv) : Prop :=
  ∀ id h, P (h_state h) → wp (hd (set_rq_RequestID id r)) (paid h) h.

Lemma paid_idle h o h1 h2 :
  paid h o h1 → idle (world h1) (world h2) → h_calls h2 = h_calls h1 → paid h o h2.
Proof.
  intros (Ho & HI1 & t & sets & Hsets & Ec & Hst & Hset) Hi Ec'. destruct (Hi HI1) as (HI2 & _ & L2).
  split; [done|]. split; [done|]. exists t, sets. split_and!; [done | by rewrite Ec' | done | by rewrite L2].
Qed.

Lemma paid_set k v h o h' :
  CanonicalHeaderKey k ≠ "X-Request-Id" →
  paid (mkHTTP (h_calls h ++ [CallSet k v])%list (h_state h)) o h' → paid h o h'.
Proof.
  intros Hk (Ho & HI1 & t & sets & Hsets & Ec & Hst & Hset).
  split; [done|]. split; [done|]. exists t, (CallSet k v :: sets). split_and!; [by constructor | | done | done].
  rewrite Ec. simpl. by rewrite <- (assoc_L (++)).
Qed.

(** Writing a header first. *)
Lemma wp_header k v (hd : Prog (HTTP Srv) outcome) h :
  CanonicalHeaderKey k ≠ "X-Request-Id" →
  (∀ h1, h_state h1 = h_state h → wp hd (paid h1) h1) →
  wp (let! _ := writer (CallSet k v) in hd) (paid h) h.
Proof.
  intros Hk Hhd. apply wp_bind, wp_modify. eapply wp_mono; [by apply Hhd|].
  intros o h'. by apply paid_set.
Qed.

(** An operation on the state, before and after. *)
Lemma wp_before {A} (op : Prog Srv A) (k : A → Prog (HTTP Srv) outcome) h :
  (∀ h1, h_calls h1 = h_calls h → h_state h1 = (op (h_state h)).2 → wp (k (op (h_state h)).1) (paid h1) h1) →
  wp (let! a := state op in k a) (paid h) h.
Proof.
  intros Hk. apply wp_bind. unfold wp at 1, state. destruct (op (h_state h)) as [a s1]. simpl in Hk.
  eapply wp_mono; [by apply (Hk (mkHTTP (h_calls h) s1))|]. done.
Qed.

Lemma wp_after {A} (op : Prog Srv A) (k : A → Prog (HTTP Srv) outcome) h o h1 :
  quiet op → paid h o h1 → (∀ a h2, paid h o h2 → wp (k a) (paid h) h2) →
  wp (let! a := state op in k a) (paid h) h1.
Proof.
  intros Hop Hp Hk. apply wp_bind. unfold wp at 1, state. pose proof (Hop (h_state h1)) as Hi.
  destruct (op (h_state h1)) as [a s1]. apply Hk. by eapply paid_idle.
Qed.

(** What a wrapper does when the handler has answered. *)
Lemma wp_wrapped {X} wrap (x0 : X) (hd : Prog (HTTP Srv) outcome) k h :
  wp hd (paid h) h → (∀ x h1, paid h Returned h1 → wp (k x) (paid h) h1) →
  wp (serve_wrapped wrap x0 hd k) (paid h) h.
Proof.
  intros Hhd Hk. apply wp_serve_wrapped. wp_use Hhd. intros o h1 Hp.
  destruct o; [intros x; by apply Hk | by destruct Hp].
Qed.

(** ** The handler *)

(** The request is to create a payment. *)
Lemma payable_create : asked_create r m (service_key r) = Some (ReqCreate (rq_Context r) input)
  ∧ route (rq_Method r) (rq_Path r) = Some RouteCreate.
Proof.
  pose proof (pay_asked _ _ _ _ Hpay) as Ha. unfold asked in Ha. destruct (route _ _) as [rt|]; [|done].
  destruct rt; try done; simpl in Ha; by case_bool_decide.
Qed.

(** The request behind [RequestID] and [APIKeyAuth]. *)
Definition authenticated (id : string) (m' : Merchant) : HTTPRequest := set_rq_Merchant m' (set_rq_RequestID id r).

(** The handler completes the payment. *)
Lemma wp_Create_pays id r' m' h :
  rested s0 (h_state h) → handed (authenticated id m') r' → norm_merchant m' = m →
  wp (on_world (TransactionHandler_Create env svc) r') (paid h) h.
Proof.
  intros (HIh & Hf & HL) (Hm' & Ec & Eb & Ek) Hnorm.
  destruct payable_create as [Ha _].
  unfold asked_create in Ha. destruct (DecodeCreate (rq_Body r)) as [req|] eqn:Ed; [|done].
  destruct (Z.leb_spec (cb_AmountCents req) 0); [done|]. injection Ha as Einput.
  assert (create_input r' m' req = input) as Ein.
  { unfold create_input. rewrite Ek, <- Einput. subst m. done. }
  assert (wp (TransactionHandler_Create env svc r') (λ o x', o = Returned ∧ Inv (h_state x') ∧
    ∃ t, h_calls x' = (h_calls h ++ data_answer StatusCreated (DataTransaction t))%list ∧
    tx_Status t = TxStatusCompleted ∧ settled_payment svc input (sv_world s0) t (ledger (h_state x')))
    (mkHTTP (h_calls h) (world h))) as Hx.
  { apply (wp_Create env svc r' m' req); [done | by rewrite Eb | done|]. rewrite Ein, Ec. simpl.
    assert (fresh_ids env (world h)) as Hfr.
    { intros n Hn. rewrite HL. apply Hfresh. destruct Hf as (_ & _ & ?). lia. }
    wp_use (wp_CreateTransaction env svc (rq_Context r) input (world h) Hs HIh Hfr).
    { rewrite <- Einput. by apply (DecodeCreate_int64 (rq_Body r)). }
    intros a w' Hpost. pose proof Hpost as (HI' & _).
    apply (created_post_frame env svc _ _ _ _ _ _ Hf HL) in Hpost.
    destruct (created_completes env svc (rq_Context r) input m (sv_world s0) a w') as (t & -> & Hst & Hset);
      try done; try apply Hpay.
    - rewrite <- Einput. apply (pay_merchant _ _ _ _ Hpay).
    - split; [done|]. split; [done|]. by exists t. }
  unfold wp, on_world in *. destruct (TransactionHandler_Create env svc r' _) as [o x'].
  destruct Hx as (-> & HI' & t & Hc & Hst & Hset). split; [done|]. split; [done|]. exists t, [].
  split_and!; [done | exact Hc | done | exact Hset].
Qed.

(** ** The middleware of the key *)

Lemma info_step ctx s : let x := server_info env ctx s in
  x.1 = call_info env ctx (w_step (sv_world s)) ∧ sv_redis x.2 = sv_redis s ∧
  w_step (sv_world x.2) = S (w_step (sv_world s)).
Proof. done. Qed.

(** A free key is taken. *)
Lemma store_proceeds s mid :
  key_free r mid s → request_key r ≠ "" →
  (so_Check (server_store env cfg) (rq_Context r) mid (request_key r) s).1
  = Ok (mkIdempotencyResult IdempotencyProceed 0 "").
Proof.
  intros Hf Hk. simpl. unfold on_redis, bind. simpl.
  set (ci := call_info env (rq_Context r) (w_step (sv_world s))).
  assert ((store_Check ci (mkIdempotencyStore (sc_redis cfg)) mid (request_key r) (sv_redis s)).1
    = Ok (mkIdempotencyResult IdempotencyProceed 0 "")) as Hc.
  { unfold store_Check. destruct (disabled _ _ _) eqn:Ed; [done|]. unfold bind.
    rewrite round_trip_clean, check_eq by (by apply clean_call).
    assert (sc_redis cfg = true) as Hr by (unfold disabled in Ed; simpl in Ed; by destruct (sc_redis cfg)).
    pose proof (Hf Hr Hk : entry (sv_redis s) (ci_now ci) _ = None) as He. rewrite He. simpl.
    by rewrite lookup_empty. }
  by destruct (store_Check _ _ _ _ _) as [a k].
Qed.

Lemma wp_Idempotency_pays id m' h :
  ready (h_state h) → norm_merchant m' = m →
  wp (Idempotency (server_store env cfg) (on_world (TransactionHandler_Create env svc)) (authenticated id m'))
    (paid h) h.
Proof.
  intros [Hr Hf] Hnorm. set (r1 := authenticated id m').
  assert (m_ID m' = m_ID m) as Hid by (by subst m). unfold Idempotency. fold (request_key r1). fold (keyed r1).
  destruct (decide (request_key r1 = "")) as [Hk|Hk].
  { rewrite bool_decide_true by done. by apply (wp_Create_pays id r1 m'), Hnorm; [|apply handed_unkeyed]. }
  rewrite bool_decide_false by done. pose proof (handed_keyed r1 Hk) as Hh. destruct (keyed_eq r1) as [Em Ec].
  unfold GetMerchant. rewrite Em. simpl rq_Merchant. cbv iota. rewrite Hid, Ec.
  apply wp_before. intros h1 _ Es1.
  change (rq_Context r1) with (rq_Context r) in *. change (request_key r1) with (request_key r) in *.
  rewrite (store_proceeds _ _ Hf Hk). cbv iota. rewrite !bool_decide_false by done.
  unfold run_and_store. apply wp_wrapped.
  { apply (wp_Create_pays id (keyed r1) m'); [|done..]. rewrite Es1. eapply rested_idle; [done | apply (quiet_store env cfg _ _ _ 0 "")]. }
  intros x h2 Hp. destruct (_ && _).
  - eapply wp_after; [apply quiet_store | done|]. intros [e|] h3 Hp3; [|by apply wp_ret].
    eapply wp_after; [apply (quiet_store env cfg _ _ _ 0 "") | done|]. intros _ h4 Hp4. by apply wp_ret.
  - eapply wp_after; [apply (quiet_store env cfg _ _ _ 0 "") | done|]. intros _ h3 Hp3. by apply wp_ret.
Qed.

(** ** Authentication *)

(** The lookup of the API key finds the merchant. *)
Lemma GetByAPIKey_finds s :
  rested s0 s → ∃ m', (server_GetByAPIKey env (rq_Context r) (m_APIKey m) s).1 = Ok m' ∧ norm_merchant m' = m.
Proof.
  intros ([Hg Hok] & _ & HL).
  assert (wp (repo env (rq_Context r) (λ ci, merchants_GetByAPIKey ci (m_APIKey m)))
    (λ a _, ∃ m', a = Ok m' ∧ norm_merchant m' = m) (sv_world s)) as Hwp.
  { eapply wp_repo; [intros ci; by apply GetByAPIKey_law|]. intros a w' _ _ [[_ Ha]|[Hc _]]; [|by destruct Hc].
    rewrite HL in Ha. destruct a as [m'|e].
    - exists m'. split; [done|]. destruct Ha as [Hkey Hm'].
      pose proof (pay_alone _ _ _ _ Hpay _ _ Hm' Hkey) as Hid. rewrite Hid, (pay_merchant _ _ _ _ Hpay) in Hm'. congruence.
    - destruct Ha as [_ Ha]. specialize (Ha _ _ (pay_merchant _ _ _ _ Hpay) eq_refl).
      pose proof (pay_checks _ _ _ _ Hpay) as Hchk. unfold refusal in Hchk. unfold IsActive in Ha. by rewrite Ha in Hchk. }
  unfold server_GetByAPIKey, on_world_state. unfold wp in Hwp. by destruct (repo _ _ _ _).
Qed.

Lemma still_GetByAPIKey key : still (server_GetByAPIKey (K := K) env (rq_Context r) key).
Proof.
  intros s. split; [apply (GetByAPIKey_idle env (rq_Context r) key s)|].
  unfold server_GetByAPIKey, on_world_state. by destruct (repo _ _ _ _).
Qed.

Lemma ready_still {A} (op : Prog Srv A) s :
  still op → ready s → ready (op s).2.
Proof.
  intros Hop [Hr Hf]. destruct (Hop s) as (Hi & _ & Ek). split; [by eapply rested_idle|].
  eapply key_free_later; [done | done |]. destruct Hr as (HI' & _). by destruct (Hi HI') as (_ & (_ & _ & ?) & _).
Qed.

Lemma pays_router : pays ready (router env svc cfg route not_found scrape).
Proof.
  intros id h Hr. unfold router. simpl rq_Method. simpl rq_Path. destruct payable_create as [_ ->].
  pose proof (pay_bearer _ _ _ _ Hpay) as Hb. unfold APIKeyAuth. simpl rq_Header. unfold bearer in Hb.
  case_bool_decide as Hne; [done|].
  destruct (SplitN2 _ _) as [|scheme [|key [|]]]; [done..| |done].
  case_bool_decide; [|done]. injection Hb as ->. simpl rq_Context. apply wp_before. intros h1 _ Es1.
  destruct (GetByAPIKey_finds (h_state h)) as (m' & -> & Hm'); [apply Hr|].
  assert (IsActive m' = true) as Ha.
  { pose proof (pay_checks _ _ _ _ Hpay) as Hchk. unfold refusal in Hchk. rewrite <- Hm' in Hchk.
    unfold IsActive. simpl in Hchk. by case_bool_decide. }
  rewrite Ha. simpl negb. cbv iota. apply wp_Idempotency_pays; [|done]. rewrite Es1.
  apply ready_still; [apply still_GetByAPIKey | done].
Qed.

(** ** The limiter *)

Lemma rate_key_other client mid key : rateLimitRedisKey client ≠ idempotencyRedisKey mid key.
Proof. done. Qed.

(** A check of the limiter leaves the key free. *)
Lemma limiter_key_free client s :
  key_free r (m_ID m) s →
  key_free r (m_ID m) (server_limiter env cfg tostring tonumber (rq_Context r) client s).2.
Proof.
  intros Hf Hr Hk. unfold server_limiter. rewrite Hr. unfold on_redis, bind. simpl.
  set (n := w_step (sv_world s)). set (ci := call_info env (rq_Context r) n).
  set (rl := NewRedisRateLimiter _ _ _). set (k := idempotencyRedisKey (m_ID m) (request_key r)).
  assert (entry (RedisRateLimiter_Allow tostring tonumber rl ci client (sv_redis s)).2 (env_now env n) k = None) as He.
  { specialize (Hf Hr Hk). unfold RedisRateLimiter_Allow, bind. simpl.
    destruct (round_trip ci _ (sv_redis s)) as [a k'] eqn:Et.
    assert (entry k' (env_now env n) k = None) as Hk'.
    { apply round_trip_cases in Et as [(_ & -> & _)|(_ & [-> | ->] & _)]; [| done |].
      all: unfold rate_limit; simpl; by rewrite set_entry_other by apply rate_key_other. }
    by destruct a. }
  destruct (RedisRateLimiter_Allow _ _ _ _ _ _) as [a k']. simpl in *.
  rewrite (entry_later _ (env_now env n)) by (apply Hclock; lia). by rewrite He.
Qed.

Lemma pays_RateLimit hd :
  pays ready hd → pays (calm s0) (RateLimit (Some (server_limiter env cfg tostring tonumber)) hd).
Proof.
  intros Hhd id h Hc. unfold RateLimit. apply wp_before. intros h1 _ Es1.
  pose proof (pay_limiter _ _ _ _ Hpay _ Hc) as Hpass. cbv zeta in Hpass.
  change (clientIDFromRequest (set_rq_RequestID id r)) with (clientIDFromRequest r).
  change (rq_Context (set_rq_RequestID id r)) with (rq_Context r) in *.
  assert (ready (h_state h1)) as Hr1.
  { rewrite Es1. destruct (calm_ready _ Hc) as [Hr Hf]. split; [|by apply limiter_key_free].
    eapply rested_idle; [done | apply quiet_limiter]. }
  destruct (server_limiter _ _ _ _ _ _ _).1 as [ok e]. simpl in Hpass.
  assert (bool_decide (e ≠ None) || ok = true) as ->; [|by apply Hhd].
  destruct Hpass as [->|He]; [by rewrite orb_true_r | by rewrite bool_decide_true].
Qed.

(** ** The outer middleware *)

Lemma pays_CORS hd : pays (calm s0) hd → pays (calm s0) (CORS hd).
Proof.
  intros Hhd id h Hc. unfold CORS. do 4 (apply wp_header; [done|]; intros ? ?).
  simpl rq_Method. rewrite bool_decide_false by apply (pay_method _ _ _ _ Hpay). apply Hhd. congruence.
Qed.

Lemma wp_record code d h h1 :
  paid h Returned h1 → wp (state (RecordRequest (rq_Method r) (rq_Path r) code d)) (paid h) h1.
Proof.
  intros Hp. unfold wp, state. simpl. rewrite (pay_labels _ _ _ _ Hpay). by apply (paid_idle _ _ h1).
Qed.

Lemma pays_Metrics hd : pays (calm s0) hd → pays (calm s0) (MetricsMiddleware (server_Now env) hd).
Proof.
  intros Hhd id h Hc. unfold MetricsMiddleware.
  apply wp_before. intros h1 _ E1. apply wp_before. intros h2 _ E2.
  assert (calm s0 (h_state h2)) as Hc2.
  { rewrite E2, E1. by apply calm_still, calm_still; [apply still_now | apply still_registry |]. }
  assert (∀ o h3, paid h2 o h3 → wp (let! _ := state DecrementActive in ret o) (paid h2) h3) as Hend.
  { intros o h3 Hp. eapply wp_after; [apply quiet_registry | done|]. intros _ h4 Hp4. by apply wp_ret. }
  apply wp_bind. eapply wp_mono; [apply wp_wrapped; [by apply Hhd|] | exact Hend].
  intros x h3 Hp. eapply wp_after; [apply quiet_now | done|]. intros t h4 Hp4.
  by apply wp_record.
Qed.

Lemma pays_Logging hd : pays (calm s0) hd → pays (calm s0) (Logging (server_Now env) (λ e, modify (add_log e)) hd).
Proof.
  intros Hhd id h Hc. unfold Logging. apply wp_before. intros h1 _ E1.
  apply wp_wrapped; [apply Hhd; rewrite E1; apply calm_still; [apply still_now | done]|].
  intros x h2 Hp. eapply wp_after; [apply quiet_now | done|]. intros t h3 Hp3.
  eapply wp_after; [by apply quiet_same | done|]. intros _ h4 Hp4. by apply wp_ret.
Qed.

Lemma pays_Tracing hd :
  pays (calm s0) hd → pays (calm s0) (Tracing extract route_pattern (end_span cfg) (sc_service cfg) hd).
Proof.
  intros Hhd id h Hc. unfold Tracing. apply wp_wrapped; [by apply Hhd|]. intros x h1 Hp.
  apply wp_bind, wp_get. eapply wp_after; [|done|intros _ h2 Hp2; by apply wp_ret].
  apply quiet_same. intros s. unfold end_span. by destruct (sc_tracing cfg).
Qed.

(** The stack below [RequestID]. *)
Lemma pays_below :
  pays (calm s0) (below env svc cfg route not_found scrape extract route_pattern tostring tonumber).
Proof. apply pays_Tracing, pays_Logging, pays_Metrics, pays_CORS, pays_RateLimit, pays_router. Qed.

Lemma calm_start : calm s0 s0.
Proof. by split_and!. Qed.

(** All of it, with the header that [RequestID] sets. *)
Lemma wp_root_pays :
  wp (root_handler env svc cfg route not_found scrape extract route_pattern tostring tonumber r)
    (λ o h', ∃ id s1, paid (mkHTTP [CallSet "X-Request-ID" id] s1) o h') (mkHTTP [] s0).
Proof.
  assert (∀ id s1, calm s0 s1 → wp (let! _ := writer (CallSet "X-Request-ID" id) in
    below env svc cfg route not_found scrape extract route_pattern tostring tonumber (set_rq_RequestID id r))
    (λ o h', ∃ id s1, paid (mkHTTP [CallSet "X-Request-ID" id] s1) o h') (mkHTTP [] s1)) as Hid.
  { intros id s1 Hc. apply wp_bind, wp_modify. eapply wp_mono; [by apply pays_below|]. intros o h' Hp. by exists id, s1. }
  unfold root_handler, Recovery. apply wp_bind. eapply wp_mono.
  - unfold RequestID. apply wp_bind. case_bool_decide.
    + apply wp_bind. unfold wp at 1, state. simpl h_state. simpl h_calls.
      pose proof (calm_still _ s0 still_now calm_start) as Hc.
      destruct (server_Now env s0) as [n s1]. apply wp_ret, Hid, Hc.
    + apply wp_ret, Hid, calm_start.
  - intros o h' (id & s1 & Hp). pose proof Hp as (-> & _). apply wp_ret. by exists id, s1.
Qed.
End request.

(** The client reads the status and the body behind the headers. *)
Lemma sets_seen id sets st data :
  Forall plain_set sets →
  let calls := (CallSet "X-Request-ID" id :: sets ++ data_answer st data)%list in
  status_of calls = st ∧ body_of calls = Encode (mkAPIResponse true (Some data) None None).
Proof.
  intros Hsets. cbv zeta. set (r0 := mkResponse (header_Set "X-Request-ID" id ∅) None "").
  destruct (fold_sets r0 sets Hsets) as (E1 & E2 & _).
  unfold status_of, body_of, respond. simpl fold_left. fold r0. rewrite fold_left_app.
  unfold data_answer, answer. simpl. unfold send_header. simpl. rewrite E1. simpl. by rewrite E2.
Qed.

Abbreviation serve := (serve_request env svc cfg route not_found scrape extract route_pattern tostring tonumber).

(** C6 A valid payment goes through.  In a run without faults, with an approving
    bank and a closed circuit, a POST of an active merchant that the limiter
    lets pass, whose idempotency key is new both to Redis and to the database,
    and whose amount passes the checks and does not overflow the balance, is
    answered 201 through all the middleware; the body is the transaction, which
    is completed, credited, audited and announced in the ledger. *)
Theorem server_pays r input m s :
  service_ok svc → clock_forward → Inv (sv_world s) → fresh_ids env (sv_world s) →
  clean_run env (rq_Context r) → payable r input m s →
  wp (serve r) (λ x s', x.1 = Returned ∧ ∃ t, status_of x.2 = 201 ∧
    body_of x.2 = Encode (mkAPIResponse true (Some (DataTransaction t)) None None) ∧
    tx_Status t = TxStatusCompleted ∧ settled_payment svc input (sv_world s) t (ledger (sv_world s'))) s.
Proof.
  intros Hs Hclock HI Hfr Hcl Hpay. pose proof (wp_root_pays r input m s Hs Hclock HI Hfr Hcl Hpay) as Hroot.
  unfold wp, serve_request in *. destruct (root_handler _ _ _ _ _ _ _ _ _ _ r _) as [o [calls s']].
  destruct Hroot as (id & s1 & -> & _ & t & sets & Hsets & Ec & Hst & Hset). split; [done|]. exists t.
  simpl in Ec. simpl snd. rewrite Ec. destruct (sets_seen id sets StatusCreated (DataTransaction t) Hsets) as [E1 E2].
  by split_and!.
Qed.
End liveness.

(** ** A payment on the concrete server *)

#[local] Existing Instance sorted_range.
#[local] Instance plain_events_live : EventRepository PgStore := pg_event_repo None.
#[local] Existing Instance json0.

Lemma payable0 :
  payable env0 service0 cfg0 route0 (λ x, pretty x) ParseInt pay0
    (mkCreateTransactionInput "m_001" 250 "CAD" "k7" "order") maple server0.
Proof.
  split.
  - vm_compute. reflexivity.
  - discriminate.
  - vm_compute. reflexivity.
  - vm_compute. reflexivity.
  - vm_compute. reflexivity.
  - intros id m'. unfold ledger. simpl. rewrite lookup_fmap, fmap_Some.
    intros (m0 & Hm0 & _) _. by apply lookup_singleton_Some in Hm0 as [<- _].
  - vm_compute. reflexivity.
  - vm_compute. discriminate.
  - right. intros id t. unfold ledger. simpl. rewrite lookup_fmap, fmap_Some.
    by intros (row & [<- <-]%lookup_singleton_Some & ->).
  - intros _ _. vm_compute. reflexivity.
  - intros s' (_ & _ & Hk). left. unfold server_limiter, on_redis, bind. simpl.
    rewrite Hk. reflexivity.
  - intros q. by split.
Qed.

Lemma server_pays_witness :
  wp (serve_request env0 service0 cfg0 route0 [CallWriteHeader 404] (λ _, [CallWrite "metrics"]) extract0 pattern0
        (λ x, pretty x) ParseInt pay0) (λ x s', x.1 = Returned ∧ ∃ t, status_of x.2 = 201 ∧
    body_of x.2 = Encode (mkAPIResponse true (Some (DataTransaction t)) None None) ∧
    tx_Status t = TxStatusCompleted ∧
    settled_payment service0 (mkCreateTransactionInput "m_001" 250 "CAD" "k7" "order") world0 t (ledger (sv_world s')))
    server0.
Proof.
  apply (server_pays env0 service0 cfg0 route0 [CallWriteHeader 404] (λ _, [CallWrite "metrics"]) extract0 pattern0
    (λ x, pretty x) ParseInt pay0 _ maple server0);
    [apply service0_ok | | apply Inv0 | apply fresh_ids0 | apply clean0 | apply payable0].
  intros n n' Hn. simpl. lia.
Defined.
