(* ===== verification/Spans.v ===== *)
(** * Spans: the nested spans of a request

    The service and the repositories of PostgreSQL open a span in most of their
    functions (the two [tracer] and [recordSpanError] of
    internal/service/payment.go and internal/repository/postgres/tracing.go).
    Here are the operations on the spans of a process whose provider records,
    and the judgement that a program with spans is the program without them
    and leaves a well-formed tree of spans. *)

From stdpp Require Import base tactics list strings.
From S2P Require Import Prelude GoLib.

Open Scope string_scope.

(** ** Spans *)

(** A span, in the order of their starts: the tracer, the name, the span of
    the context it was started in, the errors recorded, the error of its
    status (whose text is the description), and whether it has ended. *)
Record SpanRec := mkSpanRec {
  sr_tracer : string;
  sr_name : string;
  sr_parent : option nat;
  sr_errors : list goerror;
  sr_status : error;
  sr_ended : bool
}.

(** The state of a program and the spans of the process. *)
Record Traced (W : Type) := mkTraced { td_state : W; td_spans : list SpanRec }.
Arguments mkTraced {W}.
Arguments td_state {W}.
Arguments td_spans {W}.

(** Operations on a span that has ended are ignored. *)
Definition while_open (f : SpanRec → SpanRec) (sp : SpanRec) : SpanRec := if sr_ended sp then sp else f sp.

Definition add_error (err : goerror) (sp : SpanRec) : SpanRec :=
  mkSpanRec (sr_tracer sp) (sr_name sp) (sr_parent sp) (sr_errors sp ++ [err])%list (sr_status sp) (sr_ended sp).
Definition set_status (err : goerror) (sp : SpanRec) : SpanRec :=
  mkSpanRec (sr_tracer sp) (sr_name sp) (sr_parent sp) (sr_errors sp) (Some err) (sr_ended sp).
Definition end_now (sp : SpanRec) : SpanRec :=
  mkSpanRec (sr_tracer sp) (sr_name sp) (sr_parent sp) (sr_errors sp) (sr_status sp) true.

Section operations.
Context {W : Type}.
Abbreviation T := (Prog (Traced W)).

Definition on_span (i : nat) (f : SpanRec → SpanRec) : T unit :=
  modify (λ t, mkTraced (td_state t) (alter (while_open f) i (td_spans t))).

(** [tracer.Start(ctx, name)], in a context with the span [parent]. *)
Definition Start (tracer name : string) (parent : option nat) : T nat := λ t,
  (length (td_spans t),
   mkTraced (td_state t) (td_spans t ++ [mkSpanRec tracer name parent [] None false])%list).

Definition RecordError (i : nat) (err : goerror) : T unit := on_span i (add_error err).
(** [SetStatus(codes.Error, err.Error())] *)
Definition SetStatusError (i : nat) (err : goerror) : T unit := on_span i (set_status err).
Definition End_ (i : nat) : T unit := on_span i end_now.

(** The same function in both packages; no span is nil. *)
(* go: internal/repository/postgres/tracing.go recordSpanError *)
Definition recordSpanError (span : nat) (err : error) : T unit :=
  match err with
  | None => ret tt
  | Some err => let! _ := RecordError span err in SetStatusError span err
  end.

(** A body between [Start] and [defer span.End()]. *)
Definition with_span {A} (tracer name : string) (parent : option nat) (body : nat → T A) : T A :=
  let! span := Start tracer name parent in
  let! a := body span in
  let! _ := End_ span in
  ret a.

(** A program without spans. *)
Definition untraced {A} (m : Prog W A) : T A := λ t,
  let (a, w) := m (td_state t) in (a, mkTraced w (td_spans t)).
End operations.

(** The error among the results of a Go function. *)
Class Fails (A : Type) := failure : A → error.
#[export] Instance fails_error : Fails error := λ e, e.
#[export] Instance fails_pair {A} : Fails (A * error) := snd.
#[export] Instance fails_result {A} : Fails (result goerror A) := λ r, match r with Ok _ => None | Err e => Some e end.

Definition failed {A} `{Fails A} (a : A) : bool := bool_decide (failure a ≠ None).

(** A call whose error is recorded where it is returned. *)
Definition recorded {W A} `{Fails A} (span : nat) (m : Prog (Traced W) A) : Prog (Traced W) A :=
  let! a := m in
  let! _ := recordSpanError span (failure a) in
  ret a.

(** ** Trees of spans *)

(** [l'] has more spans than [l]: all of them have ended, and each hangs below
    [parent] or below an earlier one of them. *)
Definition tree (parent : option nat) (l l' : list SpanRec) : Prop :=
  ∃ new, l' = (l ++ new)%list ∧ ∀ k sp, new !! k = Some sp →
    sr_ended sp = true ∧
    (sr_parent sp = parent ∨ ∃ p, (p < k)%nat ∧ sr_parent sp = Some (length l + p)%nat).

#[export] Instance tree_preorder parent : PreOrder (tree parent).
Proof.
  split; [intros l; exists []; split; [by rewrite app_nil_r | done]|].
  intros l1 l2 l3 (n1 & -> & H1) (n2 & -> & H2). exists (n1 ++ n2)%list. split; [by rewrite (assoc_L (++))|].
  intros k sp Hk. apply lookup_app_Some in Hk as [Hk|[Hle Hk]]; [by apply H1|].
  destruct (H2 _ _ Hk) as [He Hp]. split; [done|]. destruct Hp as [Hp|(p & Hlt & Hp)]; [by left|right].
  exists (length n1 + p)%nat. rewrite Hp, length_app. split; [lia | f_equal; lia].
Qed.

(** A span that is open. *)
Definition open_at (i : nat) (l : list SpanRec) : Prop := ∃ sp, l !! i = Some sp ∧ sr_ended sp = false.

Definition marked (sp : SpanRec) : bool := bool_decide (sr_status sp ≠ None).

Lemma marked_failed {A} `{Fails A} sp (a : A) : marked sp = failed a → (sr_status sp ≠ None ↔ failure a ≠ None).
Proof. unfold marked, failed. do 2 case_bool_decide; done. Qed.

(** The same span, perhaps with an error more. *)
Definition advanced (e : bool) (sp sp' : SpanRec) : Prop :=
  sr_tracer sp' = sr_tracer sp ∧ sr_name sp' = sr_name sp ∧ sr_parent sp' = sr_parent sp ∧
  sr_ended sp' = sr_ended sp ∧ marked sp' = marked sp || e.

(** What a piece of code in the open span [i] does: it may mark that span, and
    it starts a tree below it. *)
Definition grows (i : nat) (e : bool) (l l' : list SpanRec) : Prop :=
  ∃ sp sp', l !! i = Some sp ∧ sr_ended sp = false ∧ advanced e sp sp' ∧ tree (Some i) (<[i := sp']> l) l'.

Lemma grows_open i e l l' : grows i e l l' → open_at i l'.
Proof.
  intros (sp & sp' & Hi & Ho & (_ & _ & _ & He & _) & new & -> & _). exists sp'. split; [|by rewrite He].
  apply lookup_app_l_Some, list_lookup_insert_eq. by eapply lookup_lt_Some.
Qed.

Lemma grows_below i l l' : open_at i l → tree (Some i) l l' → grows i false l l'.
Proof.
  intros (sp & Hi & Ho) Ht. exists sp, sp. split_and!; [done | done | | by rewrite list_insert_id].
  unfold advanced. by rewrite orb_false_r.
Qed.

Lemma tree_insert i sp parent l l' :
  (i < length l)%nat → tree parent l l' → tree parent (<[i := sp]> l) (<[i := sp]> l').
Proof.
  intros Hi (new & -> & Hnew). exists new. split; [by rewrite insert_app_l|]. by rewrite length_insert.
Qed.

Lemma grows_trans i e1 e2 l1 l2 l3 : grows i e1 l1 l2 → grows i e2 l2 l3 → grows i (e1 || e2) l1 l3.
Proof.
  intros (sp & sp1 & Hi & Ho & (A1 & A2 & A3 & A4 & A5) & Ht1) (sp1' & sp2 & Hi2 & Ho2 & (B1 & B2 & B3 & B4 & B5) & Ht2).
  assert (i < length l1)%nat as Hlt by (by eapply lookup_lt_Some).
  assert (sp1' = sp1) as ->.
  { destruct Ht1 as (new & -> & _). rewrite lookup_app_l, list_lookup_insert_eq in Hi2 by (by rewrite ?length_insert). congruence. }
  exists sp, sp2. split; [done|]. split; [done|]. split.
  - unfold advanced. split_and!; try congruence. rewrite B5, A5. by rewrite orb_assoc.
  - etrans; [|exact Ht2]. pose proof (tree_insert i sp2 _ _ _ ltac:(by rewrite length_insert) Ht1) as Ht.
    by rewrite list_insert_insert_eq in Ht.
Qed.

(** ** Programs with spans and without *)

Section sim.
Context {W : Type}.
Implicit Types t : Traced W.

(** In the open span [i], [mt] does to the state what [m] does, with the same
    result, and to the spans what a piece of code in [i] may; [E] relates the
    result to whether it marks [i]. *)
Definition sim_in {A} (i : nat) (E : A → bool → Prop) (mt : Prog (Traced W) A) (m : Prog W A) : Prop := ∀ t,
  open_at i (td_spans t) → let x := mt t in
  m (td_state t) = (x.1, td_state x.2) ∧ ∃ e, E x.1 e ∧ grows i e (td_spans t) (td_spans x.2).

(** A whole call in a context with the span [parent]. *)
Definition implements {A} (parent : option nat) (mt : Prog (Traced W) A) (m : Prog W A) : Prop := ∀ t,
  let x := mt t in
  m (td_state t) = (x.1, td_state x.2) ∧ tree parent (td_spans t) (td_spans x.2).

(** The span is left alone; is marked when the result is an error; or neither
    is promised. *)
Definition unmarked {A} (_ : A) (e : bool) : Prop := e = false.
Definition marks {A} `{Fails A} (a : A) (e : bool) : Prop := e = failed a.
Definition anyhow {A} (_ : A) (_ : bool) : Prop := True.

Lemma sim_ret {A} i (E : A → bool → Prop) (a : A) : E a false → sim_in i E (ret a) (ret a).
Proof. intros He t Ho. split; [done|]. exists false. split; [done | by apply grows_below]. Qed.

Lemma sim_weaken {A} i (E E' : A → bool → Prop) mt m :
  (∀ a e, E a e → E' a e) → sim_in i E mt m → sim_in i E' mt m.
Proof. intros HE Hm t Ho. destruct (Hm t Ho) as (? & e & ? & ?). split; [done|]. exists e. auto. Qed.

Lemma sim_call {A} i (E : A → bool → Prop) (mt : Prog (Traced W) A) m :
  (∀ a, E a false) → implements (Some i) mt m → sim_in i E mt m.
Proof. intros HE Hm t Ho. destruct (Hm t) as [Eq Ht]. split; [done|]. exists false. split; [done | by apply grows_below]. Qed.

Lemma implements_untraced {A} parent (m : Prog W A) : implements parent (untraced m) m.
Proof. intros t. unfold untraced. by destruct (m (td_state t)). Qed.

Lemma implements_ret {A} parent (a : A) : implements parent (ret a) (ret a).
Proof. by intros t. Qed.

Lemma implements_bind {A B} parent (mt : Prog (Traced W) A) (m : Prog W A) (kt : A → Prog (Traced W) B) k :
  implements parent mt m → (∀ a, implements parent (kt a) (k a)) → implements parent (bind mt kt) (bind m k).
Proof.
  intros Hm Hk t. unfold bind. destruct (Hm t) as [E Ht]. destruct (mt t) as [a t1]. simpl in *. rewrite E.
  destruct (Hk a t1) as [E' Ht']. split; [exact E' | by etrans].
Qed.

Lemma implements_ext {A} parent (mt : Prog (Traced W) A) m m' :
  (∀ w, m w = m' w) → implements parent mt m' → implements parent mt m.
Proof. intros E Hm t. cbv zeta. rewrite E. apply Hm. Qed.

Lemma sim_bind {A B} i (E : B → bool → Prop) (mt : Prog (Traced W) A) (m : Prog W A) kt k :
  sim_in i unmarked mt m → (∀ a, sim_in i E (kt a) (k a)) → sim_in i E (bind mt kt) (bind m k).
Proof.
  intros Hm Hk t Ho. unfold bind. destruct (Hm t Ho) as (Eq & e & -> & Hg). destruct (mt t) as [a t1]. simpl in *.
  rewrite Eq. destruct (Hk a t1 (grows_open _ _ _ _ Hg)) as (Eq' & e & He & Hg'). split; [exact Eq'|].
  exists e. split; [done|]. exact (grows_trans _ _ _ _ _ _ Hg Hg').
Qed.

(** A call that does nothing to the state. *)
Lemma sim_silent {A B} i (E : B → bool → Prop) (mt : Prog (Traced W) A) (a : A) kt (m : Prog W B) :
  implements (Some i) mt (ret a) → sim_in i E (kt a) m → sim_in i E (bind mt kt) m.
Proof.
  intros Hm Hk t Ho. unfold bind. destruct (Hm t) as [Eq Ht]. destruct (mt t) as [a' t1]. simpl in *.
  injection Eq as <- Es. rewrite Es. pose proof (grows_below i _ _ Ho Ht) as Hg.
  destruct (Hk t1 (grows_open _ _ _ _ Hg)) as (Eq' & e & He & Hg'). split; [exact Eq'|]. exists e.
  split; [done | exact (grows_trans _ _ _ _ _ _ Hg Hg')].
Qed.

(** Recording an error in the own span. *)
Lemma on_span_grows i f e t :
  open_at i (td_spans t) → (∀ sp, advanced e sp (f sp)) →
  grows i e (td_spans t) (td_spans (on_span i f t).2).
Proof.
  intros (sp & Hi & Ho) Hf. exists sp, (f sp). split_and!; [done | done | done |]. simpl.
  replace (alter (while_open f) i (td_spans t)) with (<[i := f sp]> (td_spans t)); [done|].
  apply list_eq. intros j. destruct (decide (j = i)) as [->|Hne].
  - rewrite list_lookup_insert_eq by (by eapply lookup_lt_Some).
    rewrite list_lookup_alter_eq, Hi. simpl. unfold while_open. by rewrite Ho.
  - by rewrite list_lookup_insert_ne, list_lookup_alter_ne.
Qed.

Lemma record_grows i err t :
  open_at i (td_spans t) → let x := recordSpanError i err t in
  td_state x.2 = td_state t ∧ grows i (bool_decide (err ≠ None)) (td_spans t) (td_spans x.2).
Proof.
  intros Ho. destruct err as [e|]; [|by split; [|apply grows_below]].
  rewrite bool_decide_true by done. split; [done|].
  assert (∀ sp, advanced false sp (add_error e sp)) as H1.
  { intros sp. unfold advanced, marked. simpl. by rewrite orb_false_r. }
  assert (∀ sp, advanced true sp (set_status e sp)) as H2.
  { intros sp. unfold advanced, marked. simpl. by rewrite orb_true_r. }
  pose proof (on_span_grows i _ _ t Ho H1) as G1. change true with (false || true).
  eapply grows_trans; [exact G1|]. exact (on_span_grows i _ _ _ (grows_open _ _ _ _ G1) H2).
Qed.

Lemma sim_record {A} i (E : A → bool → Prop) (e : error) (a : A) :
  E a (bool_decide (e ≠ None)) →
  sim_in i E (let! _ := recordSpanError i e in ret a) (ret a).
Proof.
  intros He t Ho. unfold bind. destruct (record_grows i e t Ho) as [Es Hg].
  destruct (recordSpanError i e t) as [u t1]. simpl in *. rewrite Es. split; [done | by eexists].
Qed.

(** A call whose error is recorded. *)
Lemma sim_recorded {A} `{Fails A} i (mt : Prog (Traced W) A) m :
  sim_in i unmarked mt m → sim_in i marks (recorded i mt) m.
Proof.
  intros Hm t Ho. pose proof (sim_bind i marks mt m _ ret Hm (λ a, sim_record i marks _ a eq_refl) t Ho) as Hx.
  unfold recorded. cbv zeta in Hx. destruct Hx as [E Hg]. split; [|exact Hg].
  rewrite <- E. unfold bind, ret. by destruct (m (td_state t)).
Qed.

(** A function with a span of its own, whose body is [body]. *)
Lemma with_span_eq {A} tracer name parent (E : A → bool → Prop) (body : nat → Prog (Traced W) A) m t :
  (∀ i, sim_in i E (body i) m) → let x := with_span tracer name parent body t in
  m (td_state t) = (x.1, td_state x.2) ∧
  ∃ root new, td_spans x.2 = (td_spans t ++ root :: new)%list ∧
    sr_tracer root = tracer ∧ sr_name root = name ∧ sr_parent root = parent ∧
    sr_ended root = true ∧ E x.1 (marked root) ∧
    ∀ k sp, new !! k = Some sp → sr_ended sp = true ∧
      ∃ p, (p ≤ k)%nat ∧ sr_parent sp = Some (length (td_spans t) + p)%nat.
Proof.
  intros Hb. unfold with_span, Start, bind, End_, on_span, modify, ret.
  set (i := length (td_spans t)). set (sp0 := mkSpanRec tracer name parent [] None false).
  set (t1 := mkTraced (td_state t) (td_spans t ++ [sp0])%list).
  assert ((td_spans t ++ [sp0])%list !! i = Some sp0) as Hi0 by (by apply list_lookup_middle).
  destruct (Hb i t1) as (Eq & e & He & sp & sp1 & Hi & _ & (A1 & A2 & A3 & A4 & A5) & new & Es & Hnew); [by exists sp0|].
  destruct (body i t1) as [a t2]. simpl in *. split; [exact Eq|].
  rewrite Hi0 in Hi. injection Hi as <-. simpl in *.
  assert (<[i := sp1]> (td_spans t ++ [sp0])%list = (td_spans t ++ [sp1])%list) as Ei.
  { unfold i. rewrite <- (Nat.add_0_r (length (td_spans t))). by rewrite insert_app_r. }
  rewrite Ei in Es. rewrite Es. rewrite Ei in Hnew.
  exists (while_open end_now sp1), new. assert (while_open end_now sp1 = end_now sp1) as -> by (unfold while_open; by rewrite A4).
  split_and!; [| done | done | done | done | |].
  - rewrite <- (assoc_L (++)). simpl. unfold i. rewrite <- (Nat.add_0_r (length (td_spans t))).
    rewrite alter_app_r. simpl. unfold while_open. by rewrite A4.
  - change (marked (end_now sp1)) with (marked sp1). by rewrite A5.
  - intros k sp Hk. destruct (Hnew k sp Hk) as [Hend Hp]. split; [done|].
    destruct Hp as [Hp|(p & Hlt & Hp)].
    + exists 0%nat. split; [lia|]. rewrite Hp. unfold i. f_equal. lia.
    + exists (S p). split; [lia|]. rewrite Hp, length_app. simpl. f_equal. lia.
Qed.

Lemma implements_span {A} tracer name parent (E : A → bool → Prop) (body : nat → Prog (Traced W) A) m :
  (∀ i, sim_in i E (body i) m) → implements parent (with_span tracer name parent body) m.
Proof.
  intros Hb t. destruct (with_span_eq tracer name parent E body m t Hb) as (Eq & root & new & Es & _ & _ & Hp & He & _ & Hnew).
  split; [done|]. exists (root :: new). split; [done|]. intros [|k] sp Hk; simpl in Hk.
  - injection Hk as <-. by auto.
  - destruct (Hnew k sp Hk) as (He' & p & Hle & Hp'). split; [done|]. right. exists p. split; [lia | done].
Qed.
End sim.

(** The rules that go through a function line by line. *)
Ltac sim_step :=
  match goal with
  | |- sim_in _ _ (bind (recordSpanError _ _) _) (ret _) => apply sim_record
  | |- sim_in _ _ (recorded _ _) _ => eapply sim_weaken; [|apply sim_recorded]
  | |- sim_in _ _ (ret _) (ret _) => apply sim_ret
  | |- sim_in _ _ (untraced _) _ => apply sim_call; [|apply implements_untraced]
  | |- sim_in _ _ (bind _ _) (bind _ _) => apply sim_bind; [|intros]
  | |- sim_in _ _ (match ?x with _ => _ end) _ => destruct x
  | |- sim_in _ _ (let (_, _) := ?x in _) _ => destruct x
  end.
