(* ===== verification/SpannedRepos.v ===== *)
(** * SpannedRepos: the spans of the repositories

    Every method of the repositories of PostgreSQL runs in a span of its own and
    records its error there (the methods of internal/repository/postgres and
    tracing.go); the repositories in memory open no spans.  The service is traced
    over either of them through a class. *)

From stdpp Require Import base tactics list gmap sorting strings.
From S2P Require Import Prelude GoLib Domain Repository MockRepos Postgres Spans.

Open Scope string_scope.
Open Scope Z_scope.

(** The methods of the four interfaces, called in a context with the span
    [parent]. *)
Class SpannedRepository (R : Type) := {
  sp_merchants_GetByID : option nat → CallInfo → string → Prog (Traced R) (result goerror Merchant);
  sp_merchants_GetByAPIKey : option nat → CallInfo → string → Prog (Traced R) (result goerror Merchant);
  sp_merchants_UpdateBalance : option nat → CallInfo → string → Z → Prog (Traced R) error;
  sp_txns_Create : option nat → CallInfo → Transaction → Prog (Traced R) error;
  sp_txns_GetByID : option nat → CallInfo → string → Prog (Traced R) (result goerror Transaction);
  sp_txns_GetByIdempotencyKey : option nat → CallInfo → string → Prog (Traced R) (result goerror (option Transaction));
  sp_txns_UpdateStatus : option nat → CallInfo → string → TransactionStatus → Prog (Traced R) error;
  sp_txns_ListByMerchant : option nat → CallInfo → string → ListParams →
    Prog (Traced R) (result goerror (list Transaction * Z));
  sp_events_Create : option nat → CallInfo → TransactionEvent → Prog (Traced R) error;
  sp_events_ListByTransaction : option nat → CallInfo → string →
    Prog (Traced R) (result goerror (list TransactionEvent));
  sp_outbox_Create : option nat → CallInfo → OutboxEvent → Prog (Traced R) error;
  sp_outbox_FetchUnpublished : option nat → CallInfo → Z → Prog (Traced R) (result goerror (list OutboxEvent));
  sp_outbox_MarkPublished : option nat → CallInfo → Z → Prog (Traced R) error
}.

(** Each method does what the one without spans does, below the span of its
    context. *)
Class SpannedLaws (R : Type) `{!MerchantRepository R, !TransactionRepository R, !EventRepository R,
    !OutboxRepository R, !SpannedRepository R} : Prop := {
  sp_merchants_GetByID_law p ci id : implements p (sp_merchants_GetByID p ci id) (merchants_GetByID ci id);
  sp_merchants_GetByAPIKey_law p ci k : implements p (sp_merchants_GetByAPIKey p ci k) (merchants_GetByAPIKey ci k);
  sp_merchants_UpdateBalance_law p ci id d :
    implements p (sp_merchants_UpdateBalance p ci id d) (merchants_UpdateBalance ci id d);
  sp_txns_Create_law p ci t : implements p (sp_txns_Create p ci t) (txns_Create ci t);
  sp_txns_GetByID_law p ci id : implements p (sp_txns_GetByID p ci id) (txns_GetByID ci id);
  sp_txns_GetByIdempotencyKey_law p ci k :
    implements p (sp_txns_GetByIdempotencyKey p ci k) (txns_GetByIdempotencyKey ci k);
  sp_txns_UpdateStatus_law p ci id st : implements p (sp_txns_UpdateStatus p ci id st) (txns_UpdateStatus ci id st);
  sp_txns_ListByMerchant_law p ci id ps :
    implements p (sp_txns_ListByMerchant p ci id ps) (txns_ListByMerchant ci id ps);
  sp_events_Create_law p ci e : implements p (sp_events_Create p ci e) (events_Create ci e);
  sp_events_ListByTransaction_law p ci id :
    implements p (sp_events_ListByTransaction p ci id) (events_ListByTransaction ci id);
  sp_outbox_Create_law p ci e : implements p (sp_outbox_Create p ci e) (outbox_Create ci e);
  sp_outbox_FetchUnpublished_law p ci n :
    implements p (sp_outbox_FetchUnpublished p ci n) (outbox_FetchUnpublished ci n);
  sp_outbox_MarkPublished_law p ci i : implements p (sp_outbox_MarkPublished p ci i) (outbox_MarkPublished ci i)
}.

(** ** Repositories without spans *)

#[export] Instance mock_spans `{MapRange} : SpannedRepository MockStore := {|
  sp_merchants_GetByID _ ci id := untraced (merchants_GetByID ci id);
  sp_merchants_GetByAPIKey _ ci k := untraced (merchants_GetByAPIKey ci k);
  sp_merchants_UpdateBalance _ ci id d := untraced (merchants_UpdateBalance ci id d);
  sp_txns_Create _ ci t := untraced (txns_Create ci t);
  sp_txns_GetByID _ ci id := untraced (txns_GetByID ci id);
  sp_txns_GetByIdempotencyKey _ ci k := untraced (txns_GetByIdempotencyKey ci k);
  sp_txns_UpdateStatus _ ci id st := untraced (txns_UpdateStatus ci id st);
  sp_txns_ListByMerchant _ ci id ps := untraced (txns_ListByMerchant ci id ps);
  sp_events_Create _ ci e := untraced (events_Create ci e);
  sp_events_ListByTransaction _ ci id := untraced (events_ListByTransaction ci id);
  sp_outbox_Create _ ci e := untraced (outbox_Create ci e);
  sp_outbox_FetchUnpublished _ ci n := untraced (outbox_FetchUnpublished ci n);
  sp_outbox_MarkPublished _ ci i := untraced (outbox_MarkPublished ci i)
|}.

#[export] Instance mock_spans_laws `{MapRange} : SpannedLaws MockStore.
Proof. split; intros; apply implements_untraced. Qed.

(** ** The repositories of PostgreSQL *)

(* go: internal/repository/postgres/tracing.go tracer *)
Definition postgres_tracer : string := "github.com/aszender/payflow/internal/repository/postgres".

Section postgres.
Context `{MapRange} (scan_null : error).

(** A method whose only calls are statements, and which records every error it
    returns. *)
Definition method {A} `{Fails A} (name : string) (parent : option nat) (m : Prog PgStore A) : Prog (Traced PgStore) A :=
  with_span postgres_tracer name parent (λ span, recorded span (untraced m)).

(* go: internal/repository/postgres/merchant.go MerchantRepo.GetByID *)
Definition spanned_merchant_GetByID parent (ci : CallInfo) (id : string) :=
  method "MerchantRepo.GetByID" parent (pg_merchant_GetByID ci id).

(* go: internal/repository/postgres/merchant.go MerchantRepo.GetByAPIKey *)
Definition spanned_merchant_GetByAPIKey parent (ci : CallInfo) (apiKey : string) :=
  method "MerchantRepo.GetByAPIKey" parent (pg_merchant_GetByAPIKey ci apiKey).

(** The lookup after an update without effect opens a span below this one. *)
(* go: internal/repository/postgres/merchant.go MerchantRepo.UpdateBalance *)
Definition spanned_UpdateBalance parent (ci : CallInfo) (id : string) (delta : Z) : Prog (Traced PgStore) error :=
  with_span postgres_tracer "MerchantRepo.UpdateBalance" parent (λ span,
    let! result := untraced (statement ci Err (sql_update_balance (ci_now ci) id delta)) in
    match result with
    | Err err =>
      let err := Errorf ("update balance for " +:+ id +:+ ": ") err in
      let! _ := recordSpanError span (Some err) in ret (Some err)
    | Ok rows =>
      if rows =? 0 then
        let! r := spanned_merchant_GetByID (Some span) ci id in
        match r with
        | Err lookupErr => let! _ := recordSpanError span (Some lookupErr) in ret (Some lookupErr)
        | Ok _ => let! _ := recordSpanError span (Some ErrInsufficientFunds) in ret (Some ErrInsufficientFunds)
        end
      else ret None
    end).

(* go: internal/repository/postgres/transaction.go TransactionRepo.Create *)
Definition spanned_txn_Create parent (ci : CallInfo) (t : Transaction) :=
  method "TransactionRepo.Create" parent (pg_txn_Create ci t).

(* go: internal/repository/postgres/transaction.go TransactionRepo.GetByID *)
Definition spanned_txn_GetByID parent (ci : CallInfo) (id : string) :=
  method "TransactionRepo.GetByID" parent (pg_txn_GetByID ci id).

(* go: internal/repository/postgres/transaction.go TransactionRepo.GetByIdempotencyKey *)
Definition spanned_GetByIdempotencyKey parent (ci : CallInfo) (key : string) :=
  method "TransactionRepo.GetByIdempotencyKey" parent (pg_GetByIdempotencyKey ci key).

(* go: internal/repository/postgres/transaction.go TransactionRepo.UpdateStatus *)
Definition spanned_UpdateStatus parent (ci : CallInfo) (id : string) (status : TransactionStatus) :=
  method "TransactionRepo.UpdateStatus" parent (pg_UpdateStatus ci id status).

(* go: internal/repository/postgres/transaction.go TransactionRepo.ListByMerchant *)
Definition spanned_ListByMerchant parent (ci : CallInfo) (merchantID : string) (params : ListParams) :=
  method "TransactionRepo.ListByMerchant" parent (pg_ListByMerchant ci merchantID params).

(* go: internal/repository/postgres/events.go EventRepo.Create *)
Definition spanned_event_Create parent (ci : CallInfo) (event : TransactionEvent) :=
  method "EventRepo.Create" parent (pg_event_Create ci event).

(** An error of [Scan] is returned without being recorded. *)
(* go: internal/repository/postgres/events.go EventRepo.ListByTransaction *)
Definition spanned_ListByTransaction parent (ci : CallInfo) (txID : string)
  : Prog (Traced PgStore) (result goerror (list TransactionEvent)) :=
  with_span postgres_tracer "EventRepo.ListByTransaction" parent (λ span,
    let! rows := untraced (statement ci (λ e, Err (Errorf ("list events for tx " +:+ txID +:+ ": ") e)) (
      let! es := get pg_events in
      ret (Ok (merge_sort event_order (filter (λ r, er_transaction_id r = txID) es))))) in
    match rows with
    | Err err => let! _ := recordSpanError span (Some err) in ret (Err err)
    | Ok rows => ret (scan_events scan_null rows)
    end).

(* go: internal/repository/postgres/events.go OutboxRepo.Create *)
Definition spanned_outbox_Create parent (ci : CallInfo) (event : OutboxEvent) :=
  method "OutboxRepo.Create" parent (pg_outbox_Create ci event).

(* go: internal/repository/postgres/events.go OutboxRepo.FetchUnpublished *)
Definition spanned_FetchUnpublished parent (ci : CallInfo) (limit : Z) :=
  method "OutboxRepo.FetchUnpublished" parent (pg_FetchUnpublished ci limit).

(* go: internal/repository/postgres/events.go OutboxRepo.MarkPublished *)
Definition spanned_MarkPublished parent (ci : CallInfo) (id : Z) :=
  method "OutboxRepo.MarkPublished" parent (pg_MarkPublished ci id).

#[export] Instance pg_spans : SpannedRepository PgStore := {|
  sp_merchants_GetByID := spanned_merchant_GetByID;
  sp_merchants_GetByAPIKey := spanned_merchant_GetByAPIKey;
  sp_merchants_UpdateBalance := spanned_UpdateBalance;
  sp_txns_Create := spanned_txn_Create;
  sp_txns_GetByID := spanned_txn_GetByID;
  sp_txns_GetByIdempotencyKey := spanned_GetByIdempotencyKey;
  sp_txns_UpdateStatus := spanned_UpdateStatus;
  sp_txns_ListByMerchant := spanned_ListByMerchant;
  sp_events_Create := spanned_event_Create;
  sp_events_ListByTransaction := spanned_ListByTransaction;
  sp_outbox_Create := spanned_outbox_Create;
  sp_outbox_FetchUnpublished := spanned_FetchUnpublished;
  sp_outbox_MarkPublished := spanned_MarkPublished
|}.

#[local] Instance events_here : EventRepository PgStore := pg_event_repo scan_null.

Lemma implements_method {A} `{Fails A} name parent (m : Prog PgStore A) : implements parent (method name parent m) m.
Proof. eapply implements_span. intros i. apply sim_recorded, sim_call, implements_untraced; done. Qed.

Lemma implements_UpdateBalance parent ci id delta :
  implements parent (spanned_UpdateBalance parent ci id delta) (pg_UpdateBalance ci id delta).
Proof.
  eapply (implements_span _ _ _ marks). intros i. unfold pg_UpdateBalance. repeat sim_step; try done.
  by apply sim_call, implements_method.
Qed.

(** The rows are scanned when the statement has returned. *)
Lemma ListByTransaction_eq ci txID s :
  pg_ListByTransaction scan_null ci txID s
  = (let! rows := statement ci (λ e, Err (Errorf ("list events for tx " +:+ txID +:+ ": ") e)) (
       let! es := get pg_events in
       ret (Ok (merge_sort event_order (filter (λ r, er_transaction_id r = txID) es)))) in
     match rows with Err err => ret (Err err) | Ok rows => ret (scan_events scan_null rows) end) s.
Proof.
  unfold pg_ListByTransaction, statement, bind, get, ret.
  by destruct (ci_ctx ci), (ci_fault ci).
Qed.

#[export] Instance pg_spans_laws : SpannedLaws PgStore.
Proof.
  split; intros; try apply implements_method; [apply implements_UpdateBalance|].
  eapply implements_ext; [apply ListByTransaction_eq|].
  eapply (implements_span _ _ _ anyhow). intros i. repeat sim_step; try done.
Qed.
End postgres.
