(* ===== verification/ServiceSpans.v ===== *)
(** * ServiceSpans: the spans of the payment service

    The functions of internal/service/payment.go with the spans they open and the
    errors they record there, over repositories with spans of their own.
    Erasing the spans gives the definitions of [Payment], so that tracing changes
    nothing, and each request leaves one tree of spans, all of them ended,
    whose root has the error status exactly when the request failed. *)

From stdpp Require Import base tactics list gmap strings pretty.
From S2P Require Import Prelude GoLib Domain Repository MockRepos Postgres Resilience Bank Payment PaymentTheorems PaymentWitnesses Spans SpannedRepos.

Open Scope string_scope.
Open Scope Z_scope.

(* go: internal/service/payment.go tracer *)
Definition service_tracer : string := "github.com/aszender/payflow/internal/service".

(** A context with the span it carries. *)
Record SpanCtx := mkSpanCtx { cx_ctx : Ctx; cx_span : option nat }.

(** A context derived without the cancellation keeps its values. *)
Definition cx_postBank (cx : SpanCtx) : SpanCtx := mkSpanCtx (postBankContext (Some (cx_ctx cx))) (cx_span cx).

(** [Start] and [defer End] around [body], which gets the context of the span. *)
Definition within {W A} (name : string) (cx : SpanCtx) (body : SpanCtx → nat → Prog (Traced W) A) : Prog (Traced W) A :=
  with_span service_tracer ("PaymentService." +:+ name) (cx_span cx)
    (λ span, body (mkSpanCtx (cx_ctx cx) (Some span)) span).

Section traced.
Context {R : Type} `{!MerchantRepository R, !TransactionRepository R, !EventRepository R,
  !OutboxRepository R, !Database R, !SpannedRepository R}.
Variable env : Env.
Variable s : PaymentService R.
Abbreviation W := (World R).
Abbreviation T := (Prog (Traced W)).

(** A call of a repository with the context [cx]. *)
Definition s_repo {A} (cx : SpanCtx) (op : option nat → CallInfo → Prog (Traced R) A) : T A :=
  let! n := untraced fresh_step in
  λ t, let (a, t') := op (cx_span cx) (call_info env (cx_ctx cx) n) (mkTraced (w_repo (td_state t)) (td_spans t)) in
       (a, mkTraced (set_repo (td_state t') (td_state t)) (td_spans t')).

Definition s_contextError (cx : SpanCtx) : T error := untraced (contextError env (Some (cx_ctx cx))).

(* go: internal/service/payment.go withTransaction *)
Definition s_withTransaction (cx : SpanCtx) (fn : T error) : T error :=
  check! untraced (repo env (cx_ctx cx) db_BeginTx) or err => ret (Some (Errorf "begin transaction: " err));
  let! r0 := untraced (get w_repo) in
  check! fn or err =>
    (let! _ := untraced (modify (λ w, set_repo (db_Rollback r0 (w_repo w)) w)) in ret (Some err));
  untraced (repo env (cx_ctx cx) (λ ci, db_Commit ci r0)).

(* go: internal/service/payment.go PaymentService.emitOutboxEvent *)
Definition s_emitOutboxEvent (cx : SpanCtx) (eventType : string) (tx : option Transaction)
    (createdAt : Z) (extra : RawMessage) : T error :=
  if negb (s_outbox s) then ret None
  else match tx with
  | None => ret None
  | Some tx =>
    match transactionOutboxPayload tx extra with
    | Err err => ret (Some err)
    | Ok payload =>
      s_repo cx (λ p ci, sp_outbox_Create p ci (mkOutboxEvent 0 eventType payload false createdAt))
    end
  end.

(* go: internal/service/payment.go PaymentService.emitTransitionOutboxEvent *)
Definition s_emitTransitionOutboxEvent (cx : SpanCtx) (tx : Transaction) (to : TransactionStatus) : T error :=
  if bool_decide (to = TxStatusCompleted) then
    let! t := untraced (now env) in s_emitOutboxEvent cx "transaction.completed" (Some tx) t ∅
  else if bool_decide (to = TxStatusFailed) then
    let! t := untraced (now env) in s_emitOutboxEvent cx "transaction.failed" (Some tx) t ∅
  else ret None.

(* go: internal/service/payment.go PaymentService.rollbackTransition *)
Definition s_rollbackTransition (cx : SpanCtx) (tx : Transaction) (from : TransactionStatus) (cause : goerror)
  : T (Transaction * error) :=
  within "rollbackTransition" cx (λ cx span,
    check! s_repo cx (λ p ci, sp_txns_UpdateStatus p ci (tx_ID tx) from) or rollbackErr =>
      (let err := Join cause (Errorf ("rollback status to " +:+ from +:+ ": ") rollbackErr) in
       let! _ := recordSpanError span (Some err) in ret (tx, Some err));
    let! _ := recordSpanError span (Some cause) in ret (set_Status from tx, Some cause)).

(* go: internal/service/payment.go PaymentService.transition *)
Definition s_transition (cx : SpanCtx) (tx : Transaction) (to : TransactionStatus) : T (Transaction * error) :=
  within "transition" cx (λ cx span,
    check! s_contextError cx or err => (let! _ := recordSpanError span (Some err) in ret (tx, Some err));
    let from := tx_Status tx in
    if negb (CanTransition from to) then
      let! _ := recordSpanError span (Some (invalid_transition from to)) in
      ret (tx, Some (invalid_transition from to))
    else
    check! s_repo cx (λ p ci, sp_txns_UpdateStatus p ci (tx_ID tx) to) or err =>
      (let! _ := recordSpanError span (Some err) in ret (tx, Some err));
    let transitionedTx := set_Status to tx in
    let! t := untraced (now env) in
    check! s_repo cx (λ p ci, sp_events_Create p ci
        (mkTransactionEvent 0 (tx_ID tx) ("STATUS_" +:+ to) from to None t)) or err =>
      recorded span (s_rollbackTransition cx tx from (Errorf "record transition event: " err));
    check! s_emitTransitionOutboxEvent cx transitionedTx to or err =>
      recorded span (s_rollbackTransition cx tx from (Errorf "record transition outbox event: " err));
    ret (set_Status to tx, None)).

(** The span of this function and of the next do not record errors. *)
(* go: internal/service/payment.go PaymentService.createInDBTransaction *)
Definition s_createInDBTransaction (cx : SpanCtx) (tx : Transaction) : T error :=
  within "createInDBTransaction" cx (λ cx span, s_withTransaction cx (
    check! s_repo cx (λ p ci, sp_txns_Create p ci tx) or err => ret (Some (Errorf "save transaction: " err));
    check! s_repo cx (λ p ci, sp_events_Create p ci
        (mkTransactionEvent 0 (tx_ID tx) "CREATED" "" TxStatusPending None (tx_CreatedAt tx)))
      or err => ret (Some (Errorf "save creation event: " err));
    match marshalOutboxPayload
      {[ "transaction_id" := JStr (tx_ID tx);
         "merchant_id" := JStr (tx_MerchantID tx);
         "amount_cents" := JInt (tx_AmountCents tx);
         "currency" := JStr (tx_Currency tx);
         "status" := JStr (tx_Status tx) ]} with
    | Err err => ret (Some (Errorf "marshal created outbox payload: " err))
    | Ok payload =>
      check! s_repo cx (λ p ci, sp_outbox_Create p ci
          (mkOutboxEvent 0 "transaction.created" payload false (tx_CreatedAt tx)))
        or err => ret (Some (Errorf "save outbox event: " err));
      ret None
    end)).

(* go: internal/service/payment.go PaymentService.createWithMocks *)
Definition s_createWithMocks (cx : SpanCtx) (tx : Transaction) : T error :=
  within "createWithMocks" cx (λ cx span,
    check! s_repo cx (λ p ci, sp_txns_Create p ci tx) or err => ret (Some err);
    check! s_repo cx (λ p ci, sp_events_Create p ci
        (mkTransactionEvent 0 (tx_ID tx) "CREATED" "" TxStatusPending None (tx_CreatedAt tx)))
      or err => ret (Some (Errorf "save creation event: " err));
    s_emitOutboxEvent cx "transaction.created" (Some tx) (tx_CreatedAt tx) ∅).

(* go: internal/service/payment.go PaymentService.completeInDBTransaction *)
Definition s_completeInDBTransaction (cx : SpanCtx) (tx : Transaction) : T (Transaction * error) :=
  within "completeInDBTransaction" cx (λ cx span,
    check! s_contextError cx or err => (let! _ := recordSpanError span (Some err) in ret (tx, Some err));
    let from := tx_Status tx in
    let to := TxStatusCompleted in
    if negb (CanTransition from to) then
      let! _ := recordSpanError span (Some (invalid_transition from to)) in
      ret (tx, Some (invalid_transition from to))
    else
    let! completedAt := untraced (now env) in
    let completedTx := set_Status to tx in
    check! s_withTransaction cx (
        check! s_repo cx (λ p ci, sp_txns_UpdateStatus p ci (tx_ID tx) to) or err =>
          ret (Some (Errorf "set completed status: " err));
        check! s_repo cx (λ p ci, sp_merchants_UpdateBalance p ci (tx_MerchantID tx) (tx_AmountCents tx))
          or err => ret (Some (Errorf "credit merchant balance: " err));
        check! s_repo cx (λ p ci, sp_events_Create p ci
            (mkTransactionEvent 0 (tx_ID tx) ("STATUS_" +:+ to) from to None completedAt))
          or err => ret (Some (Errorf "record transition event: " err));
        match transactionOutboxPayload completedTx ∅ with
        | Err err => ret (Some (Errorf "marshal completed outbox payload: " err))
        | Ok payload =>
          check! s_repo cx (λ p ci, sp_outbox_Create p ci
              (mkOutboxEvent 0 "transaction.completed" payload false completedAt))
            or err => ret (Some (Errorf "record transition outbox event: " err));
          ret None
        end) or err => (let! _ := recordSpanError span (Some err) in ret (tx, Some err));
    ret (set_Status to tx, None)).

(* go: internal/service/payment.go PaymentService.completeWithMocks *)
Definition s_completeWithMocks (cx : SpanCtx) (tx : Transaction) : T (Transaction * error) :=
  within "completeWithMocks" cx (λ cx span,
    check! s_contextError cx or err => (let! _ := recordSpanError span (Some err) in ret (tx, Some err));
    check! s_repo cx (λ p ci, sp_merchants_UpdateBalance p ci (tx_MerchantID tx) (tx_AmountCents tx)) or err =>
      (let err := Errorf "credit merchant balance: " err in
       let! _ := recordSpanError span (Some err) in ret (tx, Some err));
    let! r := s_transition cx tx TxStatusCompleted in
    match r with
    | (tx, Some err) =>
      check! s_repo cx (λ p ci, sp_merchants_UpdateBalance p ci (tx_MerchantID tx) (neg64 (tx_AmountCents tx)))
        or rollbackErr =>
          (let err := Join err (Errorf "rollback credited balance: " rollbackErr) in
           let! _ := recordSpanError span (Some err) in ret (tx, Some err));
      let! _ := recordSpanError span (Some err) in ret (tx, Some err)
    | (tx, None) => ret (tx, None)
    end).

(* go: internal/service/payment.go PaymentService.completePayment *)
Definition s_completePayment (cx : SpanCtx) (tx : Transaction) : T (Transaction * error) :=
  within "completePayment" cx (λ cx span,
    if s_db s then recorded span (s_completeInDBTransaction cx tx)
    else recorded span (s_completeWithMocks cx tx)).

(** The breaker, the retries and the bank open no spans. *)
(* go: internal/service/payment.go PaymentService.callBank *)
Definition s_callBank (parentCx : SpanCtx) (bankCtx : Ctx) (tx : Transaction) : T error :=
  within "callBank" parentCx (λ cx span, recorded span (untraced (callBank env s (cx_ctx cx) bankCtx tx))).

(* go: internal/service/payment.go PaymentService.processPayment *)
Definition s_processPayment (cx : SpanCtx) (tx : Transaction) : T (Transaction * error) :=
  within "processPayment" cx (λ cx span,
    check! s_contextError cx or err => (let! _ := recordSpanError span (Some err) in ret (tx, Some err));
    let! r := s_transition cx tx TxStatusProcessing in
    match r with
    | (tx, Some err) =>
      let err := Errorf "set processing status: " err in
      let! _ := recordSpanError span (Some err) in ret (tx, Some err)
    | (tx, None) =>
      let! t := untraced (now env) in
      let bankCtx := bankCallContext (cx_ctx cx) t (s_bankTimeout s) in
      check! s_callBank cx bankCtx tx or err =>
        (let! r := s_transition (cx_postBank cx) tx TxStatusFailed in
         match r with
         | (tx, Some transitionErr) =>
           let err := Join err (Errorf "set failed status: " transitionErr) in
           let! _ := recordSpanError span (Some err) in ret (tx, Some err)
         | (tx, None) => let! _ := recordSpanError span (Some err) in ret (tx, Some err)
         end);
      recorded span (s_completePayment (cx_postBank cx) tx)
    end).

(** The checks of the input, in their order. *)
(* go: internal/service/payment.go 164-186 *)
Definition validation (input : CreateTransactionInput) : error :=
  if in_AmountCents input <=? 0 then Some ErrInvalidAmount
  else if s_maxTransactionCents s <? in_AmountCents input then Some ErrAmountExceedsLimit
  else if negb (bool_decide (in_Currency input = "CAD")) && negb (bool_decide (in_Currency input = "USD"))
  then Some ErrInvalidCurrency
  else None.

(** A stage of [CreateTransaction], in a span that records its error. *)
Definition stage {A} `{Fails A} (name : string) (rootCx : SpanCtx) (m : SpanCtx → T A) : T A :=
  within ("CreateTransaction." +:+ name) rootCx (λ cx span, recorded span (m cx)).

(** [span] is the span of [CreateTransaction], and [rootCx] its context. *)
(* go: internal/service/payment.go 146-230 *)
Definition s_create_unused (rootCx : SpanCtx) (span : nat) (input : CreateTransactionInput)
  : T (option Transaction * error) :=
  let! r := stage "merchant_lookup" rootCx (λ cx,
              s_repo cx (λ p ci, sp_merchants_GetByID p ci (in_MerchantID input))) in
  match r with
  | Err err => let! _ := recordSpanError span (Some err) in ret (None, Some err)
  | Ok merchant =>
    if negb (IsActive merchant) then
      let! _ := recordSpanError span (Some ErrMerchantInactive) in ret (None, Some ErrMerchantInactive)
    else
      check! stage "validation" rootCx (λ _, ret (validation input)) or err =>
        (let! _ := recordSpanError span (Some err) in ret (None, Some err));
      let! t := untraced (now env) in
      let! n := untraced fresh_step in
      let tx := mkTransaction (generateTransactionID env n) (in_MerchantID input)
        (in_AmountCents input) (in_Currency input) TxStatusPending (in_IdempotencyKey input)
        (in_Description input) None t t in
      check! if s_db s then stage "persist" rootCx (λ cx, s_createInDBTransaction cx tx)
             else stage "persist" rootCx (λ cx, s_createWithMocks cx tx) or err =>
        (let! _ := recordSpanError span (Some err) in ret (None, Some err));
      let! r := s_processPayment rootCx tx in
      let! _ := recordSpanError span r.2 in
      ret (Some r.1, r.2)
  end.

(* go: internal/service/payment.go PaymentService.CreateTransaction *)
Definition s_CreateTransaction (cx : SpanCtx) (input : CreateTransactionInput) : T (option Transaction * error) :=
  within "CreateTransaction" cx (λ cx span,
    check! s_contextError cx or err => (let! _ := recordSpanError span (Some err) in ret (None, Some err));
    if bool_decide (in_IdempotencyKey input = "") then s_create_unused cx span input
    else
      let! r := stage "idempotency_check" cx (λ cx,
                  s_repo cx (λ p ci, sp_txns_GetByIdempotencyKey p ci (in_IdempotencyKey input))) in
      match r with
      | Err err =>
        let! _ := recordSpanError span (Some err) in ret (None, Some (Errorf "idempotency check: " err))
      | Ok (Some existing) =>
        if negb (matchesIdempotentRequest (Some existing) input) then
          let err := Wrap "" ErrDuplicateTransaction ": idempotency key reused with different request" in
          let! _ := recordSpanError span (Some err) in ret (None, Some err)
        else ret (Some existing, None)
      | Ok None => s_create_unused cx span input
      end).

(* go: internal/service/payment.go PaymentService.ownedTransaction *)
Definition s_ownedTransaction (cx : SpanCtx) (merchantID txID : string) : T (result goerror Transaction) :=
  within "ownedTransaction" cx (λ cx span,
    let! r := s_repo cx (λ p ci, sp_txns_GetByID p ci txID) in
    match r with
    | Err err => let! _ := recordSpanError span (Some err) in ret (Err err)
    | Ok tx =>
      if negb (bool_decide (tx_MerchantID tx = merchantID)) then
        let! _ := recordSpanError span (Some ErrTransactionNotFound) in ret (Err ErrTransactionNotFound)
      else ret (Ok tx)
    end).

(** The span of this function does not record errors, and the next records
    those of its first three calls. *)
(* go: internal/service/payment.go PaymentService.refundInDBTransaction *)
Definition s_refundInDBTransaction (cx : SpanCtx) (tx : Transaction) (reason : string) : T error :=
  within "refundInDBTransaction" cx (λ cx span, s_withTransaction cx (
    check! s_repo cx (λ p ci, sp_txns_UpdateStatus p ci (tx_ID tx) TxStatusRefunded) or err => ret (Some err);
    check! s_repo cx (λ p ci, sp_merchants_UpdateBalance p ci (tx_MerchantID tx) (neg64 (tx_AmountCents tx)))
      or err => ret (Some err);
    match marshalOutboxPayload {[ "reason" := JStr reason ]} with
    | Err err => ret (Some (Errorf "marshal refund payload: " err))
    | Ok payload =>
      let! t := untraced (now env) in
      check! s_repo cx (λ p ci, sp_events_Create p ci (mkTransactionEvent 0 (tx_ID tx) "REFUNDED"
          TxStatusCompleted TxStatusRefunded (Some payload) t)) or err => ret (Some err);
      match marshalOutboxPayload
        {[ "transaction_id" := JStr (tx_ID tx);
           "merchant_id" := JStr (tx_MerchantID tx);
           "amount_cents" := JInt (tx_AmountCents tx);
           "status" := JStr "REFUNDED";
           "reason" := JStr reason ]} with
      | Err err => ret (Some (Errorf "marshal refunded outbox payload: " err))
      | Ok outboxPayload =>
        let! t := untraced (now env) in
        s_repo cx (λ p ci, sp_outbox_Create p ci (mkOutboxEvent 0 "transaction.refunded" outboxPayload false t))
      end
    end)).

(* go: internal/service/payment.go PaymentService.refundWithMocks *)
Definition s_refundWithMocks (cx : SpanCtx) (tx : Transaction) (reason : string) : T error :=
  within "refundWithMocks" cx (λ cx span,
    check! s_repo cx (λ p ci, sp_txns_UpdateStatus p ci (tx_ID tx) TxStatusRefunded) or err =>
      (let! _ := recordSpanError span (Some err) in ret (Some err));
    let tx := set_Status TxStatusRefunded tx in
    check! s_repo cx (λ p ci, sp_merchants_UpdateBalance p ci (tx_MerchantID tx) (neg64 (tx_AmountCents tx)))
      or err => (let! _ := recordSpanError span (Some err) in ret (Some err));
    match marshalOutboxPayload {[ "reason" := JStr reason ]} with
    | Err err => ret (Some (Errorf "marshal refund payload: " err))
    | Ok payload =>
      let! t := untraced (now env) in
      check! s_repo cx (λ p ci, sp_events_Create p ci (mkTransactionEvent 0 (tx_ID tx) "REFUNDED"
          TxStatusCompleted TxStatusRefunded (Some payload) t)) or err =>
        (let! _ := recordSpanError span (Some err) in ret (Some err));
      let! t := untraced (now env) in
      s_emitOutboxEvent cx "transaction.refunded" (Some tx) t {[ "reason" := JStr reason ]}
    end).

(* go: internal/service/payment.go PaymentService.RefundTransaction *)
Definition s_RefundTransaction (cx : SpanCtx) (merchantID txID reason : string) : T (option Transaction * error) :=
  within "RefundTransaction" cx (λ cx span,
    check! s_contextError cx or err => (let! _ := recordSpanError span (Some err) in ret (None, Some err));
    let! r := s_ownedTransaction cx merchantID txID in
    match r with
    | Err err => let! _ := recordSpanError span (Some err) in ret (None, Some err)
    | Ok tx =>
      if negb (CanTransition (tx_Status tx) TxStatusRefunded) then
        let! _ := recordSpanError span (Some (cannot_refund (tx_Status tx))) in
        ret (None, Some (cannot_refund (tx_Status tx)))
      else
        let! err := if s_db s then s_refundInDBTransaction cx tx reason
                    else s_refundWithMocks cx tx reason in
        match err with
        | Some err => let! _ := recordSpanError span (Some err) in ret (None, Some err)
        | None => ret (Some (set_Status TxStatusRefunded tx), None)
        end
    end).

(* go: internal/service/payment.go PaymentService.GetTransaction *)
Definition s_GetTransaction (cx : SpanCtx) (merchantID id : string) : T (result goerror Transaction) :=
  within "GetTransaction" cx (λ cx span, recorded span (s_ownedTransaction cx merchantID id)).

(* go: internal/service/payment.go PaymentService.GetMerchantBalance *)
Definition s_GetMerchantBalance (cx : SpanCtx) (merchantID : string) : T (result goerror Merchant) :=
  within "GetMerchantBalance" cx (λ cx span,
    recorded span (s_repo cx (λ p ci, sp_merchants_GetByID p ci merchantID))).

(* go: internal/service/payment.go PaymentService.ListTransactions *)
Definition s_ListTransactions (cx : SpanCtx) (merchantID : string) (params : ListParams)
  : T (result goerror (list Transaction * Z)) :=
  within "ListTransactions" cx (λ cx span,
    recorded span (s_repo cx (λ p ci, sp_txns_ListByMerchant p ci merchantID params))).

(* go: internal/service/payment.go PaymentService.GetTransactionHistory *)
Definition s_GetTransactionHistory (cx : SpanCtx) (merchantID txID : string)
  : T (result goerror (list TransactionEvent)) :=
  within "GetTransactionHistory" cx (λ cx span,
    let! r := s_ownedTransaction cx merchantID txID in
    match r with
    | Err err => let! _ := recordSpanError span (Some err) in ret (Err err)
    | Ok _ => recorded span (s_repo cx (λ p ci, sp_events_ListByTransaction p ci txID))
    end).

(** ** Erasing the spans *)

Context `{!SpannedLaws R}.
Create HintDb spans.

Lemma implements_repo {A} c p (op : option nat → CallInfo → Prog (Traced R) A) (op' : CallInfo → Prog R A) :
  (∀ p ci, implements p (op p ci) (op' ci)) →
  implements p (s_repo (mkSpanCtx c p) op) (repo env c op').
Proof.
  intros Hop t. unfold s_repo, repo, bind, untraced. simpl.
  destruct (Hop p (call_info env c (w_step (td_state t)))
    (mkTraced (w_repo (td_state t)) (td_spans t))) as [E Ht].
  destruct (op _ _ _) as [a t']. simpl in *. by rewrite E.
Qed.

(** One line of the source each. *)
Ltac repo_law := apply implements_repo; intros; first
  [ apply sp_merchants_GetByID_law | apply sp_merchants_UpdateBalance_law | apply sp_txns_Create_law
  | apply sp_txns_GetByID_law | apply sp_txns_GetByIdempotencyKey_law | apply sp_txns_UpdateStatus_law
  | apply sp_txns_ListByMerchant_law | apply sp_events_Create_law | apply sp_events_ListByTransaction_law
  | apply sp_outbox_Create_law ].

Ltac spans := repeat sim_step; try done;
  try (apply sim_call; [done|]; first [repo_law | solve [eauto 2 with spans] | apply implements_untraced]).

Lemma implements_within {A} name c p (E : A → bool → Prop) (body : SpanCtx → nat → T A) m :
  (∀ i, sim_in i E (body (mkSpanCtx c (Some i)) i) m) → implements p (within name (mkSpanCtx c p) body) m.
Proof. intros Hb. eapply implements_span. intros i. apply Hb. Qed.

Lemma sim_withTransaction i c p fnt fn :
  sim_in i unmarked fnt fn → sim_in i unmarked (s_withTransaction (mkSpanCtx c p) fnt) (withTransaction env c fn).
Proof. intros Hfn. unfold s_withTransaction, withTransaction. repeat sim_step; try done. Qed.

Lemma implements_emit c p ty tx t extra :
  implements p (s_emitOutboxEvent (mkSpanCtx c p) ty tx t extra) (emitOutboxEvent env s c ty tx t extra).
Proof.
  unfold s_emitOutboxEvent, emitOutboxEvent. destruct (negb _); [apply implements_ret|]. destruct tx as [tx|]; [|apply implements_ret].
  destruct (transactionOutboxPayload _ _); [repo_law | apply implements_ret].
Qed.

#[local] Hint Resolve implements_emit : spans.

Lemma implements_emitTransition c p tx to :
  implements p (s_emitTransitionOutboxEvent (mkSpanCtx c p) tx to) (emitTransitionOutboxEvent env s c tx to).
Proof.
  unfold s_emitTransitionOutboxEvent, emitTransitionOutboxEvent.
  repeat case_bool_decide; [apply implements_bind; [apply implements_untraced|]; intros; apply implements_emit.. |].
  apply implements_ret.
Qed.
#[local] Hint Resolve implements_emitTransition : spans.

Lemma implements_rollback c p tx from cause :
  implements p (s_rollbackTransition (mkSpanCtx c p) tx from cause) (rollbackTransition env c tx from cause).
Proof. apply (implements_within _ _ _ marks). intros i. unfold rollbackTransition. spans. Qed.
#[local] Hint Resolve implements_rollback : spans.

Lemma implements_transition c p tx to :
  implements p (s_transition (mkSpanCtx c p) tx to) (transition env s c tx to).
Proof. apply (implements_within _ _ _ marks). intros i. unfold transition. spans. Qed.
#[local] Hint Resolve implements_transition : spans.

Lemma implements_createInDB c p tx :
  implements p (s_createInDBTransaction (mkSpanCtx c p) tx) (createInDBTransaction env c tx).
Proof.
  apply (implements_within _ _ _ unmarked). intros i. unfold createInDBTransaction.
  apply sim_withTransaction. spans.
Qed.

Lemma implements_createWithMocks c p tx :
  implements p (s_createWithMocks (mkSpanCtx c p) tx) (createWithMocks env s c tx).
Proof. apply (implements_within _ _ _ unmarked). intros i. unfold createWithMocks. spans. Qed.

Lemma implements_completeInDB c p tx :
  implements p (s_completeInDBTransaction (mkSpanCtx c p) tx) (completeInDBTransaction env c tx).
Proof.
  apply (implements_within _ _ _ marks). intros i. unfold completeInDBTransaction. spans.
  apply sim_withTransaction. spans.
Qed.

Lemma implements_completeWithMocks c p tx :
  implements p (s_completeWithMocks (mkSpanCtx c p) tx) (completeWithMocks env s c tx).
Proof. apply (implements_within _ _ _ marks). intros i. unfold completeWithMocks. spans. Qed.
#[local] Hint Resolve implements_createInDB implements_createWithMocks implements_completeInDB
  implements_completeWithMocks : spans.

Lemma implements_completePayment c p tx :
  implements p (s_completePayment (mkSpanCtx c p) tx) (completePayment env s c tx).
Proof. apply (implements_within _ _ _ marks). intros i. unfold completePayment. spans. Qed.

Lemma implements_callBank c p bankCtx tx :
  implements p (s_callBank (mkSpanCtx c p) bankCtx tx) (callBank env s c bankCtx tx).
Proof. apply (implements_within _ _ _ marks). intros i. spans. Qed.
#[local] Hint Resolve implements_completePayment implements_callBank : spans.

Lemma implements_processPayment c p tx :
  implements p (s_processPayment (mkSpanCtx c p) tx) (processPayment env s c tx).
Proof. apply (implements_within _ _ _ marks). intros i. unfold processPayment. spans. Qed.
#[local] Hint Resolve implements_processPayment : spans.

Lemma implements_owned c p mid id :
  implements p (s_ownedTransaction (mkSpanCtx c p) mid id) (ownedTransaction env c mid id).
Proof. apply (implements_within _ _ _ marks). intros i. unfold ownedTransaction. spans. Qed.

Lemma implements_refundInDB c p tx reason :
  implements p (s_refundInDBTransaction (mkSpanCtx c p) tx reason) (refundInDBTransaction env c tx reason).
Proof.
  apply (implements_within _ _ _ unmarked). intros i. unfold refundInDBTransaction.
  apply sim_withTransaction. spans.
Qed.

Lemma implements_refundWithMocks c p tx reason :
  implements p (s_refundWithMocks (mkSpanCtx c p) tx reason) (refundWithMocks env s c tx reason).
Proof. apply (implements_within _ _ _ anyhow). intros i. unfold refundWithMocks. spans. Qed.

(** A stage leaves the span of [CreateTransaction] to its caller. *)
Lemma implements_stage {A} `{Fails A} name c p (mt : SpanCtx → T A) m :
  (∀ i, implements (Some i) (mt (mkSpanCtx c (Some i))) m) → implements p (stage name (mkSpanCtx c p) mt) m.
Proof. intros Hm. apply (implements_within _ _ _ marks). intros i. apply sim_recorded, sim_call; [done | apply Hm]. Qed.
#[local] Hint Resolve implements_owned implements_refundInDB implements_refundWithMocks : spans.

Ltac stages := repeat first [ progress spans | apply sim_call; [done|]; apply implements_stage; intros ];
  try (first [repo_law | solve [eauto 2 with spans]]).

Lemma sim_create_unused i c input :
  sim_in i marks (s_create_unused (mkSpanCtx c (Some i)) i input) (create_unused env s c input).
Proof.
  unfold s_create_unused, create_unused. apply sim_bind; [by stages|]. intros [m|e]; [|by spans].
  destruct (negb (IsActive m)); [by spans|]. eapply sim_silent.
  { apply implements_stage. intros j. apply implements_ret. }
  unfold validation. destruct (_ <=? _); [by spans|]. destruct (_ <? _); [by spans|]. destruct (_ && _); [by spans|].
  stages.
Qed.

(** ** Requests *)

(** [mt] is [m] with a tree of spans, whose root is called [name], is a child
    of the span of the context and has the error status when the result is an
    error; the spans of before are untouched. *)
Definition rooted {A} `{Fails A} (name : string) (p : option nat) (mt : T A) (m : Prog W A) : Prop := ∀ t,
  let x := mt t in
  m (td_state t) = (x.1, td_state x.2) ∧
  ∃ root new, td_spans x.2 = (td_spans t ++ root :: new)%list ∧
    sr_tracer root = service_tracer ∧ sr_name root = "PaymentService." +:+ name ∧ sr_parent root = p ∧
    sr_ended root = true ∧ marked root = failed x.1 ∧
    ∀ k sp, new !! k = Some sp → sr_ended sp = true ∧
      ∃ q, (q ≤ k)%nat ∧ sr_parent sp = Some (length (td_spans t) + q)%nat.

Lemma rooted_within {A} `{Fails A} name c p (body : SpanCtx → nat → T A) m :
  (∀ i, sim_in i marks (body (mkSpanCtx c (Some i)) i) m) → rooted name p (within name (mkSpanCtx c p) body) m.
Proof. intros Hb t. apply (with_span_eq _ _ _ marks). intros i. apply Hb. Qed.

Lemma rooted_Create c p input :
  rooted "CreateTransaction" p (s_CreateTransaction (mkSpanCtx c p) input) (CreateTransaction env s c input).
Proof.
  apply rooted_within. intros i. unfold CreateTransaction. apply sim_bind; [by spans|]. intros [e|]; [by spans|].
  case_bool_decide; [apply sim_create_unused|]. apply sim_bind; [by stages|].
  intros [[t|]|e]; [by spans | apply sim_create_unused | by spans].
Qed.

Lemma rooted_Refund c p mid id reason :
  rooted "RefundTransaction" p (s_RefundTransaction (mkSpanCtx c p) mid id reason) (RefundTransaction env s c mid id reason).
Proof. apply rooted_within. intros i. unfold RefundTransaction. spans. Qed.

Lemma rooted_Get c p mid id :
  rooted "GetTransaction" p (s_GetTransaction (mkSpanCtx c p) mid id) (GetTransaction env c mid id).
Proof. apply rooted_within. intros i. unfold GetTransaction. spans. Qed.

Lemma rooted_Balance c p mid :
  rooted "GetMerchantBalance" p (s_GetMerchantBalance (mkSpanCtx c p) mid) (GetMerchantBalance env c mid).
Proof. apply rooted_within. intros i. unfold GetMerchantBalance. spans. Qed.

Lemma rooted_List c p mid params :
  rooted "ListTransactions" p (s_ListTransactions (mkSpanCtx c p) mid params) (ListTransactions env c mid params).
Proof. apply rooted_within. intros i. unfold ListTransactions. spans. Qed.

Lemma rooted_History c p mid id :
  rooted "GetTransactionHistory" p (s_GetTransactionHistory (mkSpanCtx c p) mid id) (GetTransactionHistory env c mid id).
Proof. apply rooted_within. intros i. unfold GetTransactionHistory. spans. Qed.

(** The answer to a request, without spans and with, and the name of its root. *)
Inductive Answer :=
| AnswerTxn (a : option Transaction * error)
| AnswerOne (a : result goerror Transaction)
| AnswerMerchant (a : result goerror Merchant)
| AnswerEvents (a : result goerror (list TransactionEvent))
| AnswerList (a : result goerror (list Transaction * Z)).

#[export] Instance fails_answer : Fails Answer := λ a,
  match a with
  | AnswerTxn a => failure a
  | AnswerOne a => failure a
  | AnswerMerchant a => failure a
  | AnswerEvents a => failure a
  | AnswerList a => failure a
  end.

Definition answer_request (r : Request) : Prog W Answer :=
  match r with
  | ReqCreate ctx input => let! a := CreateTransaction env s ctx input in ret (AnswerTxn a)
  | ReqRefund ctx mid id reason => let! a := RefundTransaction env s ctx mid id reason in ret (AnswerTxn a)
  | ReqGet ctx mid id => let! a := GetTransaction env ctx mid id in ret (AnswerOne a)
  | ReqBalance ctx mid => let! a := GetMerchantBalance env ctx mid in ret (AnswerMerchant a)
  | ReqHistory ctx mid id => let! a := GetTransactionHistory env ctx mid id in ret (AnswerEvents a)
  | ReqList ctx mid ps => let! a := ListTransactions env ctx mid ps in ret (AnswerList a)
  end.

Definition trace_request (p : option nat) (r : Request) : T Answer :=
  match r with
  | ReqCreate ctx input => let! a := s_CreateTransaction (mkSpanCtx ctx p) input in ret (AnswerTxn a)
  | ReqRefund ctx mid id reason => let! a := s_RefundTransaction (mkSpanCtx ctx p) mid id reason in ret (AnswerTxn a)
  | ReqGet ctx mid id => let! a := s_GetTransaction (mkSpanCtx ctx p) mid id in ret (AnswerOne a)
  | ReqBalance ctx mid => let! a := s_GetMerchantBalance (mkSpanCtx ctx p) mid in ret (AnswerMerchant a)
  | ReqHistory ctx mid id => let! a := s_GetTransactionHistory (mkSpanCtx ctx p) mid id in ret (AnswerEvents a)
  | ReqList ctx mid ps => let! a := s_ListTransactions (mkSpanCtx ctx p) mid ps in ret (AnswerList a)
  end.

Definition root_name (r : Request) : string :=
  match r with
  | ReqCreate _ _ => "CreateTransaction"
  | ReqRefund _ _ _ _ => "RefundTransaction"
  | ReqGet _ _ _ => "GetTransaction"
  | ReqBalance _ _ => "GetMerchantBalance"
  | ReqHistory _ _ _ => "GetTransactionHistory"
  | ReqList _ _ _ => "ListTransactions"
  end.

(** [run_request] only drops the answer. *)
Lemma run_request_answer r w : run_request env s r w = (tt, (answer_request r w).2).
Proof. destruct r; simpl; unfold bind, ret; by case_match. Qed.

Lemma rooted_map {A B} `{Fails A, Fails B} name p (mt : T A) (m : Prog W A) (f : A → B) :
  (∀ a, failed (f a) = failed a) → rooted name p mt m →
  rooted name p (let! a := mt in ret (f a)) (let! a := m in ret (f a)).
Proof.
  intros Hf Hm t. unfold bind, ret. destruct (Hm t) as (E & root & new & Es & Ht & Hn & Hp & He & Hmark & Hnew).
  destruct (mt t) as [a t']. simpl in *. rewrite E. split; [done|]. exists root, new. rewrite Hf. by split_and!.
Qed.

Lemma rooted_request p r : rooted (root_name r) p (trace_request p r) (answer_request r).
Proof.
  destruct r; simpl; apply rooted_map; try done;
    first [ apply rooted_Create | apply rooted_Refund | apply rooted_Get | apply rooted_Balance
          | apply rooted_History | apply rooted_List ].
Qed.

(** C33 Tracing observes every request and changes none.  With the spans of the
    service and of the repositories a request gives the answer and the state it
    gives without them, whatever fails; it leaves the spans of before alone
    and appends one tree, in which every span has ended and hangs below an
    earlier one; the root is named after the operation, is a child of the span
    of its context, and has the error status exactly when the request is
    answered with an error. *)
Theorem requests_traced p r t :
  let x := trace_request p r t in
  answer_request r (td_state t) = (x.1, td_state x.2) ∧
  run_request env s r (td_state t) = (tt, td_state x.2) ∧
  ∃ root new, td_spans x.2 = (td_spans t ++ root :: new)%list ∧
    sr_name root = "PaymentService." +:+ root_name r ∧ sr_parent root = p ∧ sr_ended root = true ∧
    (sr_status root ≠ None ↔ failure x.1 ≠ None) ∧
    ∀ k sp, new !! k = Some sp → sr_ended sp = true ∧
      ∃ q, (q ≤ k)%nat ∧ sr_parent sp = Some (length (td_spans t) + q)%nat.
Proof.
  destruct (rooted_request p r t) as (E & root & new & Es & _ & Hn & Hp & He & Hmark & Hnew). cbv zeta.
  split; [done|]. split; [by rewrite run_request_answer, E|]. exists root, new. split_and!; try done.
  by apply marked_failed.
Qed.
End traced.

(** ** The spans of a payment and of a refund *)

#[local] Existing Instance sorted_range.
#[local] Instance plain_events_spans : EventRepository PgStore := pg_event_repo None.
#[local] Instance spans_here : SpannedRepository PgStore := pg_spans None.
#[local] Instance spans_laws_here : SpannedLaws PgStore := pg_spans_laws None.

(** The span of the HTTP request, which is still open. *)
Definition server_span : SpanRec := mkSpanRec "payflow/http" "POST /api/v1/transactions" None [] None false.

Example create_spans :
  let x := trace_request env0 service0 (Some 0%nat) (ReqCreate Background input0) (mkTraced world0 [server_span]) in
  failure x.1 = None ∧
  map (λ sp, (sr_name sp, sr_parent sp)) (drop 1 (td_spans x.2)) =
  [("PaymentService.CreateTransaction", Some 0%nat);
   ("PaymentService.CreateTransaction.idempotency_check", Some 1%nat);
   ("TransactionRepo.GetByIdempotencyKey", Some 2%nat);
   ("PaymentService.CreateTransaction.merchant_lookup", Some 1%nat);
   ("MerchantRepo.GetByID", Some 4%nat);
   ("PaymentService.CreateTransaction.validation", Some 1%nat);
   ("PaymentService.CreateTransaction.persist", Some 1%nat);
   ("PaymentService.createInDBTransaction", Some 7%nat);
   ("TransactionRepo.Create", Some 8%nat);
   ("EventRepo.Create", Some 8%nat);
   ("OutboxRepo.Create", Some 8%nat);
   ("PaymentService.processPayment", Some 1%nat);
   ("PaymentService.transition", Some 12%nat);
   ("TransactionRepo.UpdateStatus", Some 13%nat);
   ("EventRepo.Create", Some 13%nat);
   ("PaymentService.callBank", Some 12%nat);
   ("PaymentService.completePayment", Some 12%nat);
   ("PaymentService.completeInDBTransaction", Some 17%nat);
   ("TransactionRepo.UpdateStatus", Some 18%nat);
   ("MerchantRepo.UpdateBalance", Some 18%nat);
   ("EventRepo.Create", Some 18%nat);
   ("OutboxRepo.Create", Some 18%nat)].
Proof. vm_compute. split; reflexivity. Qed.

(** A merchant without the money for the refund.  The span of the database
    transaction that failed is not marked. *)
Definition poor : World PgStore := world_of (set_Balance 100 maple).
Definition refund0 : Request := ReqRefund Background "m_001" "old" "duplicate".

Example refund_spans :
  let x := trace_request env0 service0 (Some 0%nat) refund0 (mkTraced poor [server_span]) in
  failure x.1 = Some ErrInsufficientFunds ∧
  map (λ sp, (sr_name sp, sr_parent sp, sr_status sp)) (drop 1 (td_spans x.2)) =
  [("PaymentService.RefundTransaction", Some 0%nat, Some ErrInsufficientFunds);
   ("PaymentService.ownedTransaction", Some 1%nat, None);
   ("TransactionRepo.GetByID", Some 2%nat, None);
   ("PaymentService.refundInDBTransaction", Some 1%nat, None);
   ("TransactionRepo.UpdateStatus", Some 4%nat, None);
   ("MerchantRepo.UpdateBalance", Some 4%nat, Some ErrInsufficientFunds);
   ("MerchantRepo.GetByID", Some 6%nat, None)].
Proof. vm_compute. split; reflexivity. Qed.

Lemma requests_traced_witness :
  let x := trace_request env0 service0 (Some 0%nat) refund0 (mkTraced poor [server_span]) in
  answer_request env0 service0 refund0 poor = (x.1, td_state x.2) ∧
  run_request env0 service0 refund0 poor = (tt, td_state x.2) ∧
  ∃ root new, td_spans x.2 = ([server_span] ++ root :: new)%list ∧
    sr_name root = "PaymentService." +:+ root_name refund0 ∧ sr_parent root = Some 0%nat ∧ sr_ended root = true ∧
    (sr_status root ≠ None ↔ failure x.1 ≠ None) ∧
    ∀ k sp, new !! k = Some sp → sr_ended sp = true ∧
      ∃ q, (q ≤ k)%nat ∧ sr_parent sp = Some (length [server_span] + q)%nat.
Proof. exact (requests_traced env0 service0 (Some 0%nat) refund0 (mkTraced poor [server_span])). Defined.
