(* ===== verification/Main.v ===== *)
(** * Main: the process that cmd/server/main.go starts

    The start-up of [main] up to the point where it serves (configuration,
    tracing, connection, migrations), the service, limiter, worker and server
    it assembles from the configuration, how it stops, and what holds of the
    whole process.  Opening connections and creating the exporter of spans
    either succeed or fail. *)

From stdpp Require Import base tactics list gmap strings pretty.
From S2P Require Import Prelude GoLib Float64 Domain Repository Postgres Migrations Resilience Bank Payment Accounting PaymentLogic PaymentSpecs PaymentOutcome PaymentTheorems Lifecycle PaymentWitnesses OutboxWorker RateLimit Redis Http Metrics Middleware Telemetry Idempotency RedisLimiter Handler HandlerTheorems Server ServerTheorems ServerWitnesses Config Observability.

Open Scope string_scope.
Open Scope Z_scope.

(* go: cmd/server/main.go 24 *)
Definition version : string := "1.0.0".

Inductive Level := LevelDebug | LevelInfo | LevelWarn | LevelError.

(* go: cmd/server/main.go parseLogLevel *)
Definition parseLogLevel (raw : string) : Level :=
  if bool_decide (raw = "debug") then LevelDebug
  else if bool_decide (raw = "warn") then LevelWarn
  else if bool_decide (raw = "error") then LevelError
  else LevelInfo.

(** [main] exits with a code or goes on to serve, with tracing set up or not. *)
Inductive Startup := Exit (code : Z) | Serving (cfg : Config) (tracing : bool).

(** ** The end of the process *)

(** What [main] waits for: a signal, or the error of [ListenAndServe]. *)
(* go: cmd/server/main.go 219-225 *)
Inductive Stop := SignalReceived | ServerFailed (err : goerror).

(** What it does then. *)
Inductive Effect :=
| WorkerCancel
| ServerShutdown (timeout : Z)
| ShutdownCancel
| SignalStop
| RedisClose
| DBClose
| TracingShutdown (timeout : Z).

(** The deferred calls, the last one first; [os.Exit] runs none of them. *)
(* go: cmd/server/main.go 54-60 *)
Definition deferred (redis : bool) : list Effect :=
  ([ShutdownCancel; SignalStop; WorkerCancel] ++ (if redis then [RedisClose] else []) ++
   [DBClose; TracingShutdown (5 * Second)])%list.

(** The exit code and the effects; an error of [Shutdown] is only logged. *)
(* go: cmd/server/main.go 217-240 *)
Definition finish (redis : bool) (stop : Stop) : Z * list Effect :=
  let exitCode := match stop with SignalReceived => 0 | ServerFailed _ => 1 end in
  (exitCode, [WorkerCancel; ServerShutdown (30 * Second)] ++
             (if negb (exitCode =? 0) then [] else deferred redis))%list.

Lemma finish_order redis :
  [WorkerCancel; ServerShutdown (30 * Second); DBClose] `sublist_of` (finish redis SignalReceived).2.
Proof. destruct redis; simpl; do 2 constructor; repeat (apply sublist_skip || constructor). Qed.

(** A process that served: the answers, the state after them, and its end. *)
Record Run (S : Type) := mkRun {
  run_answers : list (list WriterCall);
  run_state : S;
  run_exit : Z;
  run_effects : list Effect
}.
Arguments mkRun {S}.
Arguments run_answers {S}.
Arguments run_state {S}.
Arguments run_exit {S}.
Arguments run_effects {S}.

Section main.
Context `{js : JSON} {R K : Type} `{!MerchantRepository R, !TransactionRepository R,
  !EventRepository R, !OutboxRepository R, !Database R, !Redis K}.

(** The process environment, and the outside world. *)
Variable LookupEnv : string → option string.
Variable ParseFloat : string → option float64.
Context {E : Type}.
Variable otlptracehttp_New : Ctx → list ExporterOption → result goerror E.
Variable provider_Shutdown : TracerProvider E → Ctx → error.
Variable sql_Open : string → error.
Variable PingContext : DB → Ctx → error.
Variable started_at : Z.
Variable exec_sql : string → R → R * error.
Variable info : nat → CallInfo.
Variable read_error : nat → error.
Variable env : Env.

(** What the HTTP exchange of a step with the bank brings. *)
Variable new_request : string → error.
Variable exchange : nat → Ctx → Z → string → BankChargeRequest → result goerror HttpResponse.

Variable route : string → string → option Route.
Variables (not_found : list WriterCall) (scrape : Server R K → list WriterCall).
Variables (extract : Header → string) (route_pattern : HTTPRequest → HTTP (Server R K) → string).
Variables (tostring : float64 → string) (tonumber : string → option float64).

Abbreviation W := (World R).

(** ** What main assembles *)

Definition http_Do (ctx : Ctx) (timeout : Z) (url : string) (req : BankChargeRequest)
  : Prog W (result goerror HttpResponse) :=
  let! n := fresh_step in ret (exchange n ctx timeout url req).

(* go: cmd/server/main.go 100-103 *)
Definition main_bank (cfg : Config) : Ctx → BankChargeRequest → Prog W charge_result :=
  if bool_decide (BankAPIURL cfg = "") then
    SimulatedBankClient_Charge (now env) (pick env) (mkSimulatedBankClient (150 * Millisecond) ∅ ∅)
  else
    HTTPBankClient_Charge (now env) new_request http_Do
      (NewHTTPBankClient (BankAPIURL cfg) (BankAPITimeout cfg)).

(* go: cmd/server/main.go 105-122 *)
Definition main_service (cfg : Config) : PaymentService R :=
  NewPaymentService (mkPaymentService true true (main_bank cfg) None
    (mkRetryConfig (BankMaxRetries cfg) (BankRetryBase cfg) (BankRetryMax cfg) (BankRetryJitter cfg) None)
    (BankAPITimeout cfg) (MaxTransactionCents cfg)).

(* go: cmd/server/main.go 125-140 *)
Definition main_worker (cfg : Config) : OutboxWorker :=
  if KafkaEnabled cfg then
    NewOutboxWorker (mkOutboxWorkerConfig (KafkaBrokers cfg) (KafkaTopic cfg) Second 100 0)
  else NewOutboxWorker (mkOutboxWorkerConfig [] "" (2 * Second) 100 0).

(** Redis, the limiter, the handlers and the middleware. *)
(* go: cmd/server/main.go 146-164 *)
Definition main_server (cfg : Config) (tracing : bool) : ServerConfig :=
  mkServerConfig (negb (bool_decide (RedisAddr cfg = ""))) (RateLimitRPS cfg) (RateLimitBurst cfg) version
    tracing (TracingServiceName cfg).

(* go: cmd/server/main.go 44-49 *)
Definition main_tracing (cfg : Config) : TraceConfig :=
  mkTraceConfig (TracingEnabled cfg) (TracingServiceName cfg) (TracingOTLPEndpoint cfg) (TracingOTLPInsecure cfg).

(** The state in which the server begins to listen. *)
(* go: cmd/server/main.go 113 *)
Definition main_state (cfg : Config) (store : R) (redis : K) : Server R K :=
  mkServer (mkWorld 0 store (NewCircuitBreaker (BankCBThreshold cfg) (BankCBReset cfg)) [])
    (NewRateLimiter (RateLimitRPS cfg) (RateLimitBurst cfg)) redis [] new_registry [].

(* go: cmd/server/main.go 63 *)
Definition main_connect (cfg : Config) : result goerror DB :=
  Connect sql_Open PingContext started_at Background (DatabaseURL cfg)
    (DBMaxOpenConns cfg) (DBMaxIdleConns cfg) (DBConnMaxLife cfg).

(** ** The process *)

(* go: cmd/server/main.go 27-75 *)
Definition startup (fs : gmap string string) : Prog (MigState (D := R)) Startup :=
  match Load LookupEnv ParseFloat with
  | Err _ => ret (Exit 1)
  | Ok cfg =>
    match SetupTracing otlptracehttp_New provider_Shutdown Background (main_tracing cfg) otel_initial with
    | (Err _, _) => ret (Exit 1)
    | (Ok _tracingShutdown, otel) =>
      match main_connect cfg with
      | Err _ => ret (Exit 1)
      | Ok _db =>
        check! RunMigrations exec_sql info read_error fs or _err => ret (Exit 1);
        ret (Serving cfg (bool_decide (is_Some (ot_provider otel))))
      end
    end
  end.

(** The exit code of a failed start, or the run that answers [rs] until [stop]. *)
Definition payflow (fs : gmap string string) (db : MigDB (D := R)) (redis : K) (rs : list HTTPRequest)
    (stop : Stop) : Z + Run (Server R K) :=
  let (st, s) := startup fs (mkMigState 0 db) in
  match st with
  | Exit code => inl code
  | Serving cfg tracing =>
    let (answers, s') := serve_requests env (main_service cfg) (main_server cfg tracing) route not_found scrape
      extract route_pattern tostring tonumber rs (main_state cfg (mg_data (mg_db s)) redis) in
    let (exitCode, effects) := finish (sc_redis (main_server cfg tracing)) stop in
    inr (mkRun answers s' exitCode effects)
  end.

(** ** What holds of the process *)

(** The files that are due when the process starts. *)
Definition due (fs : gmap string string) (db : MigDB (D := R)) : list string :=
  pending (migration_files fs) (default [] (mg_table db)).

(** Tracing can be set up. *)
Definition traceable (cfg : Config) : Prop :=
  TracingEnabled cfg = false ∨ TrimSpace (TracingOTLPEndpoint cfg) = "" ∨
  ∃ e, otlptracehttp_New Background (exporter_options (main_tracing cfg)) = Ok e.

Lemma traceable_ok cfg : traceable cfg →
  ∃ stop otel, SetupTracing otlptracehttp_New provider_Shutdown Background (main_tracing cfg) otel_initial
    = (Ok stop, otel).
Proof.
  intros Ht. unfold SetupTracing. simpl. destruct (TracingEnabled cfg) eqn:En; [|by do 2 eexists]. simpl.
  case_bool_decide as Hep; [by do 2 eexists|]. destruct Ht as [?|[?|[e ->]]]; [congruence | done | by do 2 eexists].
Qed.

Lemma wp_startup fs s :
  wp (startup fs) (λ st s', match st with
    | Exit code => code = 1
    | Serving cfg tracing => Load LookupEnv ParseFloat = Ok cfg ∧ tracing = TracingEnabled cfg ∧
        apply_all exec_sql fs (due fs (mg_db s)) (mg_data (mg_db s)) = Some (mg_data (mg_db s'))
    end) s.
Proof.
  unfold startup. destruct (Load _ _) as [cfg|e]; [|by apply wp_ret].
  pose proof (wp_SetupTracing otlptracehttp_New provider_Shutdown Background (main_tracing cfg) otel_initial) as Ht.
  unfold wp at 1 in Ht. destruct (SetupTracing _ _ _ _ _) as [[stop|err] otel]; [|by apply wp_ret].
  destruct (main_connect cfg); [|by apply wp_ret].
  apply wp_bind. wp_use (wp_RunMigrations exec_sql info read_error fs s).
  intros [e|] s' [(k & (Hk & Ha & _) & Hall) _]; apply wp_ret; [done|]. split_and!; [done | |].
  - simpl in Ht. destruct (TracingEnabled cfg).
    + by destruct Ht as (p & -> & _).
    + by destruct Ht as [-> _].
  - rewrite <- Ha, take_ge by (rewrite Hall by done; done). done.
Qed.

Lemma startup_serves fs s cfg :
  Load LookupEnv ParseFloat = Ok cfg → traceable cfg → (∃ db, main_connect cfg = Ok db) →
  Migrations.quiet info read_error → is_Some (apply_all exec_sql fs (due fs (mg_db s)) (mg_data (mg_db s))) →
  wp (startup fs) (λ st _, ∃ tracing, st = Serving cfg tracing) s.
Proof.
  intros Hl (stop & otel & Ht)%traceable_ok [pool Hc] Hq Hd. unfold startup. rewrite Hl, Ht, Hc.
  apply wp_bind. wp_use (wp_RunMigrations exec_sql info read_error fs s).
  intros err s' [_ Hok]. rewrite (Hok Hq Hd). apply wp_ret. by eexists.
Qed.

Section laws.
Context `{!RepositoryLaws R, !DatabaseLaws R, !AuthLaws R}.

(** Both bank clients leave the store and the breaker alone. *)
Lemma main_service_ok cfg : service_ok (main_service cfg).
Proof.
  assert (∀ A (m : nat → A) (w : W), wp (let! n := fresh_step in ret (m n)) (λ _ w', PaymentSpecs.quiet w w') w) as Hstep.
  { intros A m w. apply wp_bind, wp_fresh. intros w' Hf Hr. apply wp_ret. by split. }
  assert (∀ w1 w2 w3 : W, PaymentSpecs.quiet w1 w2 → PaymentSpecs.quiet w2 w3 → PaymentSpecs.quiet w1 w3) as Htr.
  { intros w1 w2 w3 [F1 R1] [F2 R2]. split; [by etrans | congruence]. }
  split; [|done]. intros ctx req w. simpl. unfold main_bank. case_bool_decide.
  - unfold SimulatedBankClient_Charge. apply wp_bind. wp_use (Hstep Z (env_now env) w). intros t0 w1 H1.
    apply wp_bind. wp_use (Hstep Z (env_now env) w1). intros t w2 H2.
    apply wp_bind. wp_use (Hstep bool (env_pick env) w2). intros b w3 H3.
    assert (PaymentSpecs.quiet w w3) by (eapply Htr; [exact H1|]; eapply Htr; [exact H2 | exact H3]). repeat case_match; by apply wp_ret.
  - unfold HTTPBankClient_Charge. set (c := NewHTTPBankClient _ _). case_match; [by apply wp_ret|].
    apply wp_bind. unfold http_Do.
    wp_use (Hstep _ (λ n, exchange n ctx (ClientTimeout c) (BaseURL c +:+ "/charge") req) w). intros r w1 H1.
    destruct r as [resp|e]; [destruct (decoded resp); by apply wp_ret|].
    apply wp_bind. wp_use (Hstep Z (env_now env) w1). intros t w2 H2.
    assert (PaymentSpecs.quiet w w2) by (eapply Htr; [exact H1 | exact H2]). case_match; by apply wp_ret.
Qed.

(** A store as the server finds it. *)
Definition boot (store : R) : W := mkWorld 0 store (NewCircuitBreaker 0 0) [].

(** C30 The whole process is safe.  Take any environment, any directory of
    migrations and any database from which the due migrations make a well
    formed store, with ids the service will not draw again, and let anything
    fail: either the start-up fails and the process exits with code 1, or the
    configuration was read, the data are what the due migrations, all of them,
    made of the old data, and over any sequence of HTTP requests, served one
    after the other, every merchant keeps its balance minus the sum of its
    completed transactions, the store stays well formed and transactions
    follow the state machine, whichever bank client, limits and limiter the
    configuration selects; no span is recorded unless the
    configuration asks for tracing; after a signal the process exits with 0,
    having cancelled the worker before it drains the server and closed the
    database after, and with 1 when the server fails.  And when the
    configuration is readable, nothing fails and the scripts run, the process
    does serve and answers every request. *)
Theorem payflow_safe fs db redis rs stop :
  ids_unique env →
  (∀ d, apply_all exec_sql fs (due fs db) (mg_data db) = Some d → Inv (boot d) ∧ fresh_ids env (boot d)) →
  match payflow fs db redis rs stop with
  | inl code => code = 1
  | inr run => ∃ cfg d, Load LookupEnv ParseFloat = Ok cfg ∧
      apply_all exec_sql fs (due fs db) (mg_data db) = Some d ∧
      (let L := ledger (boot d) in let L' := ledger (sv_world (run_state run)) in
       ledger_ok L' ∧ advances L L' ∧ ∀ mid, surplus L' mid = surplus L mid) ∧
      (TracingEnabled cfg = false → sv_spans (run_state run) = []) ∧
      match stop with
      | SignalReceived => run_exit run = 0 ∧
          [WorkerCancel; ServerShutdown (30 * Second); DBClose] `sublist_of` run_effects run
      | ServerFailed _ => run_exit run = 1
      end
  end ∧
  (∀ cfg, Load LookupEnv ParseFloat = Ok cfg → traceable cfg → (∃ db, main_connect cfg = Ok db) →
     Migrations.quiet info read_error → is_Some (apply_all exec_sql fs (due fs db) (mg_data db)) →
     ∃ run, payflow fs db redis rs stop = inr run ∧ length (run_answers run) = length rs).
Proof.
  intros Hu Hgood. unfold payflow. pose proof (wp_startup fs (mkMigState 0 db)) as Hst.
  pose proof (startup_serves fs (mkMigState 0 db)) as Hlive.
  unfold wp in Hst, Hlive. destruct (startup fs (mkMigState 0 db)) as [st s]. simpl in Hlive, Hst.
  split.
  - destruct st as [code|cfg tracing]; [done|]. destruct Hst as (Hl & -> & Hd).
    destruct (Hgood _ Hd) as [[Hg Hok] Hfr]. set (s0 := main_state cfg (mg_data (mg_db s)) redis).
    set (sc := main_server cfg (TracingEnabled cfg)).
    pose proof (wp_serve_all env (main_service cfg) sc route not_found scrape extract route_pattern tostring tonumber
      rs s0 (main_service_ok cfg) Hu (conj Hg Hok) Hfr) as Hrun.
    pose proof (serve_untraced env (main_service cfg) sc route not_found scrape extract route_pattern tostring tonumber
      rs s0) as Hsp.
    unfold wp in Hrun. destruct (serve_requests _ _ _ _ _ _ _ _ _ _ rs s0) as [xs s'].
    destruct Hrun as ([[_ Hok'] _] & Hmon & Hadv & _). destruct (finish _ stop) as [code fx] eqn:Ef.
    exists cfg, (mg_data (mg_db s)).
    split_and!; [done.. | exact (Hmon eq_refl) | by intros Ht; apply Hsp |].
    destruct stop; injection Ef as <- <-; [|done]. split; [done|]. exact (finish_order (sc_redis sc)).
  - intros cfg Hl Ht Hc Hq Hd. destruct (Hlive cfg Hl Ht Hc Hq Hd) as [tracing ->].
    destruct (serve_requests _ _ _ _ _ _ _ _ _ _ rs _) as [xs s'] eqn:Es.
    destruct (finish _ stop) as [code fx]. eexists. split; [done|].
    apply (serve_length _ _ _ _ _ _ _ _ _ _ rs _ xs s' Es).
Qed.
End laws.
End main.

(** ** A process *)

#[local] Existing Instance sorted_range.
#[local] Instance plain_events_main : EventRepository PgStore := pg_event_repo None.
#[local] Existing Instance json0.

(** A script that seeds the merchant, and an empty database. *)
Definition seed (script : string) (d : PgStore) : PgStore * error :=
  if bool_decide (script = "seed") then (store_of maple, None) else (d, Some (Opaque "syntax error")).

Definition empty_db : MigDB (D := PgStore) := mkMigDB (mkPgStore ∅ ∅ [] [] 1 1) None.
Definition seed_dir : gmap string string := {[ "0005_seed_merchants.sql" := "seed" ]}.

Definition environment0 (key : string) : option string :=
  if bool_decide (key = "MAX_TRANSACTION_AMOUNT_CENTS") then Some "500000" else None.

(** An exporter that can be created. *)
Definition exporter0 (ctx : Ctx) (options : list ExporterOption) : result goerror string := Ok "otlp".

Definition payflow0 : Z + Run (Server PgStore KeySpace) :=
  payflow environment0 (λ _, None) exporter0 (λ _ _, None) (λ _, None) (λ _ _, None) 0 seed (λ _, mkCallInfo 0 None NoFault)
    (λ _, None) env0 (λ _, None) (λ _ _ _ _ _, Err (Opaque "no route")) route0 [CallWriteHeader 404] (λ _, [])
    extract0 pattern0 (λ x, pretty x) ParseInt seed_dir empty_db ∅ http0 SignalReceived.

Lemma seed_applied :
  apply_all seed seed_dir (due seed_dir empty_db) (mg_data empty_db) = Some (store_of maple).
Proof. vm_compute. reflexivity. Qed.

Lemma payflow_safe_witness : ∃ run,
  payflow0 = inr run ∧ length (run_answers run) = 8%nat ∧ ledger_ok (ledger (sv_world (run_state run))) ∧
  (∀ mid, surplus (ledger (sv_world (run_state run))) mid = surplus (ledger world0) mid) ∧ run_exit run = 0.
Proof.
  destruct (payflow_safe environment0 (λ _, None) exporter0 (λ _ _, None) (λ _, None) (λ _ _, None) 0 seed
    (λ _, mkCallInfo 0 None NoFault) (λ _, None) env0 (λ _, None) (λ _ _ _ _ _, Err (Opaque "no route")) route0
    [CallWriteHeader 404] (λ _, []) extract0 pattern0 (λ x, pretty x) ParseInt seed_dir empty_db (∅ : KeySpace) http0
    SignalReceived) as [Hsafe Hlive].
  - apply ids_unique0.
  - intros d Hd. rewrite seed_applied in Hd. injection Hd as <-. split; [exact Inv0 | exact fresh_ids0].
  - assert (∃ cfg, Load environment0 (λ _, None) = Ok cfg) as [cfg Hcfg] by (eexists; reflexivity).
    assert (is_Some (apply_all seed seed_dir (due seed_dir empty_db) (mg_data empty_db))) as Hd
      by (rewrite seed_applied; exists (store_of maple); reflexivity).
    assert (traceable exporter0 cfg) as Ht by (right; right; exists "otlp"; reflexivity).
    pose proof (Hlive cfg Hcfg Ht (ex_intro _ _ eq_refl) (λ n, conj (conj eq_refl eq_refl) eq_refl) Hd) as Hrun.
    clear Hlive Hd. fold payflow0 in Hsafe, Hrun. destruct Hrun as (run & E & Hlen).
    exists run. rewrite E in Hsafe |- *.
    destruct Hsafe as (cfg' & d & _ & Hd & (Hok & _ & Hsur) & _ & Hexit & _).
    rewrite seed_applied in Hd. injection Hd as <-.
    exact (conj eq_refl (conj Hlen (conj Hok (conj Hsur Hexit)))).
Defined.
